(* ===== verification/_CoqProject ===== *)
-Q . S2P
Prelude.v
Types.v
Heap.v
Chain.v
Runtime.v
Crypto.v
Text.v
Rlp.v
Slice.v
Instances.v
Bitmap.v
EvmState.v
OpCodes.v
Instructions.v
Calls.v
Evm.v
EvmFacts.v
CallFacts.v
Progress.v
Locality.v
Arith.v
Memory.v
EvmCorrect.v
TxTypes.v
BlockTypes.v
BlockCorrect.v
PriorityQueue.v
Genesis.v
Signer.v
StateTxn.v
TxnFacts.v
TxnCorrect.v
Bridge.v
Upgrader.v
Executor.v
ExecFacts.v
ApplyFacts.v
ExecCorrect.v
ApplyCorrect.v
Trie.v
TrieFacts.v
TrieHash.v
RawDB.v
TrieSpec.v
TrieCorrect.v
TrieStore.v
Buildroot.v
TrieState.v
StateCorrect.v
Blockchain.v
Syncer.v
BlockchainCorrect.v
SyncerCorrect.v
SyncerSafety.v
BlockchainWitness.v
SyncerWitness.v
