(* ===== verification/Prelude.v ===== *)
(** * dogesyncer: a verification development

    dogesyncer is a full node of the Dogechain network. Blocks come from peers
    ([protocol/]), are executed ([state/executor.go], [state/runtime/evm/]) on a state kept
    in Merkle tries ([state/immutable-trie/]), are checked against their headers and
    appended ([blockchain/]), and are stored in tables of a key-value database ([rawdb/]).
    This library models these parts as executable functions, one per function or method of
    the source and under its name where possible, and proves what makes them correct.

    ** Conventions

    - Machine integers are [Z] with the wrap-around written out ([u64], [i64]); [big.Int]
      is [Z], a nil pointer [None]; bytes are [list Z]; a hash is 32 of them, an address 20.
    - A call that may panic has type [result]; code that changes state has type [GoM S A],
      state passing with panics that keep the changes made before them. Errors are values:
      [option] or a sum.
    - Libraries are type classes with the laws the code relies on: [Keccak], [FastRlp] and
      [RlpFormat] (RLP), [Btcec] (secp256k1), [Iradix] (the immutable radix tree), [Lru],
      [GoAlloc] (slice growth), [BridgeABI], [ValidatorSetABI], [Unicode]. The files
      [Instances], [Rlp], [TxnCorrect], [StateCorrect], [Signer] and [BlockchainWitness] have
      instances, on which the properties are evaluated ([_witness] lemmas).
    - Interfaces of the program are type classes as well: [Host] (what the interpreter asks
      of the executor), [State] (what the executor asks of the state), [blockchainShim] (what
      the syncer asks of the chain). Clients are verified for every instance, and the
      modelled components are instances.

    ** Files

    - Prelude: machine integers, [GoM] and its program logic, lists. Types: hashes and
      addresses ([types/hash.go], [types/address.go]). Text: hexadecimal and decimal text,
      checksummed addresses ([helper/hex], [types/encoding.go]). Heap: binary heaps in arrays.
      Rlp: the RLP format and a codec. Slice: byte slices with capacity.
    - Chain: the fork schedule ([chain/params.go]). Genesis: the genesis block and its JSON
      form ([chain/chain.go]). Crypto: address derivation and signature ranges
      ([crypto/crypto.go]). Signer: signatures, the two transaction signers and the seal of
      a header ([crypto/txsigner.go], [blockchain/helper.go]).
    - Runtime: frames, results and the host interface ([state/runtime/runtime.go]). Bitmap,
      EvmState, OpCodes, Instructions, Calls, Evm: the interpreter ([state/runtime/evm/]),
      with its pooled memory, jump bitmap, dispatch table and every instruction. EvmFacts,
      CallFacts, Progress, Locality: lemmas on single instructions. Arith, Memory,
      EvmCorrect: the properties of the interpreter.
    - TxTypes: transactions, receipts, bloom filters; BlockTypes: headers, blocks, validator
      sets and their encodings ([types/]); BlockCorrect: round trips.
    - StateTxn: the transient state of a block ([state/txn.go], [state/state.go]); TxnFacts,
      TxnCorrect. Bridge, Upgrader: bridge events and upgrades of system contracts
      ([contracts/]). Executor: frames, transactions, blocks, receipts and the genesis state
      ([state/executor.go]); ExecFacts, ApplyFacts, ExecCorrect, ApplyCorrect.
    - Trie, TrieHash: the Merkle Patricia trie in memory and in storage, hashing and
      encoding of nodes ([state/immutable-trie/]); TrieFacts, TrieSpec (the trie of the Yellow
      Paper), TrieCorrect, TrieStore. TrieState: snapshots and the commit of a block;
      StateCorrect. Buildroot: roots of lists ([types/buildroot/]).
    - RawDB: the tables ([rawdb/], [helper/varint.go]). Blockchain: writing, executing,
      reading and verifying blocks, restarts, the gas limit, events ([blockchain/]);
      BlockchainCorrect, BlockchainWitness.
    - PriorityQueue: the queue of announced blocks ([protocol/pq.go]). Syncer: status,
      service, client, the search for the common ancestor, the two loops that write blocks
      ([protocol/]); SyncerCorrect, SyncerSafety, SyncerWitness.

    ** Theorems

    - From EIP-150 on the interpreter ends within a number of rounds bounded by the gas and
      returns between 0 and the gas given; at all times it validates jumps exactly, computes
      the reference arithmetic, and charges memory exactly.
    - From EIP-150 on (before it the cost of a call can wrap around, and gas be created) the
      recursion between interpreter and executor is the unbounded one of the source, a
      failed call leaves no trace, a static call none at all, a creation stores its code or
      leaves only the nonce; no frame creates gas. The accounts of a transaction and of a
      block add up; a rejected transaction changes nothing.
    - A trie partly in storage refines a finite map; its root is that of the Yellow Paper,
      and what is written opens it again. Committing a block returns the root of the new
      world. The optimised roots of lists are the roots of their tries.
    - Blocks, headers, transactions and genesis files survive their encodings; whatever
      decodes has fields of the right widths; a recovered sender is the signer.
    - With one call after the other, the tables of the chain agree along every run from an
      empty database; only a checked block becomes the head; what is written is read back; a restart keeps the head.
    - The queue hands out blocks once and in order. The search for the common ancestor with
      an honest peer finds the highest common block. Under every interleaving of messages
      and loops, and of the parts of the calls that overlap, no queued block of the syncer is
      left without a signal, and a broadcast block reaches the queue of the receiver. Two
      writes of blocks that overlap can move the head back ([WriteBlock_race]).
    - Flaws are stated as theorems too: a node that panics on a request, a status no peer
      can decode, a loop that one bad block stops, a stale body, a refund counter that
      wraps, a signature that makes recovery panic.

    ** Bounds and fuel

    - The interpreter loop [run_loop] has as many rounds as the theorem [Run_terminates]
      shows to be enough: every instruction but a bounded number of free ones in a row costs
      gas. [Callx] has one level of recursion per possible depth of calls, 1025, the depth
      at which the source returns an error, and two more.
    - [hashWalk] and [headersLoop] have a round per block walked or asked for; [ancestorLoop]
      a round per number of the interval and two more, while it halves it; [up] and [down]
      a round per element of the heap. None of them runs out, which the theorems that say
      what they return include.
    - Block numbers are below 2^56 where they are keys of the database, and below 2^52 in
      the search for the common ancestor, whose middle goes through [float64].

    ** Not modelled

    - The chain under overlapping calls: its properties are of calls one after the other.
      [SyncerSafety] lets every change of the chain happen while a block is written and
      splits the calls on the queue into their parts; what a mutex protects is one step. Data
      races on single fields, which Go leaves undefined, are not represented.
    - Failures of the database, logging, metrics, tracing, timeouts.
    - JSON-RPC, GraphQL, the libp2p network, the storage engines, secrets, the command line
      and generated code: I/O and bindings of libraries. The precompiled contracts are
      hashes and curve operations of libraries behind the runtime interface; the executor is
      verified for any list of runtimes. *)

From stdpp Require Export base tactics list gmap numbers.
From Stdlib Require Export ZArith Lia Zdiv Znumtheory.

#[global] Open Scope Z_scope.

(** * Machine integers *)

Declare Scope go_scope.
Delimit Scope go_scope with go.

(** [uint64] arithmetic wraps modulo 2^64; [int64] (and [int], which is 64 bits
    wide on every supported platform) wraps to the signed range. *)
Definition two64 : Z := 2 ^ 64.
Definition two256 : Z := 2 ^ 256.
Definition u64 (x : Z) : Z := x mod two64.
Definition i64 (x : Z) : Z :=
  let y := x mod two64 in if y <? 2 ^ 63 then y else y - two64.

Definition is_u64 (x : Z) : Prop := 0 <= x < two64.
Definition is_u256 (x : Z) : Prop := 0 <= x < two256.
Definition is_byte (x : Z) : Prop := 0 <= x < 256.

Notation "x +u y" := (u64 (x + y)) (at level 50, left associativity) : go_scope.
Notation "x -u y" := (u64 (x - y)) (at level 50, left associativity) : go_scope.
Notation "x *u y" := (u64 (x * y)) (at level 40, left associativity) : go_scope.

(** * [math/big.Int] *)

Definition bit_len (x : Z) : Z := if x =? 0 then 0 else Z.log2 (Z.abs x) + 1.
Definition big_is_uint64 (x : Z) : bool := (0 <=? x) && (x <? two64).
Definition big_uint64 (x : Z) : Z := u64 (Z.abs x).
(** [Int.Int64]: the low 64 bits of the magnitude as a signed integer, negated
    for a negative [x]. *)
Definition big_int64 (x : Z) : Z :=
  if x <? 0 then i64 (- i64 (Z.abs x)) else i64 x.
Definition big_is_int64 (x : Z) : bool := (- 2 ^ 63 <=? x) && (x <? 2 ^ 63).
(** [Int.Div] and [Int.Mod] are Euclidean. *)
Definition big_div (x y : Z) : Z := Z.sgn y * (x / Z.abs y).
Definition big_mod (x y : Z) : Z := x mod Z.abs y.

(** Little- and big-endian byte strings. *)
Fixpoint le_bytes (n : nat) (x : Z) : list Z :=
  match n with
  | O => []
  | S n => x mod 256 :: le_bytes n (x / 256)
  end.
Definition be_bytes (n : nat) (x : Z) : list Z := rev (le_bytes n x).
Fixpoint le_to_Z (l : list Z) : Z :=
  match l with
  | [] => 0
  | b :: l => b + 256 * le_to_Z l
  end.
(** [Int.SetBytes] *)
Definition set_bytes (l : list Z) : Z := le_to_Z (rev l).
(** [Int.Bytes]: the big-endian magnitude without leading zeros. *)
Definition big_bytes (x : Z) : list Z :=
  be_bytes (Z.to_nat ((bit_len x + 7) / 8)) (Z.abs x).
(** [Int.Bits]: the magnitude as little-endian 64-bit words, without leading
    zero words. *)
Fixpoint le_words (n : nat) (x : Z) : list Z :=
  match n with
  | O => []
  | S n => x mod two64 :: le_words n (x / two64)
  end.
Definition big_bits (x : Z) : list Z :=
  le_words (Z.to_nat ((bit_len x + 63) / 64)) (Z.abs x).

Definition zlen {A} (l : list A) : Z := Z.of_nat (length l).

(** Go's slice expression [b[lo:hi]] on a value whose bounds are known good. *)
Definition sub_list {A} (lo n : Z) (l : list A) : list A :=
  take (Z.to_nat n) (drop (Z.to_nat lo) l).

(** Overwrite [l] from offset [o] with [d]; what would run past the end of [l]
    is dropped, as [copy] does. *)
Definition copy_at {A} (o : nat) (d l : list A) : list A :=
  take o l ++ take (length l - o) d ++ drop (o + length d) l.

(** * Panics and state *)

(** Go code that may panic and mutates a state of type [S]. A panic keeps the
    mutations made before it. *)
Inductive result (A : Type) : Type :=
| Ok (a : A)
| Panic.
Arguments Ok {A} a.
Arguments Panic {A}.

#[global] Instance result_ret : MRet result := fun A a => Ok a.
#[global] Instance result_bind : MBind result := fun A B f m =>
  match m with Ok a => f a | Panic => Panic end.

Definition GoM (S A : Type) : Type := S -> result A * S.

#[global] Instance GoM_ret S : MRet (GoM S) := fun A a s => (Ok a, s).
#[global] Instance GoM_bind S : MBind (GoM S) := fun A B f m s =>
  match m s with
  | (Ok a, s') => f a s'
  | (Panic, s') => (Panic, s')
  end.

Definition get {S} : GoM S S := fun s => (Ok s, s).
Definition gets {S A} (f : S -> A) : GoM S A := fun s => (Ok (f s), s).
Definition modify {S} (f : S -> S) : GoM S unit := fun s => (Ok tt, f s).
Definition put {S} (s : S) : GoM S unit := fun _ => (Ok tt, s).
Definition panic {S A} : GoM S A := fun s => (Panic, s).
(** A computation that does not touch the state. *)
Definition lift {S A} (r : result A) : GoM S A := fun s => (r, s).
(** Dereference of a possibly nil pointer. *)
Definition deref {S A} (o : option A) : GoM S A :=
  match o with Some a => mret a | None => panic end.

(** * A small program logic for [GoM] *)

(** [wp m s Q]: running [m] from [s] ends in an outcome and a state related by
    [Q]. *)
Definition wp {S A} (m : GoM S A) (s : S) (Q : result A -> S -> Prop) : Prop :=
  Q (fst (m s)) (snd (m s)).

(** [keeps R m]: whatever [m] does (panic included), the state it leaves is
    related by [R] to the state it started from. *)
Definition keeps {S A} (R : relation S) (m : GoM S A) : Prop :=
  forall s, R s (snd (m s)).

(** [runs P m Q]: from a state in [P], [m] does not panic and establishes [Q]. *)
Definition runs {S A} (P : S -> Prop) (m : GoM S A) (Q : A -> S -> Prop) : Prop :=
  forall s, P s -> exists a, fst (m s) = Ok a /\ Q a (snd (m s)).

Section logic.
Context {S : Type}.

Lemma bind_ok {A B} (m : GoM S A) (f : A -> GoM S B) s a s' :
  m s = (Ok a, s') -> (m ≫= f) s = f a s'.
Proof. intros H. unfold mbind, GoM_bind. by rewrite H. Qed.

Lemma lift_ok {A B} (a : A) (f : A -> GoM S B) s : (lift (Ok a) ≫= f) s = f a s.
Proof. done. Qed.

Lemma bind_panic {A B} (m : GoM S A) (f : A -> GoM S B) s s' :
  m s = (Panic, s') -> (m ≫= f) s = (Panic, s').
Proof. intros H. unfold mbind, GoM_bind. by rewrite H. Qed.

Lemma bind_assoc {A B C} (m : GoM S A) (f : A -> GoM S B) (g : B -> GoM S C) s :
  ((m ≫= f) ≫= g) s = (m ≫= (fun a => f a ≫= g)) s.
Proof. unfold mbind, GoM_bind. by destruct (m s) as [[a|] s']. Qed.

Lemma keeps_bind {A B} (R : relation S) `{!Transitive R} (m : GoM S A)
    (f : A -> GoM S B) :
  keeps R m -> (forall a, keeps R (f a)) -> keeps R (m ≫= f).
Proof.
  intros Hm Hf s. specialize (Hm s). unfold mbind, GoM_bind.
  destruct (m s) as [[a|] s']; simpl in *; [|done].
  etrans; [exact Hm | apply Hf].
Qed.

Lemma keeps_ret {A} (R : relation S) `{!Reflexive R} (a : A) : keeps R (mret a).
Proof. intros s. by simpl. Qed.

Lemma keeps_gets {A} (R : relation S) `{!Reflexive R} (f : S -> A) :
  keeps R (gets f).
Proof. intros s. by simpl. Qed.

Lemma keeps_get (R : relation S) `{!Reflexive R} : keeps R get.
Proof. intros s. by simpl. Qed.

Lemma keeps_panic {A} (R : relation S) `{!Reflexive R} :
  keeps R (panic : GoM S A).
Proof. intros s. by simpl. Qed.

Lemma keeps_lift {A} (R : relation S) `{!Reflexive R} (r : result A) : keeps R (lift r).
Proof. intros s. by simpl. Qed.

Lemma keeps_deref {A} (R : relation S) `{!Reflexive R} (o : option A) :
  keeps R (deref o).
Proof. destruct o; intros s; by simpl. Qed.

Lemma keeps_modify (R : relation S) f :
  (forall s, R s (f s)) -> keeps R (modify f).
Proof. intros H s. apply H. Qed.

Lemma runs_bind {A B} P (m : GoM S A) (f : A -> GoM S B) Q Q' :
  runs P m Q' -> (forall a, runs (Q' a) (f a) Q) -> runs P (m ≫= f) Q.
Proof.
  intros Hm Hf s HP. destruct (Hm s HP) as (a & Ha & HQ').
  unfold mbind, GoM_bind. destruct (m s) as [r s']; simpl in *; subst r.
  by apply Hf.
Qed.

Lemma runs_ret {A} (a : A) (Q : A -> S -> Prop) : runs (Q a) (mret a) Q.
Proof. intros s HQ. by exists a. Qed.

Lemma runs_gets {A} (f : S -> A) P :
  runs P (gets f) (fun a s => P s /\ a = f s).
Proof. intros s HP. by exists (f s). Qed.

Lemma runs_modify (f : S -> S) (Q : unit -> S -> Prop) :
  runs (fun s => Q tt (f s)) (modify f) Q.
Proof. intros s HP. by exists tt. Qed.

Lemma runs_weaken {A} (P P' : S -> Prop) (m : GoM S A) (Q Q' : A -> S -> Prop) :
  runs P m Q -> (forall s, P' s -> P s) -> (forall a s, Q a s -> Q' a s) ->
  runs P' m Q'.
Proof. intros H HP HQ s Hs. destruct (H s (HP s Hs)) as (a & ? & ?). eauto. Qed.
End logic.

Create HintDb go discriminated.
#[export] Hint Resolve keeps_ret keeps_gets keeps_get keeps_panic keeps_lift keeps_deref : go.

(** Walk through a monadic body establishing [keeps R], leaving the primitive
    operations to the [go] hints. *)
Ltac keeps_step :=
  match goal with
  | |- keeps _ (mbind _ _) => apply keeps_bind; [try typeclasses eauto | | intros ?]
  | |- keeps _ (if ?b then _ else _) => destruct b eqn:?
  | |- keeps _ (match ?o with Some _ => _ | None => _ end) => destruct o eqn:?
  | |- keeps _ (match ?p with (_, _) => _ end) => destruct p eqn:?
  | |- keeps _ (let _ := _ in _) => cbv zeta
  end.
Ltac keeps_auto := repeat keeps_step; eauto with go typeclass_instances.

(** * Arithmetic lemmas *)

Lemma two64_pos : 0 < two64. Proof. reflexivity. Qed.
Lemma two256_pos : 0 < two256. Proof. reflexivity. Qed.

Lemma u64_small x : is_u64 x -> u64 x = x.
Proof. apply Z.mod_small. Qed.

Lemma u64_range x : is_u64 (u64 x).
Proof. apply Z.mod_pos_bound, two64_pos. Qed.

Lemma i64_range x : - 2 ^ 63 <= i64 x < 2 ^ 63.
Proof.
  unfold i64, two64. pose proof (Z.mod_pos_bound x (2 ^ 64) ltac:(lia)).
  destruct (Z.ltb_spec (x mod 2 ^ 64) (2 ^ 63)); lia.
Qed.

Lemma i64_small x : - 2 ^ 63 <= x < 2 ^ 63 -> i64 x = x.
Proof.
  intros H. unfold i64, two64. destruct (Z.leb_spec 0 x).
  - rewrite Z.mod_small by lia. destruct (Z.ltb_spec x (2 ^ 63)); lia.
  - replace (x mod 2 ^ 64) with (x + 2 ^ 64).
    + destruct (Z.ltb_spec (x + 2 ^ 64) (2 ^ 63)); lia.
    + apply (Z.mod_unique_pos x (2 ^ 64) (-1)); lia.
Qed.

Lemma big_is_uint64_spec x : big_is_uint64 x = true <-> is_u64 x.
Proof. unfold big_is_uint64, is_u64. lia. Qed.

Lemma big_uint64_small x : is_u64 x -> big_uint64 x = x.
Proof. unfold big_uint64, is_u64. intros H. rewrite Z.abs_eq by lia. by apply u64_small. Qed.

Lemma bit_len_nonneg x : 0 <= bit_len x.
Proof. unfold bit_len. pose proof (Z.log2_nonneg (Z.abs x)). destruct (x =? 0); lia. Qed.

(** [x.BitLen() <= n] bounds the magnitude by [2^n]. *)
Lemma bit_len_le x n : 0 <= n -> bit_len x <= n <-> Z.abs x < 2 ^ n.
Proof.
  intros Hn. unfold bit_len. destruct (Z.eqb_spec x 0) as [->|Hx].
  - pose proof (Z.pow_pos_nonneg 2 n). simpl. lia.
  - rewrite Z.log2_lt_pow2 by lia. lia.
Qed.

Lemma two64_256 : two64 = 256 ^ 8. Proof. reflexivity. Qed.
Lemma two256_256 : two256 = 256 ^ 32. Proof. reflexivity. Qed.

(** * Byte strings *)

Lemma length_le_bytes n x : length (le_bytes n x) = n.
Proof. revert x; induction n; intros; simpl; auto. Qed.
Lemma length_be_bytes n x : length (be_bytes n x) = n.
Proof. unfold be_bytes. by rewrite length_rev, length_le_bytes. Qed.
Lemma le_bytes_is_byte n x : Forall is_byte (le_bytes n x).
Proof.
  revert x; induction n; intros; simpl; constructor; auto.
  apply Z.mod_pos_bound; lia.
Qed.
Lemma be_bytes_is_byte n x : Forall is_byte (be_bytes n x).
Proof. unfold be_bytes. apply Forall_rev, le_bytes_is_byte. Qed.

Lemma le_to_Z_bytes n x : le_to_Z (le_bytes n x) = x mod 256 ^ Z.of_nat n.
Proof.
  revert x; induction n as [|n IH]; intros; cbn [le_bytes le_to_Z].
  - by rewrite Z.mod_1_r.
  - rewrite IH, Nat2Z.inj_succ, Z.pow_succ_r by lia.
    rewrite Z.rem_mul_r by lia. lia.
Qed.

Lemma le_to_Z_bound l : Forall is_byte l -> 0 <= le_to_Z l < 256 ^ zlen l.
Proof.
  unfold zlen. induction 1 as [|b l Hb _ IH]; [simpl; lia|].
  cbn [le_to_Z length]. rewrite Nat2Z.inj_succ, Z.pow_succ_r by lia.
  unfold is_byte in Hb. lia.
Qed.

Lemma le_bytes_to_Z l : Forall is_byte l -> le_bytes (length l) (le_to_Z l) = l.
Proof.
  induction 1 as [|b l Hb _ IH]; [done|]. cbn [length le_bytes le_to_Z].
  unfold is_byte in Hb.
  rewrite (Z.mul_comm 256), Z.mod_add, Z.div_add, Z.mod_small, Z.div_small by lia.
  by rewrite Z.add_0_l, IH.
Qed.

Lemma set_bytes_be n x : set_bytes (be_bytes n x) = x mod 256 ^ Z.of_nat n.
Proof. unfold set_bytes, be_bytes. by rewrite rev_involutive, le_to_Z_bytes. Qed.

Lemma set_bytes_bound l : Forall is_byte l -> 0 <= set_bytes l < 256 ^ zlen l.
Proof.
  intros H. unfold set_bytes, zlen. rewrite <- (length_rev l).
  apply le_to_Z_bound. by apply Forall_rev.
Qed.

Lemma be_set_bytes l : Forall is_byte l -> be_bytes (length l) (set_bytes l) = l.
Proof.
  intros H. unfold be_bytes, set_bytes.
  rewrite <- (length_rev l), le_bytes_to_Z by by apply Forall_rev.
  apply rev_involutive.
Qed.

(** * Stepping through a bind with what is known of its first part *)

Lemma bind_inv {S A B} (m : GoM S A) (k : A -> GoM S B) s v s' :
  (m ≫= k) s = (Ok v, s') -> exists a s1, m s = (Ok a, s1) /\ k a s1 = (Ok v, s').
Proof.
  unfold mbind, GoM_bind. destruct (m s) as [[a|] s1]; [eauto|done].
Qed.

Lemma wp_bind_keeps {S A B} (R : relation S) (m : GoM S A) (f : A -> GoM S B) s
    (Q : result B -> S -> Prop) :
  keeps R m ->
  (forall a s', R s s' -> m s = (Ok a, s') -> wp (f a) s' Q) ->
  (forall s', R s s' -> Q Panic s') ->
  wp (m ≫= f) s Q.
Proof.
  intros Hm Hf HP. specialize (Hm s). unfold wp, mbind, GoM_bind.
  destruct (m s) as [[a|] s'] eqn:E; simpl in *; [|by apply HP].
  by apply (Hf a s').
Qed.

Lemma wp_keeps {S A} (R : relation S) (m : GoM S A) s (Q : result A -> S -> Prop) :
  keeps R m -> (forall r s', R s s' -> m s = (r, s') -> Q r s') -> wp m s Q.
Proof.
  intros Hm H. unfold wp. apply H; [apply Hm | by destruct (m s)].
Qed.

Section wp_steps.
Context {S : Type}.
Implicit Types s : S.

Lemma wp_ret {A} (a : A) s (Q : result A -> S -> Prop) : Q (Ok a) s -> wp (mret a) s Q.
Proof. done. Qed.
Lemma wp_panic {A} s (Q : result A -> S -> Prop) : Q Panic s -> wp panic s Q.
Proof. done. Qed.
Lemma wp_get_bind {B} (f : S -> GoM S B) s Q : wp (f s) s Q -> wp (get ≫= f) s Q.
Proof. done. Qed.
Lemma wp_gets_bind {A B} (g : S -> A) (f : A -> GoM S B) s Q :
  wp (f (g s)) s Q -> wp (gets g ≫= f) s Q.
Proof. done. Qed.
Lemma wp_modify_bind {B} (g : S -> S) (f : unit -> GoM S B) s Q :
  wp (f tt) (g s) Q -> wp (modify g ≫= f) s Q.
Proof. done. Qed.
Lemma wp_modify (g : S -> S) s (Q : result unit -> S -> Prop) :
  Q (Ok tt) (g s) -> wp (modify g) s Q.
Proof. done. Qed.
Lemma wp_ret_bind {A B} (a : A) (f : A -> GoM S B) s Q :
  wp (f a) s Q -> wp (mret a ≫= f) s Q.
Proof. done. Qed.
Lemma wp_bind_ok {A B} (m : GoM S A) (f : A -> GoM S B) s a s' Q :
  m s = (Ok a, s') -> wp (f a) s' Q -> wp (m ≫= f) s Q.
Proof. intros H. unfold wp. by rewrite (bind_ok _ _ _ _ _ H). Qed.
Lemma wp_bind {A B} (m : GoM S A) (f : A -> GoM S B) s Q :
  wp m s (fun r s' => match r with Ok a => wp (f a) s' Q | Panic => Q Panic s' end) ->
  wp (m ≫= f) s Q.
Proof. unfold wp, mbind, GoM_bind. by destruct (m s) as [[a|] s']. Qed.
Lemma wp_mono {A} (m : GoM S A) s (Q Q' : result A -> S -> Prop) :
  wp m s Q -> (forall r s', Q r s' -> Q' r s') -> wp m s Q'.
Proof. unfold wp. auto. Qed.
End wp_steps.

(** Apply the step lemma for the operation at the head of the program. *)
Ltac wp_step :=
  match goal with
  | |- wp (mbind _ get) _ _ => apply wp_get_bind
  | |- wp (mbind _ (gets _)) _ _ => apply wp_gets_bind
  | |- wp (mbind _ (modify _)) _ _ => apply wp_modify_bind
  | |- wp (mbind _ (mret _)) _ _ => apply wp_ret_bind
  | |- wp (mret _) _ _ => apply wp_ret
  | |- wp panic _ _ => apply wp_panic
  | |- wp (modify _) _ _ => apply wp_modify
  end; cbv beta zeta.
