(* ===== verification/Types.v ===== *)
(** Fixed-width identifiers of package types: [Hash] ([32]byte) and [Address]
    ([20]byte), and their conversions from byte strings. *)

From S2P Require Import Prelude.

(** A [Hash] or an [Address] is a byte string of the type's length. *)
Abbreviation Hash := (list Z).
Abbreviation Address := (list Z).
Abbreviation bytes := (list Z).

Definition HashLength : nat := 32.
Definition AddressLength : nat := 20.

(** The zero value of the fixed-size array. *)
Definition ZeroHash : Hash := replicate HashLength 0.
Definition EmptyRootHash : Hash :=
  be_bytes 32 0x56e81f171bcc55a6ff8345e692c0f86e5b48e01b996cadc001622fb5e363b421.
Definition EmptyUncleHash : Hash :=
  be_bytes 32 0x1dcc4de8dec75d7aab85b567b6ccd41ad312451b948a7413f0a142fd40d49347.
Definition ZeroAddress : Address := replicate AddressLength 0.

(** [copy(h[N-min:], b[len(b)-min:])] into a zeroed array. *)
Definition fixed_of_bytes (n : nat) (b : bytes) : bytes :=
  let m := Nat.min (length b) n in
  copy_at (n - m) (drop (length b - m) b) (replicate n 0).

Definition BytesToHash (b : bytes) : Hash := fixed_of_bytes HashLength b.
Definition BytesToAddress (b : bytes) : Address := fixed_of_bytes AddressLength b.

Definition is_hash (h : Hash) : Prop := length h = HashLength /\ Forall is_byte h.
Definition is_address (a : Address) : Prop := length a = AddressLength /\ Forall is_byte a.

Definition hash_eqb (a b : Hash) : bool := bool_decide (a = b).
Definition addr_eqb (a b : Address) : bool := bool_decide (a = b).

(** ** Lemmas *)

Lemma length_copy_at {A} o (d l : list A) :
  (o <= length l)%nat -> length (copy_at o d l) = length l.
Proof.
  intros H. unfold copy_at. rewrite !length_app, !length_take, length_drop. lia.
Qed.

Lemma copy_at_exact {A} o (d l : list A) :
  (o + length d <= length l)%nat ->
  copy_at o d l = take o l ++ d ++ drop (o + length d) l.
Proof. intros H. unfold copy_at. rewrite (take_ge d) by lia. done. Qed.

(** The last [n] bytes, or the bytes padded on the left with zeros. *)
Lemma fixed_of_bytes_alt n b :
  fixed_of_bytes n b =
    replicate (n - length b) 0 ++ drop (length b - n) b.
Proof.
  unfold fixed_of_bytes, copy_at. destruct (decide (length b <= n)%nat) as [H|H].
  - rewrite Nat.min_l by lia. rewrite Nat.sub_diag, drop_0, length_replicate.
    rewrite take_replicate, drop_replicate, Nat.min_l by lia.
    rewrite take_ge by lia. replace (length b - n)%nat with 0%nat by lia.
    replace (n - (n - length b + length b))%nat with 0%nat by lia.
    simpl. by rewrite drop_0, app_nil_r.
  - rewrite Nat.min_r by lia. rewrite Nat.sub_diag, take_0, length_replicate.
    replace (n - length b)%nat with 0%nat by lia. simpl.
    rewrite Nat.sub_0_r, take_ge by (rewrite length_drop; lia).
    rewrite (drop_ge (replicate n 0)), app_nil_r; [done|].
    rewrite length_replicate, length_drop. lia.
Qed.

Lemma length_fixed_of_bytes n b : length (fixed_of_bytes n b) = n.
Proof. rewrite fixed_of_bytes_alt, length_app, length_replicate, length_drop. lia. Qed.

Lemma fixed_of_bytes_is_byte n b :
  Forall is_byte b -> Forall is_byte (fixed_of_bytes n b).
Proof.
  intros H. rewrite fixed_of_bytes_alt. apply Forall_app; split.
  - apply Forall_replicate. unfold is_byte; lia.
  - by apply Forall_drop.
Qed.

Lemma fixed_of_bytes_id b : fixed_of_bytes (length b) b = b.
Proof. rewrite fixed_of_bytes_alt, Nat.sub_diag. by rewrite drop_0. Qed.

Lemma le_to_Z_app a b : le_to_Z (a ++ b) = le_to_Z a + 256 ^ zlen a * le_to_Z b.
Proof.
  unfold zlen. induction a as [|x a IH].
  - cbn. lia.
  - cbn [app le_to_Z length]. rewrite IH, Nat2Z.inj_succ, Z.pow_succ_r by lia. ring.
Qed.

Lemma set_bytes_app a b : set_bytes (a ++ b) = set_bytes a * 256 ^ zlen b + set_bytes b.
Proof.
  unfold set_bytes, zlen. rewrite rev_app_distr, le_to_Z_app.
  unfold zlen. rewrite length_rev. ring.
Qed.

Lemma le_to_Z_zeros l : Forall (eq 0) l -> le_to_Z l = 0.
Proof. induction 1; cbn [le_to_Z]; lia. Qed.

Lemma set_bytes_zeros n b : set_bytes (replicate n 0 ++ b) = set_bytes b.
Proof.
  rewrite set_bytes_app. unfold set_bytes at 1.
  rewrite le_to_Z_zeros; [lia|]. by apply Forall_rev, Forall_replicate.
Qed.

(** The minimal big-endian representation denotes the number. *)
Lemma set_bytes_big_bytes x : 0 <= x -> set_bytes (big_bytes x) = x.
Proof.
  intros Hx. unfold big_bytes. rewrite set_bytes_be, Z.abs_eq by done.
  pose proof (bit_len_nonneg x). rewrite Z2Nat.id by (apply Z.div_pos; lia).
  apply Z.mod_small. split; [done|].
  change 256 with (2 ^ 8). rewrite <- Z.pow_mul_r by (try apply Z.div_pos; lia).
  assert (Hlt : Z.abs x < 2 ^ (8 * ((bit_len x + 7) / 8))); [|lia].
  apply bit_len_le.
  - apply Z.mul_nonneg_nonneg; [lia | apply Z.div_pos; lia].
  - pose proof (Z.mul_div_le (bit_len x + 7) 8). pose proof (Z.mod_pos_bound (bit_len x + 7) 8).
    pose proof (Z.div_mod (bit_len x + 7) 8). lia.
Qed.

Lemma big_bytes_is_byte x : Forall is_byte (big_bytes x).
Proof. apply be_bytes_is_byte. Qed.

Lemma length_big_bytes x n :
  0 <= x < 256 ^ Z.of_nat n -> (length (big_bytes x) <= n)%nat.
Proof.
  intros Hx. unfold big_bytes. rewrite length_be_bytes.
  assert (bit_len x <= 8 * Z.of_nat n).
  { apply bit_len_le; [lia|]. rewrite Z.abs_eq by lia.
    rewrite Z.pow_mul_r by lia. apply Hx. }
  apply Nat2Z.inj_le. rewrite Z2Nat.id.
  - apply Z.lt_succ_r, Z.div_lt_upper_bound; lia.
  - apply Z.div_pos; [|lia]. pose proof (bit_len_nonneg x). lia.
Qed.

(** Converting a [w]-byte number to a fixed-width array gives its big-endian
    representation at that width. *)
Lemma fixed_of_big_bytes n x :
  0 <= x < 256 ^ Z.of_nat n -> fixed_of_bytes n (big_bytes x) = be_bytes n x.
Proof.
  intros Hx. pose proof (length_big_bytes x n Hx) as Hlen.
  assert (Hf : Forall is_byte (fixed_of_bytes n (big_bytes x))).
  { apply fixed_of_bytes_is_byte, big_bytes_is_byte. }
  rewrite <- (be_set_bytes _ Hf), length_fixed_of_bytes. f_equal.
  rewrite fixed_of_bytes_alt. replace (length (big_bytes x) - n)%nat with 0%nat by lia.
  rewrite drop_0, set_bytes_zeros. apply set_bytes_big_bytes. lia.
Qed.

Lemma BytesToHash_hash h : is_hash h -> BytesToHash h = h.
Proof. intros [Hl _]. unfold BytesToHash. rewrite <- Hl. apply fixed_of_bytes_id. Qed.

Lemma BytesToAddress_address a : is_address a -> BytesToAddress a = a.
Proof. intros [Hl _]. unfold BytesToAddress. rewrite <- Hl. apply fixed_of_bytes_id. Qed.

Lemma length_BytesToHash b : length (BytesToHash b) = 32%nat.
Proof. apply length_fixed_of_bytes. Qed.
Lemma length_BytesToAddress b : length (BytesToAddress b) = 20%nat.
Proof. apply length_fixed_of_bytes. Qed.

#[export] Hint Resolve length_BytesToHash length_BytesToAddress : go.
