(* ===== verification/Heap.v ===== *)
(** Binary heaps in an array: the two sift loops (package container/heap, and the same
    loops written out in protocol/pq.go). *)

From S2P Require Import Prelude.

Section heap.
Context {A : Type} (less : A -> A -> bool).

(** [h[i], h[j] = h[j], h[i]] *)
Definition swap (l : list A) (i j : nat) : list A :=
  match l !! i, l !! j with
  | Some a, Some b => <[i := b]> (<[j := a]> l)
  | _, _ => l
  end.

Definition parentOf (j : nat) : nat := ((j - 1) / 2)%nat.

(** [Less(i, j)] *)
Definition lessAt (l : list A) (i j : nat) : bool :=
  match l !! i, l !! j with Some a, Some b => less a b | _, _ => false end.

(** [up]: a round moves to a smaller index. *)
Fixpoint up (rounds : nat) (l : list A) (j : nat) : list A :=
  match rounds with
  | O => l
  | S rounds =>
      let i := parentOf j in
      if (i =? j)%nat || negb (lessAt l j i) then l else up rounds (swap l i j) i
  end.

(** The smaller child of [i], among the first [n] elements. *)
Definition childOf (l : list A) (i n : nat) : nat :=
  let j1 := (2 * i + 1)%nat in
  let j2 := (j1 + 1)%nat in
  if (j2 <? n)%nat && lessAt l j2 j1 then j2 else j1.

(** [down]: a round moves to a larger index below [n]. *)
Fixpoint down (rounds : nat) (l : list A) (i n : nat) : list A :=
  match rounds with
  | O => l
  | S rounds =>
      if (n <=? 2 * i + 1)%nat then l
      else
        let j := childOf l i n in
        if negb (lessAt l j i) then l else down rounds (swap l i j) j n
  end.

(** [Push]: appended, then sifted up. *)
Definition heap_Push (x : A) (l : list A) : list A :=
  let l := l ++ [x] in up (length l) l (length l - 1).

(** [Pop]: the last element goes to the root and is sifted down; [None] for an empty
    heap, where the index panics. *)
Definition heap_Pop (l : list A) : option (A * list A) :=
  match l with
  | [] => None
  | a :: _ =>
      let n := (length l - 1)%nat in
      let l := down (length l) (swap l 0 n) 0 n in
      Some (a, take n l)
  end.

(** ** Lemmas *)

Hypothesis less_asym : forall a b, less a b = true -> less b a = false.
Hypothesis less_trans : forall a b c, less b a = false -> less c b = false -> less c a = false.

(** The element at [p] is not above the one at [q]. *)
Definition le_at (l : list A) (p q : nat) : Prop :=
  forall a b, l !! p = Some a -> l !! q = Some b -> less b a = false.

(** The first [n] elements are a heap. *)
Definition is_heap (l : list A) (n : nat) : Prop :=
  forall k, (0 < k < n)%nat -> le_at l (parentOf k) k.

Lemma parentOf_lt k : (0 < k)%nat -> (parentOf k < k)%nat.
Proof. intros H. unfold parentOf. apply Nat.Div0.div_lt_upper_bound. lia. Qed.

Lemma parentOf_children k i : (0 < k)%nat -> parentOf k = i <-> k = (2 * i + 1)%nat \/ k = (2 * i + 2)%nat.
Proof.
  intros H. unfold parentOf. pose proof (Nat.div_mod_eq (k - 1) 2). pose proof (Nat.mod_upper_bound (k - 1) 2). lia.
Qed.

Lemma le_at_trans l p q r : (q < length l)%nat -> le_at l p q -> le_at l q r -> le_at l p r.
Proof.
  intros Hq H1 H2 a c Ha Hc. destruct (lookup_lt_is_Some_2 l q Hq) as [b Hb]. by eapply less_trans; [apply (H1 a b)|apply (H2 b c)].
Qed.

Lemma le_at_less l p q : lessAt l p q = true -> le_at l p q.
Proof. unfold lessAt, le_at. intros H a b Ha Hb. rewrite Ha, Hb in H. by apply less_asym. Qed.

Lemma le_at_not_less l p q : lessAt l q p = false -> le_at l p q.
Proof. unfold lessAt, le_at. intros H a b Ha Hb. by rewrite Ha, Hb in H. Qed.

Lemma lessAt_irrefl l p : lessAt l p p = false.
Proof.
  unfold lessAt. destruct (l !! p) as [a|]; [|done]. destruct (less a a) eqn:E; [|done]. by rewrite (less_asym _ _ E) in E.
Qed.

Lemma le_at_refl l p : le_at l p p.
Proof. apply le_at_not_less, lessAt_irrefl. Qed.

(** A swap permutes the indices. *)
Definition transpose (i j k : nat) : nat := if decide (k = i) then j else if decide (k = j) then i else k.

Lemma swap_lookup l i j k :
  (i < length l)%nat -> (j < length l)%nat -> swap l i j !! k = l !! transpose i j k.
Proof.
  intros Hi Hj. unfold swap, transpose. destruct (lookup_lt_is_Some_2 l i Hi) as [a Ha].
  destruct (lookup_lt_is_Some_2 l j Hj) as [b Hb]. rewrite Ha, Hb. destruct (decide (k = i)) as [->|Hki].
  - by rewrite list_lookup_insert_eq by (by rewrite length_insert).
  - rewrite list_lookup_insert_ne by done. destruct (decide (k = j)) as [->|Hkj].
    + by rewrite list_lookup_insert_eq.
    + by rewrite list_lookup_insert_ne.
Qed.

Lemma swap_length l i j : length (swap l i j) = length l.
Proof. unfold swap. destruct (l !! i), (l !! j); rewrite ?length_insert; done. Qed.

Lemma swap_le_at l i j p q :
  (i < length l)%nat -> (j < length l)%nat -> le_at (swap l i j) p q <-> le_at l (transpose i j p) (transpose i j q).
Proof. intros Hi Hj. unfold le_at. by rewrite !swap_lookup. Qed.

Lemma swap_perm l i j : swap l i j ≡ₚ l.
Proof.
  unfold swap. destruct (l !! i) as [a|] eqn:Ha; [|done]. destruct (l !! j) as [b|] eqn:Hb; [|done].
  destruct (decide (i = j)) as [->|Hne].
  { rewrite list_insert_insert_eq, list_insert_id; [done|congruence]. }
  apply (Permutation_inj). split; [by rewrite !length_insert|].
  apply lookup_lt_Some in Ha as Li. apply lookup_lt_Some in Hb as Lj.
  exists (transpose i j). split.
  - intros x y. unfold transpose. repeat case_decide; lia.
  - intros k. rewrite <- (swap_lookup l i j) by done. unfold swap. by rewrite Ha, Hb.
Qed.

Lemma transpose_l i j : transpose i j i = j.
Proof. unfold transpose. by rewrite decide_True. Qed.

Lemma transpose_r i j : transpose i j j = i.
Proof. unfold transpose. repeat case_decide; congruence. Qed.

Lemma transpose_ne i j k : k <> i -> k <> j -> transpose i j k = k.
Proof. intros. unfold transpose. by rewrite !decide_False. Qed.

(** Sifting up: only [j] may be smaller than its parent. *)
Definition up_inv (l : list A) (j : nat) : Prop :=
  (forall k, (0 < k < length l)%nat -> k <> j -> le_at l (parentOf k) k) /\
  (forall c, (0 < c < length l)%nat -> (0 < j)%nat -> parentOf c = j -> le_at l (parentOf j) c).

Lemma up_inv_step l j :
  (j < length l)%nat -> (0 < j)%nat -> up_inv l j -> lessAt l j (parentOf j) = true ->
  up_inv (swap l (parentOf j) j) (parentOf j).
Proof.
  intros Hj H0 [H1 H2] Hl. pose proof (parentOf_lt j H0) as Hp. apply le_at_less in Hl. set (i := parentOf j) in *.
  assert (Hi : (i < length l)%nat) by lia. split; rewrite swap_length.
  - intros k Hk Hki. rewrite swap_le_at by done. destruct (decide (k = j)) as [->|Hkj].
    { fold i. by rewrite transpose_l, transpose_r. }
    rewrite (transpose_ne _ _ k) by done. destruct (decide (parentOf k = i)) as [Hpk|Hpk].
    + rewrite Hpk, transpose_l. apply (le_at_trans _ _ i); [done|done|]. rewrite <- Hpk. by apply H1.
    + destruct (decide (parentOf k = j)) as [Hpj|Hpj].
      * rewrite Hpj, transpose_r. by apply H2.
      * rewrite transpose_ne by done. by apply H1.
  - intros c Hc Hi0 Hpc. rewrite swap_le_at by done. pose proof (parentOf_lt i Hi0) as Hpi.
    rewrite (transpose_ne _ _ (parentOf i)) by lia. pose proof (H1 i ltac:(lia) ltac:(lia)) as Hii.
    destruct (decide (c = j)) as [->|Hcj]; [by rewrite transpose_r|].
    pose proof (parentOf_lt c ltac:(lia)). rewrite transpose_ne by lia.
    apply (le_at_trans _ _ i); [done|done|]. rewrite <- Hpc. apply H1; lia.
Qed.

Lemma up_heap rounds : forall l j,
  (j < length l)%nat -> (j < rounds)%nat -> up_inv l j -> is_heap (up rounds l j) (length l).
Proof.
  induction rounds as [|n IH]; intros l j Hj Hr Hinv; [lia|]. simpl.
  destruct (parentOf j =? j)%nat eqn:E0; simpl.
  { apply Nat.eqb_eq in E0. assert (j = 0)%nat as -> by (destruct j; [done|pose proof (parentOf_lt (S j)); lia]).
    intros k Hk. apply Hinv; lia. }
  apply Nat.eqb_neq in E0. assert (0 < j)%nat by (destruct j; [done|lia]).
  destruct (lessAt l j (parentOf j)) eqn:El; simpl.
  - pose proof (parentOf_lt j). rewrite <- (swap_length l (parentOf j) j). apply IH; [rewrite swap_length; lia|lia|].
    by apply up_inv_step.
  - intros k Hk. destruct (decide (k = j)) as [->|]; [by apply le_at_not_less|by apply Hinv].
Qed.

Lemma up_perm rounds : forall l j, up rounds l j ≡ₚ l.
Proof.
  induction rounds as [|n IH]; intros l j; [done|]. simpl. destruct (_ || _); [done|]. by rewrite IH, swap_perm.
Qed.

(** Sifting down: only [i] may be larger than one of its children. *)
Definition down_inv (l : list A) (i n : nat) : Prop :=
  (forall k, (0 < k < n)%nat -> parentOf k <> i -> le_at l (parentOf k) k) /\
  (forall c, (0 < c < n)%nat -> (0 < i)%nat -> parentOf c = i -> le_at l (parentOf i) c).

Lemma childOf_spec l i n :
  (2 * i + 1 < n)%nat -> (n <= length l)%nat ->
  (i < childOf l i n < n)%nat /\ parentOf (childOf l i n) = i /\
  (forall k, (0 < k < n)%nat -> parentOf k = i -> le_at l (childOf l i n) k).
Proof.
  intros Hn Hl. unfold childOf. cbv zeta. destruct (2 * i + 1 + 1 <? n)%nat eqn:E1; cbn [andb].
  - apply Nat.ltb_lt in E1. destruct (lessAt l (2 * i + 1 + 1) (2 * i + 1)) eqn:E2.
    + split; [lia|]. split; [apply parentOf_children; lia|]. intros k Hk Hp. destruct (proj1 (parentOf_children k i ltac:(lia)) Hp) as [->| ->].
      * by apply le_at_less.
      * replace (2 * i + 2)%nat with (2 * i + 1 + 1)%nat by lia. apply le_at_refl.
    + split; [lia|]. split; [apply parentOf_children; lia|]. intros k Hk Hp. destruct (proj1 (parentOf_children k i ltac:(lia)) Hp) as [->| ->].
      * apply le_at_refl.
      * replace (2 * i + 2)%nat with (2 * i + 1 + 1)%nat by lia. by apply le_at_not_less.
  - apply Nat.ltb_ge in E1. split; [lia|]. split; [apply parentOf_children; lia|]. intros k Hk Hp.
    destruct (proj1 (parentOf_children k i ltac:(lia)) Hp) as [->| ->]; [|lia]. apply le_at_refl.
Qed.
Lemma down_inv_step l i n :
  (2 * i + 1 < n)%nat -> (n <= length l)%nat -> down_inv l i n -> lessAt l (childOf l i n) i = true ->
  down_inv (swap l i (childOf l i n)) (childOf l i n) n.
Proof.
  intros Hn Hlen [H1 H2] Hl. destruct (childOf_spec l i n Hn Hlen) as (Hj & Hp & Hmin). apply le_at_less in Hl.
  set (j := childOf l i n) in *. split.
  - intros k Hk Hki. rewrite swap_le_at by lia. pose proof (parentOf_lt k ltac:(lia)). destruct (decide (k = i)) as [->|Hne].
    + rewrite transpose_l, transpose_ne by lia. apply H2; [lia|lia|done].
    + destruct (decide (parentOf k = i)) as [Hpi|Hpi].
      * rewrite Hpi, transpose_l. destruct (decide (k = j)) as [->|Hkj]; [by rewrite transpose_r|].
        rewrite transpose_ne by done. by apply Hmin.
      * assert (k <> j) by congruence. rewrite !transpose_ne by done. by apply H1.
  - intros c Hc Hj0 Hpc. pose proof (parentOf_lt c ltac:(lia)). rewrite swap_le_at by lia. rewrite Hp, transpose_l.
    rewrite transpose_ne by lia. rewrite <- Hpc. apply H1; [lia|]. lia.
Qed.

Lemma down_heap rounds : forall l i n,
  (n <= length l)%nat -> (n < rounds + i)%nat -> down_inv l i n -> is_heap (down rounds l i n) n.
Proof.
  induction rounds as [|r IH]; intros l i n Hlen Hr Hinv; cbn [down]; cbv zeta.
  { intros k Hk. pose proof (parentOf_lt k). apply Hinv; lia. }
  destruct (n <=? 2 * i + 1)%nat eqn:E0.
  { apply Nat.leb_le in E0. intros k Hk. apply Hinv; [done|]. intros Hp. apply parentOf_children in Hp; lia. }
  apply Nat.leb_gt in E0. destruct (childOf_spec l i n E0 Hlen) as (Hj & Hp & Hmin).
  destruct (lessAt l (childOf l i n) i) eqn:El; cbn [negb].
  - apply IH; [by rewrite swap_length|lia|]. by apply down_inv_step.
  - apply le_at_not_less in El. intros k Hk. destruct (decide (parentOf k = i)) as [Hpk|]; [|by apply Hinv].
    rewrite Hpk. apply (le_at_trans _ _ (childOf l i n)); [lia|done|]. by apply Hmin.
Qed.

Lemma down_perm rounds : forall l i n, down rounds l i n ≡ₚ l.
Proof.
  induction rounds as [|r IH]; intros l i n; [done|]. simpl. destruct (n <=? _)%nat; [done|].
  destruct (negb _); [done|]. by rewrite IH, swap_perm.
Qed.
(** ** Push and Pop *)

Lemma is_heap_root l n : is_heap l n -> (n <= length l)%nat -> forall k, (k < n)%nat -> le_at l 0 k.
Proof.
  intros Hh Hn k. induction (lt_wf k) as [k _ IH]. intros Hk. destruct k as [|k]; [apply le_at_refl|].
  pose proof (parentOf_lt (S k) ltac:(lia)). apply (le_at_trans _ _ (parentOf (S k))); [lia|apply IH; lia|apply Hh; lia].
Qed.

Lemma heap_Push_perm x l : heap_Push x l ≡ₚ x :: l.
Proof. unfold heap_Push. rewrite up_perm. by rewrite Permutation_app_comm. Qed.

Lemma heap_Push_heap x l : is_heap l (length l) -> is_heap (heap_Push x l) (length (heap_Push x l)).
Proof.
  intros Hh. rewrite (Permutation_length (heap_Push_perm x l)). unfold heap_Push.
  assert (Hlen : length (l ++ [x]) = S (length l)) by (rewrite length_app; simpl; lia).
  cbn [length]. rewrite <- Hlen. apply up_heap; [lia|lia|]. rewrite Hlen. split.
  - intros k Hk Hne. pose proof (parentOf_lt k ltac:(lia)). intros a b. rewrite !lookup_app_l by lia. apply Hh. lia.
  - intros c Hc _ Hp. pose proof (parentOf_lt c ltac:(lia)). lia.
Qed.

Lemma down_length rounds l i n : length (down rounds l i n) = length l.
Proof. apply Permutation_length, down_perm. Qed.

(** Elements from [n] on stay in place. *)
Lemma down_lookup rounds : forall l i n k,
  (n <= length l)%nat -> (n <= k)%nat -> down rounds l i n !! k = l !! k.
Proof.
  induction rounds as [|r IH]; intros l i n k Hlen Hk; [done|]. cbn [down]. cbv zeta.
  destruct (n <=? 2 * i + 1)%nat eqn:E0; [done|]. apply Nat.leb_gt in E0.
  destruct (childOf_spec l i n E0 Hlen) as (Hj & _ & _). destruct (negb _); [done|].
  rewrite IH by (rewrite ?swap_length; lia). rewrite swap_lookup, transpose_ne by lia. done.
Qed.

Lemma heap_Pop_perm l a l' : heap_Pop l = Some (a, l') -> l ≡ₚ a :: l'.
Proof.
  unfold heap_Pop. destruct l as [|x xs] eqn:El; [done|]. rewrite <- El. cbv zeta.
  set (m := (length l - 1)%nat). set (s := swap l 0 m). set (d := down (length l) s 0 m). intros [= <- <-].
  assert (Hl : (0 < length l)%nat) by (rewrite El; simpl; lia).
  assert (Hlen : length d = S m) by (unfold d, s; rewrite down_length, swap_length; unfold m; lia).
  assert (Hd : d !! m = Some x).
  { unfold d. rewrite down_lookup by (unfold s; rewrite ?swap_length; unfold m; lia).
    unfold s. rewrite swap_lookup by (unfold m; lia). rewrite transpose_r. by rewrite El. }
  transitivity d; [symmetry; etrans; [apply down_perm|apply swap_perm]|].
  rewrite <- (take_drop_middle d m x Hd) at 1. rewrite (drop_ge d (S m)) by lia. by rewrite Permutation_app_comm.
Qed.

Lemma heap_Pop_heap l a l' :
  is_heap l (length l) -> heap_Pop l = Some (a, l') -> is_heap l' (length l') /\ Forall (fun b => less b a = false) l'.
Proof.
  intros Hh Hp. pose proof (heap_Pop_perm _ _ _ Hp) as Hperm. split.
  - unfold heap_Pop in Hp. destruct l as [|x xs] eqn:El; [done|]. rewrite <- El in *. set (m := (length l - 1)%nat) in *.
    assert (Hl : length l = S m) by (unfold m; rewrite El; simpl; lia).
    injection Hp as <- <-. rewrite length_take, down_length, swap_length, Nat.min_l by lia.
    assert (Hd : is_heap (down (length l) (swap l 0 m) 0 m) m).
    { apply down_heap; [rewrite swap_length; lia|lia|]. split; [|lia]. intros k Hk Hne. rewrite swap_le_at by lia.
      pose proof (parentOf_lt k ltac:(lia)). rewrite !transpose_ne by lia. apply Hh. lia. }
    intros k Hk b c. pose proof (parentOf_lt k ltac:(lia)). rewrite !lookup_take_lt by lia. by apply Hd.
  - apply Forall_forall. intros b Hb. apply list_elem_of_In in Hb. assert (Hb' : b ∈ l) by (rewrite Hperm; by apply elem_of_cons; right).
    apply list_elem_of_lookup in Hb' as [k Hk]. pose proof (lookup_lt_Some _ _ _ Hk).
    apply (is_heap_root _ _ Hh (le_n _) k) with (a := a) (b := b); [done| |done].
    unfold heap_Pop in Hp. destruct l; [done|]. by injection Hp as <- _.
Qed.

Lemma heap_Pop_Some l : l <> [] -> is_Some (heap_Pop l).
Proof. destruct l; [done|]. intros _. unfold heap_Pop. eauto. Qed.
(** [pop] of protocol/pq.go truncates the array before it sifts. *)
Definition heap_pop_truncated (l : list A) : option (A * list A) :=
  match l with
  | [] => None
  | _ =>
      let size := length l in
      let s := swap l (size - 1) 0 in
      match s !! (size - 1)%nat with
      | None => None
      | Some item => let r := take (size - 1) s in Some (item, down size r 0 (length r))
      end
  end.

Lemma lessAt_take l n i j : (i < n)%nat -> (j < n)%nat -> lessAt (take n l) i j = lessAt l i j.
Proof. intros. unfold lessAt. by rewrite !lookup_take_lt. Qed.

Lemma swap_take l n i j : (i < n)%nat -> (j < n)%nat -> swap (take n l) i j = take n (swap l i j).
Proof.
  intros. unfold swap. rewrite !lookup_take_lt by done. destruct (l !! i), (l !! j); try done.
  by rewrite !take_insert_lt.
Qed.

Lemma childOf_take l i n : (2 * i + 1 < n)%nat -> childOf (take n l) i n = childOf l i n.
Proof.
  intros Hn. unfold childOf. cbv zeta. destruct (2 * i + 1 + 1 <? n)%nat eqn:E; [|done]. apply Nat.ltb_lt in E.
  by rewrite lessAt_take by lia.
Qed.

Lemma down_take rounds : forall l i n, (n <= length l)%nat -> down rounds (take n l) i n = take n (down rounds l i n).
Proof.
  induction rounds as [|r IH]; intros l i n Hlen; [done|]. cbn [down]. cbv zeta.
  destruct (n <=? 2 * i + 1)%nat eqn:E0; [done|]. apply Nat.leb_gt in E0.
  destruct (childOf_spec l i n E0 Hlen) as (Hj & _ & _). rewrite childOf_take, lessAt_take by lia.
  destruct (negb _); [done|]. rewrite swap_take by lia. apply IH. by rewrite swap_length.
Qed.

Lemma swap_comm l i j : swap l i j = swap l j i.
Proof.
  unfold swap. destruct (l !! i) as [a|] eqn:Ha, (l !! j) as [b|] eqn:Hb; try done.
  destruct (decide (i = j)) as [->|]; [congruence|]. by rewrite list_insert_insert_ne.
Qed.

Lemma heap_pop_truncated_Pop l : heap_pop_truncated l = heap_Pop l.
Proof.
  unfold heap_pop_truncated, heap_Pop. destruct l as [|a xs] eqn:El; [done|]. rewrite <- El. cbv zeta.
  assert (Hl : (0 < length l)%nat) by (rewrite El; simpl; lia).
  rewrite (swap_comm l (length l - 1) 0), swap_lookup by lia. rewrite transpose_r.
  replace (l !! 0%nat) with (Some a) by (by rewrite El).
  rewrite length_take, swap_length, Nat.min_l, down_take by (rewrite ?swap_length; lia). done.
Qed.
End heap.
