(* ===== verification/Chain.v ===== *)
(** Fork schedule of package chain (chain/params.go): a fork is a block number
    from which a rule set is active. *)

From S2P Require Import Prelude.

(** [type Fork uint64]; a [*Fork] may be nil. *)
Definition Fork := Z.

Record Forks := mkForks {
  f_Homestead : option Fork;
  f_Byzantium : option Fork;
  f_Constantinople : option Fork;
  f_Petersburg : option Fork;
  f_Istanbul : option Fork;
  f_EIP150 : option Fork;
  f_EIP158 : option Fork;
  f_EIP155 : option Fork;
  f_Preportland : option Fork;
  f_Portland : option Fork;
  f_Detroit : option Fork;
}.

Record ForksInTime := mkForksInTime {
  Homestead : bool;
  Byzantium : bool;
  Constantinople : bool;
  Petersburg : bool;
  Istanbul : bool;
  EIP150 : bool;
  EIP158 : bool;
  EIP155 : bool;
  Preportland : bool;
  Portland : bool;
  Detroit : bool;
}.

Definition NewFork (n : Z) : option Fork := Some n.

Definition Fork_On (f : Fork) (block : Z) : bool := block =? f.
Definition Fork_Active (f : Fork) (block : Z) : bool := f <=? block.
(** [Int]: the conversion [int64(f)] wraps. *)
Definition Fork_Int (f : Fork) : Z := i64 f.

Definition on (ff : option Fork) (block : Z) : bool :=
  match ff with None => false | Some f => Fork_On f block end.
Definition active (ff : option Fork) (block : Z) : bool :=
  match ff with None => false | Some f => Fork_Active f block end.

Definition IsHomestead (f : Forks) (block : Z) : bool := active (f_Homestead f) block.
Definition IsByzantium (f : Forks) (block : Z) : bool := active (f_Byzantium f) block.
Definition IsConstantinople (f : Forks) (block : Z) : bool := active (f_Constantinople f) block.
Definition IsPetersburg (f : Forks) (block : Z) : bool := active (f_Petersburg f) block.
Definition IsEIP150 (f : Forks) (block : Z) : bool := active (f_EIP150 f) block.
Definition IsEIP158 (f : Forks) (block : Z) : bool := active (f_EIP158 f) block.
Definition IsEIP155 (f : Forks) (block : Z) : bool := active (f_EIP155 f) block.
Definition IsPortland (f : Forks) (block : Z) : bool := active (f_Portland f) block.
Definition IsDetroit (f : Forks) (block : Z) : bool := active (f_Detroit f) block.
Definition IsOnPreportland (f : Forks) (block : Z) : bool := on (f_Preportland f) block.
Definition IsOnPortland (f : Forks) (block : Z) : bool := on (f_Portland f) block.
Definition IsOnDetroit (f : Forks) (block : Z) : bool := on (f_Detroit f) block.

Definition At (f : Forks) (block : Z) : ForksInTime := {|
  Homestead := active (f_Homestead f) block;
  Byzantium := active (f_Byzantium f) block;
  Constantinople := active (f_Constantinople f) block;
  Petersburg := active (f_Petersburg f) block;
  Istanbul := active (f_Istanbul f) block;
  EIP150 := active (f_EIP150 f) block;
  EIP158 := active (f_EIP158 f) block;
  EIP155 := active (f_EIP155 f) block;
  Preportland := active (f_Preportland f) block;
  Portland := active (f_Portland f) block;
  Detroit := active (f_Detroit f) block;
|}.

Definition AllForksEnabled : Forks := {|
  f_Homestead := NewFork 0;
  f_EIP150 := NewFork 0;
  f_EIP155 := NewFork 0;
  f_EIP158 := NewFork 0;
  f_Byzantium := NewFork 0;
  f_Constantinople := NewFork 0;
  f_Petersburg := NewFork 0;
  f_Istanbul := NewFork 0;
  f_Preportland := NewFork 10000;
  f_Portland := NewFork 10222;
  f_Detroit := NewFork 40562;
|}.

(** ** Lemmas *)

(** A rule once active stays active. *)
Lemma active_mono ff b b' : b <= b' -> active ff b = true -> active ff b' = true.
Proof. destruct ff; simpl; unfold Fork_Active; lia. Qed.

(** [on] holds exactly at the activation block: active there and, for a block
    before it, not yet active. *)
Lemma on_active ff b :
  on ff b = true <-> active ff b = true /\ active ff (b - 1) = false.
Proof. destruct ff; simpl; unfold Fork_On, Fork_Active; [lia | by split; [|intros []]]. Qed.
