(* ===== verification/Runtime.v ===== *)
(** Package runtime (state/runtime/runtime.go): the call frame [Contract], the
    [ExecutionResult] of a frame, and the [Host] interface through which the EVM
    reads and changes the world. *)

From S2P Require Import Prelude Types Chain.

(** The errors a frame can end with: the package's sentinel errors, those of
    package evm, and the error values built on the spot ([fmt.Errorf]) that only
    matter by being non-nil. *)
Inductive error :=
| ErrOutOfGas
| ErrStackOverflow
| ErrStackUnderflow
| ErrNotEnoughFunds
| ErrInsufficientBalance
| ErrMaxCodeSizeExceeded
| ErrContractAddressCollision
| ErrDepth
| ErrExecutionReverted
| ErrCodeStoreOutOfGas
| ErrCodeEmpty
| errGasUintOverflow
| errWriteProtection
| errInvalidJump
| errOpCodeNotFound
| errReturnDataOutOfBounds
| errEvmPanic          (** [formatPanicDesc]: a recovered runtime panic *)
| errBadBalance        (** [fmt.Errorf("bad")] of the call builders *)
| errRuntimeNotFound   (** [fmt.Errorf("not found")] of [Transition.run] *)
| errPrecompiled.      (** an error of a precompiled contract *)

#[global] Instance error_eq_dec : EqDecision error.
Proof. solve_decision. Defined.

Record TxContext := mkTxContext {
  GasPrice : Hash;
  Origin : Address;
  Coinbase : Address;
  Number : Z;
  Timestamp : Z;
  GasLimit : Z;
  ChainID : Z;
  Difficulty : Hash;
}.

Inductive StorageStatus :=
| StorageUnchanged
| StorageModified
| StorageModifiedAgain
| StorageAdded
| StorageDeleted.

Inductive CallType := Call | CallCode | DelegateCall | StaticCall | Create | Create2.

#[global] Instance CallType_eq_dec : EqDecision CallType.
Proof. solve_decision. Defined.

Definition IsCreateType (typ : CallType) : bool :=
  match typ with Create | Create2 => true | _ => false end.
Definition IsCallType (typ : CallType) : bool :=
  match typ with Call | CallCode | DelegateCall | StaticCall => true | _ => false end.

(** [Value] is a [*big.Int] and may be nil. *)
Record Contract := mkContract {
  c_Code : bytes;
  c_Type : CallType;
  c_CodeAddress : Address;
  c_Address : Address;
  c_Origin : Address;
  c_Caller : Address;
  c_Depth : Z;
  c_Value : option Z;
  c_Input : bytes;
  c_Gas : Z;
  c_Static : bool;
}.

Definition NewContract (depth : Z) (origin from to : Address) (value : option Z)
    (gas : Z) (code : bytes) : Contract := {|
  c_Caller := from;
  c_Origin := origin;
  c_CodeAddress := to;
  c_Address := to;
  c_Gas := gas;
  c_Value := value;
  c_Code := code;
  c_Depth := depth;
  c_Type := Call;
  c_Input := [];
  c_Static := false;
|}.

Definition NewContractCreation (depth : Z) (origin from to : Address)
    (value : option Z) (gas : Z) (code : bytes) : Contract :=
  NewContract depth origin from to value gas code.

Definition set_c_Input (i : bytes) (c : Contract) : Contract :=
  mkContract (c_Code c) (c_Type c) (c_CodeAddress c) (c_Address c) (c_Origin c)
    (c_Caller c) (c_Depth c) (c_Value c) i (c_Gas c) (c_Static c).
Definition set_c_Type (t : CallType) (c : Contract) : Contract :=
  mkContract (c_Code c) t (c_CodeAddress c) (c_Address c) (c_Origin c)
    (c_Caller c) (c_Depth c) (c_Value c) (c_Input c) (c_Gas c) (c_Static c).
Definition set_c_Static (b : bool) (c : Contract) : Contract :=
  mkContract (c_Code c) (c_Type c) (c_CodeAddress c) (c_Address c) (c_Origin c)
    (c_Caller c) (c_Depth c) (c_Value c) (c_Input c) (c_Gas c) b.
Definition set_c_Address (a : Address) (c : Contract) : Contract :=
  mkContract (c_Code c) (c_Type c) (c_CodeAddress c) a (c_Origin c)
    (c_Caller c) (c_Depth c) (c_Value c) (c_Input c) (c_Gas c) (c_Static c).
Definition set_c_Value (v : option Z) (c : Contract) : Contract :=
  mkContract (c_Code c) (c_Type c) (c_CodeAddress c) (c_Address c) (c_Origin c)
    (c_Caller c) (c_Depth c) v (c_Input c) (c_Gas c) (c_Static c).
Definition set_c_Caller (a : Address) (c : Contract) : Contract :=
  mkContract (c_Code c) (c_Type c) (c_CodeAddress c) (c_Address c) (c_Origin c)
    a (c_Depth c) (c_Value c) (c_Input c) (c_Gas c) (c_Static c).

Definition NewContractCall (depth : Z) (origin from to : Address) (value : option Z)
    (gas : Z) (code input : bytes) : Contract :=
  set_c_Input input (NewContract depth origin from to value gas code).

Record ExecutionResult := mkResult {
  ReturnValue : bytes;
  GasLeft : Z;
  GasUsed : Z;
  Err : option error;
}.

Definition Succeeded (r : ExecutionResult) : bool := bool_decide (Err r = None).
Definition Failed (r : ExecutionResult) : bool := bool_decide (Err r <> None).
Definition Reverted (r : ExecutionResult) : bool :=
  bool_decide (Err r = Some ErrExecutionReverted).
Definition Return (r : ExecutionResult) : bytes :=
  if bool_decide (Err r <> None) then [] else ReturnValue r.
Definition Revert (r : ExecutionResult) : bytes :=
  if negb (Reverted r) then [] else ReturnValue r.

(** All arithmetic is on [uint64]. *)
Definition UpdateGasUsed (gasLimit refund : Z) (r : ExecutionResult) : ExecutionResult :=
  let used := u64 (gasLimit - GasLeft r) in
  let maxRefund := used / 2 in
  let refund := if maxRefund <? refund then maxRefund else refund in
  mkResult (ReturnValue r) (u64 (GasLeft r + refund)) (u64 (used - refund)) (Err r).

(** The [Host] interface without [Callx], which the operations that use it take
    as an argument of its own. Operations that change the world are functions of
    the world they run in. *)
Class Host (W : Type) := {
  AccountExists : W -> Address -> bool;
  GetStorage : W -> Address -> Hash -> Hash;
  SetStorage : Address -> Hash -> Hash -> ForksInTime -> W -> StorageStatus * W;
  GetBalance : W -> Address -> Z;
  GetCodeSize : W -> Address -> Z;
  GetCodeHash : W -> Address -> Hash;
  GetCode : W -> Address -> bytes;
  Selfdestruct : Address -> Address -> W -> W;
  GetTxContext : W -> TxContext;
  GetBlockHash : W -> Z -> Hash;
  EmitLog : Address -> list Hash -> bytes -> W -> W;
  Empty : W -> Address -> bool;
  GetNonce : W -> Address -> Z;
}.

(** [Host.Callx]: run a frame; a panic that no frame recovered goes on up. *)
Definition CallxT (W : Type) : Type := Contract -> GoM W ExecutionResult.

(** What the caller of a frame relies on: it never gets back more gas than it
    handed over. *)
Class CallxGas {W} (callx : CallxT W) : Prop :=
  callx_gas : forall c w r, is_u64 (c_Gas c) -> fst (callx c w) = Ok r ->
    0 <= GasLeft r <= c_Gas c.

(** ** Lemmas *)

(** Gas accounting of a transaction: what is left and what is used add up to the
    gas limit, and the refund gives back at most half of what was consumed. *)
Lemma UpdateGasUsed_spec gasLimit refund r :
  is_u64 gasLimit -> is_u64 refund -> 0 <= GasLeft r <= gasLimit ->
  let r' := UpdateGasUsed gasLimit refund r in
  let used := gasLimit - GasLeft r in
  GasUsed r' = used - Z.min refund (used / 2) /\
  GasLeft r' = GasLeft r + Z.min refund (used / 2) /\
  GasLeft r' + GasUsed r' = gasLimit /\
  used <= 2 * GasUsed r' /\ 0 <= GasUsed r' <= used.
Proof.
  intros Hl Hr Hg. cbv zeta. unfold UpdateGasUsed, is_u64 in *. simpl.
  rewrite (u64_small (gasLimit - _)) by (unfold is_u64; lia).
  set (used := gasLimit - GasLeft r).
  assert (Hmin : (if used / 2 <? refund then used / 2 else refund) = Z.min refund (used / 2)).
  { destruct (Z.ltb_spec (used / 2) refund); lia. }
  rewrite Hmin. pose proof (Z.mul_div_le used 2 ltac:(lia)).
  assert (0 <= used / 2) by (apply Z.div_pos; lia).
  rewrite !u64_small by (unfold is_u64; lia). lia.
Qed.

Lemma Failed_Succeeded r : Failed r = negb (Succeeded r).
Proof. unfold Failed, Succeeded. destruct (Err r); reflexivity. Qed.
