(* ===== verification/Crypto.v ===== *)
(** The parts of package crypto the state transition uses: contract addresses and
    signature values (crypto/crypto.go). Hashing and RLP encoding are third-party
    code and stay parameters. *)

From S2P Require Import Prelude Types.

(** golang.org/x/crypto/sha3: legacy Keccak-256, a 32-byte digest. *)
Class Keccak := {
  keccak256 : bytes -> bytes;
  keccak256_hash : forall b, is_hash (keccak256 b);
}.

(** github.com/dogechain-lab/fastrlp: values are built by an arena and marshalled,
    parsed and read. Parsing what was marshalled gives the value back, a null as an
    empty string ([norm]), and each reader inverts the constructor of its type. *)
Class FastRlp := {
  Value : Type;
  NewArray : list Value -> Value;   (** [NewArray] followed by a [Set] per element *)
  NewBytes : bytes -> Value;
  NewUint : Z -> Value;
  NewBigInt : Z -> Value;
  NewNull : Value;
  NewNullArray : Value;
  MarshalTo : Value -> bytes;
  Parse : bytes -> option Value;
  GetElems : Value -> option (list Value);
  GetBytes : Value -> option bytes;
  GetUint64 : Value -> option Z;
  GetBigInt : Value -> option Z;
  GetHash : Value -> option Hash;
  GetAddr : Value -> option Address;
  GetBytesOf : Z -> Value -> option bytes;   (** [GetBytes] of the length given *)
  Len : Value -> Z;                 (** the raw size of a value *)
  norm : Value -> Value;            (** a value as it is read back *)
  Parse_MarshalTo : forall v, Parse (MarshalTo v) = Some (norm v);
  norm_NewArray : forall l, norm (NewArray l) = NewArray (map norm l);
  norm_NewBytes : forall b, norm (NewBytes b) = NewBytes b;
  norm_NewUint : forall n, norm (NewUint n) = NewUint n;
  norm_NewBigInt : forall n, norm (NewBigInt n) = NewBigInt n;
  norm_NewNull : norm NewNull = NewBytes [];
  norm_NewNullArray : norm NewNullArray = NewArray [];
  GetElems_NewArray : forall l, GetElems (NewArray l) = Some l;
  GetBytes_NewBytes : forall b, GetBytes (NewBytes b) = Some b;
  GetElems_NewBytes : forall b, GetElems (NewBytes b) = None;
  GetBytes_NewArray : forall l, GetBytes (NewArray l) = None;
  Len_NewBytes : forall b, Len (NewBytes b) = zlen b;
  GetUint64_NewUint : forall n, is_u64 n -> GetUint64 (NewUint n) = Some n;
  GetBigInt_NewBigInt : forall n, 0 <= n -> GetBigInt (NewBigInt n) = Some n;
  GetHash_NewBytes : forall h, is_hash h -> GetHash (NewBytes h) = Some h;
  GetAddr_NewBytes : forall a, is_address a -> GetAddr (NewBytes a) = Some a;
  GetBytesOf_NewBytes : forall n b, zlen b = n -> GetBytesOf n (NewBytes b) = Some b;
  GetBytes_NewUint : forall n, is_u64 n -> GetBytes (NewUint n) = Some (big_bytes n);
  GetUint64_NewBytes : forall b, Forall is_byte b -> zlen b <= 8 -> GetUint64 (NewBytes b) = Some (set_bytes b);
  GetUint64_range : forall v n, GetUint64 v = Some n -> is_u64 n;
  GetHash_length : forall v h, GetHash v = Some h -> length h = HashLength;
  GetAddr_length : forall v a, GetAddr v = Some a -> length a = AddressLength;
  GetBytesOf_length : forall n v b, GetBytesOf n v = Some b -> zlen b = n;
}.

Section addresses.
Context `{KK : !Keccak, RL : !FastRlp}.

(** [Keccak256(v ...[]byte)] hashes the concatenation. *)
Definition Keccak256 (v : list bytes) : bytes := keccak256 (concat v).

Definition CreateAddress (addr : Address) (nonce : Z) : Address :=
  BytesToAddress
    (drop 12 (Keccak256 [MarshalTo (NewArray [NewBytes addr; NewUint nonce])])).

Definition create2Prefix : bytes := [0xff].

Definition CreateAddress2 (addr : Address) (salt : Hash) (inithash : bytes) : Address :=
  BytesToAddress
    (drop 12 (Keccak256 [create2Prefix; addr; salt; Keccak256 [inithash]])).
End addresses.

(** ** Signature values *)

Definition secp256k1N : bytes :=
  be_bytes 32 0xfffffffffffffffffffffffffffffffebaaedce6af48a03bbfd25e8cd0364141.
Definition one_bytes : bytes := [1].

(** The loop stops at the first non-zero byte; when there is none its index is
    that of the last byte, which is kept. *)
Fixpoint trimLeftZeros (b : bytes) : bytes :=
  match b with
  | [] => []
  | [x] => [x]
  | x :: r => if x =? 0 then trimLeftZeros r else b
  end.

(** [bytes.Compare]: lexicographic, a proper prefix is smaller. *)
Fixpoint bytes_compare (a b : bytes) : comparison :=
  match a, b with
  | [], [] => Eq
  | [], _ => Lt
  | _, [] => Gt
  | x :: a, y :: b =>
      match (x ?= y) with
      | Eq => bytes_compare a b
      | c => c
      end
  end.
Definition bytes_ge (a b : bytes) : bool :=
  match bytes_compare a b with Lt => false | _ => true end.
Definition bytes_lt (a b : bytes) : bool :=
  match bytes_compare a b with Lt => true | _ => false end.

Definition sig_value_bad (x : Z) : bool :=
  let xx := trimLeftZeros (big_bytes x) in
  bytes_ge xx secp256k1N || bytes_lt xx one_bytes.

(** [r] and [s] may be nil. *)
Definition ValidateSignatureValues (v : Z) (r s : option Z) : bool :=
  match r, s with
  | Some r, Some s =>
      if 1 <? v then false
      else if sig_value_bad r then false
      else if sig_value_bad s then false
      else true
  | _, _ => false
  end.
