(* ===== verification/Text.v ===== *)
(** Hexadecimal text (helper/hex/hex.go, types/encoding.go, types/util.go and the text
    forms in types/hash.go and types/address.go). A string is the list of its bytes. *)

From Stdlib Require Import String Ascii.
From S2P Require Import Prelude Types Crypto.

Definition str (s : string) : bytes := map (fun c => Z.of_N (N_of_ascii c)) (list_ascii_of_string s).

(** ** encoding/hex, strconv and math/big in the bases the code uses *)

Definition hexDigit (n : Z) : Z := if n <? 10 then 48 + n else 87 + n.

Definition fromHexChar (c : Z) : option Z :=
  if (48 <=? c) && (c <=? 57) then Some (c - 48)
  else if (97 <=? c) && (c <=? 102) then Some (c - 87)
  else if (65 <=? c) && (c <=? 70) then Some (c - 55)
  else None.

Definition EncodeToString (b : bytes) : bytes :=
  concat (map (fun x => [hexDigit (x / 16); hexDigit (x mod 16)]) b).

(** The bytes decoded before the first error, and whether there was none. *)
Fixpoint DecodeString (s : bytes) : bytes * bool :=
  match s with
  | [] => ([], true)
  | [_] => ([], false)
  | p :: q :: r =>
      match fromHexChar p, fromHexChar q with
      | Some a, Some b => let '(l, ok) := DecodeString r in (a * 16 + b :: l, ok)
      | _, _ => ([], false)
      end
  end.

(** [strings.TrimPrefix] and [strings.HasPrefix] of the 0x prefix. *)
Definition HasPrefix0x (s : bytes) : bool := match s with 48 :: 120 :: _ => true | _ => false end.
Definition TrimPrefix0x (s : bytes) : bytes := if HasPrefix0x s then drop 2 s else s.

(** The digits of a number. *)
Fixpoint digitLoop (base : Z) (n : nat) (x : Z) : bytes :=
  match n with
  | O => []
  | S n => if x <? base then [hexDigit x] else digitLoop base n (x / base) ++ [hexDigit (x mod base)]
  end.
Definition format (base x : Z) : bytes := digitLoop base (S (Z.to_nat (Z.log2 x))) x.
(** [%x] *)
Definition formatHex (x : Z) : bytes := format 16 x.

(** A digit of a base of at most 16. *)
Definition digitOf (base c : Z) : option Z :=
  d ← fromHexChar c; if d <? base then Some d else None.
Fixpoint parseDigits (base acc : Z) (s : bytes) : option Z :=
  match s with
  | [] => Some acc
  | c :: s => d ← digitOf base c; parseDigits base (acc * base + d) s
  end.

(** [strconv.ParseUint(s, base, 64)] *)
Definition ParseUint (s : bytes) (base : Z) : option Z :=
  match s with
  | [] => None
  | _ => v ← parseDigits base 0 s; if v <? two64 then Some v else None
  end.

(** [big.Int.SetString(s, base)]: a sign may come first. *)
Definition SetString (s : bytes) (base : Z) : option Z :=
  match s with
  | [] => None
  | c :: r =>
      if c =? 45 then match r with [] => None | _ => Z.opp <$> parseDigits base 0 r end
      else if c =? 43 then match r with [] => None | _ => parseDigits base 0 r end
      else parseDigits base 0 s
  end.

(** [big.Int.Text(base)] *)
Definition Text (base x : Z) : bytes := if x <? 0 then 45 :: format base (- x) else format base x.
Definition Text16 (x : Z) : bytes := Text 16 x.
(** [big.Int.String]: a nil pointer has a text too. *)
Definition big_String (x : option Z) : bytes := match x with None => str "<nil>" | Some x => Text 10 x end.

(** ** helper/hex/hex.go *)

Definition EncodeToHex (b : bytes) : bytes := str "0x" ++ EncodeToString b.
Definition DecodeHex (s : bytes) : bytes * bool := DecodeString (TrimPrefix0x s).
Definition MustDecodeHex (s : bytes) : result bytes :=
  let '(b, ok) := DecodeHex s in if ok then Ok b else Panic.
Definition hex_EncodeUint64 (i : Z) : bytes := str "0x" ++ formatHex i.

Definition BadNibble : Z := two64 - 1.
(** The subtractions are of bytes. *)
Definition DecodeNibble (c : Z) : Z :=
  if (48 <=? c) && (c <=? 57) then c - 48
  else if (65 <=? c) && (c <=? 70) then c - 65 + 10
  else if (97 <=? c) && (c <=? 102) then c - 97 + 10
  else BadNibble.

(** [%#x] puts a sign before the prefix. *)
Definition EncodeBig (b : Z) : bytes :=
  if bit_len b =? 0 then str "0x0"
  else if b <? 0 then str "-0x" ++ formatHex (- b) else str "0x" ++ formatHex b.

(** A failed parse leaves a value that is not specified; the one of a new integer is
    kept here. *)
Definition DecodeHexToBig (s : bytes) : Z := default 0 (SetString s 16).

(** ** types/encoding.go: the text may be absent *)

Definition ParseUint64orHex (val : option bytes) : option Z :=
  match val with
  | None => Some 0
  | Some s => if HasPrefix0x s then ParseUint (drop 2 s) 16 else ParseUint s 10
  end.

(** [None] is the error, [Some None] the nil number. *)
Definition ParseUint256orHex (val : option bytes) : option (option Z) :=
  match val with
  | None => Some None
  | Some s => Some <$> (if HasPrefix0x s then SetString (drop 2 s) 16 else SetString s 10)
  end.

Definition ParseInt64orHex (val : option bytes) : option Z := i64 <$> ParseUint64orHex val.

Definition ParseBytes (val : option bytes) : option bytes :=
  match val with
  | None => Some []
  | Some s => let '(b, ok) := DecodeString (TrimPrefix0x s) in if ok : bool then Some b else None
  end.

Definition EncodeUint64 (b : Z) : bytes := str "0x" ++ formatHex b.
Definition EncodeBytes (b : bytes) : bytes := str "0x" ++ EncodeToString b.
Definition EncodeBigInt (b : Z) : bytes := str "0x" ++ Text16 b.

(** ** Hashes and addresses *)

(** types/util.go: an odd number of digits gets a zero, an error is dropped. *)
Definition stringToBytes (s : bytes) : bytes :=
  let s := TrimPrefix0x s in
  fst (DecodeString (if Nat.odd (length s) then 48 :: s else s)).

Definition StringToHash (s : bytes) : Hash := BytesToHash (stringToBytes s).
Definition Hash_String (h : Hash) : bytes := EncodeToHex h.
Definition Hash_UnmarshalText (input : bytes) : option Hash := Some (BytesToHash (stringToBytes input)).

(** [copy(h[:], hh)]: shorter bytes leave the end of the receiver. *)
Definition copyInto (h b : bytes) : bytes := take (length h) b ++ drop (length b) h.
Definition Hash_Scan (h : Hash) (src : bytes) : option Hash :=
  let '(hh, ok) := DecodeHex src in if ok : bool then Some (copyInto h hh) else None.

Section addresses.
Context `{KK : !Keccak}.

(** [unicode.ToUpper] of a hexadecimal digit. *)
Definition ToUpper (c : Z) : Z := if (97 <=? c) && (c <=? 122) then c - 32 else c.

Definition checksumChar (ch hashed : Z) : Z :=
  if ((48 <=? ch) && (ch <=? 57)) || ((48 <=? hashed) && (hashed <=? 55)) then ch else ToUpper ch.

Definition checksumEncode (a : Address) : bytes :=
  let lowercaseHex := drop 2 (EncodeToHex a) in
  let hashedAddress := drop 2 (EncodeToHex (keccak256 lowercaseHex)) in
  str "0x" ++ zip_with checksumChar lowercaseHex hashedAddress.

Definition Address_String (a : Address) : bytes := checksumEncode a.
Definition StringToAddress (s : bytes) : Address := BytesToAddress (stringToBytes s).

(** [None] is the error. *)
Definition Address_UnmarshalText (input : bytes) : option Address :=
  let buf := stringToBytes input in
  if negb (length buf =? AddressLength)%nat then None else Some (BytesToAddress buf).
Definition Address_Scan (a : Address) (src : bytes) : option Address :=
  let '(aa, ok) := DecodeHex src in if ok : bool then Some (copyInto a aa) else None.
End addresses.

(** helper/common/common.go *)
Definition PadLeftOrTrim (bb : bytes) (size : nat) : bytes :=
  let l := length bb in
  if (l =? size)%nat then bb
  else if (size <? l)%nat then drop (l - size) bb
  else replicate (size - l) 0 ++ bb.

(** ** Lemmas *)

Lemma fromHexChar_digit n : 0 <= n < 16 -> fromHexChar (hexDigit n) = Some n.
Proof.
  intros Hn. unfold fromHexChar, hexDigit. destruct (Z.ltb_spec n 10).
  - rewrite !(proj2 (Z.leb_le _ _)) by lia. simpl. f_equal. lia.
  - rewrite (proj2 (Z.leb_gt (87 + n) 57)) by lia. rewrite andb_false_r.
    rewrite !(proj2 (Z.leb_le _ _)) by lia. simpl. f_equal. lia.
Qed.

(** Both cases of a digit have one value. *)
Lemma fromHexChar_upper n h : 0 <= n < 16 -> fromHexChar (checksumChar (hexDigit n) h) = Some n.
Proof.
  intros Hn. unfold checksumChar. destruct (_ || _) eqn:E; [by apply fromHexChar_digit|].
  apply orb_false_iff in E as [E _]. unfold ToUpper, hexDigit, fromHexChar in *.
  destruct (Z.ltb_spec n 10).
  - rewrite !(proj2 (Z.leb_le _ _)) in E by lia. done.
  - rewrite (proj2 (Z.leb_le 97 (87 + n))), (proj2 (Z.leb_le (87 + n) 122)) by lia. cbn [andb].
    rewrite (proj2 (Z.leb_gt (87 + n - 32) 57)), (proj2 (Z.leb_gt 97 (87 + n - 32))) by lia.
    rewrite andb_false_r. cbn [andb].
    rewrite !(proj2 (Z.leb_le _ _)) by lia. cbn [andb]. f_equal. lia.
Qed.

Lemma EncodeToString_cons x b : EncodeToString (x :: b) = hexDigit (x / 16) :: hexDigit (x mod 16) :: EncodeToString b.
Proof. done. Qed.

Lemma length_EncodeToString b : length (EncodeToString b) = (2 * length b)%nat.
Proof. induction b as [|x b IH]; [done|]. rewrite EncodeToString_cons. simpl. rewrite IH. lia. Qed.

Lemma nibbles_of_byte x : is_byte x -> 0 <= x / 16 < 16 /\ 0 <= x mod 16 < 16 /\ x / 16 * 16 + x mod 16 = x.
Proof.
  intros [H1 H2]. pose proof (Z.mod_pos_bound x 16). pose proof (Z_div_mod_eq_full x 16).
  split; [split; [apply Z.div_pos; lia|apply Z.div_lt_upper_bound; lia]|]. lia.
Qed.

(** Decoding inverts encoding whatever the case of the letters. *)
Lemma DecodeString_upper b hs :
  Forall is_byte b -> (2 * length b <= length hs)%nat ->
  DecodeString (zip_with checksumChar (EncodeToString b) hs) = (b, true).
Proof.
  intros Hb. revert hs. induction Hb as [|x b Hx _ IH]; intros hs Hl; [done|].
  destruct hs as [|h1 [|h2 hs]]; simpl in Hl; [lia|lia|].
  destruct (nibbles_of_byte x Hx) as (H1 & H2 & E). rewrite EncodeToString_cons. cbn [zip_with DecodeString].
  rewrite !fromHexChar_upper by done. rewrite IH by lia. by rewrite E.
Qed.

Lemma DecodeString_Encode b : Forall is_byte b -> DecodeString (EncodeToString b) = (b, true).
Proof.
  induction 1 as [|x b Hx _ IH]; [done|]. destruct (nibbles_of_byte x Hx) as (H1 & H2 & E).
  rewrite EncodeToString_cons. cbn [DecodeString]. rewrite !fromHexChar_digit by done. rewrite IH. by rewrite E.
Qed.

Lemma TrimPrefix0x_app s : TrimPrefix0x (str "0x" ++ s) = s.
Proof. done. Qed.

Lemma stringToBytes_even s b :
  Nat.even (length s) = true -> DecodeString s = (b, true) -> stringToBytes (str "0x" ++ s) = b.
Proof.
  intros Hl E. unfold stringToBytes. rewrite TrimPrefix0x_app, <- Nat.negb_even, Hl. simpl. by rewrite E.
Qed.

Lemma even_double n : Nat.even (2 * n) = true.
Proof. apply Nat.even_spec. by exists n. Qed.

Lemma parseDigits_app base acc s c :
  parseDigits base acc (s ++ [c]) = (v ← parseDigits base acc s; d ← digitOf base c; Some (v * base + d)).
Proof.
  revert acc. induction s as [|x s IH]; intros acc; simpl; [by destruct (digitOf base c)|].
  destruct (digitOf base x); [|done]. apply IH.
Qed.

Lemma digitOf_hexDigit base n : 2 <= base <= 16 -> 0 <= n < base -> digitOf base (hexDigit n) = Some n.
Proof.
  intros Hb Hn. unfold digitOf. rewrite fromHexChar_digit by lia. simpl. by rewrite (proj2 (Z.ltb_lt _ _)) by lia.
Qed.

Lemma digitLoop_parse base n x :
  2 <= base <= 16 -> 0 <= x < 2 ^ Z.of_nat n -> (0 < n)%nat -> parseDigits base 0 (digitLoop base n x) = Some x.
Proof.
  intros Hb. revert x. induction n as [|n IH]; intros x Hx Hn; [lia|]. cbn [digitLoop]. destruct (Z.ltb_spec x base).
  - cbn [parseDigits]. rewrite digitOf_hexDigit by lia. done.
  - assert (0 < n)%nat by (destruct n; [change (2 ^ Z.of_nat 1) with 2 in Hx; lia|lia]).
    rewrite parseDigits_app, IH; [|split; [apply Z.div_pos; lia|]|done].
    + cbn [mbind option_bind]. rewrite digitOf_hexDigit by (done || apply Z.mod_pos_bound; lia).
      cbn [mbind option_bind]. f_equal. pose proof (Z_div_mod_eq_full x base). lia.
    + apply Z.div_lt_upper_bound; [lia|]. rewrite Nat2Z.inj_succ, Z.pow_succ_r in Hx by lia. nia.
Qed.

Lemma format_parse base x : 2 <= base <= 16 -> 0 <= x -> parseDigits base 0 (format base x) = Some x.
Proof.
  intros Hb Hx. unfold format. apply digitLoop_parse; [done| |lia]. split; [done|].
  rewrite Nat2Z.inj_succ, Z2Nat.id by apply Z.log2_nonneg. destruct (decide (x = 0)) as [->|]; [done|].
  apply Z.log2_spec. lia.
Qed.

Lemma format_nonempty base x : format base x <> [].
Proof. unfold format. cbn [digitLoop]. destruct (x <? base); [done|]. intros H. by apply app_eq_nil in H as [_ ?]. Qed.

Lemma formatHex_parse x : 0 <= x -> parseDigits 16 0 (formatHex x) = Some x.
Proof. intros Hx. apply format_parse; lia. Qed.

Lemma formatHex_nonempty x : formatHex x <> [].
Proof. apply format_nonempty. Qed.

(** The first digit of a number is not a sign. *)
Lemma digitLoop_head base n x c s : 2 <= base <= 16 -> 0 <= x -> digitLoop base n x = c :: s -> 48 <= c.
Proof.
  intros Hb. revert x c s. induction n as [|n IH]; intros x c s Hx; [done|]. cbn [digitLoop]. destruct (x <? base).
  - intros [= <- <-]. unfold hexDigit. destruct (x <? 10) eqn:E; lia.
  - destruct (digitLoop base n (x / base)) as [|c' s'] eqn:E.
    + intros [= <- <-]. pose proof (Z.mod_pos_bound x base). unfold hexDigit. destruct (_ <? 10) eqn:E'; lia.
    + intros [= <- <-]. apply (IH (x / base) c' s'); [apply Z.div_pos; lia|done].
Qed.

Lemma ParseUint_formatHex x : is_u64 x -> ParseUint (formatHex x) 16 = Some x.
Proof.
  intros [H1 H2]. unfold ParseUint. destruct (formatHex x) as [|c s] eqn:E; [by apply formatHex_nonempty in E|].
  rewrite <- E, formatHex_parse by done. simpl. by rewrite (proj2 (Z.ltb_lt _ _)).
Qed.

Lemma ParseUint64orHex_Encode x : is_u64 x -> ParseUint64orHex (Some (EncodeUint64 x)) = Some x.
Proof. apply ParseUint_formatHex. Qed.

Lemma SetString_format base x : 2 <= base <= 16 -> 0 <= x -> SetString (format base x) base = Some x.
Proof.
  intros Hb Hx. unfold SetString. destruct (format base x) as [|c s] eqn:E; [by apply format_nonempty in E|].
  pose proof (digitLoop_head _ _ _ _ _ Hb Hx E) as Hc. rewrite !(proj2 (Z.eqb_neq _ _)) by lia.
  rewrite <- E. by apply format_parse.
Qed.

Lemma SetString_formatHex x : 0 <= x -> SetString (formatHex x) 16 = Some x.
Proof. intros Hx. apply SetString_format; lia. Qed.

Lemma SetString_Text base x : 2 <= base <= 16 -> SetString (Text base x) base = Some x.
Proof.
  intros Hb. unfold Text. destruct (Z.ltb_spec x 0); [|by apply SetString_format]. cbn [SetString].
  destruct (format base (- x)) as [|c s] eqn:E; [by apply format_nonempty in E|]. rewrite <- E.
  change (45 =? 45) with true. cbv iota. rewrite format_parse by lia. simpl. f_equal. lia.
Qed.

Lemma SetString_Text16 x : SetString (Text16 x) 16 = Some x.
Proof. apply SetString_Text. lia. Qed.

Lemma ParseUint256orHex_Encode x : ParseUint256orHex (Some (EncodeBigInt x)) = Some (Some x).
Proof.
  unfold ParseUint256orHex, EncodeBigInt. change (HasPrefix0x _) with true.
  change (drop 2 (str "0x" ++ Text16 x)) with (Text16 x). by rewrite SetString_Text16.
Qed.

Lemma ParseBytes_Encode b : Forall is_byte b -> ParseBytes (Some (EncodeBytes b)) = Some b.
Proof.
  intros Hb. unfold ParseBytes, EncodeBytes. rewrite TrimPrefix0x_app. by rewrite DecodeString_Encode.
Qed.

Lemma StringToHash_String h : is_hash h -> StringToHash (Hash_String h) = h.
Proof.
  intros [Hl Hb]. unfold StringToHash, Hash_String, EncodeToHex.
  rewrite (stringToBytes_even _ h); [by apply BytesToHash_hash| |by apply DecodeString_Encode].
  rewrite length_EncodeToString. apply even_double.
Qed.

Section facts.
Context `{KK : !Keccak}.

Lemma stringToBytes_Address a : is_address a -> stringToBytes (Address_String a) = a.
Proof.
  intros [Hl Hb]. unfold Address_String, checksumEncode.
  change (drop 2 (EncodeToHex a)) with (EncodeToString a).
  set (h := keccak256 (EncodeToString a)). change (drop 2 (EncodeToHex h)) with (EncodeToString h).
  assert (Hhs : length (EncodeToString h) = 64%nat).
  { rewrite length_EncodeToString. unfold h. by rewrite (proj1 (keccak256_hash _)). }
  apply stringToBytes_even.
  - rewrite length_zip_with_l; [rewrite length_EncodeToString; apply even_double|].
    rewrite length_EncodeToString, Hl, Hhs; unfold AddressLength; lia.
  - apply DecodeString_upper; [done|]. rewrite Hl, Hhs. unfold AddressLength. lia.
Qed.

Lemma Address_UnmarshalText_String a : is_address a -> Address_UnmarshalText (Address_String a) = Some a.
Proof.
  intros Ha. unfold Address_UnmarshalText. rewrite stringToBytes_Address by done.
  rewrite (proj1 Ha), Nat.eqb_refl. simpl. f_equal. by apply BytesToAddress_address.
Qed.

Lemma StringToAddress_String a : is_address a -> StringToAddress (Address_String a) = a.
Proof.
  intros Ha. unfold StringToAddress. rewrite stringToBytes_Address by done. by apply BytesToAddress_address.
Qed.
End facts.
