(* ===== verification/Rlp.v ===== *)
(** The RLP format: what github.com/dogechain-lab/fastrlp writes, as laws of its
    values, and a codec with these laws, the instance the model is evaluated with. *)

From S2P Require Import Prelude Types Crypto.

(** ** The format *)

(** The header of a payload of [n] bytes: its length in one byte, or the length of
    its length and its length. *)
Definition rlpHeader (short long n : Z) : bytes :=
  if n <? 56 then [short + n] else (long + zlen (big_bytes n)) :: big_bytes n.

(** A byte below 128 is its own encoding. *)
Definition rlpBytes (b : bytes) : bytes :=
  match b with
  | [x] => if x <? 128 then [x] else rlpHeader 0x80 0xb7 1 ++ b
  | _ => rlpHeader 0x80 0xb7 (zlen b) ++ b
  end.

(** The payloads of a 64-bit length are marshalled in the format, an array is longer
    than its elements, and [Len] tells the arrays of fewer than 32 bytes from the
    others. *)
Class RlpFormat `{RL : !FastRlp} := {
  MarshalTo_NewBytes : forall b, zlen b < two64 -> MarshalTo (NewBytes b) = rlpBytes b;
  MarshalTo_NewArray : forall l, let p := concat (map MarshalTo l) in
    zlen p < two64 -> MarshalTo (NewArray l) = rlpHeader 0xc0 0xf7 (zlen p) ++ p;
  MarshalTo_NewNull : MarshalTo NewNull = [0x80];
  MarshalTo_NewUint : forall n, is_u64 n -> MarshalTo (NewUint n) = rlpBytes (big_bytes n);
  MarshalTo_elem : forall l v, v ∈ l -> (length (MarshalTo v) < length (MarshalTo (NewArray l)))%nat;
  Len_NewArray : forall l, Len (NewArray l) < 32 <-> zlen (MarshalTo (NewArray l)) < 32;
}.

(** ** A codec *)

Module RlpCodec.

Inductive item := IBytes (b : bytes) | IArray (l : list item).

(** Longer payloads than the format has are marked by a header of two numbers. *)
Definition frame (short long tag : Z) (p : bytes) : bytes :=
  (if zlen p <? two64 then rlpHeader short long (zlen p) else [tag; zlen p]) ++ p.

Fixpoint encodeItem (v : item) : bytes :=
  match v with
  | IBytes [x] => if x <? 128 then [x] else frame 0x80 0xb7 256 [x]
  | IBytes b => frame 0x80 0xb7 256 b
  | IArray l => frame 0xc0 0xf7 257 (concat (map encodeItem l))
  end.

(** Whether an array comes, the length of its payload, and what follows the header. *)
Definition header (b : bytes) : option (bool * Z * bytes) :=
  match b with
  | [] => None
  | x :: r =>
      if x <? 0xb8 then Some (false, x - 0x80, r)
      else if x <? 0xc0 then
        let k := Z.to_nat (x - 0xb7) in Some (false, set_bytes (take k r), drop k r)
      else if x <? 0xf8 then Some (true, x - 0xc0, r)
      else if x <? 256 then
        let k := Z.to_nat (x - 0xf7) in Some (true, set_bytes (take k r), drop k r)
      else match r with n :: r => Some (negb (x =? 256), n, r) | [] => None end
  end.

Fixpoint decodeItem (fuel : nat) (b : bytes) : option (item * bytes) :=
  match fuel, b with
  | S fuel, x :: r =>
      if x <? 128 then Some (IBytes [x], r)
      else
        '(arr, n, r) ← header b;
        let p := take (Z.to_nat n) r in
        if n <=? zlen r then
          if (arr : bool) then l ← decodeItems fuel p; Some (IArray l, drop (Z.to_nat n) r)
          else Some (IBytes p, drop (Z.to_nat n) r)
        else None
  | _, _ => None
  end
with decodeItems (fuel : nat) (b : bytes) : option (list item) :=
  match fuel, b with
  | S fuel, [] => Some []
  | S fuel, _ => '(v, r) ← decodeItem fuel b; l ← decodeItems fuel r; Some (v :: l)
  | O, _ => None
  end.

Definition decode (b : bytes) : option item :=
  match decodeItem (2 * length b) b with Some (v, []) => Some v | _ => None end.

(** *** Decoding inverts encoding *)

Lemma big_bytes_pos n : 0 < n -> (0 < length (big_bytes n))%nat.
Proof.
  intros Hn. destruct (big_bytes n) eqn:E; [|simpl; lia].
  pose proof (set_bytes_big_bytes n ltac:(lia)) as H. rewrite E in H.
  change (0 = n) in H. lia.
Qed.

Lemma header_frame (arr : bool) p rest :
  let short := if arr then 0xc0 else 0x80 in
  let long := if arr then 0xf7 else 0xb7 in
  let tag := if arr then 257 else 256 in
  (exists x q, frame short long tag p ++ rest = x :: q /\ 128 <= x) /\
  header (frame short long tag p ++ rest) = Some (arr, zlen p, p ++ rest).
Proof.
  intros short long tag. unfold frame, rlpHeader.
  assert (0 <= zlen p) by (unfold zlen; lia).
  destruct (Z.ltb_spec (zlen p) two64) as [Hlt|].
  - destruct (Z.ltb_spec (zlen p) 56).
    + split; [do 2 eexists; split; [done|]; subst short; destruct arr; lia|].
      simpl. subst short. destruct arr.
      * destruct (Z.ltb_spec (192 + zlen p) 184), (Z.ltb_spec (192 + zlen p) 192),
          (Z.ltb_spec (192 + zlen p) 248); try lia. do 3 f_equal. lia.
      * destruct (Z.ltb_spec (128 + zlen p) 184); try lia. do 3 f_equal. lia.
    + set (n := zlen p) in *.
      pose proof (big_bytes_pos n ltac:(lia)).
      pose proof (length_big_bytes n 8 ltac:(unfold two64 in Hlt; lia)).
      assert (Hz : 1 <= zlen (big_bytes n) <= 8) by (unfold zlen; lia).
      split; [do 2 eexists; split; [done|]; subst long; destruct arr; lia|].
      cbn [app header]. rewrite <- app_assoc. subst long. destruct arr.
      * destruct (Z.ltb_spec (247 + zlen (big_bytes n)) 184), (Z.ltb_spec (247 + zlen (big_bytes n)) 192),
          (Z.ltb_spec (247 + zlen (big_bytes n)) 248), (Z.ltb_spec (247 + zlen (big_bytes n)) 256); try lia.
        replace (Z.to_nat (247 + zlen (big_bytes n) - 247)) with (length (big_bytes n)) by (unfold zlen; lia).
        by rewrite take_app_length, drop_app_length, set_bytes_big_bytes by lia.
      * destruct (Z.ltb_spec (183 + zlen (big_bytes n)) 184), (Z.ltb_spec (183 + zlen (big_bytes n)) 192);
          try lia.
        replace (Z.to_nat (183 + zlen (big_bytes n) - 183)) with (length (big_bytes n)) by (unfold zlen; lia).
        by rewrite take_app_length, drop_app_length, set_bytes_big_bytes by lia.
  - split; [do 2 eexists; split; [done|]; subst tag; destruct arr; lia|].
    simpl. by destruct arr.
Qed.

Lemma encodeItem_cons v rest : exists x q, encodeItem v ++ rest = x :: q.
Proof.
  assert (H : forall (arr : bool) p, exists x q, frame (if arr then 0xc0 else 0x80) (if arr then 0xf7 else 0xb7)
    (if arr then 257 else 256) p ++ rest = x :: q).
  { intros arr p. destruct (header_frame arr p rest) as [(x & q & E & _) _]. eauto. }
  destruct v as [[|x [|y b]]|l]; cbn [encodeItem].
  - apply (H false).
  - destruct (x <? 128); [by do 2 eexists|apply (H false)].
  - apply (H false).
  - apply (H true).
Qed.

Lemma length_frame short long tag p : (length p < length (frame short long tag p))%nat.
Proof.
  unfold frame, rlpHeader. rewrite length_app.
  destruct (zlen p <? two64); [destruct (zlen p <? 56)|]; simpl; lia.
Qed.

(** What follows a frame's header. *)
Lemma decode_frame fuel (arr : bool) p rest :
  decodeItem (S fuel) (frame (if arr then 0xc0 else 0x80) (if arr then 0xf7 else 0xb7)
    (if arr then 257 else 256) p ++ rest) =
  if arr then l ← decodeItems fuel p; Some (IArray l, rest) else Some (IBytes p, rest).
Proof.
  destruct (header_frame arr p rest) as [(x & q & E & Hx) Hh]. cbn [decodeItem].
  rewrite Hh. rewrite E. destruct (Z.ltb_spec x 128); [lia|]. simpl.
  destruct (Z.leb_spec (zlen p) (zlen (p ++ rest))) as [_|Hl];
    [|unfold zlen in Hl; rewrite length_app in Hl; lia].
  unfold zlen. rewrite Nat2Z.id, take_app_length, drop_app_length. done.
Qed.

Lemma decode_encode_fuel fuel :
  (forall v rest, (2 * length (encodeItem v) <= fuel)%nat ->
     decodeItem fuel (encodeItem v ++ rest) = Some (v, rest)) /\
  (forall l, (2 * length (concat (map encodeItem l)) + 1 <= fuel)%nat ->
     decodeItems fuel (concat (map encodeItem l)) = Some l).
Proof.
  induction fuel as [|fuel [IHv IHl]]; (split; [intros v rest|intros l]); intros Hf.
  - destruct (encodeItem_cons v []) as (x & q & E). rewrite app_nil_r in E. rewrite E in Hf. simpl in Hf. lia.
  - lia.
  - destruct v as [b|l].
    + assert (Hb : decodeItem (S fuel) (frame 0x80 0xb7 256 b ++ rest) = Some (IBytes b, rest))
        by exact (decode_frame fuel false b rest).
      destruct b as [|x [|y b]]; try exact Hb. cbn [encodeItem] in *.
      destruct (Z.ltb_spec x 128) as [Hx|]; [|exact Hb]. simpl. by destruct (Z.ltb_spec x 128); [|lia].
    + cbn [encodeItem] in *. rewrite (decode_frame fuel true), IHl; [done|].
      pose proof (length_frame 0xc0 0xf7 257 (concat (map encodeItem l))). lia.
  - destruct l as [|v l]; [done|]. simpl in Hf. cbn [concat map decodeItems]. simpl.
    rewrite length_app in Hf.
    destruct (encodeItem_cons v (concat (map encodeItem l))) as (x & q & E).
    destruct (encodeItem_cons v []) as (x' & q' & E'). rewrite app_nil_r in E'.
    assert (1 <= length (encodeItem v))%nat by (rewrite E'; simpl; lia).
    change (concat (map encodeItem (v :: l))) with (encodeItem v ++ concat (map encodeItem l)).
    rewrite E. rewrite <- E. rewrite IHv by lia. simpl. by rewrite IHl by lia.
Qed.

Lemma decode_encode v : decode (encodeItem v) = Some v.
Proof.
  unfold decode. destruct (decode_encode_fuel (2 * length (encodeItem v))) as [H _].
  specialize (H v [] ltac:(lia)). rewrite app_nil_r in H. by rewrite H.
Qed.

#[export, refine] Instance rlp : FastRlp := {
  Value := item;
  NewArray := IArray;
  NewBytes := IBytes;
  NewUint n := IBytes (big_bytes n);
  NewBigInt n := IBytes (big_bytes n);
  NewNull := IBytes [];
  NewNullArray := IArray [];
  MarshalTo := encodeItem;
  Parse := decode;
  GetElems v := match v with IArray l => Some l | _ => None end;
  GetBytes v := match v with IBytes b => Some b | _ => None end;
  GetUint64 v :=
    match v with
    | IBytes b => if (length b <=? 8)%nat then Some (u64 (set_bytes b)) else None
    | _ => None
    end;
  GetBigInt v := match v with IBytes b => Some (set_bytes b) | _ => None end;
  GetHash v :=
    match v with IBytes b => if (length b =? 32)%nat then Some b else None | _ => None end;
  GetAddr v :=
    match v with IBytes b => if (length b =? 20)%nat then Some b else None | _ => None end;
  GetBytesOf n v :=
    match v with IBytes b => if zlen b =? n then Some b else None | _ => None end;
  Len v := match v with IBytes b => zlen b | IArray _ => zlen (encodeItem v) end;
  norm v := v;
}.
Proof.
  - apply decode_encode.
  - intros l. by rewrite map_id.
  - done.
  - done.
  - done.
  - done.
  - done.
  - done.
  - done.
  - done.
  - done.
  - done.
  - intros n Hn. pose proof (length_big_bytes n 8 ltac:(exact Hn)).
    destruct (Nat.leb_spec (length (big_bytes n)) 8); [|lia].
    rewrite set_bytes_big_bytes by (unfold is_u64 in Hn; lia). by rewrite u64_small.
  - intros n Hn. by rewrite set_bytes_big_bytes by lia.
  - intros h [Hl _]. by rewrite Hl.
  - intros a [Hl _]. by rewrite Hl.
  - intros n b <-. by rewrite Z.eqb_refl.
  - done.
  - intros b Hb Hl. unfold zlen in Hl. destruct (Nat.leb_spec (length b) 8); [|lia].
    f_equal. apply u64_small. pose proof (set_bytes_bound b Hb). unfold is_u64. rewrite two64_256.
    pose proof (Z.pow_le_mono_r 256 (zlen b) 8). unfold zlen in *. lia.
  - intros v n. destruct v as [b|]; [|done]. destruct (length b <=? 8)%nat; [|done].
    intros [= <-]. apply u64_range.
  - intros v h. destruct v as [b|]; [|done]. destruct (Nat.eqb_spec (length b) 32); [|done]. by intros [= <-].
  - intros v h. destruct v as [b|]; [|done]. destruct (Nat.eqb_spec (length b) 20); [|done]. by intros [= <-].
  - intros n v c. destruct v as [b|]; [|done]. destruct (Z.eqb_spec (zlen b) n); [|done]. by intros [= <-].
Defined.

Lemma encode_bytes b : zlen b < two64 -> encodeItem (IBytes b) = rlpBytes b.
Proof.
  intros Hb. assert (H : frame 0x80 0xb7 256 b = rlpHeader 0x80 0xb7 (zlen b) ++ b).
  { unfold frame. destruct (Z.ltb_spec (zlen b) two64); [done|lia]. }
  destruct b as [|x [|y b]]; exact H || by simpl; destruct (x <? 128).
Qed.

#[export] Instance rlp_format : RlpFormat.
Proof.
  split.
  - apply encode_bytes.
  - intros l p Hp. change (frame 0xc0 0xf7 257 p = rlpHeader 0xc0 0xf7 (zlen p) ++ p).
    unfold frame. destruct (Z.ltb_spec (zlen p) two64); [done|lia].
  - done.
  - intros n Hn. apply encode_bytes. pose proof (length_big_bytes n 8 ltac:(exact Hn)).
    unfold zlen, two64. lia.
  - intros l v Hv. cbn [MarshalTo NewArray rlp encodeItem].
    eapply Nat.le_lt_trans; [|apply length_frame].
    induction Hv as [v l|v u l _ IH]; simpl; rewrite length_app; lia.
  - done.
Qed.
End RlpCodec.
