(* ===== verification/Slice.v ===== *)
(** Byte slices with their capacity. The EVM's memory and jump-destination bitmap
    live in pooled buffers whose capacity outlives a run, so both the length and
    the backing array are part of the model. *)

From S2P Require Import Prelude Types.

(** The capacity [append] gives to a slice that has to grow to [n] elements is
    chosen by the Go runtime; the code relies only on it being large enough. *)
Class GoAlloc := {
  growcap : Z -> Z;
  growcap_ge : forall n, n <= growcap n;
}.

(** [arr] is the backing array (its length is the capacity), [slen] the length. *)
Record slice := mkSlice { arr : list Z; slen : Z }.

Definition cap (s : slice) : Z := zlen (arr s).
Definition contents (s : slice) : bytes := take (Z.to_nat (slen s)) (arr s).
Definition nil_slice : slice := mkSlice [] 0.

(** [for i := range b { b[i] = 0 }; b = b[:0]] *)
Definition clear_slice (s : slice) : slice :=
  mkSlice (replicate (Z.to_nat (slen s)) 0 ++ drop (Z.to_nat (slen s)) (arr s)) 0.

(** [b[i]] and [b[i] = v]; [None] is the index-out-of-range panic. *)
Definition slice_index (s : slice) (i : Z) : option Z :=
  if (0 <=? i) && (i <? slen s) then arr s !! Z.to_nat i else None.
Definition slice_store (s : slice) (i v : Z) : option slice :=
  if (0 <=? i) && (i <? slen s)
  then Some (mkSlice (<[Z.to_nat i := v]> (arr s)) (slen s)) else None.

(** [copy(b[o:...], d)] once the slice bounds have been checked. *)
Definition slice_write (s : slice) (o : Z) (d : bytes) : slice :=
  mkSlice (copy_at (Z.to_nat o) d (arr s)) (slen s).

Section extend.
Context `{GA : !GoAlloc}.

(** [extendByteSlice] of state/runtime/evm/state.go: reuse the whole capacity
    and append zeros for what is missing. *)
Definition extendByteSlice (b : slice) (needLen : Z) : slice :=
  let n := needLen - cap b in
  let a :=
    if 0 <? n
    then arr b ++ replicate (Z.to_nat (growcap needLen - cap b)) 0
    else arr b in
  mkSlice a needLen.
End extend.

(** The bytes beyond the length are zero: what [extendByteSlice] relies on when it
    re-slices a pooled buffer. *)
Definition slice_ok (s : slice) : Prop :=
  0 <= slen s <= cap s /\ Forall is_byte (arr s) /\
  Forall (eq 0) (drop (Z.to_nat (slen s)) (arr s)).

(** ** Lemmas *)

Lemma length_contents s : slice_ok s -> zlen (contents s) = slen s.
Proof.
  intros [H _]. unfold contents, cap, zlen in *. rewrite length_take. lia.
Qed.

Lemma contents_is_byte s : slice_ok s -> Forall is_byte (contents s).
Proof. intros (_ & H & _). by apply Forall_take. Qed.

Lemma nil_slice_ok : slice_ok nil_slice.
Proof. split; [unfold cap, zlen; simpl; lia | split; constructor]. Qed.

Lemma clear_slice_ok s : slice_ok s -> slice_ok (clear_slice s).
Proof.
  intros ([H0 H1] & Hb & Hz). split; [|split]; simpl.
  - unfold cap, zlen; simpl. rewrite length_app. lia.
  - apply Forall_app; split; [|by apply Forall_drop].
    apply Forall_replicate. unfold is_byte; lia.
  - rewrite drop_0. apply Forall_app; split; [by apply Forall_replicate | done].
Qed.

Lemma zeros_replicate l n : Forall (eq 0) l -> length l = n -> l = replicate n 0.
Proof.
  intros H <-. induction H; simpl; [done|]. by f_equal.
Qed.

Section extend_lemmas.
Context `{GA : !GoAlloc}.

Lemma extend_ok s n :
  slice_ok s -> slen s <= n ->
  slice_ok (extendByteSlice s n) /\
  slen (extendByteSlice s n) = n /\
  contents (extendByteSlice s n) =
    contents s ++ replicate (Z.to_nat (n - slen s)) 0.
Proof.
  intros (Hl & Hb & Hz) Hn.
  assert (Hext : exists k, arr (extendByteSlice s n) = arr s ++ replicate k 0 /\
            n <= zlen (arr s ++ replicate k 0)).
  { unfold extendByteSlice. simpl. destruct (Z.ltb_spec 0 (n - cap s)).
    - eexists; split; [done|]. pose proof (growcap_ge n).
      unfold cap, zlen in *. rewrite length_app, length_replicate. lia.
    - exists 0%nat. simpl. rewrite app_nil_r. unfold cap in *. split; [done|lia]. }
  destruct Hext as (k & Harr & Hk).
  assert (Hsl : slen (extendByteSlice s n) = n) by done.
  assert (Hdrop : Forall (eq 0) (drop (Z.to_nat (slen s)) (arr s ++ replicate k 0))).
  { rewrite drop_app_le by (unfold cap, zlen in *; lia).
    apply Forall_app; split; [done | by apply Forall_replicate]. }
  split; [|split; [done|]].
  - split; [|split].
    + unfold cap. rewrite Harr, Hsl. lia.
    + rewrite Harr. apply Forall_app; split; [done|].
      apply Forall_replicate. unfold is_byte; lia.
    + rewrite Harr, Hsl. replace (Z.to_nat n) with
        (Z.to_nat (slen s) + Z.to_nat (n - slen s))%nat by lia.
      rewrite <- drop_drop. by apply Forall_drop.
  - unfold contents. rewrite Harr, Hsl.
    replace (Z.to_nat n) with (Z.to_nat (slen s) + Z.to_nat (n - slen s))%nat by lia.
    rewrite <- take_take_drop. f_equal.
    { rewrite take_app_le by (unfold cap, zlen in *; lia). done. }
    apply zeros_replicate; [by apply Forall_take|].
    rewrite length_take, length_drop. unfold zlen in Hk. lia.
Qed.
End extend_lemmas.

Lemma length_copy {A} o (d l : list A) :
  (o + length d <= length l)%nat -> length (copy_at o d l) = length l.
Proof. intros. apply length_copy_at. lia. Qed.

Lemma slice_write_contents s o d :
  slice_ok s -> 0 <= o -> o + zlen d <= slen s ->
  contents (slice_write s o d) = copy_at (Z.to_nat o) d (contents s).
Proof.
  intros ([H0 H1] & _) Ho Hd. unfold contents, slice_write, cap, zlen in *. simpl.
  rewrite !copy_at_exact by (rewrite ?length_take; lia).
  rewrite take_take, Nat.min_l by lia.
  rewrite take_app, take_ge by (rewrite length_take; lia). f_equal.
  rewrite length_take, Nat.min_l by lia.
  rewrite take_app, take_ge by lia. f_equal.
  rewrite skipn_firstn_comm. f_equal. lia.
Qed.

Lemma slice_write_ok s o d :
  slice_ok s -> Forall is_byte d -> 0 <= o -> o + zlen d <= slen s ->
  slice_ok (slice_write s o d).
Proof.
  intros ([H0 H1] & Hb & Hz) Hd Ho Hl. unfold cap, zlen in *.
  split; [|split]; simpl.
  - unfold cap, zlen; simpl. rewrite length_copy by lia. lia.
  - rewrite copy_at_exact by lia.
    repeat (apply Forall_app; split); auto using Forall_take, Forall_drop.
  - rewrite copy_at_exact by lia. rewrite !drop_app.
    rewrite length_take_le by lia. rewrite (drop_ge (take _ _)), (drop_ge d)
      by (rewrite ?length_take; lia). simpl. rewrite drop_drop.
    match goal with |- Forall _ (drop ?n _) =>
      replace n with (Z.to_nat (slen s)) by lia end. done.
Qed.
