(* ===== verification/Instances.v ===== *)
(** Concrete instances of the parameters, for evaluating the model: an allocator
    that grows to exactly what is asked for, a constant digest, the RLP codec, and a
    host of an empty world. *)

From S2P Require Import Prelude Types Chain Runtime Crypto Rlp Slice.

Module Demo.
Export (hints) RlpCodec.

#[export, refine] Instance alloc : GoAlloc := { growcap n := n }.
Proof. intros n. lia. Defined.

#[export, refine] Instance keccak : Keccak := { keccak256 _ := ZeroHash }.
Proof.
  intros _. split; [reflexivity|]. apply Forall_replicate. unfold is_byte. lia.
Defined.

(** Nothing exists, nothing can be changed. *)
#[export] Instance host : Host unit := {
  AccountExists _ _ := false;
  GetStorage _ _ _ := ZeroHash;
  SetStorage _ _ _ _ w := (StorageUnchanged, w);
  GetBalance _ _ := 0;
  GetCodeSize _ _ := 0;
  GetCodeHash _ _ := ZeroHash;
  GetCode _ _ := [];
  Selfdestruct _ _ w := w;
  GetTxContext _ := mkTxContext ZeroHash ZeroAddress ZeroAddress 0 0 0 0 ZeroHash;
  GetBlockHash _ _ := ZeroHash;
  EmitLog _ _ _ w := w;
  Empty _ _ := true;
  GetNonce _ _ := 0;
}.

(** Every callee returns at once, with all its gas. *)
Definition callx : CallxT unit := fun c => mret (mkResult [] (c_Gas c) 0 None).

#[export] Instance callx_gas_ok : CallxGas callx.
Proof. intros c w r Hu [= <-]. unfold is_u64 in Hu. simpl. lia. Qed.

(** The rules of the latest fork. *)
Definition forks : ForksInTime := At AllForksEnabled 50000.

(** A frame running [code] with [gas]. *)
Definition frame (code : bytes) (gas : Z) : Contract :=
  NewContract 1 ZeroAddress ZeroAddress ZeroAddress (Some 0) gas code.
End Demo.
