(* ===== verification/Bitmap.v ===== *)
(** The jump-destination bitmap of state/runtime/evm/bitmap.go: one bit per code
    byte, set for the JUMPDEST bytes that are instructions and not push data. *)

From S2P Require Import Prelude Types Slice.

Definition bitmapSize : Z := 8.

(** The index expressions panic ([None]) past the end of the buffer. *)
Definition isSet (b : slice) (i : Z) : option bool :=
  match slice_index b (i / bitmapSize) with
  | Some x => Some (negb (Z.land x (Z.shiftl 1 (i mod bitmapSize)) =? 0))
  | None => None
  end.

Definition set (b : slice) (i : Z) : option slice :=
  match slice_index b (i / bitmapSize) with
  | Some x => slice_store b (i / bitmapSize) (Z.lor x (Z.shiftl 1 (i mod bitmapSize)))
  | None => None
  end.

Definition bm_reset (b : slice) : slice := clear_slice b.

Definition isPushOp (i : Z) : bool := Z.shiftr i 5 =? 3.

(** The loop of [setCode]; every round advances [i], so as many rounds as the
    code has bytes are enough. *)
Fixpoint setCode_loop (fuel : nat) (code : bytes) (i : Z) (b : slice) : option slice :=
  match fuel with
  | O => Some b
  | S fuel =>
      match code !! Z.to_nat i with
      | None => Some b
      | Some c =>
          if isPushOp c then setCode_loop fuel code (i + (c - 0x60 + 2)) b
          else if c =? 0x5B then
            match set b i with
            | Some b => setCode_loop fuel code (i + 1) b
            | None => None
            end
          else setCode_loop fuel code (i + 1) b
      end
  end.

Section setCode.
Context `{GA : !GoAlloc}.

Definition setCode (b : slice) (code : bytes) : option slice :=
  let codeSize := zlen code in
  setCode_loop (length code) code 0 (extendByteSlice b (codeSize / bitmapSize + 1)).
End setCode.

(** ** Specification *)

(** The decoder started at position [i] of a code finds an instruction at [j]: a
    push skips its immediate data, any other instruction is one byte long. *)
Inductive instr_from (code : bytes) : Z -> Z -> Prop :=
| instr_here i : instr_from code i i
| instr_push i j c :
    code !! Z.to_nat i = Some c -> isPushOp c = true ->
    instr_from code (i + (c - 0x60 + 2)) j -> instr_from code i j
| instr_next i j c :
    code !! Z.to_nat i = Some c -> isPushOp c = false ->
    instr_from code (i + 1) j -> instr_from code i j.

(** The valid jump destinations: the JUMPDEST bytes the decoder of the whole code
    meets as instructions. *)
Definition jumpdest_at (code : bytes) (i : Z) : Prop :=
  instr_from code 0 i /\ code !! Z.to_nat i = Some 0x5B.

(** ** Proofs *)

(** The bit of position [j] in a bitmap buffer. *)
Definition bit_at (b : slice) (j : Z) : bool :=
  Z.testbit (nth (Z.to_nat (j / 8)) (arr b) 0) (j mod 8).

Lemma land_shiftl_1 x k : 0 <= k ->
  negb (Z.land x (Z.shiftl 1 k) =? 0) = Z.testbit x k.
Proof.
  intros Hk. rewrite Z.shiftl_1_l. destruct (Z.testbit x k) eqn:E.
  - apply negb_true_iff, Z.eqb_neq. intros H.
    assert (Z.testbit (Z.land x (2 ^ k)) k = true) as Ht.
    { rewrite Z.land_spec, E, Z.pow2_bits_true by done. done. }
    by rewrite H, Z.bits_0 in Ht.
  - apply negb_false_iff, Z.eqb_eq, Z.bits_inj'. intros n Hn.
    rewrite Z.land_spec, Z.bits_0, Z.pow2_bits_eqb by done.
    destruct (Z.eqb_spec k n) as [->|]; [by rewrite E | by rewrite andb_false_r].
Qed.

Lemma slice_index_nth b i :
  slice_ok b -> 0 <= i < slen b -> slice_index b i = Some (nth (Z.to_nat i) (arr b) 0).
Proof.
  intros (H & _) Hi. unfold slice_index.
  replace ((0 <=? i) && (i <? slen b)) with true by lia.
  unfold cap, zlen in H. destruct (arr b !! Z.to_nat i) eqn:E.
  - erewrite nth_lookup_Some by done. done.
  - apply lookup_ge_None in E. lia.
Qed.

Lemma isSet_bit b i :
  slice_ok b -> 0 <= i -> i / 8 < slen b -> isSet b i = Some (bit_at b i).
Proof.
  intros Hok Hi Hlt. unfold isSet, bitmapSize.
  assert (0 <= i / 8) by (apply Z.div_pos; lia).
  rewrite slice_index_nth by (auto; lia). rewrite land_shiftl_1; [done|].
  apply Z.mod_pos_bound. lia.
Qed.

Lemma lor_byte x k : is_byte x -> 0 <= k < 8 -> is_byte (Z.lor x (Z.shiftl 1 k)).
Proof.
  unfold is_byte. intros Hx Hk. rewrite Z.shiftl_1_l.
  assert (0 <= 2 ^ k) by (apply Z.pow_nonneg; lia).
  assert (0 <= Z.lor x (2 ^ k)) by (apply Z.lor_nonneg; lia).
  split; [done|]. destruct (Z.eq_dec (Z.lor x (2 ^ k)) 0); [lia|].
  apply (Z.log2_lt_pow2 _ 8); [lia|]. rewrite Z.log2_lor by lia.
  rewrite Z.log2_pow2 by lia.
  destruct (Z.eq_dec x 0) as [->|]; [simpl; lia|].
  assert (Z.log2 x < 8) by (apply Z.log2_lt_pow2; simpl; lia). lia.
Qed.

Lemma set_bit b i :
  slice_ok b -> 0 <= i -> i / 8 < slen b ->
  exists b', set b i = Some b' /\ slice_ok b' /\ slen b' = slen b /\
    forall j, 0 <= j -> bit_at b' j = (j =? i) || bit_at b j.
Proof.
  intros Hok Hi Hlt. assert (0 <= i / 8) by (apply Z.div_pos; lia).
  assert (Hm : 0 <= i mod 8 < 8) by (apply Z.mod_pos_bound; lia).
  unfold set, bitmapSize. rewrite slice_index_nth by (auto; lia).
  unfold slice_store. replace ((0 <=? i / 8) && (i / 8 <? slen b)) with true by lia.
  destruct Hok as ((H0 & H1) & Hb & Hz). unfold cap, zlen in H1.
  set (x := nth (Z.to_nat (i / 8)) (arr b) 0).
  assert (Hx : is_byte x).
  { unfold x. destruct (arr b !! Z.to_nat (i / 8)) eqn:E.
    - erewrite nth_lookup_Some by done. by eapply Forall_lookup_1.
    - apply lookup_ge_None in E. lia. }
  eexists; split; [done|]. split; [|split; [done|]].
  - split; [|split]; simpl.
    + unfold cap, zlen. simpl. rewrite length_insert. lia.
    + apply Forall_insert; [done | by apply lor_byte].
    + rewrite drop_insert_lt by lia. done.
  - intros j Hj. unfold bit_at. simpl.
    assert (Hjm : 0 <= j mod 8 < 8) by (apply Z.mod_pos_bound; lia).
    assert (Hjd : 0 <= j / 8) by (apply Z.div_pos; lia).
    destruct (Z.eqb_spec (j / 8) (i / 8)) as [Hd|Hd].
    + rewrite Hd. erewrite nth_lookup_Some by (apply list_lookup_insert_eq; lia).
      fold x. rewrite Z.lor_spec, Z.shiftl_1_l, Z.pow2_bits_eqb by lia.
      pose proof (Z.div_mod j 8). pose proof (Z.div_mod i 8).
      destruct (Z.eqb_spec j i) as [->|]; simpl.
      * by rewrite Z.eqb_refl, orb_true_r.
      * replace (i mod 8 =? j mod 8) with false by lia. by rewrite orb_false_r.
    + replace (j =? i) with false by (symmetry; apply Z.eqb_neq; congruence). simpl.
      f_equal. rewrite !nth_lookup.
      by rewrite list_lookup_insert_ne by lia.
Qed.

Lemma isPushOp_range c : is_byte c -> isPushOp c = true -> 0x60 <= c <= 0x7f.
Proof.
  unfold is_byte, isPushOp. intros Hc H. apply Z.eqb_eq in H.
  rewrite Z.shiftr_div_pow2 in H by lia. change (2 ^ 5) with 32 in H.
  pose proof (Z.div_mod c 32). pose proof (Z.mod_pos_bound c 32). lia.
Qed.

Lemma instr_from_inv code i j c :
  code !! Z.to_nat i = Some c -> instr_from code i j ->
  j = i \/ instr_from code (if isPushOp c then i + (c - 0x60 + 2) else i + 1) j.
Proof.
  intros Hc H. inversion H; subst; [by left| |]; right;
    match goal with H1 : code !! _ = Some ?x, H2 : isPushOp ?x = _ |- _ =>
      rewrite Hc in H1; injection H1 as <-; by rewrite H2 end.
Qed.

Lemma setCode_loop_spec fuel code i b :
  Forall is_byte code -> 0 <= i -> zlen code <= i + Z.of_nat fuel ->
  slice_ok b -> zlen code / 8 < slen b ->
  exists b', setCode_loop fuel code i b = Some b' /\ slice_ok b' /\ slen b' = slen b /\
    forall j, 0 <= j ->
      bit_at b' j = true <->
      bit_at b j = true \/ (instr_from code i j /\ code !! Z.to_nat j = Some 0x5B).
Proof.
  intros Hcode. revert i b. induction fuel as [|fuel IH]; intros i b Hi Hf Hok Hlen.
  - exists b. do 3 (split; [done|]). intros j Hj. split; [by left|].
    intros [?|[Hfrom Hj5]]; [done|]. exfalso.
    assert (Hnone : code !! Z.to_nat i = None).
    { apply lookup_ge_None. unfold zlen in Hf. lia. }
    inversion Hfrom; subst; congruence.
  - simpl. destruct (code !! Z.to_nat i) as [c|] eqn:Hc.
    2:{ exists b. do 3 (split; [done|]). intros j Hj. split; [by left|].
        intros [?|[Hfrom Hj5]]; [done|]. exfalso. inversion Hfrom; subst; congruence. }
    assert (Hb : is_byte c) by by eapply Forall_lookup_1.
    destruct (isPushOp c) eqn:Hp.
    + pose proof (isPushOp_range c Hb Hp).
      destruct (IH (i + (c - 0x60 + 2)) b) as (b' & -> & Hok' & Hl' & Hbits); [lia..|done|done|].
      exists b'. do 3 (split; [done|]). intros j Hj. rewrite Hbits by done.
      split; intros [?|[Hfrom Hj5]]; [by left| |by left|]; right; split; try done.
      * by eapply instr_push.
      * destruct (instr_from_inv code i j c Hc Hfrom) as [->|H1]; [|by rewrite Hp in H1].
        rewrite Hc in Hj5. injection Hj5 as ->. lia.
    + assert (Hlt : i < zlen code).
      { apply lookup_lt_Some in Hc. unfold zlen. lia. }
      assert (Hi8 : i / 8 < slen b).
      { eapply Z.le_lt_trans; [|exact Hlen]. apply Z.div_le_mono; lia. }
      destruct (Z.eqb_spec c 0x5B) as [->|Hne].
      * destruct (set_bit b i Hok Hi Hi8) as (b1 & -> & Hok1 & Hl1 & Hb1).
        destruct (IH (i + 1) b1) as (b' & -> & Hok' & Hl' & Hbits); [lia..|done|lia|].
        exists b'. split; [done|]. split; [done|]. split; [lia|]. intros j Hj.
        rewrite Hbits, Hb1 by done. rewrite orb_true_iff, Z.eqb_eq. split.
        -- intros [[->|?]|[Hfrom Hj5]]; [right|by left|right].
           ++ split; [constructor|done].
           ++ split; [by eapply instr_next|done].
        -- intros [?|[Hfrom Hj5]]; [by left; right|].
           destruct (instr_from_inv code i j _ Hc Hfrom) as [->|H1]; [by left; left|].
           rewrite Hp in H1. by right.
      * destruct (IH (i + 1) b) as (b' & -> & Hok' & Hl' & Hbits); [lia..|done|lia|].
        exists b'. do 3 (split; [done|]). intros j Hj. rewrite Hbits by done.
        split; intros [?|[Hfrom Hj5]]; [by left| |by left|]; right; split; try done.
        -- by eapply instr_next.
        -- destruct (instr_from_inv code i j c Hc Hfrom) as [->|H1]; [|by rewrite Hp in H1].
           congruence.
Qed.

(** A cleared buffer has no bit set. *)
Lemma bit_at_cleared b j : slice_ok b -> slen b = 0 -> bit_at b j = false.
Proof.
  intros (_ & _ & Hz) Hl. rewrite Hl in Hz. simpl in Hz. rewrite drop_0 in Hz.
  unfold bit_at. rewrite nth_lookup.
  destruct (arr b !! Z.to_nat (j / 8)) as [x|] eqn:E; simpl; [|apply Z.bits_0].
  assert (x = 0) as -> by (symmetry; exact (Forall_lookup_1 _ _ _ _ Hz E)).
  apply Z.bits_0.
Qed.

Section setCode_lemmas.
Context `{GA : !GoAlloc}.

Lemma bit_at_extend b n j :
  slice_ok b -> slen b = 0 -> 0 <= n -> bit_at (extendByteSlice b n) j = false.
Proof.
  intros Hok Hl Hn. destruct Hok as (H1 & H2 & Hz).
  rewrite Hl in Hz. simpl in Hz. rewrite drop_0 in Hz.
  assert (Hall : Forall (eq 0) (arr (extendByteSlice b n))).
  { simpl. case_match; [|done]. apply Forall_app; split; [done|by apply Forall_replicate]. }
  unfold bit_at. rewrite nth_lookup.
  destruct (arr (extendByteSlice b n) !! Z.to_nat (j / 8)) as [x|] eqn:E; [|apply Z.bits_0].
  cbn [default from_option id]. rewrite <- (Forall_lookup_1 _ _ _ _ Hall E). apply Z.bits_0.
Qed.

Lemma setCode_spec b code :
  Forall is_byte code -> slice_ok b -> slen b = 0 ->
  exists b', setCode b code = Some b' /\ slice_ok b' /\ zlen code / 8 < slen b' /\
    forall i, 0 <= i < zlen code ->
      exists v, isSet b' i = Some v /\ (v = true <-> jumpdest_at code i).
Proof.
  intros Hc Hok Hl. unfold setCode, bitmapSize.
  assert (Hpos : 0 <= zlen code / 8) by (apply Z.div_pos; unfold zlen; lia).
  destruct (extend_ok b (zlen code / 8 + 1) Hok ltac:(lia)) as (Hok1 & Hl1 & _).
  destruct (setCode_loop_spec (length code) code 0 _ Hc ltac:(lia)
              ltac:(unfold zlen; lia) Hok1 ltac:(lia)) as (b' & Hs & Hok' & Hl' & Hbits).
  exists b'. split; [done|]. split; [done|]. split; [lia|]. intros i Hi.
  exists (bit_at b' i). split.
  - apply isSet_bit; [done|lia|]. rewrite Hl', Hl1.
    assert (i / 8 <= zlen code / 8) by (apply Z.div_le_mono; lia). lia.
  - rewrite Hbits by lia. rewrite bit_at_extend by (auto; lia).
    unfold jumpdest_at. split; [by intros [?|?] | by right].
Qed.
End setCode_lemmas.
