(* ===== verification/EvmState.v ===== *)
(** The frame state of the EVM (state/runtime/evm/state.go) and the operations the
    instructions are built from: stack, gas, memory expansion, memory reads and
    jump destinations. *)

From S2P Require Import Prelude Types Chain Runtime Slice Bitmap.

Definition stackSize : Z := 1024.

(** [stack] is the live part [c.stack[:c.sp]] of the Go stack, the top first; the
    slots above [sp] are only ever reused after being overwritten. [host] is the
    world the frame's host gives access to. *)
Record state (W : Type) := mkState {
  ip : Z;
  code : bytes;
  msg : Contract;
  config : ForksInTime;
  memory : slice;
  lastGasCost : Z;
  stack : list Z;
  err : option error;
  stop : bool;
  gas : Z;
  bitmap : slice;
  returnData : bytes;
  ret : bytes;
  host : W;
}.
Arguments mkState {W}.
Arguments ip {W}. Arguments code {W}. Arguments msg {W}. Arguments config {W}.
Arguments memory {W}. Arguments lastGasCost {W}. Arguments stack {W}.
Arguments err {W}. Arguments stop {W}. Arguments gas {W}. Arguments bitmap {W}.
Arguments returnData {W}. Arguments ret {W}. Arguments host {W}.

Section setters.
Context {W : Type}.
Implicit Types s : state W.

Definition set_ip v s := mkState v (code s) (msg s) (config s) (memory s)
  (lastGasCost s) (stack s) (err s) (stop s) (gas s) (bitmap s) (returnData s) (ret s) (host s).
Definition set_memory v s := mkState (ip s) (code s) (msg s) (config s) v
  (lastGasCost s) (stack s) (err s) (stop s) (gas s) (bitmap s) (returnData s) (ret s) (host s).
Definition set_lastGasCost v s := mkState (ip s) (code s) (msg s) (config s) (memory s)
  v (stack s) (err s) (stop s) (gas s) (bitmap s) (returnData s) (ret s) (host s).
Definition set_stack v s := mkState (ip s) (code s) (msg s) (config s) (memory s)
  (lastGasCost s) v (err s) (stop s) (gas s) (bitmap s) (returnData s) (ret s) (host s).
Definition set_err v s := mkState (ip s) (code s) (msg s) (config s) (memory s)
  (lastGasCost s) (stack s) v (stop s) (gas s) (bitmap s) (returnData s) (ret s) (host s).
Definition set_stop v s := mkState (ip s) (code s) (msg s) (config s) (memory s)
  (lastGasCost s) (stack s) (err s) v (gas s) (bitmap s) (returnData s) (ret s) (host s).
Definition set_gas v s := mkState (ip s) (code s) (msg s) (config s) (memory s)
  (lastGasCost s) (stack s) (err s) (stop s) v (bitmap s) (returnData s) (ret s) (host s).
Definition set_bitmap v s := mkState (ip s) (code s) (msg s) (config s) (memory s)
  (lastGasCost s) (stack s) (err s) (stop s) (gas s) v (returnData s) (ret s) (host s).
Definition set_returnData v s := mkState (ip s) (code s) (msg s) (config s) (memory s)
  (lastGasCost s) (stack s) (err s) (stop s) (gas s) (bitmap s) v (ret s) (host s).
Definition set_ret v s := mkState (ip s) (code s) (msg s) (config s) (memory s)
  (lastGasCost s) (stack s) (err s) (stop s) (gas s) (bitmap s) (returnData s) v (host s).
Definition set_host (v : W) s : state W := mkState (ip s) (code s) (msg s) (config s) (memory s)
  (lastGasCost s) (stack s) (err s) (stop s) (gas s) (bitmap s) (returnData s) (ret s) v.
End setters.

(** An EVM operation: mutates the frame state, may panic. *)
Abbreviation EvmM W := (GoM (state W)).

Section ops.
Context {W : Type} `{GA : !GoAlloc}.

Definition halt : EvmM W unit := modify (set_stop true).

Definition exit (e : error) : EvmM W unit :=
  modify (fun s => set_err (Some e) (set_stop true s)).

(** [c.push1().Set(v)], and the other setters of [big.Int] on the new slot. *)
Definition push (v : Z) : EvmM W unit := modify (fun s => set_stack (v :: stack s) s).

(** [None] is the nil pointer returned on an empty stack. *)
Definition pop : EvmM W (option Z) :=
  s ← get;
  match stack s with
  | [] => mret None
  | v :: r => modify (set_stack r);; mret (Some v)
  end.

Definition top : EvmM W (option Z) := gets (fun s => head (stack s)).

(** A popped or top pointer that the instruction dereferences. *)
Definition popZ : EvmM W Z := v ← pop; deref v.
Definition topZ : EvmM W Z := v ← top; deref v.
(** Write through the pointer [c.top()] returned. *)
Definition setTop (v : Z) : EvmM W unit :=
  modify (fun s => set_stack (v :: tail (stack s)) s).

Definition stackAtLeast (n : nat) : EvmM W bool :=
  gets (fun s => (n <=? length (stack s))%nat).

Definition popHash : EvmM W Hash := v ← popZ; mret (BytesToHash (big_bytes v)).

Definition popAddr : EvmM W (Address * bool) :=
  b ← pop;
  match b with
  | None => mret (ZeroAddress, false)
  | Some b => mret (BytesToAddress (big_bytes b), true)
  end.

(** [c.stack[c.sp-n]], for [n >= 1]. *)
Definition peekAt (n : nat) : EvmM W Z :=
  s ← get; deref (stack s !! (n - 1)%nat).

Definition swap (n : nat) : EvmM W unit :=
  s ← get;
  a ← deref (stack s !! 0%nat);
  b ← deref (stack s !! n);
  modify (set_stack (<[0%nat := b]> (<[n := a]> (stack s)))).

(** The subtraction is guarded and does not wrap. *)
Definition consumeGas (g : Z) : EvmM W bool :=
  s ← get;
  if gas s <? g then exit ErrOutOfGas;; mret false
  else modify (set_gas (gas s - g));; mret true.

Definition resetReturnData : EvmM W unit := modify (set_returnData []).

Definition inStaticCall : EvmM W bool := gets (fun s => c_Static (msg s)).

Definition validJumpdest (dest : Z) : EvmM W bool :=
  s ← get;
  let udest := big_uint64 dest in
  if (63 <=? bit_len dest) || (zlen (code s) <=? udest) then mret false
  else deref (isSet (bitmap s) udest).

Definition bigToHash (b : Z) : Hash := BytesToHash (big_bytes b).

Definition memLimit : Z := 0xffffffffe0.

Definition extendMemory (offset size : Z) : EvmM W bool :=
  if negb (big_is_uint64 offset) || negb (big_is_uint64 size) then
    exit errGasUintOverflow;; mret false
  else if size =? 0 then mret true
  else
    let o := big_uint64 offset in
    let s := big_uint64 size in
    if (memLimit <? o) || (memLimit <? s) then
      exit errGasUintOverflow;; mret false
    else
      c ← get;
      let newSize := u64 (o + s) in
      let mCap := slen (memory c) in
      if mCap <? newSize then
        let w := u64 (newSize + 31) / 32 in
        let newCost := u64 (u64 (3 * w) + u64 (w * w) / 512) in
        let cost := u64 (newCost - lastGasCost c) in
        modify (set_lastGasCost newCost);;
        ok ← consumeGas cost;
        if negb ok then exit ErrOutOfGas;; mret false
        else
          modify (fun c => set_memory (extendByteSlice (memory c) (i64 (u64 (w * 32)))) c);;
          mret true
      else mret true.

(** [c.memory[lo:hi]]: in bounds up to the capacity, not the length. *)
Definition memSlice (lo hi : Z) : EvmM W bytes :=
  c ← get;
  if (0 <=? lo) && (lo <=? hi) && (hi <=? cap (memory c))
  then mret (sub_list lo (hi - lo) (arr (memory c))) else panic.

(** [c.memory[lo:]]: the bounds check of re-slicing up to the length. *)
Definition memFrom (lo : Z) : EvmM W unit :=
  c ← get;
  if (0 <=? lo) && (lo <=? slen (memory c)) then mret tt else panic.

(** [copy] into the memory at an offset already checked. *)
Definition memCopy (o : Z) (d : bytes) : EvmM W unit :=
  modify (fun c => set_memory (slice_write (memory c) o d) c).

(** [None] stands for the [false] result. *)
Definition get2 (offset length : Z) : EvmM W (option bytes) :=
  if length =? 0 then mret (Some [])
  else
    ok ← extendMemory offset length;
    if negb ok then mret None
    else
      let o := big_uint64 offset in
      let l := big_uint64 length in
      d ← memSlice o (u64 (o + l));
      mret (Some d).

(** [reset], run when a state goes back to the pool: the buffers are cleared but
    keep their capacity; [returnData] is left to [EVM.Run]. *)
Definition reset (c : state W) : state W :=
  mkState 0 [] (msg c) (config c) (clear_slice (memory c)) 0 [] None false 0
    (bm_reset (bitmap c)) (returnData c) [] (host c).
End ops.
