(* ===== verification/OpCodes.v ===== *)
(** Operation codes (state/runtime/evm/opcodes.go). *)

From S2P Require Import Prelude Types Runtime.

Definition STOP : Z := 0x0.
Definition ADD : Z := 0x01.
Definition MUL : Z := 0x02.
Definition SUB : Z := 0x03.
Definition DIV : Z := 0x04.
Definition SDIV : Z := 0x05.
Definition MOD : Z := 0x06.
Definition SMOD : Z := 0x07.
Definition ADDMOD : Z := 0x08.
Definition MULMOD : Z := 0x09.
Definition EXP : Z := 0x0A.
Definition SIGNEXTEND : Z := 0x0B.
Definition LT : Z := 0x10.
Definition GT : Z := 0x11.
Definition SLT : Z := 0x12.
Definition SGT : Z := 0x13.
Definition EQ : Z := 0x14.
Definition ISZERO : Z := 0x15.
Definition AND : Z := 0x16.
Definition OR : Z := 0x17.
Definition XOR : Z := 0x18.
Definition NOT : Z := 0x19.
Definition BYTE : Z := 0x1A.
Definition SHL : Z := 0x1B.
Definition SHR : Z := 0x1C.
Definition SAR : Z := 0x1D.
Definition SHA3 : Z := 0x20.
Definition ADDRESS : Z := 0x30.
Definition BALANCE : Z := 0x31.
Definition ORIGIN : Z := 0x32.
Definition CALLER : Z := 0x33.
Definition CALLVALUE : Z := 0x34.
Definition CALLDATALOAD : Z := 0x35.
Definition CALLDATASIZE : Z := 0x36.
Definition CALLDATACOPY : Z := 0x37.
Definition CODESIZE : Z := 0x38.
Definition CODECOPY : Z := 0x39.
Definition GASPRICE : Z := 0x3A.
Definition EXTCODESIZE : Z := 0x3B.
Definition EXTCODECOPY : Z := 0x3C.
Definition RETURNDATASIZE : Z := 0x3D.
Definition RETURNDATACOPY : Z := 0x3E.
Definition EXTCODEHASH : Z := 0x3F.
Definition BLOCKHASH : Z := 0x40.
Definition COINBASE : Z := 0x41.
Definition TIMESTAMP : Z := 0x42.
Definition NUMBER : Z := 0x43.
Definition DIFFICULTY : Z := 0x44.
Definition GASLIMIT : Z := 0x45.
Definition CHAINID : Z := 0x46.
Definition SELFBALANCE : Z := 0x47.
Definition POP : Z := 0x50.
Definition MLOAD : Z := 0x51.
Definition MSTORE : Z := 0x52.
Definition MSTORE8 : Z := 0x53.
Definition SLOAD : Z := 0x54.
Definition SSTORE : Z := 0x55.
Definition JUMP : Z := 0x56.
Definition JUMPI : Z := 0x57.
Definition PC : Z := 0x58.
Definition MSIZE : Z := 0x59.
Definition GAS : Z := 0x5A.
Definition JUMPDEST : Z := 0x5B.
Definition PUSH1 : Z := 0x60.
Definition PUSH32 : Z := 0x7F.
Definition DUP1 : Z := 0x80.
Definition DUP16 : Z := 0x8F.
Definition SWAP1 : Z := 0x90.
Definition SWAP16 : Z := 0x9F.
Definition LOG0 : Z := 0xA0.
Definition LOG1 : Z := 0xA1.
Definition LOG2 : Z := 0xA2.
Definition LOG3 : Z := 0xA3.
Definition LOG4 : Z := 0xA4.
Definition CREATE : Z := 0xF0.
Definition CALL : Z := 0xF1.
Definition CALLCODE : Z := 0xF2.
Definition RETURN : Z := 0xF3.
Definition DELEGATECALL : Z := 0xF4.
Definition CREATE2 : Z := 0xF5.
Definition STATICCALL : Z := 0xFA.
Definition REVERT : Z := 0xFD.
Definition SELFDESTRUCT : Z := 0xFF.

(** [None] is the panic on an unsupported value. *)
Definition OpCode2RuntimeType (op : Z) : option CallType :=
  if op =? CALL then Some Call
  else if op =? CALLCODE then Some CallCode
  else if op =? DELEGATECALL then Some DelegateCall
  else if op =? STATICCALL then Some StaticCall
  else if op =? CREATE then Some Create
  else if op =? CREATE2 then Some Create2
  else None.

Definition RuntimeType2OpCode (typ : CallType) : Z :=
  match typ with
  | Call => CALL
  | CallCode => CALLCODE
  | DelegateCall => DELEGATECALL
  | StaticCall => STATICCALL
  | Create => CREATE
  | Create2 => CREATE2
  end.

(** The two conversions are inverse to each other. *)
Lemma OpCode2RuntimeType_inv typ :
  OpCode2RuntimeType (RuntimeType2OpCode typ) = Some typ.
Proof. by destruct typ. Qed.
