(* ===== verification/Instructions.v ===== *)
(** The instructions of the EVM (state/runtime/evm/instructions.go): arithmetic,
    logic, memory, storage, context and control flow. Calls are in Calls.v. *)

From S2P Require Import Prelude Types Chain Runtime Crypto Slice Bitmap EvmState.
From S2P Require Import OpCodes.

Definition tt256 : Z := Z.shiftl 1 256.
Definition tt256m1 : Z := tt256 - 1.

Definition toU256 (x : Z) : Z :=
  if (x <? 0) || (256 <? bit_len x) then Z.land x tt256m1 else x.

Definition to256 (x : Z) : Z := if 255 <? bit_len x then x - tt256 else x.

Definition wordSize : Z := 32.
(** [_W] and [_S]: bits and bytes of a machine word. *)
Definition _W : nat := 64.
Definition _S : nat := 8.

Definition equalOrOverflowsUint256 (b : Z) : bool := 8 <? bit_len b.

Definition min_u64 (i j : Z) : Z := if i <? j then i else j.

Definition sha3WordGas : Z := 6.
Definition copyGas : Z := 3.

(** The inner loop of [opExp] over the low [n] bits of a word [d]; returns the
    repeatedly squared [x] and the accumulated product [z]. *)
Fixpoint exp_bits (n : nat) (d x z : Z) : Z * Z :=
  match n with
  | O => (x, z)
  | S n =>
      let z := if Z.land d 1 =? 1 then toU256 (z * x) else z in
      exp_bits n (Z.shiftr d 1) (toU256 (x * x)) z
  end.

Fixpoint exp_words (ws : list Z) (x z : Z) : Z * Z :=
  match ws with
  | [] => (x, z)
  | d :: ws => let '(x, z) := exp_bits _W d x z in exp_words ws x z
  end.

(** [setBytes(dst, input, size, dataOffset)]: the new contents of [dst]; [None]
    when the zero-filling loops index past the end of [dst]. *)
Definition setBytes (dst input : bytes) (size dataOffset : Z) : option bytes :=
  if negb (big_is_uint64 dataOffset) then
    if zlen dst <? size then None
    else Some (copy_at 0 (replicate (Z.to_nat size) 0) dst)
  else
    let inputSize := zlen input in
    let start := min_u64 (big_uint64 dataOffset) inputSize in
    let copySize := min_u64 size (inputSize - start) in
    let dst := if 0 <? copySize then copy_at 0 (sub_list start copySize input) dst else dst in
    if 0 <? size - copySize then
      if zlen dst <? size then None
      else Some (copy_at (Z.to_nat copySize) (replicate (Z.to_nat (size - copySize)) 0) dst)
    else Some dst.

Section instructions.
Context {W : Type} `{GA : !GoAlloc, KK : !Keccak, HO : !Host W}.

Definition opAdd : EvmM W unit := a ← popZ; b ← topZ; setTop (toU256 (a + b)).
Definition opMul : EvmM W unit := a ← popZ; b ← topZ; setTop (toU256 (a * b)).
Definition opSub : EvmM W unit := a ← popZ; b ← topZ; setTop (toU256 (a - b)).

Definition opDiv : EvmM W unit :=
  a ← popZ; b ← topZ;
  if b =? 0 then setTop 0 else setTop (toU256 (big_div a b)).

Definition opSDiv : EvmM W unit :=
  a ← popZ; b ← topZ;
  let a := to256 a in
  let b := to256 b in
  if b =? 0 then setTop 0
  else
    let neg := negb (Z.sgn a =? Z.sgn b) in
    let q := big_div (Z.abs a) (Z.abs b) in
    let q := if neg then - q else q in
    setTop (toU256 q).

Definition opMod : EvmM W unit :=
  a ← popZ; b ← topZ;
  if b =? 0 then setTop 0 else setTop (toU256 (big_mod a b)).

Definition opSMod : EvmM W unit :=
  a ← popZ; b ← topZ;
  let a := to256 a in
  let b := to256 b in
  if b =? 0 then setTop 0
  else
    let neg := Z.sgn a <? 0 in
    let m := big_mod (Z.abs a) (Z.abs b) in
    let m := if neg then - m else m in
    setTop (toU256 m).

Definition opExp : EvmM W unit :=
  x ← popZ; y ← topZ;
  cfg ← gets config;
  let g := if EIP158 cfg then 50 else 10 in
  let gasCost := u64 (u64 ((bit_len y + 7) / 8) * g) in
  ok ← consumeGas gasCost;
  if negb ok then mret tt
  else setTop (snd (exp_words (big_bits y) x 1)).

Definition opAddMod : EvmM W unit :=
  a ← popZ; b ← popZ; z ← topZ;
  if z =? 0 then setTop 0 else setTop (toU256 (big_mod (a + b) z)).

Definition opMulMod : EvmM W unit :=
  a ← popZ; b ← popZ; z ← topZ;
  if z =? 0 then setTop 0 else setTop (toU256 (big_mod (a * b) z)).

Definition opAnd : EvmM W unit := a ← popZ; b ← topZ; setTop (Z.land a b).
Definition opOr : EvmM W unit := a ← popZ; b ← topZ; setTop (Z.lor a b).
Definition opXor : EvmM W unit := a ← popZ; b ← topZ; setTop (Z.lxor a b).

Definition opByteMask : Z := 255.

(** The index is the low 64 bits of [x] as an [int64]. *)
Definition opByte : EvmM W unit :=
  x ← popZ; y ← topZ;
  let indx := big_int64 x in
  if 31 <? indx then setTop 0
  else
    let sh := i64 (i64 (31 - indx) * 8) in
    setTop (Z.land (Z.shiftr y (u64 sh)) opByteMask).

Definition opNot : EvmM W unit := a ← topZ; setTop (toU256 (Z.lnot a)).

Definition opIsZero : EvmM W unit := a ← topZ; setTop (if a =? 0 then 1 else 0).

Definition opEq : EvmM W unit := a ← popZ; b ← topZ; setTop (if a =? b then 1 else 0).
Definition opLt : EvmM W unit := a ← popZ; b ← topZ; setTop (if a <? b then 1 else 0).
Definition opGt : EvmM W unit := a ← popZ; b ← topZ; setTop (if b <? a then 1 else 0).
Definition opSlt : EvmM W unit :=
  a ← popZ; b ← topZ; setTop (if to256 a <? to256 b then 1 else 0).
Definition opSgt : EvmM W unit :=
  a ← popZ; b ← topZ; setTop (if to256 b <? to256 a then 1 else 0).

(** [x] may be nil: the instruction is registered with one operand. *)
Definition opSignExtension : EvmM W unit :=
  ext ← popZ; x ← top;
  if wordSize <? ext then mret tt
  else
    match x with
    | None => mret tt
    | Some x =>
        let bit := u64 (u64 (big_uint64 ext * 8) + 7) in
        let mask := Z.shiftl 1 bit - 1 in
        if Z.testbit x bit then setTop (toU256 (Z.lor x (Z.lnot mask)))
        else setTop (toU256 (Z.land x mask))
    end.

(** Instructions of a later fork are unknown opcodes before it. *)
Definition requires (f : ForksInTime -> bool) (k : EvmM W unit) : EvmM W unit :=
  cfg ← gets config;
  if negb (f cfg) then exit errOpCodeNotFound else k.

Definition opShl : EvmM W unit :=
  requires Constantinople (
    shift ← popZ; value ← topZ;
    if equalOrOverflowsUint256 shift then setTop 0
    else setTop (toU256 (Z.shiftl value (big_uint64 shift)))).

Definition opShr : EvmM W unit :=
  requires Constantinople (
    shift ← popZ; value ← topZ;
    if equalOrOverflowsUint256 shift then setTop 0
    else setTop (toU256 (Z.shiftr value (big_uint64 shift)))).

Definition opSar : EvmM W unit :=
  requires Constantinople (
    shift ← popZ; value ← topZ;
    let value := to256 value in
    if equalOrOverflowsUint256 shift then
      if 0 <=? value then setTop 0 else setTop tt256m1
    else setTop (toU256 (Z.shiftr value (big_uint64 shift)))).

(** ** Memory *)

Definition opMload : EvmM W unit :=
  offset ← popZ;
  d ← get2 offset wordSize;
  match d with
  | None => mret tt
  | Some d => push (set_bytes d)
  end.

(** [buf[i] = v] where [buf] is [c.memory[o:o+32]]. *)
Definition bufStore (o i v : Z) : EvmM W unit :=
  if (0 <=? i) && (i <? 32)
  then modify (fun c => set_memory
         (mkSlice (<[Z.to_nat (o + i) := v]> (arr (memory c))) (slen (memory c))) c)
  else panic.

(** The bytes of one word, written backwards from [i]; returns the new [i]. *)
Fixpoint mstore_word (n : nat) (o d i : Z) : EvmM W Z :=
  match n with
  | O => mret i
  | S n => bufStore o (i - 1) (d mod 256);; mstore_word n o (Z.shiftr d 8) (i - 1)
  end.

Fixpoint mstore_words (ws : list Z) (o i : Z) : EvmM W Z :=
  match ws with
  | [] => mret i
  | d :: ws => i ← mstore_word _S o d i; mstore_words ws o i
  end.

(** [for i > 0 { i--; buf[i] = 0 }] *)
Fixpoint mstore_zeros (i : nat) (o : Z) : EvmM W unit :=
  match i with
  | O => mret tt
  | S i => bufStore o (Z.of_nat i) 0;; mstore_zeros i o
  end.

Definition opMStore : EvmM W unit :=
  offset ← popZ; val ← popZ;
  ok ← extendMemory offset wordSize;
  if negb ok then mret tt
  else
    let o := big_uint64 offset in
    memSlice o (u64 (o + 32));;
    i ← mstore_words (big_bits val) o 32;
    mstore_zeros (Z.to_nat i) o.

Definition opMStore8 : EvmM W unit :=
  offset ← popZ; val ← popZ;
  ok ← extendMemory offset 1;
  if negb ok then mret tt
  else
    c ← get;
    m ← deref (slice_store (memory c) (big_uint64 offset) (Z.land (big_uint64 val) 0xff));
    modify (set_memory m).

(** ** Storage *)

Definition opSload : EvmM W unit :=
  loc ← topZ;
  cfg ← gets config;
  let g := if Istanbul cfg then 800 else if EIP150 cfg then 200 else 50 in
  ok ← consumeGas g;
  if negb ok then mret tt
  else
    c ← get;
    setTop (set_bytes (GetStorage (host c) (c_Address (msg c)) (bigToHash loc))).

(** The cost of a storage write by its status. *)
Definition sstore_cost (cfg : ForksInTime) (status : StorageStatus) : Z :=
  let legacyGasMetering := negb (Istanbul cfg) && (Petersburg cfg || negb (Constantinople cfg)) in
  match status with
  | StorageUnchanged =>
      if Istanbul cfg then 800 else if legacyGasMetering then 5000 else 200
  | StorageModified => 5000
  | StorageModifiedAgain =>
      if Istanbul cfg then 800 else if legacyGasMetering then 5000 else 200
  | StorageAdded => 20000
  | StorageDeleted => 5000
  end.

(** [c.host.SetStorage(c.msg.Address, key, val, c.config)] *)
Definition setStorage (key val : Hash) : EvmM W StorageStatus := fun c =>
  let '(status, w) := SetStorage (c_Address (msg c)) key val (config c) (host c) in
  (Ok status, set_host w c).

Definition opSStore : EvmM W unit :=
  static ← inStaticCall;
  if (static : bool) then exit errWriteProtection
  else
    cfg ← gets config;
    g ← gets gas;
    if Istanbul cfg && (g <=? 2300) then exit ErrOutOfGas
    else
      key ← popHash; val ← popHash;
      status ← setStorage key val;
      consumeGas (sstore_cost cfg status);;
      mret tt.

Definition opSha3 : EvmM W unit :=
  offset ← popZ; length ← popZ;
  d ← get2 offset length;
  match d with
  | None => mret tt
  | Some d =>
      let size := big_uint64 length in
      ok ← consumeGas (u64 (u64 (size + 31) / 32 * sha3WordGas));
      if negb ok then mret tt else push (set_bytes (keccak256 d))
  end.

Definition opPop : EvmM W unit := pop;; mret tt.

(** ** Context *)

Definition opAddress : EvmM W unit := c ← get; push (set_bytes (c_Address (msg c))).

Definition opBalance : EvmM W unit :=
  pa ← popAddr; let addr := fst pa in
  cfg ← gets config;
  let g := if Istanbul cfg then 700 else if EIP150 cfg then 400 else 20 in
  ok ← consumeGas g;
  if negb ok then mret tt
  else c ← get; push (GetBalance (host c) addr).

Definition opSelfBalance : EvmM W unit :=
  requires Istanbul (c ← get; push (GetBalance (host c) (c_Address (msg c)))).

Definition opChainID : EvmM W unit :=
  requires Istanbul (c ← get; push (u64 (ChainID (GetTxContext (host c))))).

Definition opOrigin : EvmM W unit :=
  c ← get; push (set_bytes (Origin (GetTxContext (host c)))).

Definition opCaller : EvmM W unit := c ← get; push (set_bytes (c_Caller (msg c))).

Definition opCallValue : EvmM W unit :=
  c ← get;
  match c_Value (msg c) with
  | Some value => push value
  | None => push 0
  end.

Definition opCallDataLoad : EvmM W unit :=
  offset ← topZ;
  c ← get;
  buf ← deref (setBytes (replicate 32 0) (c_Input (msg c)) 32 offset);
  setTop (set_bytes buf).

Definition opCallDataSize : EvmM W unit := c ← get; push (zlen (c_Input (msg c))).
Definition opCodeSize : EvmM W unit := c ← get; push (zlen (code c)).

Definition opExtCodeSize : EvmM W unit :=
  pa ← popAddr; let addr := fst pa in
  cfg ← gets config;
  let g := if EIP150 cfg then 700 else 20 in
  ok ← consumeGas g;
  if negb ok then mret tt
  else c ← get; push (u64 (GetCodeSize (host c) addr)).

Definition opGasPrice : EvmM W unit :=
  c ← get; push (set_bytes (GasPrice (GetTxContext (host c)))).

Definition opReturnDataSize : EvmM W unit :=
  requires Byzantium (c ← get; push (zlen (returnData c))).

Definition opExtCodeHash : EvmM W unit :=
  requires Constantinople (
    pa ← popAddr; let address := fst pa in
    cfg ← gets config;
    let g := if Istanbul cfg then 700 else 400 in
    ok ← consumeGas g;
    if negb ok then mret tt
    else
      c ← get;
      if Empty (host c) address then push 0
      else push (set_bytes (GetCodeHash (host c) address))).

Definition opPC : EvmM W unit := c ← get; push (u64 (ip c)).
Definition opMSize : EvmM W unit := c ← get; push (slen (memory c)).
Definition opGas : EvmM W unit := c ← get; push (gas c).

(** ** Copies into memory *)

(** [c.setBytes(c.memory[memOffset:], input, size, dataOffset)] *)
Definition memSetBytes (memOffset : Z) (input : bytes) (size dataOffset : Z) : EvmM W unit :=
  let o := big_uint64 memOffset in
  memFrom o;;
  c ← get;
  d ← deref (setBytes (drop (Z.to_nat o) (contents (memory c))) input size dataOffset);
  memCopy o d.

Definition opExtCodeCopy : EvmM W unit :=
  pa ← popAddr; let address := fst pa in
  memOffset ← popZ; codeOffset ← popZ; length ← popZ;
  ok ← extendMemory memOffset length;
  if negb ok then mret tt
  else
    let size := big_uint64 length in
    ok ← consumeGas (u64 (u64 (size + 31) / 32 * copyGas));
    if negb ok then mret tt
    else
      cfg ← gets config;
      let g := if EIP150 cfg then 700 else 20 in
      ok ← consumeGas g;
      if negb ok then mret tt
      else
        c ← get;
        let code := GetCode (host c) address in
        if negb (size =? 0) then memSetBytes memOffset code size codeOffset else mret tt.

(** The common body of CALLDATACOPY and CODECOPY. *)
Definition copyToMemory (input : state W -> bytes) : EvmM W unit :=
  memOffset ← popZ; dataOffset ← popZ; length ← popZ;
  ok ← extendMemory memOffset length;
  if negb ok then mret tt
  else
    let size := big_uint64 length in
    ok ← consumeGas (u64 (u64 (size + 31) / 32 * copyGas));
    if negb ok then mret tt
    else
      c ← get;
      if negb (size =? 0) then memSetBytes memOffset (input c) size dataOffset else mret tt.

Definition opCallDataCopy : EvmM W unit := copyToMemory (fun c => c_Input (msg c)).
Definition opCodeCopy : EvmM W unit := copyToMemory code.

Definition opReturnDataCopy : EvmM W unit :=
  requires Byzantium (
    memOffset ← popZ; dataOffset ← popZ; length ← popZ;
    ok ← extendMemory memOffset length;
    if negb ok then mret tt
    else if negb (big_is_uint64 dataOffset) then exit errGasUintOverflow
    else
      ok ← consumeGas (u64 (u64 (big_uint64 length + 31) / 32 * copyGas));
      if negb ok then mret tt
      else
        let dataEnd := dataOffset + length in
        if negb (big_is_uint64 dataEnd) then exit errReturnDataOutOfBounds
        else
          c ← get;
          let dataEndIndex := big_uint64 dataEnd in
          if zlen (returnData c) <? dataEndIndex then exit errReturnDataOutOfBounds
          else
            let lo := big_uint64 dataOffset in
            let data := sub_list lo (dataEndIndex - lo) (returnData c) in
            let o := big_uint64 memOffset in
            memFrom o;;
            memCopy o (take (Z.to_nat (slen (memory c) - o)) data)).

(** ** Block information *)

Definition opBlockHash : EvmM W unit :=
  num ← topZ;
  if negb (big_is_int64 num) then setTop 0
  else
    c ← get;
    let n := big_int64 num in
    let lastBlock := Number (GetTxContext (host c)) in
    if (i64 (lastBlock - 257) <? n) && (n <? lastBlock)
    then setTop (set_bytes (GetBlockHash (host c) n)) else setTop 0.

Definition opCoinbase : EvmM W unit :=
  c ← get; push (set_bytes (Coinbase (GetTxContext (host c)))).
Definition opTimestamp : EvmM W unit := c ← get; push (Timestamp (GetTxContext (host c))).
Definition opNumber : EvmM W unit := c ← get; push (Number (GetTxContext (host c))).
Definition opDifficulty : EvmM W unit :=
  c ← get; push (set_bytes (Difficulty (GetTxContext (host c)))).
Definition opGasLimit : EvmM W unit := c ← get; push (GasLimit (GetTxContext (host c))).

Definition opSelfDestruct : EvmM W unit :=
  static ← inStaticCall;
  if (static : bool) then exit errWriteProtection
  else
    pa ← popAddr; let address := fst pa in
    c ← get;
    let cfg := config c in
    let g :=
      if EIP150 cfg then
        5000 +
        (if EIP158 cfg then
           if Empty (host c) address && negb (GetBalance (host c) (c_Address (msg c)) =? 0)
           then 25000 else 0
         else if negb (AccountExists (host c) address) then 25000 else 0)
      else 0 in
    ok ← consumeGas g;
    if negb ok then mret tt
    else
      modify (fun c => set_host (Selfdestruct (c_Address (msg c)) address (host c)) c);;
      halt.

(** ** Control flow *)

Definition jumpTo (dest : Z) : EvmM W unit :=
  v ← validJumpdest dest;
  if (v : bool) then modify (set_ip (i64 (u64 (big_uint64 dest - 1))))
  else exit errInvalidJump.

Definition opJump : EvmM W unit := dest ← popZ; jumpTo dest.

Definition opJumpi : EvmM W unit :=
  dest ← popZ; cond ← popZ;
  if negb (cond =? 0) then jumpTo dest else mret tt.

Definition opJumpDest : EvmM W unit := mret tt.

Definition opPush (n : nat) : EvmM W unit :=
  c ← get;
  let ins := code c in
  let i := ip c in
  push (if zlen ins <? i + 1 + Z.of_nat n
        then set_bytes (drop (Z.to_nat (i + 1)) ins ++ replicate n 0)
        else set_bytes (sub_list (i + 1) (Z.of_nat n) ins));;
  modify (fun c => set_ip (ip c + Z.of_nat n) c).

Definition opDup (n : nat) : EvmM W unit :=
  ok ← stackAtLeast n;
  if negb ok then exit ErrStackUnderflow
  else val ← peekAt n; push val.

Definition opSwap (n : nat) : EvmM W unit :=
  ok ← stackAtLeast (n + 1);
  if negb ok then exit ErrStackUnderflow else swap n.

Fixpoint popTopics (n : nat) : EvmM W (list Hash) :=
  match n with
  | O => mret []
  | S n => v ← popZ; r ← popTopics n; mret (bigToHash v :: r)
  end.

Definition opLog (size : nat) : EvmM W unit :=
  let size := (size - 1)%nat in
  static ← inStaticCall;
  if (static : bool) then exit errWriteProtection
  else
    ok ← stackAtLeast (2 + size);
    if negb ok then exit ErrStackUnderflow
    else
      mStart ← popZ; mSize ← popZ;
      topics ← popTopics size;
      d ← get2 mStart mSize;
      match d with
      | None => mret tt
      | Some d =>
          modify (fun c => set_host (EmitLog (c_Address (msg c)) topics d (host c)) c);;
          ok ← consumeGas (u64 (Z.of_nat size * 375));
          if negb ok then mret tt
          else consumeGas (u64 (big_uint64 mSize * 8));; mret tt
      end.

Definition opStop : EvmM W unit := halt.

Definition opHalt (op : Z) : EvmM W unit :=
  cfg ← gets config;
  if (op =? REVERT) && negb (Byzantium cfg) then exit errOpCodeNotFound
  else
    offset ← popZ; size ← popZ;
    d ← get2 offset size;
    match d with
    | None => modify (set_ret [])
    | Some d =>
        modify (set_ret d);;
        if op =? REVERT then exit ErrExecutionReverted else halt
    end.
End instructions.
