(* ===== verification/Calls.v ===== *)
(** The call and create instructions (state/runtime/evm/instructions.go): they
    build a new frame, run it through the host's [Callx] and take its outcome back
    into the calling frame. *)

From S2P Require Import Prelude Types Chain Runtime Crypto Slice EvmState OpCodes.
From S2P Require Import Instructions.

Section calls.
Context {W : Type} `{GA : !GoAlloc, KK : !Keccak, RL : !FastRlp, HO : !Host W}.
Variable callx : CallxT W.

(** Run a host operation on the world of the frame. *)
Definition on_host {A} (m : GoM W A) : EvmM W A :=
  fun c => let '(r, w) := m (host c) in (r, set_host w c).

Definition addGas (g : Z) : EvmM W unit := modify (fun c => set_gas (u64 (gas c + g)) c).

Definition no_call : option Contract * Z * Z * option error := (None, 0, 0, None).

(** The cost of a call before the gas it hands over. *)
Definition call_base_cost (c : state W) (op : Z) (addr : Address) (transfersValue : bool) : Z :=
  let cfg := config c in
  (if EIP150 cfg then 700 else 40) +
  (if op =? CALL then
     if EIP158 cfg then
       if transfersValue && Empty (host c) addr then 25000 else 0
     else if negb (AccountExists (host c) addr) then 25000 else 0
   else 0) +
  (if transfersValue then 9000 else 0).

(** The gas handed to the callee; [None] when the requested amount does not fit
    a [uint64] and the 63/64 rule is not active. [c.gas - gasCost] wraps. *)
Definition call_gas (c : state W) (gasCost initialGas : Z) : option Z :=
  let ok := big_is_uint64 initialGas in
  if EIP150 (config c) then
    let availableGas := u64 (gas c - gasCost) in
    let availableGas := u64 (availableGas - availableGas / 64) in
    if negb ok || (availableGas <? big_uint64 initialGas)
    then Some availableGas else Some (big_uint64 initialGas)
  else if negb ok then None
  else Some (big_uint64 initialGas).

(** The callee's frame. *)
Definition call_frame (c : state W) (op : Z) (addr : Address) (value : option Z)
    (g : Z) (args : bytes) : Contract :=
  let k := NewContractCall (c_Depth (msg c) + 1) (c_Origin (msg c)) (c_Address (msg c))
             addr value g (GetCode (host c) addr) args in
  let k := if (op =? STATICCALL) || c_Static (msg c) then set_c_Static true k else k in
  if (op =? CALLCODE) || (op =? DELEGATECALL) then
    let k := set_c_Address (c_Address (msg c)) k in
    if op =? DELEGATECALL then
      set_c_Caller (c_Caller (msg c)) (set_c_Value (c_Value (msg c)) k)
    else k
  else k.

(** The second half of [buildCallContract], once the operands are popped and the
    memory is large enough: price the call, pay, and build the frame. *)
Definition finishCall (op initialGas : Z) (addr : Address) (value : option Z)
    (args : bytes) (retOffset retSize : Z) : EvmM W (option Contract * Z * Z * option error) :=
  c ← get;
  let transfersValue :=
    ((op =? CALL) || (op =? CALLCODE)) &&
    match value with Some v => negb (v =? 0) | None => false end in
  let gasCost := call_base_cost c op addr transfersValue in
  match call_gas c gasCost initialGas with
  | None => exit ErrOutOfGas;; mret no_call
  | Some g =>
      ok ← consumeGas (u64 (gasCost + g));
      if negb ok then mret no_call
      else
        let g := if transfersValue then u64 (g + 2300) else g in
        c ← get;
        let k := call_frame c op addr value g args in
        let funds := GetBalance (host c) (c_Address (msg c)) in
        if transfersValue && (funds <? default 0 value)
        then mret (Some k, 0, 0, Some errBadBalance)
        else mret (Some k, big_uint64 retOffset, big_uint64 retSize, None)
  end.

Definition buildCallContract (op : Z) : EvmM W (option Contract * Z * Z * option error) :=
  initialGas ← popZ;
  pa ← popAddr;
  let addr := fst pa in
  value ← (if (op =? CALL) || (op =? CALLCODE) then pop else mret None);
  inOffset ← popZ; inSize ← popZ;
  retOffset ← popZ; retSize ← popZ;
  args ← get2 inOffset inSize;
  match args with
  | None => mret no_call
  | Some args =>
      ok ← extendMemory retOffset retSize;
      if negb ok then mret no_call
      else finishCall op initialGas addr value args retOffset retSize
  end.

(** The end of [opCall]: the outcome of the callee goes to the stack, to the
    memory, to the gas and to the return data of the caller. *)
Definition takeCallResult (offset size : Z) (result : ExecutionResult) : EvmM W unit :=
  push (if Succeeded result then 1 else 0);;
  (if (Succeeded result || Reverted result) && negb (zlen (ReturnValue result) =? 0) then
     memSlice offset (u64 (offset + size));;
     memCopy offset (take (Z.to_nat size) (ReturnValue result))
   else mret tt);;
  addGas (GasLeft result);;
  modify (set_returnData (ReturnValue result)).

Definition opCall (op : Z) : EvmM W unit :=
  resetReturnData;;
  static ← inStaticCall;
  blocked ← (if (op =? CALL) && static
             then v ← peekAt 3; mret (0 <? bit_len v) else mret false);
  if (blocked : bool) then exit errWriteProtection
  else
    cfg ← gets config;
    if (op =? DELEGATECALL) && negb (Homestead cfg) then exit errOpCodeNotFound
    else if (op =? STATICCALL) && negb (Byzantium cfg) then exit errOpCodeNotFound
    else
      b ← buildCallContract op;
      let '(contract, offset, size, e) := b in
      match e, contract with
      | Some _, Some k => push 0;; addGas (c_Gas k)
      | Some _, None => push 0
      | None, None => mret tt
      | None, Some k =>
          typ ← deref (OpCode2RuntimeType op);
          result ← on_host (callx (set_c_Type typ k));
          takeCallResult offset size result
      end.

(** The end of [buildCreateContract]: hand over all gas but one 64th. *)
Definition finishCreate (op value salt : Z) (input : bytes)
    : EvmM W (option Contract * option error) :=
  c ← get;
  let g := gas c in
  let g := if EIP150 (config c) || (op =? CREATE2) then g - g / 64 else g in
  ok ← consumeGas g;
  if negb ok then mret (None, None)
  else
    c ← get;
    let self := c_Address (msg c) in
    let address :=
      if op =? CREATE then CreateAddress self (GetNonce (host c) self)
      else CreateAddress2 self (bigToHash salt) input in
    mret (Some (NewContractCreation (c_Depth (msg c) + 1) (c_Origin (msg c))
                  self address (Some value) g input), None).

Definition buildCreateContract (op : Z) : EvmM W (option Contract * option error) :=
  value ← popZ; offset ← popZ; length ← popZ;
  salt ← (if op =? CREATE2 then popZ else mret 0);
  let hasTransfer := negb (value =? 0) in
  input ← get2 offset length;
  match input with
  | None => mret (None, None)
  | Some input =>
      ok ← consumeGas 0;
      if negb ok then mret (None, None)
      else
        c ← get;
        if hasTransfer && (GetBalance (host c) (c_Address (msg c)) <? value)
        then mret (None, Some errBadBalance)
        else
          ok ← (if op =? CREATE2
                then consumeGas (u64 (u64 (big_uint64 length + 31) / 32 * sha3WordGas))
                else mret true);
          if negb ok then mret (None, None)
          else finishCreate op value salt input
  end.

(** The end of [opCreate]; [v] is the address pushed, or 0. *)
Definition takeCreateResult (v : Z) (result : ExecutionResult) : EvmM W unit :=
  push v;;
  addGas (GasLeft result);;
  if Reverted result then modify (set_returnData (ReturnValue result)) else mret tt.

(** [opCreate] once static mode is ruled out. *)
Definition createUnguarded (op : Z) : EvmM W unit :=
  cfg ← gets config;
  if (op =? CREATE2) && negb (Constantinople cfg) then exit errOpCodeNotFound
  else
    resetReturnData;;
    b ← buildCreateContract op;
    let '(contract, e) := b in
    match e, contract with
    | Some _, Some k => push 0;; addGas (c_Gas k)
    | Some _, None => push 0
    | None, None => mret tt
    | None, Some k =>
        result ← on_host (callx (set_c_Type Create k));
        let storeOOG := bool_decide (Err result = Some ErrCodeStoreOutOfGas) in
        takeCreateResult
          (if (op =? CREATE) && Homestead cfg && storeOOG then 0
           else if Failed result && negb storeOOG then 0
           else set_bytes (c_Address k)) result
    end.

Definition opCreate (op : Z) : EvmM W unit :=
  static ← inStaticCall;
  if (static : bool) then exit errWriteProtection else createUnguarded op.
End calls.
