(* ===== verification/Evm.v ===== *)
(** The dispatch table (state/runtime/evm/dispatch_table.go), the interpreter loop
    [state.Run] (state.go) and [EVM.Run] (evm.go). *)

From S2P Require Import Prelude Types Chain Runtime Crypto Slice Bitmap EvmState.
From S2P Require Import OpCodes Instructions Calls.

(** [inst], the operands it needs and its static gas. *)
Record handler (W : Type) := mkHandler {
  h_inst : EvmM W unit;
  h_stack : nat;
  h_gas : Z;
}.
Arguments mkHandler {W}. Arguments h_inst {W}. Arguments h_stack {W}. Arguments h_gas {W}.

(** Buffers of a state taken from the pool: what survives [reset]. *)
Record pooled := mkPooled { p_memory : slice; p_bitmap : slice }.

Section evm.
Context {W : Type} `{GA : !GoAlloc, KK : !Keccak, RL : !FastRlp, HO : !Host W}.
Variable callx : CallxT W.

Abbreviation table := (gmap Z (handler W)).

(** [None] is the panic "instruction already exists". *)
Definition register (op : Z) (h : handler W) (t : table) : option table :=
  match t !! op with
  | Some _ => None
  | None => Some (<[op := h]> t)
  end.

(** [from .. to] with the factory applied to 1, 2, ... *)
Definition registerRange (from to : Z) (factory : nat -> EvmM W unit) (g : Z)
    : list (Z * handler W) :=
  map (fun k => (from + Z.of_nat k, mkHandler (factory (k + 1)%nat) 0 g))
    (seq 0 (Z.to_nat (to - from + 1))).

(** The calls of [init], in order. *)
Definition registrations : list (Z * handler W) :=
  [ (STOP, mkHandler opStop 0 0);
    (ADD, mkHandler opAdd 2 3);
    (SUB, mkHandler opSub 2 3);
    (MUL, mkHandler opMul 2 5);
    (DIV, mkHandler opDiv 2 5);
    (SDIV, mkHandler opSDiv 2 5);
    (MOD, mkHandler opMod 2 5);
    (SMOD, mkHandler opSMod 2 5);
    (EXP, mkHandler opExp 2 10) ] ++
  registerRange PUSH1 PUSH32 opPush 3 ++
  registerRange DUP1 DUP16 opDup 3 ++
  registerRange SWAP1 SWAP16 opSwap 3 ++
  registerRange LOG0 LOG4 opLog 375 ++
  [ (ADDMOD, mkHandler opAddMod 3 8);
    (MULMOD, mkHandler opMulMod 3 8);
    (AND, mkHandler opAnd 2 3);
    (OR, mkHandler opOr 2 3);
    (XOR, mkHandler opXor 2 3);
    (BYTE, mkHandler opByte 2 3);
    (NOT, mkHandler opNot 1 3);
    (ISZERO, mkHandler opIsZero 1 3);
    (EQ, mkHandler opEq 2 3);
    (LT, mkHandler opLt 2 3);
    (GT, mkHandler opGt 2 3);
    (SLT, mkHandler opSlt 2 3);
    (SGT, mkHandler opSgt 2 3);
    (SIGNEXTEND, mkHandler opSignExtension 1 5);
    (SHL, mkHandler opShl 2 3);
    (SHR, mkHandler opShr 2 3);
    (SAR, mkHandler opSar 2 3);
    (CREATE, mkHandler (opCreate callx CREATE) 3 32000);
    (CREATE2, mkHandler (opCreate callx CREATE2) 4 32000);
    (CALL, mkHandler (opCall callx CALL) 7 0);
    (CALLCODE, mkHandler (opCall callx CALLCODE) 7 0);
    (DELEGATECALL, mkHandler (opCall callx DELEGATECALL) 6 0);
    (STATICCALL, mkHandler (opCall callx STATICCALL) 6 0);
    (REVERT, mkHandler (opHalt REVERT) 2 0);
    (RETURN, mkHandler (opHalt RETURN) 2 0);
    (MLOAD, mkHandler opMload 1 3);
    (MSTORE, mkHandler opMStore 2 3);
    (MSTORE8, mkHandler opMStore8 2 3);
    (SLOAD, mkHandler opSload 1 0);
    (SSTORE, mkHandler opSStore 2 0);
    (SHA3, mkHandler opSha3 2 30);
    (POP, mkHandler opPop 1 2);
    (EXTCODEHASH, mkHandler opExtCodeHash 1 0);
    (ADDRESS, mkHandler opAddress 0 2);
    (BALANCE, mkHandler opBalance 1 0);
    (SELFBALANCE, mkHandler opSelfBalance 0 5);
    (ORIGIN, mkHandler opOrigin 0 2);
    (CALLER, mkHandler opCaller 0 2);
    (CALLVALUE, mkHandler opCallValue 0 2);
    (CALLDATALOAD, mkHandler opCallDataLoad 1 3);
    (CALLDATASIZE, mkHandler opCallDataSize 0 2);
    (CODESIZE, mkHandler opCodeSize 0 2);
    (EXTCODESIZE, mkHandler opExtCodeSize 1 0);
    (GASPRICE, mkHandler opGasPrice 0 2);
    (RETURNDATASIZE, mkHandler opReturnDataSize 0 2);
    (CHAINID, mkHandler opChainID 0 2);
    (PC, mkHandler opPC 0 2);
    (MSIZE, mkHandler opMSize 0 2);
    (GAS, mkHandler opGas 0 2);
    (EXTCODECOPY, mkHandler opExtCodeCopy 4 0);
    (CALLDATACOPY, mkHandler opCallDataCopy 3 3);
    (RETURNDATACOPY, mkHandler opReturnDataCopy 3 3);
    (CODECOPY, mkHandler opCodeCopy 3 3);
    (BLOCKHASH, mkHandler opBlockHash 1 20);
    (COINBASE, mkHandler opCoinbase 0 2);
    (TIMESTAMP, mkHandler opTimestamp 0 2);
    (NUMBER, mkHandler opNumber 0 2);
    (DIFFICULTY, mkHandler opDifficulty 0 2);
    (GASLIMIT, mkHandler opGasLimit 0 2);
    (SELFDESTRUCT, mkHandler opSelfDestruct 1 0);
    (JUMP, mkHandler opJump 1 8);
    (JUMPI, mkHandler opJumpi 2 10);
    (JUMPDEST, mkHandler opJumpDest 0 1) ].

Definition register_all : list (Z * handler W) -> table -> option table :=
  fix go l t :=
    match l with
    | [] => Some t
    | (op, h) :: l => match register op h t with Some t => go l t | None => None end
    end.

Definition dispatchTable : table := default ∅ (register_all registrations ∅).

(** ** [state.Run] *)

(** One round of the loop. Every [break] of the source leaves [stop] set. *)
Definition step : EvmM W unit :=
  c ← get;
  if zlen (code c) <=? ip c then halt
  else
    op ← deref (if ip c <? 0 then None else code c !! Z.to_nat (ip c));
    match dispatchTable !! op with
    | None => exit errOpCodeNotFound
    | Some inst =>
        if (length (stack c) <? h_stack inst)%nat then exit ErrStackUnderflow
        else
          ok ← consumeGas (h_gas inst);
          if negb ok then exit ErrOutOfGas
          else
            h_inst inst;;
            c ← get;
            if stackSize <? zlen (stack c) then exit ErrStackOverflow
            else modify (fun c => set_ip (ip c + 1) c)
    end.

(** [for !c.stop { ... }], at most [fuel] rounds; the result tells whether the
    loop ended by itself. *)
Fixpoint run_loop (fuel : nat) : EvmM W bool :=
  c ← get;
  if stop c then mret true
  else
    match fuel with
    | O => mret false
    | S fuel => step;; run_loop fuel
    end.

(** One round more than the gas pays for. *)
Definition run_fuel (g : Z) : nat := S (S (Z.to_nat g)).

(** [state.Run] with its recover: the return data, the error and the final
    state. *)
Definition Run (c : state W) : bytes * option error * state W :=
  match run_loop (run_fuel (gas c)) c with
  | (Ok _, c) => (ret c, err c, c)
  | (Panic, c) => ([], Some errEvmPanic, c)
  end.

(** ** [EVM.Run] *)

Definition init_state (p : pooled) (bm : slice) (k : Contract) (cfg : ForksInTime) (w : W)
    : state W :=
  mkState 0 (c_Code k) k cfg (p_memory p) 0 [] None false (c_Gas k) bm [] [] w.

Definition EVM_Run (p : pooled) (k : Contract) (cfg : ForksInTime) : GoM W ExecutionResult :=
  bm ← deref (setCode (p_bitmap p) (c_Code k));
  w ← get;
  let '(returnValue, e, c) := Run (init_state p bm k cfg w) in
  modify (fun _ => host c);;
  let gasLeft :=
    if bool_decide (e <> None) && negb (bool_decide (e = Some ErrExecutionReverted))
    then 0 else gas c in
  mret (mkResult returnValue gasLeft 0 e).

(** [releaseState]: what goes back to the pool. *)
Definition release (c : state W) : pooled :=
  let c := reset c in mkPooled (memory c) (bitmap c).

Definition CanRun (k : Contract) (cfg : ForksInTime) : bool := true.
End evm.
