(* ===== verification/EvmFacts.v ===== *)
(** How a frame may change while it runs: the code, the message and the fork rules
    are fixed, [stop] is never cleared, gas only goes down, and a static frame
    changes the world at most as far as the frames it calls do. *)

From S2P Require Import Prelude Types Chain Runtime Crypto Slice Bitmap EvmState.
From S2P Require Import OpCodes Instructions Calls Evm.

(** A static frame of an account. *)
Definition read_only (k : Contract) : Prop := c_Static k = true /\ is_address (c_Address k).

(** What is to be shown of the effects of a frame on the world: they stay within
    [rel], either in read-only frames only ([strict]) or in all frames. *)
Record policy (W : Type) := mkPolicy { strict : bool; rel : relation W }.
Arguments mkPolicy {W}.
Arguments strict {W}.
Arguments rel {W}.

Definition watched {W} (RW : policy W) (k : Contract) : Prop := strict RW = true -> read_only k.

Record evolves {W} (RW : policy W) (s s' : state W) : Prop := mkEvolves {
  ev_gas : EIP150 (config s) = true -> is_u64 (gas s) -> 0 <= gas s' <= gas s;
  ev_stop : stop s = true -> stop s' = true;
  ev_code : code s' = code s;
  ev_msg : msg s' = msg s;
  ev_config : config s' = config s;
  ev_bitmap : bitmap s' = bitmap s;
  ev_host : watched RW (msg s) -> rel RW (host s) (host s');
}.

(** A frame a static frame may start: static itself, not a creation, and without
    a value transfer. *)
Definition static_frame (k : Contract) : Prop :=
  read_only k /\ c_Type k <> Create /\
  (c_Type k = Call -> default 0 (c_Value k) = 0).

(** The frames a watched frame may start. *)
Definition callee {W} (RW : policy W) (k : Contract) : Prop := strict RW = true -> static_frame k.

(** [callx] keeps these frames within the policy. *)
Class CallxKeeps {W} (RW : policy W) (callx : CallxT W) : Prop :=
  callx_keeps : forall k w, callee RW k -> rel RW w (snd (callx k w)).

(** The operations of the host that change the world keep [R]. *)
Class HostKeeps {W} `{HO : !Host W} (R : relation W) : Prop := {
  hk_SetStorage : forall a k v cfg w, R w (snd (SetStorage a k v cfg w));
  hk_Selfdestruct : forall a b w, R w (Selfdestruct a b w);
  hk_EmitLog : forall a ts d w, R w (EmitLog a ts d w);
}.

(** A policy for all frames is kept by the host itself. *)
Class Allowed {W} `{HO : !Host W} (RW : policy W) : Prop :=
  allowed : strict RW = false -> HostKeeps (rel RW).

Section evolves.
Context {W : Type} (RW : policy W) `{!PreOrder (rel RW)}.
Implicit Types s : state W.

#[global] Instance evolves_refl : Reflexive (evolves RW).
Proof. intros s. constructor; try done; unfold is_u64; intros; lia. Qed.

#[global] Instance evolves_trans : Transitive (evolves RW).
Proof.
  intros s1 s2 s3 [G1 S1 C1 M1 F1 B1 H1] [G2 S2 C2 M2 F2 B2 H2].
  constructor; try congruence; auto.
  - intros HE HG. specialize (G1 HE HG). rewrite F1 in G2.
    assert (is_u64 (gas s2)) by (unfold is_u64 in *; lia).
    specialize (G2 HE ltac:(done)). lia.
  - intros HS. etrans; [by apply H1|]. apply H2. by rewrite M1.
Qed.

(** Changes to the components the relation does not speak of. *)
Lemma evolves_same s s' :
  gas s' = gas s -> (stop s = true -> stop s' = true) -> code s' = code s ->
  msg s' = msg s -> config s' = config s -> bitmap s' = bitmap s -> host s' = host s ->
  evolves RW s s'.
Proof.
  intros Hg Hs Hc Hm Hf Hb Hh. constructor; try done; [unfold is_u64; lia|].
  intros _. by rewrite Hh.
Qed.
End evolves.

Ltac ev_same := apply keeps_modify; intros ?; apply evolves_same; done.

Section ops_evolve.
Context {W : Type} (RW : policy W) `{!PreOrder (rel RW)} `{GA : !GoAlloc}.

Lemma keeps_halt : keeps (evolves RW) halt.
Proof. ev_same. Qed.
Lemma keeps_exit e : keeps (evolves RW) (exit e).
Proof. ev_same. Qed.
Lemma keeps_push v : keeps (evolves RW) (push v).
Proof. ev_same. Qed.
Lemma keeps_setTop v : keeps (evolves RW) (setTop v).
Proof. ev_same. Qed.
Lemma keeps_set_stack v : keeps (evolves RW) (modify (set_stack v)).
Proof. ev_same. Qed.
Lemma keeps_set_ip f : keeps (evolves RW) (modify (fun c => set_ip (f c) c)).
Proof. ev_same. Qed.
Lemma keeps_set_memory f : keeps (evolves RW) (modify (fun c => set_memory (f c) c)).
Proof. ev_same. Qed.
Lemma keeps_set_lastGasCost v : keeps (evolves RW) (modify (set_lastGasCost v)).
Proof. ev_same. Qed.
Lemma keeps_set_ret v : keeps (evolves RW) (modify (set_ret v)).
Proof. ev_same. Qed.
Lemma keeps_set_returnData v : keeps (evolves RW) (modify (set_returnData v)).
Proof. ev_same. Qed.
Lemma keeps_stackAtLeast n : keeps (evolves RW) (stackAtLeast n).
Proof. apply keeps_gets. apply _. Qed.
Lemma keeps_inStaticCall : keeps (evolves RW) inStaticCall.
Proof. apply keeps_gets. apply _. Qed.
Lemma keeps_top : keeps (evolves RW) top.
Proof. apply keeps_gets. apply _. Qed.

Hint Resolve keeps_halt keeps_exit keeps_push keeps_setTop keeps_set_stack keeps_set_ip
  keeps_set_memory keeps_set_lastGasCost keeps_set_ret keeps_set_returnData
  keeps_stackAtLeast keeps_inStaticCall keeps_top : go.

Lemma keeps_pop : keeps (evolves RW) pop.
Proof. unfold pop. keeps_auto. case_match; keeps_auto. Qed.
Hint Resolve keeps_pop : go.
Lemma keeps_popZ : keeps (evolves RW) popZ.
Proof. unfold popZ. keeps_auto. Qed.
Lemma keeps_topZ : keeps (evolves RW) topZ.
Proof. unfold topZ. keeps_auto. Qed.
Hint Resolve keeps_popZ keeps_topZ : go.
Lemma keeps_popHash : keeps (evolves RW) popHash.
Proof. unfold popHash. keeps_auto. Qed.
Lemma keeps_popAddr : keeps (evolves RW) popAddr.
Proof. unfold popAddr. keeps_auto. Qed.
Lemma keeps_peekAt n : keeps (evolves RW) (peekAt n).
Proof. unfold peekAt. keeps_auto. Qed.
Lemma keeps_swap n : keeps (evolves RW) (swap n).
Proof. unfold swap. keeps_auto. Qed.
Lemma keeps_validJumpdest d : keeps (evolves RW) (validJumpdest d).
Proof. unfold validJumpdest. keeps_auto. Qed.

Lemma keeps_consumeGas g : 0 <= g -> keeps (evolves RW) (consumeGas g).
Proof.
  intros Hg s. unfold consumeGas. simpl. unfold mbind, GoM_bind. simpl.
  destruct (Z.ltb_spec (gas s) g); simpl.
  - apply evolves_same; done.
  - constructor; simpl; try done. unfold is_u64. lia.
Qed.
Hint Resolve keeps_consumeGas keeps_popHash keeps_popAddr keeps_peekAt keeps_swap
  keeps_validJumpdest : go.

Lemma keeps_extendMemory o n : keeps (evolves RW) (extendMemory o n).
Proof.
  unfold extendMemory. keeps_auto. apply keeps_consumeGas. apply u64_range.
Qed.
Hint Resolve keeps_extendMemory : go.
Lemma keeps_memSlice a b : keeps (evolves RW) (memSlice a b).
Proof. unfold memSlice. keeps_auto. Qed.
Lemma keeps_memFrom a : keeps (evolves RW) (memFrom a).
Proof. unfold memFrom. keeps_auto. Qed.
Lemma keeps_memCopy o d : keeps (evolves RW) (memCopy o d).
Proof. ev_same. Qed.
Hint Resolve keeps_memSlice keeps_memFrom keeps_memCopy : go.
Lemma keeps_get2 o n : keeps (evolves RW) (get2 o n).
Proof. unfold get2. keeps_auto. Qed.
End ops_evolve.

#[export] Hint Resolve keeps_halt keeps_exit keeps_push keeps_setTop keeps_set_stack
  keeps_set_ip keeps_set_memory keeps_set_lastGasCost keeps_set_ret keeps_set_returnData
  keeps_stackAtLeast keeps_inStaticCall keeps_top keeps_pop keeps_popZ keeps_topZ
  keeps_consumeGas keeps_popHash keeps_popAddr keeps_peekAt keeps_swap keeps_validJumpdest
  keeps_extendMemory keeps_memSlice keeps_memFrom keeps_memCopy keeps_get2 : go.
#[export] Hint Extern 1 (0 <= u64 _) => apply u64_range : go.
#[export] Hint Extern 2 (0 <= _) => lia : go.

(** Without a bound on the world. *)
Definition anyW {W} : policy W := mkPolicy true (fun _ _ => True).
#[global] Instance anyW_preorder {W} : PreOrder (rel (@anyW W)).
Proof. by split. Qed.
#[global] Instance anyW_callx {W} (callx : CallxT W) : CallxKeeps anyW callx.
Proof. done. Qed.
#[global] Instance anyW_host {W} `{HO : !Host W} : HostKeeps (rel (@anyW W)).
Proof. by split. Qed.
#[global] Instance anyW_allowed {W} `{HO : !Host W} : Allowed (@anyW W).
Proof. done. Qed.

Lemma keeps_set_host {W} (RW : policy W) (f : state W -> W) :
  (forall s, rel RW (host s) (f s)) ->
  keeps (evolves RW) (modify (fun c => set_host (f c) c)).
Proof. intros Hf s. constructor; simpl; try done. unfold is_u64. lia. Qed.

(** An instruction that refuses static frames may change the world at will in a
    strict policy. *)
Lemma keeps_static_guard {W} (RW : policy W) `{!PreOrder (rel RW)} e (k : EvmM W unit) :
  keeps (evolves anyW) k -> (strict RW = false -> keeps (evolves RW) k) ->
  keeps (evolves RW) (static ← inStaticCall; if (static : bool) then exit e else k).
Proof.
  intros Hk Hk' s. unfold inStaticCall, gets, mbind, GoM_bind. simpl.
  destruct (c_Static (msg s)) eqn:Hs; [by apply keeps_exit|].
  destruct (strict RW) eqn:Hst; [|by apply Hk'].
  destruct (Hk s) as [? ? ? ? ? ? _]. constructor; try done. intros Hw.
  destruct (Hw Hst) as [? _]. congruence.
Qed.

#[export] Hint Extern 3 (0 <= (if _ then _ else _)) => repeat case_match; lia : go.

Section instructions_evolve.
Context {W : Type} (RW : policy W) `{!PreOrder (rel RW)}.
Context `{GA : !GoAlloc, KK : !Keccak, RL : !FastRlp, HO : !Host W}.

Lemma keeps_requires f k : keeps (evolves RW) k -> keeps (evolves RW) (requires f k).
Proof. intros Hk. unfold requires. keeps_auto. Qed.

Lemma keeps_bufStore o i v : keeps (evolves RW) (bufStore o i v).
Proof. unfold bufStore. keeps_auto. Qed.
Hint Resolve keeps_requires keeps_bufStore : go.

Lemma keeps_mstore_word n o d i : keeps (evolves RW) (mstore_word n o d i).
Proof. revert d i. induction n; intros; simpl; keeps_auto. Qed.
Hint Resolve keeps_mstore_word : go.
Lemma keeps_mstore_words ws o i : keeps (evolves RW) (mstore_words ws o i).
Proof. revert i. induction ws; intros; cbn [mstore_words]; keeps_auto. Qed.
Lemma keeps_mstore_zeros i o : keeps (evolves RW) (mstore_zeros i o).
Proof. induction i; cbn [mstore_zeros]; keeps_auto. Qed.
Hint Resolve keeps_mstore_words keeps_mstore_zeros : go.
Lemma keeps_popTopics n : keeps (evolves RW) (popTopics n).
Proof. induction n; cbn [popTopics]; keeps_auto. Qed.
Lemma keeps_memSetBytes o d n p : keeps (evolves RW) (memSetBytes o d n p).
Proof. unfold memSetBytes. keeps_auto. Qed.
Lemma keeps_jumpTo d : keeps (evolves RW) (jumpTo d).
Proof. unfold jumpTo. keeps_auto. Qed.
Hint Resolve keeps_popTopics keeps_memSetBytes keeps_jumpTo : go.

Ltac ev_op := autounfold with evm; keeps_auto.

Create HintDb evm.
Hint Unfold opAdd opMul opSub opDiv opSDiv opMod opSMod opExp opAddMod opMulMod opAnd opOr
  opXor opByte opNot opIsZero opEq opLt opGt opSlt opSgt opSignExtension opShl opShr opSar
  opMload opMStore opMStore8 opSload opSha3 opPop opAddress opBalance
  opSelfBalance opChainID opOrigin opCaller opCallValue opCallDataLoad opCallDataSize
  opCodeSize opExtCodeSize opGasPrice opReturnDataSize opExtCodeHash opPC opMSize opGas
  opExtCodeCopy copyToMemory opCallDataCopy opCodeCopy opReturnDataCopy opBlockHash
  opCoinbase opTimestamp opNumber opDifficulty opGasLimit opJump opJumpi opJumpDest opPush
  opDup opSwap opStop opHalt requires : evm.

Definition quiet_ops : list (EvmM W unit) :=
  [opAdd; opMul; opSub; opDiv; opSDiv; opMod; opSMod; opExp; opAddMod; opMulMod; opAnd; opOr;
   opXor; opByte; opNot; opIsZero; opEq; opLt; opGt; opSlt; opSgt; opSignExtension; opShl;
   opShr; opSar; opMload; opMStore; opMStore8; opSload; opSha3; opPop; opAddress;
   opBalance; opSelfBalance; opChainID; opOrigin; opCaller; opCallValue; opCallDataLoad;
   opCallDataSize; opCodeSize; opExtCodeSize; opGasPrice; opReturnDataSize; opExtCodeHash;
   opPC; opMSize; opGas; opExtCodeCopy; opCallDataCopy; opCodeCopy; opReturnDataCopy;
   opBlockHash; opCoinbase; opTimestamp; opNumber; opDifficulty; opGasLimit; opJump; opJumpi;
   opJumpDest; opStop; opHalt REVERT; opHalt RETURN].

Lemma quiet_ops_evolve : Forall (keeps (evolves RW)) quiet_ops.
Proof.
  unfold quiet_ops. repeat (apply Forall_cons_2; [solve [ev_op]|]). apply Forall_nil_2.
Qed.

Lemma keeps_opPush n : keeps (evolves RW) (opPush n).
Proof. ev_op. Qed.
Lemma keeps_opDup n : keeps (evolves RW) (opDup n).
Proof. ev_op. Qed.
Lemma keeps_opSwap n : keeps (evolves RW) (opSwap n).
Proof. ev_op. Qed.
End instructions_evolve.

#[export] Hint Extern 4 (0 <= _ + _) => repeat case_match; lia : go.

Section guarded_evolve.
Context {W : Type} (RW : policy W) `{!PreOrder (rel RW)}.
Context `{GA : !GoAlloc, KK : !Keccak, RL : !FastRlp, HO : !Host W, !Allowed RW}.
Hint Resolve keeps_popTopics : go.

Lemma sstore_cost_pos cfg st : 0 < sstore_cost cfg st.
Proof. unfold sstore_cost. repeat case_match; lia. Qed.

(** The changes of the world, in a policy the host keeps. *)
Lemma keeps_setStorage (R : policy W) `{!HostKeeps (rel R)} key val :
  keeps (evolves R) (setStorage key val).
Proof.
  intros s. unfold setStorage.
  pose proof (hk_SetStorage (R := rel R) (c_Address (msg s)) key val (config s) (host s)) as H.
  destruct (SetStorage _ _ _ _ _) as [st w]. simpl in *.
  constructor; simpl; try done. unfold is_u64. lia.
Qed.
Lemma keeps_selfdestruct (R : policy W) `{!HostKeeps (rel R)} (f g : state W -> Address) :
  keeps (evolves R) (modify (fun c => set_host (Selfdestruct (f c) (g c) (host c)) c)).
Proof. apply keeps_set_host. intros s. apply hk_Selfdestruct. Qed.
Lemma keeps_emitLog (R : policy W) `{!HostKeeps (rel R)} (f : state W -> Address) ts d :
  keeps (evolves R) (modify (fun c => set_host (EmitLog (f c) ts d (host c)) c)).
Proof. apply keeps_set_host. intros s. apply hk_EmitLog. Qed.
Hint Resolve keeps_setStorage keeps_selfdestruct keeps_emitLog : go.

Lemma keeps_sstore_charge (R : policy W) `{!PreOrder (rel R)} cfg st :
  keeps (evolves R) (consumeGas (W := W) (sstore_cost cfg st)).
Proof. apply keeps_consumeGas; [apply _ | pose proof (sstore_cost_pos cfg st); lia]. Qed.
Hint Resolve keeps_sstore_charge : go.

Lemma keeps_opSStore : keeps (evolves RW) opSStore.
Proof.
  apply keeps_static_guard; [done|keeps_auto|]. intros Hs. pose proof (allowed Hs). keeps_auto.
Qed.
Lemma keeps_opLog n : keeps (evolves RW) (opLog n).
Proof.
  apply keeps_static_guard; [done|keeps_auto|]. intros Hs. pose proof (allowed Hs). keeps_auto.
Qed.
Lemma keeps_opSelfDestruct : keeps (evolves RW) opSelfDestruct.
Proof.
  apply keeps_static_guard; [done|keeps_auto|]. intros Hs. pose proof (allowed Hs). keeps_auto.
Qed.
End guarded_evolve.

(** ** What the stack primitives return *)

Lemma popZ_ok {W} (s : state W) v s' : popZ s = (Ok v, s') -> stack s = v :: stack s'.
Proof.
  unfold popZ, pop, get, deref, mret, GoM_ret, mbind, GoM_bind, modify. simpl.
  destruct (stack s) as [|x r] eqn:E; simpl; intros H; [done|].
  by injection H as -> <-.
Qed.

Lemma pop_ok {W} (s : state W) v s' :
  pop s = (Ok v, s') -> v = head (stack s) /\ stack s' = tail (stack s).
Proof.
  unfold pop, get, mret, GoM_ret, mbind, GoM_bind, modify. simpl.
  destruct (stack s) as [|x r] eqn:E; simpl; intros H; by injection H as <- <-.
Qed.

Lemma popAddr_ok {W} (s : state W) v s' :
  popAddr s = (Ok v, s') -> stack s' = tail (stack s) /\ is_address (fst v).
Proof.
  assert (Hz : is_address ZeroAddress).
  { split; [done|]. apply Forall_replicate. done. }
  assert (Hb : forall x, is_address (BytesToAddress (big_bytes x))).
  { intros x. split; [apply length_fixed_of_bytes|].
    apply fixed_of_bytes_is_byte, big_bytes_is_byte. }
  unfold popAddr, pop, get, mret, GoM_ret, mbind, GoM_bind, modify. simpl.
  destruct (stack s) as [|x r] eqn:E; simpl; intros H; injection H as <- <-; split; simpl; auto.
Qed.

Lemma peekAt_ok {W} n (s : state W) v s' :
  peekAt n s = (Ok v, s') -> s' = s /\ stack s !! (n - 1)%nat = Some v.
Proof.
  unfold peekAt, get, deref, mbind, GoM_bind. simpl.
  destruct (stack s !! (n - 1)%nat) eqn:E; simpl; intros H; [|done].
  by injection H as -> ->.
Qed.

Lemma consumeGas_ok {W} g (s : state W) b s' :
  consumeGas g s = (Ok b, s') ->
  (b = true /\ g <= gas s /\ s' = set_gas (gas s - g) s) \/
  (b = false /\ gas s < g /\ gas s' = gas s /\ stop s' = true).
Proof.
  unfold consumeGas, get, exit, mbind, GoM_bind, modify, mret, GoM_ret. simpl.
  destruct (Z.ltb_spec (gas s) g); simpl; intros Heq; injection Heq as <- <-.
  - right. by split.
  - left. by split.
Qed.

Lemma extendMemory_ok {W} `{GA : !GoAlloc} o n (s : state W) b s' :
  extendMemory o n s = (Ok b, s') -> b = false -> stop s' = true.
Proof.
  intros Hx ->. unfold extendMemory in Hx.
  repeat (case_match; simplify_eq/=; try done).
  all: unfold get, mbind, GoM_bind, mret, GoM_ret, exit, modify in Hx; simpl in Hx;
    try by injection Hx as <-.
  destruct (slen (memory s) <? _); [|by simplify_eq].
  destruct (consumeGas _ _) as [[b|] s1] eqn:Hc; [|done].
  destruct b; simpl in Hx; [done|]. by injection Hx as <-.
Qed.

Lemma get2_ok {W} `{GA : !GoAlloc} o n (s : state W) s' :
  get2 o n s = (Ok None, s') -> stop s' = true.
Proof.
  unfold get2. case_match; [done|]. unfold mbind, GoM_bind.
  destruct (extendMemory o n s) as [[b|] s1] eqn:He; [|done]. destruct b; simpl.
  - destruct (memSlice _ _ s1) as [[d|] s2]; done.
  - intros Heq; injection Heq as <-. by eapply extendMemory_ok.
Qed.

(** A charge either goes through or stops the frame with out-of-gas. *)
Lemma wp_consumeGas {W B} g (f : bool -> EvmM W B) s Q :
  (g <= gas s -> wp (f true) (set_gas (gas s - g) s) Q) ->
  (gas s < g -> wp (f false) (set_err (Some ErrOutOfGas) (set_stop true s)) Q) ->
  wp (consumeGas g ≫= f) s Q.
Proof.
  intros Ht Hf. unfold wp, consumeGas, get, exit, mbind, GoM_bind, modify, mret, GoM_ret in *.
  simpl. destruct (Z.ltb_spec (gas s) g); auto.
Qed.

(** Step over an operation that only lets the frame evolve, composing with what
    happened since [s0]; a panic is left to the evolution so far. *)
Ltac ev_bind RW s0 v s' E :=
  apply (wp_bind_keeps (evolves RW));
  [ eauto with go typeclass_instances
  | let He := fresh "He" in intros v s' He E;
    match goal with H : evolves RW s0 _ |- _ =>
      let H' := fresh "Hev" in assert (H' := transitivity H He); clear H He end
  | let He := fresh "He" in intros ? He; split; [by etrans | done] ].
