(* ===== verification/CallFacts.v ===== *)
(** The call and create instructions: a new frame is paid for by the frame that
    starts it, is one level deeper, inherits static mode, and gives back at most
    the gas it was handed. *)

From S2P Require Import Prelude Types Chain Runtime Crypto Slice Bitmap EvmState.
From S2P Require Import OpCodes Instructions Calls Evm EvmFacts.

(** A run of [m] that goes through ends with less gas or stopped. *)
Definition burns {W A} (m : EvmM W A) : Prop :=
  forall s a s', m s = (Ok a, s') -> EIP150 (config s) = true -> is_u64 (gas s) ->
    gas s' < gas s \/ stop s' = true.

Definition is_call_op (op : Z) : Prop := In op [CALL; CALLCODE; DELEGATECALL; STATICCALL].

Section calls.
Context {W : Type} (RW : policy W) `{!PreOrder (rel RW)}.
Context `{GA : !GoAlloc, KK : !Keccak, RL : !FastRlp, HO : !Host W}.

Lemma call_base_cost_bound (c : state W) op addr (tv : bool) :
  EIP150 (config c) = true ->
  700 + (if tv then 9000 else 0) <= call_base_cost c op addr tv <= 34700.
Proof. intros HE. unfold call_base_cost. rewrite HE. repeat case_match; lia. Qed.

(** The 63/64 rule: although [c.gas - gasCost] wraps when the frame cannot pay
    the base cost, the total charged never wraps and then exceeds the gas. *)
Lemma call_gas_bound (c : state W) cost initialGas :
  EIP150 (config c) = true -> is_u64 (gas c) -> 0 <= cost <= 34700 ->
  exists g, call_gas c cost initialGas = Some g /\ is_u64 g /\
    is_u64 (cost + g) /\ is_u64 (g + 2300) /\
    (cost <= gas c -> g <= (gas c - cost) - (gas c - cost) / 64).
Proof.
  intros HE Hg Hc. unfold call_gas. rewrite HE.
  set (a := u64 (gas c - cost)).
  assert (Ha : is_u64 a) by apply u64_range.
  assert (Hdiv : 0 <= a / 64 <= a).
  { split; [apply Z.div_pos; unfold is_u64 in *; lia|].
    apply Z.div_le_upper_bound; unfold is_u64 in *; lia. }
  assert (Hb : u64 (a - a / 64) = a - a / 64) by (apply u64_small; unfold is_u64 in *; lia).
  rewrite Hb.
  assert (Hmax : a - a / 64 + 34700 + 2300 < two64).
  { pose proof (Z.div_mod a 64). pose proof (Z.mod_pos_bound a 64).
    unfold is_u64, two64 in *. lia. }
  assert (Hsmall : cost <= gas c -> a = gas c - cost).
  { intros. apply u64_small. unfold is_u64 in *. lia. }
  assert (Hi : is_u64 (big_uint64 initialGas)) by apply u64_range.
  unfold is_u64 in *.
  destruct (negb _ || _) eqn:E; eexists; (split; [reflexivity|]).
  - repeat split; try lia. intros Hle. rewrite <- (Hsmall Hle). lia.
  - apply orb_false_iff in E as [_ E]. apply Z.ltb_ge in E.
    repeat split; try lia. intros Hle. rewrite <- (Hsmall Hle). lia.
Qed.

(** What [buildCallContract] promises about the frame it builds. *)
Definition built_call (op : Z) (s : state W)
    (r : result (option Contract * Z * Z * option error)) (s' : state W) : Prop :=
  evolves RW s s' /\
  match r with
  | Panic => True
  | Ok (None, _, _, e) => e = None /\ stop s' = true
  | Ok (Some k, _, _, _) =>
      (EIP150 (config s) = true -> is_u64 (gas s) ->
         is_u64 (c_Gas k) /\ gas s' + c_Gas k + 700 <= gas s) /\
      c_Depth k = c_Depth (msg s) + 1 /\
      (read_only (msg s) -> read_only k) /\
      (op = CALL -> c_Value k = stack s !! 2%nat)
  end.

Lemma call_frame_props (c : state W) op addr v g args :
  is_address addr ->
  let k := call_frame c op addr v g args in
  c_Gas k = g /\ c_Depth k = c_Depth (msg c) + 1 /\
  (read_only (msg c) -> read_only k) /\
  (op = CALL -> c_Value k = v).
Proof.
  intros Ha. unfold call_frame, read_only. cbv zeta. destruct (c_Static (msg c)).
  - rewrite orb_true_r. refine (conj _ (conj _ (conj _ _))); repeat case_match; try done; try tauto.
    intros ->. done.
  - rewrite orb_false_r. refine (conj _ (conj _ (conj _ _))); repeat case_match; try done;
      try (intros [? _]; done); intros ->; done.
Qed.

Lemma finishCall_spec op s0 s initialGas addr value args retOffset retSize :
  evolves RW s0 s -> is_address addr ->
  (op = CALL -> value = stack s0 !! 2%nat) ->
  wp (finishCall op initialGas addr value args retOffset retSize) s (built_call op s0).
Proof.
  intros Hev Haddr Hval. pose proof Hev as [Hgas _ _ Hmsg Hcfg _ _].
  unfold finishCall. wp_step.
  set (tv := _ && _). set (cost := call_base_cost s op addr tv).
  destruct (call_gas s cost initialGas) as [g|] eqn:Hcg.
  2:{ unfold exit. do 2 wp_step. split; [|done].
      etrans; [exact Hev | apply (keeps_exit RW ErrOutOfGas)]. }
  assert (Hev1 : evolves RW s (snd (consumeGas (u64 (cost + g)) s))).
  { apply (keeps_consumeGas RW), u64_range. }
  unfold consumeGas, mbind, GoM_bind, get in Hev1. simpl in Hev1.
  apply wp_consumeGas; intros Hle; cbn [negb].
  2:{ rewrite (proj2 (Z.ltb_lt _ _) Hle) in Hev1. wp_step. split; [by etrans | done]. }
  rewrite (proj2 (Z.ltb_ge _ _) Hle) in Hev1. simpl in Hev1. wp_step.
  set (g' := if tv then _ else _).
  destruct (call_frame_props (set_gas (gas s - u64 (cost + g)) s) op addr value g' args Haddr)
    as (Hkg & Hkd & Hks & Hkv).
  set (k := call_frame _ _ _ _ _ _) in *.
  assert (Hspec : built_call op s0 (Ok (Some k, 0, 0, None))
                    (set_gas (gas s - u64 (cost + g)) s)).
  { split; [by etrans|]. refine (conj _ (conj _ (conj _ _))).
    - intros HE HG. rewrite Hkg. specialize (Hgas HE HG).
      assert (HE' : EIP150 (config s) = true) by by rewrite Hcfg.
      pose proof (call_base_cost_bound s op addr tv HE') as H700. fold cost in H700.
      destruct (call_gas_bound s cost initialGas) as (g0 & Hg0 & Hu & Hcu & Hst & _);
        [done | unfold is_u64 in *; lia | destruct tv; lia |].
      rewrite Hg0 in Hcg. injection Hcg as ->. simpl.
      rewrite (u64_small _ Hcu) in *. subst g'.
      destruct tv; rewrite ?(u64_small _ Hst); unfold is_u64 in *; lia.
    - rewrite Hkd. simpl. by rewrite Hmsg.
    - intros Hs. apply Hks. simpl. by rewrite Hmsg.
    - intros ->. rewrite Hkv by done. by apply Hval. }
  destruct (tv && _); wp_step; exact Hspec.
Qed.

Lemma buildCallContract_spec op s :
  wp (buildCallContract op) s (built_call op s).
Proof.
  unfold buildCallContract. assert (Hev := evolves_refl RW s).
  ev_bind RW s g s1 E1. apply popZ_ok in E1.
  ev_bind RW s pa s2 E2. apply popAddr_ok in E2 as [E2 Haddr].
  assert (Hkv : keeps (evolves RW) (if (op =? CALL) || (op =? CALLCODE) then pop else mret None)).
  { case_match; eauto with go typeclass_instances. }
  apply (wp_bind_keeps (evolves RW)); [exact Hkv | | by intros ? He; split; [etrans|]].
  intros value s3 He3 E3.
  assert (Hval : op = CALL -> value = stack s !! 2%nat).
  { intros ->. simpl in E3. apply pop_ok in E3 as [-> _]. rewrite E1, E2.
    by destruct (stack s1) as [|x [|y l]]. }
  assert (Hev3 : evolves RW s s3) by by etrans. clear E3 He3 Hkv.
  match goal with H : evolves RW s s2 |- _ => clear H end.
  ev_bind RW s inO s4 E4. ev_bind RW s inS s5 E5. ev_bind RW s rO s6 E6. ev_bind RW s rS s7 E7.
  ev_bind RW s args s8 E8. destruct args as [args|].
  2:{ wp_step. split; [done|]. split; [done|]. by eapply get2_ok. }
  ev_bind RW s ok s9 E9. destruct ok; cbn [negb].
  - by apply finishCall_spec.
  - wp_step. split; [done|]. split; [done|]. by eapply extendMemory_ok.
Qed.
End calls.

Section call_instructions.
Context {W : Type} (RW : policy W) `{!PreOrder (rel RW)}.
Context `{GA : !GoAlloc, KK : !Keccak, RL : !FastRlp, HO : !Host W}.
Context (callx : CallxT W) `{!CallxGas callx, !CallxKeeps RW callx}.

(** An instruction that lets the frame evolve and makes it burn gas. *)
Definition good_inst (s : state W) (r : result unit) (s' : state W) : Prop :=
  evolves RW s s' /\
  (r <> Panic -> EIP150 (config s) = true -> is_u64 (gas s) ->
   gas s' < gas s \/ stop s' = true).

Lemma OpCode2RuntimeType_call op :
  is_call_op op -> exists t, OpCode2RuntimeType op = Some t /\ t <> Create /\
    (t = Call -> op = CALL).
Proof.
  intros Hop. repeat destruct Hop as [<-|Hop]; [..|done]; eexists; split; done.
Qed.

(** Taking a result back touches neither the frame's constants nor the world. *)
Definition took (g : Z) (s : state W) (r : result unit) (s' : state W) : Prop :=
  stop s' = stop s /\ code s' = code s /\ msg s' = msg s /\ config s' = config s /\
  bitmap s' = bitmap s /\ host s' = host s /\
  (gas s' = u64 (gas s + g) \/ r = Panic /\ gas s' = gas s).

Lemma takeCallResult_spec offset size r s :
  wp (takeCallResult offset size r) s (took (GasLeft r) s).
Proof.
  unfold takeCallResult, push, addGas, memCopy. wp_step.
  destruct (_ && _); [|do 3 wp_step; unfold took; simpl; naive_solver].
  apply wp_bind, wp_bind. unfold memSlice. wp_step.
  case_match; wp_step; [|unfold took; simpl; naive_solver].
  do 3 wp_step. unfold took; simpl; naive_solver.
Qed.

Lemma takeCreateResult_spec v r s :
  wp (takeCreateResult v r) s (took (GasLeft r) s).
Proof.
  unfold takeCreateResult, push, addGas. do 2 wp_step.
  case_match; wp_step; unfold took; simpl; naive_solver.
Qed.

(** Running the frame and taking its outcome back: the caller has already paid
    for at least what the callee can return. *)
Lemma run_frame_spec s s1 k (f : ExecutionResult -> EvmM W unit) :
  evolves RW s s1 ->
  (watched RW (msg s) -> rel RW (host s1) (snd (callx k (host s1)))) ->
  (EIP150 (config s) = true -> is_u64 (gas s) ->
     is_u64 (c_Gas k) /\ 0 <= gas s1 /\ gas s1 + c_Gas k <= gas s) ->
  (forall r s, wp (f r) s (took (GasLeft r) s)) ->
  wp (on_host (callx k) ≫= f) s1 (fun _ s' =>
    evolves RW s s' /\
    (EIP150 (config s) = true -> is_u64 (gas s) -> gas s' <= gas s1 + c_Gas k)).
Proof.
  intros [Hg Hs Hc Hm Hf Hb Hh] Hst Hgas Htook. apply wp_bind.
  unfold wp at 1, on_host. pose proof (callx_gas (callx := callx) k (host s1)) as HG.
  assert (HW : watched RW (msg s) -> rel RW (host s) (snd (callx k (host s1)))).
  { intros HS. etrans; [by apply Hh|]. by apply Hst. }
  destruct (callx k (host s1)) as [[r|] w]; simpl in *.
  - eapply wp_mono; [apply Htook|]. intros res s' (T1 & T2 & T3 & T4 & T5 & T6 & T7).
    simpl in *.
    assert (Hg' : EIP150 (config s) = true -> is_u64 (gas s) ->
              0 <= gas s' <= gas s1 + c_Gas k /\ gas s1 + c_Gas k <= gas s).
    { intros HE HU. destruct (Hgas HE HU) as (Hk & G0 & G1). specialize (HG r Hk eq_refl).
      destruct T7 as [->|[_ ->]]; unfold is_u64 in *; [rewrite u64_small; unfold is_u64|]; lia. }
    split; [|intros HE HU; by apply Hg'].
    constructor; try congruence.
    + intros HE HU. specialize (Hg' HE HU). lia.
    + intros HS. rewrite T1. by apply Hs.
    + rewrite T6. exact HW.
  - split; [by constructor; simpl; auto|]. intros HE HU.
    destruct (Hgas HE HU) as (Hk & G0 & G1). unfold is_u64 in *. lia.
Qed.

Lemma opCall_good op s : is_call_op op -> wp (opCall callx op) s (good_inst s).
Proof.
  intros Hop. unfold opCall, resetReturnData. wp_step.
  set (s1 := set_returnData [] s).
  assert (Hev1 : evolves RW s s1) by (by apply evolves_same).
  assert (Hexit : forall e, wp (exit e) s1 (good_inst s)).
  { intros e. unfold exit. wp_step. split; [|by right].
    etrans; [exact Hev1 | apply (keeps_exit RW e s1)]. }
  unfold inStaticCall. wp_step. apply wp_bind.
  assert (Hblk : wp (if (op =? CALL) && c_Static (msg s1)
                     then v ← peekAt 3; mret (0 <? bit_len v) else mret false) s1
            (fun r s' => s' = s1 /\ (r = Ok false -> op = CALL -> c_Static (msg s) = true ->
               default 0 (stack s !! 2%nat) = 0))).
  { destruct (Z.eqb_spec op CALL) as [->|]; cbn [andb].
    2:{ wp_step. by split. }
    destruct (c_Static (msg s1)) eqn:HS; [|wp_step; split; [done|]; intros _ _ HS'; exfalso;
      unfold s1 in HS; simpl in HS; congruence].
    unfold peekAt. apply wp_bind. wp_step. change (stack s1) with (stack s). simpl.
    destruct (stack s !! 2%nat) as [v|]; simpl; [|by wp_step].
    do 2 wp_step. split; [done|]. intros Hr _ _. injection Hr as Hr.
    apply Z.ltb_ge, bit_len_le in Hr; [|done]. simpl in *. lia. }
  eapply wp_mono; [exact Hblk|]. clear Hblk. intros [[]|] s' [-> Hval].
  { apply Hexit. }
  2:{ split; [done | by intros []]. }
  wp_step. case_match; [apply Hexit|]. case_match; [apply Hexit|].
  apply wp_bind. eapply wp_mono; [apply (buildCallContract_spec RW op)|].
  intros [[[[k off] sz] e]|] s2 [Hev2 Hb]; [|split; [by etrans | by intros []]].
  assert (Hev : evolves RW s s2) by by etrans.
  destruct k as [k|]; [|destruct Hb as [-> Hst]; wp_step; split; [done|]; by right].
  destruct Hb as (Hgas & _ & Hks & Hkv). change (gas s1) with (gas s) in Hgas.
  change (config s1) with (config s) in Hgas. change (stack s1) with (stack s) in Hkv.
  change (msg s1) with (msg s) in Hks.
  destruct e as [e|].
  - unfold push, addGas. wp_step. wp_step.
    assert (Hg : EIP150 (config s) = true -> is_u64 (gas s) ->
              0 <= u64 (gas s2 + c_Gas k) < gas s).
    { intros HE HU. destruct (Hgas HE HU) as [Hk Hle]. pose proof (ev_gas _ _ _ Hev HE HU).
      rewrite u64_small; unfold is_u64 in *; lia. }
    destruct Hev as [? Hs Hc Hm Hf Hbm Hh].
    split; [constructor; simpl; auto; intros HE HU; specialize (Hg HE HU); lia|].
    intros _ HE HU. left. by apply Hg.
  - destruct (OpCode2RuntimeType_call op Hop) as (t & -> & Ht & Hcall). simpl. wp_step.
    eapply wp_mono; [apply (run_frame_spec s); [done| | |]|].
    + intros HS. apply callx_keeps. intros Hs. specialize (HS Hs).
      split; [by apply Hks|]. split; [done|]. simpl. intros ->.
      rewrite Hkv by auto. by apply Hval; auto; destruct HS.
    + simpl. intros HE HU. destruct (Hgas HE HU) as [Hk Hle].
      pose proof (ev_gas _ _ _ Hev HE HU). unfold is_u64 in *. lia.
    + intros r s'. apply takeCallResult_spec.
    + intros r s' [Hev' Hle']. split; [done|]. intros _ HE HU. left.
      specialize (Hle' HE HU). destruct (Hgas HE HU). simpl in *. lia.
Qed.
End call_instructions.

Section create_instructions.
Context {W : Type} (RW : policy W) `{!PreOrder (rel RW)}.
Context `{GA : !GoAlloc, KK : !Keccak, RL : !FastRlp, HO : !Host W}.

Definition built_create (s : state W) (r : result (option Contract * option error))
    (s' : state W) : Prop :=
  evolves RW s s' /\
  match r with
  | Panic => True
  | Ok (None, e) => e = None -> stop s' = true
  | Ok (Some k, e) =>
      e = None /\ c_Depth k = c_Depth (msg s) + 1 /\
      (EIP150 (config s) = true -> is_u64 (gas s) ->
         is_u64 (c_Gas k) /\ 0 <= gas s' /\ gas s' + c_Gas k <= gas s)
  end.

Lemma finishCreate_spec s0 s op value salt input :
  evolves RW s0 s -> wp (finishCreate op value salt input) s (built_create s0).
Proof.
  intros Hev. unfold finishCreate. wp_step.
  set (g := if EIP150 (config s) || (op =? CREATE2) then _ else _).
  pose proof Hev as [Hg Hs Hc Hm Hf Hb Hh].
  apply wp_consumeGas; intros Hle; cbn [negb]; wp_step; [wp_step|].
  - assert (HG : EIP150 (config s0) = true -> is_u64 (gas s0) ->
        is_u64 g /\ 0 <= gas s - g /\ gas s - g + g <= gas s0).
    { intros HE HU. specialize (Hg HE HU). clear Hle. subst g. rewrite Hf, HE. cbn [orb].
      assert (0 <= gas s / 64) by (apply Z.div_pos; lia).
      assert (gas s / 64 <= gas s) by (apply Z.div_le_upper_bound; lia).
      unfold is_u64 in *. lia. }
    split; [|split; [done|]; split; [by simpl; rewrite Hm | exact HG]].
    constructor; simpl; auto. intros HE HU. specialize (HG HE HU). specialize (Hg HE HU).
    unfold is_u64 in *. lia.
  - split; [|done]. constructor; simpl; auto.
Qed.

Lemma buildCreateContract_spec op s :
  wp (buildCreateContract op) s (built_create s).
Proof.
  unfold buildCreateContract. assert (Hev := evolves_refl RW s).
  ev_bind RW s v0 s1 E1. ev_bind RW s off s2 E2. ev_bind RW s len s3 E3.
  assert (Hks : keeps (evolves RW) (if op =? CREATE2 then popZ else mret 0)).
  { case_match; eauto with go typeclass_instances. }
  ev_bind RW s salt s4 E4. ev_bind RW s input s5 E5. destruct input as [input|].
  2:{ wp_step. split; [done|]. intros _. by eapply get2_ok. }
  ev_bind RW s ok s6 E6. destruct ok; cbn [negb].
  2:{ wp_step. split; [done|]. intros _.
      apply consumeGas_ok in E6 as [[? _]|(_ & _ & _ & ?)]; done. }
  wp_step. destruct (negb _ && _); [wp_step; by split|].
  assert (Hkc : keeps (evolves RW) (if op =? CREATE2
      then consumeGas (u64 (u64 (big_uint64 len + 31) / 32 * sha3WordGas)) else mret true)).
  { case_match; eauto with go typeclass_instances. }
  ev_bind RW s ok s7 E7. destruct ok; cbn [negb]; [by apply finishCreate_spec|].
  wp_step. split; [done|]. intros _. destruct (op =? CREATE2); [|done].
  apply consumeGas_ok in E7 as [[? _]|(_ & _ & _ & ?)]; done.
Qed.
End create_instructions.

Section create_evolve.
Context {W : Type} `{GA : !GoAlloc, KK : !Keccak, RL : !FastRlp, HO : !Host W}.
Context (callx : CallxT W) `{!CallxGas callx}.

Lemma keeps_createUnguarded (R : policy W) `{!PreOrder (rel R)} op :
  (forall k w, rel R w (snd (callx k w))) -> keeps (evolves R) (createUnguarded callx op).
Proof.
  intros HC s. change (wp (createUnguarded callx op) s (fun _ s' => evolves R s s')).
  unfold createUnguarded.
  wp_step. destruct (_ && negb _); [by apply (keeps_exit R)|].
  unfold resetReturnData. wp_step. apply wp_bind.
  assert (Hev1 : evolves R s (set_returnData [] s)) by by apply evolves_same.
  eapply wp_mono; [apply (buildCreateContract_spec R op)|].
  intros [[[k|] e]|] s2 [Hev2 Hb]; [| |by etrans].
  - destruct Hb as (-> & _ & Hgas).
    eapply wp_mono; [apply (run_frame_spec R callx s)|by intros ? ? []].
    + by etrans.
    + intros _. apply HC.
    + done.
    + intros r s'. cbv zeta. apply takeCreateResult_spec.
  - assert (Hev : evolves R s s2) by by etrans.
    destruct e; [|by wp_step]. unfold push. wp_step. etrans; [exact Hev|].
    by apply evolves_same.
Qed.

Lemma keeps_opCreate (RW : policy W) `{!PreOrder (rel RW), !CallxKeeps RW callx} op :
  keeps (evolves RW) (opCreate callx op).
Proof.
  apply keeps_static_guard; [done|by apply keeps_createUnguarded|].
  intros Hs. apply keeps_createUnguarded; [done|]. intros k w. apply callx_keeps.
  intros Hs'. congruence.
Qed.
End create_evolve.
