(* ===== verification/Progress.v ===== *)
(** Progress of the interpreter: every round of [state.Run] stops the frame or burns
    gas, so the loop ends; and the relation [evolves] holds of a whole run. *)

From S2P Require Import Prelude Types Chain Runtime Crypto Slice Bitmap EvmState.
From S2P Require Import OpCodes Instructions Calls Evm EvmFacts CallFacts.

Section burns.
Context {W : Type} `{GA : !GoAlloc, KK : !Keccak, RL : !FastRlp, HO : !Host W}.

Lemma burns_exit e : burns (W := W) (exit e).
Proof. intros s a s' Heq. injection Heq as _ <-. by right. Qed.
Lemma burns_halt : burns (W := W) halt.
Proof. intros s a s' Heq. injection Heq as _ <-. by right. Qed.

Lemma burns_consumeGas g : 0 < g -> burns (W := W) (consumeGas g).
Proof.
  intros Hg s a s' Heq _ _. apply consumeGas_ok in Heq as [(_ & _ & ->)|(_ & _ & _ & ?)].
  - left. simpl. lia.
  - by right.
Qed.

Lemma burns_bind_r {A B} (m : EvmM W A) (f : A -> EvmM W B) :
  keeps (evolves anyW) m -> (forall a, burns (f a)) -> burns (m ≫= f).
Proof.
  intros Hk Hf s b s' Heq HE HU. specialize (Hk s). unfold mbind, GoM_bind in Heq.
  destruct (m s) as [[a|] s1] eqn:Hm; [|done]. simpl in Hk. destruct Hk as [G _ _ _ F _ _].
  specialize (G HE HU).
  destruct (Hf a s1 b s' Heq) as [|]; [by rewrite F| |lia|by right].
  unfold is_u64 in *. lia.
Qed.

Lemma burns_bind_l {A B} (m : EvmM W A) (f : A -> EvmM W B) :
  keeps (evolves anyW) m -> burns m -> (forall a, keeps (evolves anyW) (f a)) ->
  burns (m ≫= f).
Proof.
  intros Hk Hb Hf s b s' Heq HE HU. specialize (Hk s). unfold mbind, GoM_bind in Heq.
  destruct (m s) as [[a|] s1] eqn:Hm; [|done]. simpl in Hk. destruct Hk as [G _ _ _ F _ _].
  specialize (G HE HU). specialize (Hf a s1). rewrite Heq in Hf. simpl in Hf.
  destruct Hf as [G' S' _ _ _ _ _]. rewrite F in G'.
  specialize (G' HE ltac:(unfold is_u64 in *; lia)).
  destruct (Hb s a s1 Hm HE HU) as [|]; [left; lia | right; auto].
Qed.
End burns.

#[export] Hint Resolve burns_exit burns_halt burns_consumeGas : go.
#[export] Hint Extern 2 (0 < _) => lia : go.
#[export] Hint Extern 3 (0 < _) => repeat case_match; lia : go.

#[export] Hint Resolve sstore_cost_pos keeps_setStorage keeps_selfdestruct keeps_emitLog : go.
#[export] Hint Extern 1 (0 <= sstore_cost _ _) => apply Z.lt_le_incl, sstore_cost_pos : go.

(** Look for the first charge; everything before and after it only evolves. *)
Ltac burns_auto :=
  lazymatch goal with
  | |- burns (mbind _ (consumeGas _)) =>
      apply burns_bind_l; [eauto with go typeclass_instances | eauto with go | intros ?; keeps_auto]
  | |- burns (mbind _ (exit _)) =>
      apply burns_bind_l; [eauto with go typeclass_instances | eauto with go | intros ?; keeps_auto]
  | |- burns (mbind _ _) =>
      apply burns_bind_r; [eauto with go typeclass_instances | intros ?; cbv zeta; burns_auto]
  | |- burns (if ?b then _ else _) => destruct b eqn:?; burns_auto
  | |- burns (match ?p with (_, _) => _ end) => destruct p eqn:?; burns_auto
  | |- _ => eauto with go
  end.

Ltac burns_skip x :=
  apply burns_bind_r; [eauto with go typeclass_instances | intros x; cbv zeta].

Section instructions_burn.
Context {W : Type} `{GA : !GoAlloc, KK : !Keccak, RL : !FastRlp, HO : !Host W}.

Lemma burns_opStop : burns (W := W) opStop.
Proof. apply burns_halt. Qed.
Lemma burns_opSload : burns (W := W) opSload.
Proof. unfold opSload. burns_auto. Qed.
Lemma burns_opSStore : burns (W := W) opSStore.
Proof. unfold opSStore. burns_auto. Qed.
Lemma burns_opBalance : burns (W := W) opBalance.
Proof. unfold opBalance. burns_auto. Qed.
Lemma burns_opExtCodeSize : burns (W := W) opExtCodeSize.
Proof. unfold opExtCodeSize. burns_auto. Qed.
Lemma burns_opExtCodeHash : burns (W := W) opExtCodeHash.
Proof. unfold opExtCodeHash, requires. burns_auto. Qed.

(** A charge that cannot be paid stops the frame. *)
Lemma burns_pay g (k : EvmM W unit) :
  0 <= g -> burns k -> burns (ok ← consumeGas g; if negb ok then mret tt else k).
Proof.
  intros Hg Hk s a s' Heq HE HU. unfold mbind, GoM_bind in Heq.
  destruct (consumeGas g s) as [[b|] s1] eqn:Hc; [|done].
  apply consumeGas_ok in Hc as [(-> & Hle & ->)|(-> & _ & _ & Hst)]; simpl in Heq.
  - destruct (Hk _ _ _ Heq) as [|]; simpl in *; try done; [|left; lia|by right].
    unfold is_u64 in *. lia.
  - injection Heq as _ <-. by right.
Qed.

Lemma burns_opExtCodeCopy : burns (W := W) opExtCodeCopy.
Proof.
  unfold opExtCodeCopy.
  burns_skip pa. burns_skip mo. burns_skip co. burns_skip len.
  intros s a s' Heq HE HU. unfold mbind at 1, GoM_bind at 1 in Heq.
  destruct (extendMemory _ _ s) as [[ok|] s1] eqn:Hm; [|done].
  destruct ok; cbn [negb] in Heq.
  2:{ injection Heq as _ <-. right. by eapply extendMemory_ok. }
  pose proof (keeps_extendMemory anyW mo len s) as [G _ _ _ F _ _]. rewrite Hm in G, F.
  simpl in G, F. specialize (G HE HU). revert Heq. set (k := mbind _ _). intros Heq.
  assert (Hk : burns k).
  { subst k. apply burns_pay; [apply u64_range|]. burns_auto.
    all: apply keeps_memSetBytes; apply _. }
  destruct (Hk _ _ _ Heq) as [|]; [by rewrite F| |left; lia|by right].
  unfold is_u64 in *; lia.
Qed.

Lemma burns_opSelfDestruct : burns (W := W) opSelfDestruct.
Proof.
  unfold opSelfDestruct. burns_skip static. destruct static; [apply burns_exit|].
  burns_skip pa. burns_skip c. apply burns_pay; [repeat case_match; lia|]. burns_auto.
Qed.

Lemma burns_opHalt op : burns (W := W) (opHalt op).
Proof.
  unfold opHalt. burns_skip cfg. destruct (_ && _); [apply burns_exit|].
  burns_skip off. burns_skip sz.
  intros s b s' Heq _ _. unfold mbind at 1, GoM_bind at 1 in Heq.
  destruct (get2 _ _ s) as [[[d|]|] s1] eqn:Hm; [..|done]; right.
  - destruct (op =? REVERT); by injection Heq as _ <-.
  - injection Heq as _ <-. simpl. by eapply get2_ok.
Qed.
End instructions_burn.

(** ** The dispatch table *)

Section dispatch.
Context {W : Type} (RW : policy W) `{!PreOrder (rel RW)}.
Context `{GA : !GoAlloc, KK : !Keccak, RL : !FastRlp, HO : !Host W, !Allowed RW}.
Context (callx : CallxT W) `{!CallxGas callx, !CallxKeeps RW callx}.

Definition good_handler (h : handler W) : Prop :=
  keeps (evolves RW) (h_inst h) /\ 0 <= h_gas h /\ (0 < h_gas h \/ burns (h_inst h)).

(** An entry of the table was registered. *)
Lemma register_all_In l (t t' : gmap Z (handler W)) op h :
  register_all l t = Some t' -> t' !! op = Some h -> t !! op = Some h \/ In (op, h) l.
Proof.
  revert t. induction l as [|[op1 h1] l IH]; simpl; intros t Hr Ht; [by simplify_eq; left|].
  destruct (register op1 h1 t) as [t1|] eqn:H1; [|done].
  destruct (IH t1 Hr Ht) as [Hl|]; [|by right; right].
  unfold register in H1. destruct (t !! op1); [done|]. injection H1 as <-.
  apply lookup_insert_Some in Hl as [[-> ->]|[_ ?]]; [by right; left | by left].
Qed.

Lemma dispatchTable_In op h :
  dispatchTable callx !! op = Some h -> In (op, h) (registrations callx).
Proof.
  unfold dispatchTable. destruct (register_all _ _) as [t|] eqn:Hr; simpl.
  - intros Ht. by destruct (register_all_In _ _ _ _ _ Hr Ht).
  - by rewrite lookup_empty.
Qed.

Lemma registerRange_good from to f g :
  0 < g -> (forall n, keeps (evolves RW) (f n)) ->
  Forall (fun p => good_handler (snd p)) (registerRange from to f g).
Proof.
  intros Hg Hf. unfold registerRange. apply List.Forall_map, Forall_true.
  intros k. simpl. split; [apply Hf|]. simpl. lia.
Qed.

Lemma quiet_good m n g :
  0 < g -> In m quiet_ops -> good_handler (mkHandler m n g).
Proof.
  intros Hg Hm. split; [|simpl; lia]. simpl.
  pose proof (quiet_ops_evolve RW (W := W)) as HF. rewrite List.Forall_forall in HF. by apply HF.
Qed.

Lemma free_good m n :
  In m quiet_ops -> burns m -> good_handler (mkHandler m n 0).
Proof.
  intros Hm Hb. split; [|simpl; split; [lia|by right]]. simpl.
  pose proof (quiet_ops_evolve RW (W := W)) as HF. rewrite List.Forall_forall in HF. by apply HF.
Qed.

Lemma opCall_handler_good op n :
  is_call_op op -> good_handler (mkHandler (opCall callx op) n 0).
Proof.
  intros Hop. split; [|split; [simpl; lia|right]]; simpl.
  - intros s. apply (opCall_good RW callx op s Hop).
  - intros s a s' Heq HE HU. destruct (opCall_good RW callx op s Hop) as [_ Hb].
    rewrite Heq in Hb. by apply Hb.
Qed.

Lemma registrations_good : Forall (fun p => good_handler (snd p)) (registrations callx).
Proof.
  unfold registrations.
  repeat (apply Forall_app; split);
    try (apply registerRange_good; [lia|];
         eauto using keeps_opPush, keeps_opDup, keeps_opSwap, keeps_opLog).
  all: repeat apply Forall_cons_2; try apply Forall_nil_2; cbv beta; cbn [snd].
  all: try (apply quiet_good; [lia | unfold quiet_ops; simpl; tauto]).
  all: try (apply free_good; [unfold quiet_ops; simpl; tauto |
         eauto using burns_opStop, burns_opSload, burns_opBalance, burns_opExtCodeSize,
           burns_opExtCodeHash, burns_opExtCodeCopy, burns_opHalt]).
  all: try (apply opCall_handler_good; unfold is_call_op; simpl; tauto).
  1,2: split; [by apply keeps_opCreate | simpl; lia].
  - split; [by apply keeps_opSStore|]. split; [simpl; lia | right; apply burns_opSStore].
  - split; [by apply keeps_opSelfDestruct|].
    split; [simpl; lia | right; apply burns_opSelfDestruct].
Qed.

Lemma dispatchTable_good op h : dispatchTable callx !! op = Some h -> good_handler h.
Proof.
  intros Hl%dispatchTable_In. pose proof registrations_good as HF.
  rewrite List.Forall_forall in HF. exact (HF _ Hl).
Qed.

(** ** One round of the loop *)

Lemma exit_good e s : wp (exit e) s (good_inst RW s).
Proof. split; [apply (keeps_exit RW) | by right]. Qed.

(** A handler run after its static charge. *)
Lemma charged_good h s :
  good_handler h ->
  wp (ok ← consumeGas (h_gas h);
      if negb ok then exit ErrOutOfGas
      else
        h_inst h;;
        c ← get;
        if stackSize <? zlen (stack c) then exit ErrStackOverflow
        else modify (fun c => set_ip (ip c + 1) c)) s (good_inst RW s).
Proof.
  intros (Hk & Hg & Hb). set (f := fun ok : bool => _).
  assert (Hf : forall b, keeps (evolves RW) (f b)).
  { intros []; subst f; simpl; keeps_auto. }
  split; [by apply (keeps_bind (evolves RW)); eauto with go|].
  intros Hr HE HU.
  assert (Hbf : burns (consumeGas (h_gas h) ≫= f)).
  { destruct Hb as [Hb|Hb].
    - apply burns_bind_l; eauto with go typeclass_instances.
      intros b s1. destruct (Hf b s1) as [? ? ? ? ? ? _]. by constructor.
    - apply burns_bind_r; [eauto with go typeclass_instances|]. intros []; subst f; simpl.
      2:{ apply burns_exit. }
      apply burns_bind_l; [|done|intros ?; keeps_auto].
      intros s1. destruct (Hk s1) as [? ? ? ? ? ? _]. by constructor. }
  destruct ((consumeGas (h_gas h) ≫= f) s) as [[[]|] s'] eqn:E; [|done].
  by eapply Hbf.
Qed.

Lemma step_good s : wp (step callx) s (good_inst RW s).
Proof.
  unfold step. wp_step. case_match.
  { split; [apply (keeps_halt RW) | by right]. }
  destruct (if ip s <? 0 then None else code s !! Z.to_nat (ip s)) as [op|]; simpl.
  2:{ split; [apply evolves_refl, _ | by intros []]. }
  wp_step. destruct (dispatchTable callx !! op) as [h|] eqn:Hh; [|apply exit_good].
  case_match; [apply exit_good|]. apply charged_good. by eapply dispatchTable_good.
Qed.

Lemma keeps_step_inst : keeps (evolves RW) (step callx).
Proof. intros s. apply step_good. Qed.

(** ** The loop *)

Lemma run_loop_eq fuel s :
  run_loop callx fuel s =
    if stop s then (Ok true, s)
    else match fuel with
         | O => (Ok false, s)
         | S fuel => (step callx;; run_loop callx fuel) s
         end.
Proof.
  destruct fuel; cbn [run_loop]; unfold get, mbind at 1, GoM_bind at 1; by destruct (stop s).
Qed.

Lemma keeps_run_loop fuel : keeps (evolves RW) (run_loop callx fuel).
Proof.
  induction fuel as [|fuel IH]; cbn [run_loop]; keeps_auto.
  apply keeps_step_inst.
Qed.

(** With one round per unit of gas the loop ends by itself. *)
Lemma run_loop_ends fuel s :
  EIP150 (config s) = true -> is_u64 (gas s) -> (Z.to_nat (gas s) + 1 < fuel)%nat ->
  fst (run_loop callx fuel s) <> Ok false.
Proof.
  revert s. induction fuel as [|fuel IH]; intros s HE HU Hf; [lia|].
  cbn [run_loop]. unfold get, mbind, GoM_bind. cbv beta iota.
  destruct (stop s) eqn:Hs; [done|].
  pose proof (step_good s) as [Hev Hb].
  destruct (step callx s) as [[[]|] s1]; simpl in *; [|done].
  specialize (Hb ltac:(done) HE HU). pose proof (ev_gas _ _ _ Hev HE HU).
  destruct Hb as [Hlt|Hst].
  - apply IH; [by rewrite (ev_config _ _ _ Hev) | unfold is_u64 in *; lia |].
    unfold is_u64 in *. lia.
  - destruct fuel; cbn [run_loop]; unfold get, mbind, GoM_bind; cbv beta iota; by rewrite Hst.
Qed.
End dispatch.
