(* ===== verification/Locality.v ===== *)
(** A run calls back only frames one level deeper: two hosts that agree on those
    give the same run. This is what makes a bounded number of levels enough for the
    mutual recursion between the interpreter and the state transition. *)

From S2P Require Import Prelude Types Chain Runtime Crypto Slice Bitmap EvmState.
From S2P Require Import OpCodes Instructions Calls Evm EvmFacts CallFacts Progress.

(** The hosts [callx] and [callx'] run the frames of depth [d] alike. *)
Definition agree_at {W} (d : Z) (callx callx' : CallxT W) : Prop :=
  forall k w, c_Depth k = d -> callx k w = callx' k w.

Lemma bind_ext {S A B} (m : GoM S A) (f g : A -> GoM S B) s :
  (forall a s', m s = (Ok a, s') -> f a s' = g a s') -> (m ≫= f) s = (m ≫= g) s.
Proof.
  intros H. unfold mbind, GoM_bind. destruct (m s) as [[a|] s'] eqn:E; [by apply H|done].
Qed.

Lemma gets_inv {S A} (f : S -> A) s a s' : gets f s = (Ok a, s') -> a = f s /\ s' = s.
Proof. intros E. unfold gets in E. split; congruence. Qed.

Section locality.
Context {W : Type} `{GA : !GoAlloc, KK : !Keccak, RL : !FastRlp, HO : !Host W}.
Context (callx callx' : CallxT W) (d : Z).
Hypothesis Hagree : agree_at (d + 1) callx callx'.
Implicit Types s : state W.

(** The frames of depth [d]. *)
Definition at_depth s : Prop := c_Depth (msg s) = d.

Lemma on_host_agree k s : c_Depth k = d + 1 -> on_host (callx k) s = on_host (callx' k) s.
Proof. intros Hd. unfold on_host. by rewrite Hagree. Qed.

Lemma opCall_local op s : at_depth s -> opCall callx op s = opCall callx' op s.
Proof.
  intros Hd. unfold opCall. apply bind_ext. intros [] s1 E1.
  apply bind_ext. intros static s2 E2. apply bind_ext. intros blocked s3 E3.
  destruct blocked; [done|]. apply bind_ext. intros cfg s4 E4.
  assert (Hm : msg s4 = msg s).
  { apply gets_inv in E4 as [_ ->]. apply gets_inv in E2 as [_ ->].
    assert (msg s1 = msg s) as <- by (by injection E1 as <-). revert E3.
    destruct (_ && _); [|intros [= <-]; done].
    unfold peekAt, get, deref, mbind, GoM_bind, mret, GoM_ret, panic.
    destruct (stack _ !! _); [intros [= _ <-]|]; done. }
  destruct ((op =? DELEGATECALL) && negb (Homestead cfg)); [done|].
  destruct ((op =? STATICCALL) && negb (Byzantium cfg)); [done|].
  apply bind_ext. intros [[[k off] sz] e] s5 E5.
  pose proof (buildCallContract_spec anyW op s4) as Hb. unfold wp in Hb. rewrite E5 in Hb.
  destruct Hb as [_ Hb]. destruct k as [k|]; [|done]. destruct e; [done|].
  destruct Hb as (_ & Hk & _). simpl in Hk.
  apply bind_ext. intros typ s6 E6. unfold mbind, GoM_bind.
  rewrite on_host_agree; [done|]. simpl. by rewrite Hk, Hm, Hd.
Qed.

Lemma opCreate_local op s : at_depth s -> opCreate callx op s = opCreate callx' op s.
Proof.
  intros Hd. unfold opCreate. apply bind_ext. intros static s1 E1. apply gets_inv in E1 as [_ ->].
  destruct static; [done|]. unfold createUnguarded.
  apply bind_ext. intros cfg s2 E2. apply gets_inv in E2 as [_ ->].
  destruct ((op =? CREATE2) && negb (Constantinople cfg)); [done|].
  apply bind_ext. intros [] s3 E3.
  assert (s3 = set_returnData [] s) as -> by (by injection E3 as <-).
  apply bind_ext. intros [k e] s4 E4.
  pose proof (buildCreateContract_spec anyW op (set_returnData [] s)) as Hb. unfold wp in Hb.
  rewrite E4 in Hb. destruct Hb as [_ Hb]. destruct k as [k|]; [|done].
  destruct Hb as (-> & Hk & _). simpl in Hk. unfold mbind, GoM_bind.
  rewrite on_host_agree; [done|]. simpl. by rewrite Hk, Hd.
Qed.

(** Two handlers that differ at most in the host they call. *)
Definition same_handler (h h' : handler W) : Prop :=
  h_stack h = h_stack h' /\ h_gas h = h_gas h' /\
  forall s, at_depth s -> h_inst h s = h_inst h' s.

Lemma same_handler_refl h : same_handler h h.
Proof. done. Qed.

Definition same_entry (p q : Z * handler W) : Prop :=
  fst p = fst q /\ same_handler (snd p) (snd q).

Lemma registrations_same : Forall2 same_entry (registrations callx) (registrations callx').
Proof.
  assert (Hr : forall l, Forall2 same_entry l l).
  { intros l. induction l; constructor; [by split|done]. }
  unfold registrations. do 5 (apply Forall2_app; [apply Hr|]).
  repeat (apply Forall2_cons; [split; [done|]|]); try apply Forall2_nil;
    try apply same_handler_refl.
  all: split; [done|]; split; [done|]; simpl; auto using opCall_local, opCreate_local.
Qed.

(** Two tables with the same opcodes and handlers that are alike. *)
Definition same_table (t t' : gmap Z (handler W)) : Prop :=
  forall op, option_Forall2 same_handler (t !! op) (t' !! op).

Lemma register_same op h h' t t' :
  same_handler h h' -> same_table t t' ->
  option_Forall2 same_table (register op h t) (register op h' t').
Proof.
  intros Hh Ht. unfold register. destruct (Ht op) as [h1 h1' H1|]; constructor.
  intros op'. destruct (decide (op = op')) as [->|Hne].
  - rewrite !lookup_insert_eq. by constructor.
  - rewrite !lookup_insert_ne by done. apply Ht.
Qed.

Lemma register_all_same l l' t t' :
  Forall2 same_entry l l' -> same_table t t' ->
  option_Forall2 same_table (register_all l t) (register_all l' t').
Proof.
  intros Hl. revert t t'. induction Hl as [|[op h] [op' h'] l l' [Hop Hh] Hl IH]; intros t t' Ht.
  - by constructor.
  - simpl in Hop, Hh. subst op'. cbn [register_all].
    destruct (register_same op h h' t t' Hh Ht) as [t1 t1' H1|]; [by apply IH|constructor].
Qed.

Lemma dispatchTable_same : same_table (dispatchTable callx) (dispatchTable callx').
Proof.
  unfold dispatchTable.
  destruct (register_all_same _ _ ∅ ∅ registrations_same) as [t t' Ht|]; simpl; try done;
    intros op; rewrite lookup_empty; constructor.
Qed.

Lemma step_local s : at_depth s -> step callx s = step callx' s.
Proof.
  intros Hd. unfold step. apply bind_ext. intros c s1 E1. injection E1 as <- <-.
  destruct (zlen (code s) <=? ip s); [done|]. apply bind_ext. intros op s2 E2.
  assert (s2 = s) as ->.
  { revert E2. unfold deref, mret, GoM_ret, panic. destruct (if ip s <? 0 then _ else _); congruence. }
  destruct (dispatchTable_same op) as [h h' (H1 & H2 & H3)|]; [|done].
  rewrite H1, H2. destruct (length (stack s) <? h_stack h')%nat; [done|].
  apply bind_ext. intros ok s3 E3. destruct ok; [|done]. cbn [negb].
  unfold mbind, GoM_bind. rewrite H3; [done|]. unfold at_depth.
  apply consumeGas_ok in E3. destruct E3 as [(_ & _ & ->)|(? & _)]; [exact Hd|done].
Qed.
End locality.

Section runs.
Context {W : Type} `{GA : !GoAlloc, KK : !Keccak, RL : !FastRlp, HO : !Host W}.
Context (callx callx' : CallxT W) `{!CallxGas callx}.
Implicit Types s : state W.

Lemma run_loop_local fuel s :
  agree_at (c_Depth (msg s) + 1) callx callx' -> run_loop callx fuel s = run_loop callx' fuel s.
Proof.
  revert s. induction fuel as [|fuel IH]; intros s Ha; rewrite !run_loop_eq.
  { by destruct (stop s). }
  destruct (stop s); [reflexivity|].
  pose proof (step_local callx callx' (c_Depth (msg s)) Ha s eq_refl) as Hs.
  pose proof (keeps_step_inst anyW callx s) as Hev.
  unfold mbind, GoM_bind. rewrite <- Hs.
  destruct (step callx s) as [[[]|] s1]; [|reflexivity]. simpl in Hev.
  apply IH. by rewrite (ev_msg _ _ _ Hev).
Qed.

Lemma EVM_Run_local p k cfg w :
  agree_at (c_Depth k + 1) callx callx' -> EVM_Run callx p k cfg w = EVM_Run callx' p k cfg w.
Proof.
  intros Ha. unfold EVM_Run. apply bind_ext. intros bm w1 E1. apply bind_ext. intros w2 w3 E2.
  unfold Run. rewrite run_loop_local by exact Ha. reflexivity.
Qed.

(** ** Runs with no assumption on the frame or the buffers *)

(** The result of [EVM.Run] in terms of its loop. *)
Lemma EVM_Run_eq p k cfg w :
  EVM_Run callx p k cfg w =
    match setCode (p_bitmap p) (c_Code k) with
    | None => (Panic, w)
    | Some bm =>
        match run_loop callx (run_fuel (c_Gas k)) (init_state p bm k cfg w) with
        | (Ok _, c) =>
            (Ok (mkResult (ret c)
                   (if bool_decide (err c <> None) &&
                       negb (bool_decide (err c = Some ErrExecutionReverted))
                    then 0 else gas c) 0 (err c)), host c)
        | (Panic, c) => (Ok (mkResult [] 0 0 (Some errEvmPanic)), host c)
        end
    end.
Proof.
  unfold EVM_Run, deref, get, modify, mbind, GoM_bind, mret, GoM_ret, Run.
  destruct (setCode (p_bitmap p) (c_Code k)) as [bm|]; [|done].
  change (gas (init_state p bm k cfg w)) with (c_Gas k).
  by destruct (run_loop callx (run_fuel (c_Gas k)) (init_state p bm k cfg w)) as [[]].
Qed.

Lemma run_loop_evolves (RW : policy W) `{!PreOrder (rel RW), !Allowed RW, !CallxKeeps RW callx}
    fuel s r s' :
  run_loop callx fuel s = (r, s') -> evolves RW s s'.
Proof.
  intros E. pose proof (keeps_run_loop RW callx fuel s) as H. by rewrite E in H.
Qed.

Lemma EVM_Run_gas_bound p k cfg w r w' :
  EIP150 cfg = true -> is_u64 (c_Gas k) -> EVM_Run callx p k cfg w = (Ok r, w') ->
  0 <= GasLeft r <= c_Gas k.
Proof.
  intros HE HU. rewrite EVM_Run_eq. destruct (setCode _ _) as [bm|]; [|done].
  destruct (run_loop callx _ _) as [x c] eqn:E.
  apply (run_loop_evolves anyW) in E as [Hg _ _ _ _ _ _]. specialize (Hg HE HU).
  change (gas (init_state p bm k cfg w)) with (c_Gas k) in Hg. unfold is_u64 in HU.
  destruct x as [b|]; intros [= <- _]; cbn [GasLeft]; [destruct (_ && _)|]; lia.
Qed.

(** A run stays within a policy the host and the callees keep. *)
Lemma EVM_Run_keeps (RW : policy W) `{!PreOrder (rel RW), !Allowed RW, !CallxKeeps RW callx}
    p k cfg w :
  watched RW k -> rel RW w (snd (EVM_Run callx p k cfg w)).
Proof.
  intros Hr. rewrite EVM_Run_eq. destruct (setCode _ _) as [bm|]; [|simpl; reflexivity].
  destruct (run_loop callx _ _) as [x c] eqn:E.
  apply (run_loop_evolves RW) in E as [_ _ _ _ _ _ Hh]. specialize (Hh Hr).
  by destruct x.
Qed.
End runs.
