(* ===== verification/Arith.v ===== *)
(** Arithmetic and logic of the EVM: each instruction computes the 256-bit function
    the Ethereum specification gives for its opcode, on every pair of words. *)

From S2P Require Import Instances.
From S2P Require Import Prelude Types Chain Runtime Crypto Slice Bitmap EvmState.
From S2P Require Import OpCodes Instructions.

(** ** Reference semantics *)

(** The two's complement reading of a word. *)
Definition signed (x : Z) : Z := if x <? 2 ^ 255 then x else x - two256.
Definition word (x : Z) : Z := x mod two256.
Definition bool_word (b : bool) : Z := if b then 1 else 0.

Definition spec_div (a b : Z) : Z := if b =? 0 then 0 else a / b.
Definition spec_sdiv (a b : Z) : Z := if b =? 0 then 0 else word (Z.quot (signed a) (signed b)).
Definition spec_mod (a b : Z) : Z := if b =? 0 then 0 else a mod b.
Definition spec_smod (a b : Z) : Z := if b =? 0 then 0 else word (Z.rem (signed a) (signed b)).
Definition spec_shl (sh v : Z) : Z := word (v * 2 ^ sh).
Definition spec_shr (sh v : Z) : Z := v / 2 ^ sh.
Definition spec_sar (sh v : Z) : Z := word (signed v / 2 ^ sh).
(** The [i]-th byte from the most significant one. *)
Definition spec_byte (i v : Z) : Z := if i <? 32 then v / 256 ^ (31 - i) mod 256 else 0.
(** Sign extension from byte [k] (counted from the least significant one). *)
Definition spec_signextend (k v : Z) : Z :=
  if k <? 31 then
    let m := v mod 256 ^ (k + 1) in
    word (if m <? 2 ^ (8 * k + 7) then m else m - 256 ^ (k + 1))
  else v.

(** ** Conversions *)

Lemma tt256_two256 : tt256 = two256.
Proof. reflexivity. Qed.

Lemma land_tt256m1 x : Z.land x tt256m1 = x mod two256.
Proof. change tt256m1 with (Z.ones 256). by rewrite Z.land_ones by lia. Qed.

Lemma toU256_word x : toU256 x = word x.
Proof.
  unfold toU256, word. rewrite land_tt256m1. destruct (_ || _) eqn:E; [done|].
  apply orb_false_iff in E as [E1 E2]. apply Z.ltb_ge in E1, E2.
  apply bit_len_le in E2; [|lia]. symmetry. apply Z.mod_small. unfold two256. lia.
Qed.

Lemma to256_signed x : is_u256 x -> to256 x = signed x.
Proof.
  unfold is_u256, to256, signed. intros Hx. rewrite tt256_two256.
  destruct (Z.ltb_spec 255 (bit_len x)) as [H|H]; destruct (Z.ltb_spec x (2 ^ 255)) as [H1|H1];
    try done; exfalso.
  - assert (bit_len x <= 255); [apply bit_len_le; lia | lia].
  - apply bit_len_le in H; lia.
Qed.

Lemma word_u256 x : is_u256 (word x).
Proof. apply Z.mod_pos_bound, two256_pos. Qed.
Lemma word_small x : is_u256 x -> word x = x.
Proof. apply Z.mod_small. Qed.
Lemma bool_word_u256 b : is_u256 (bool_word b).
Proof. destruct b; unfold is_u256, two256; simpl; lia. Qed.

Lemma signed_range x : is_u256 x -> - 2 ^ 255 <= signed x < 2 ^ 255.
Proof. unfold is_u256, signed, two256. destruct (Z.ltb_spec x (2 ^ 255)); lia. Qed.

Lemma signed_zero x : is_u256 x -> signed x = 0 <-> x = 0.
Proof. unfold is_u256, signed, two256. destruct (Z.ltb_spec x (2 ^ 255)); lia. Qed.

(** The sign-and-magnitude computations of SDIV and SMOD are the truncated
    quotient and remainder. *)
Lemma sdiv_quot a b : b <> 0 ->
  (if negb (Z.sgn a =? Z.sgn b) then - big_div (Z.abs a) (Z.abs b)
   else big_div (Z.abs a) (Z.abs b)) = Z.quot a b.
Proof.
  intros Hb. unfold big_div. rewrite Z.abs_idemp.
  rewrite (Z.sgn_pos (Z.abs b)), Z.mul_1_l by lia. rewrite <- Z.quot_div_nonneg by lia.
  destruct (Z.lt_trichotomy a 0) as [Ha|[->|Ha]]; destruct (Z.lt_total b 0) as [Hb'|[|Hb']];
    try lia; rewrite ?(Z.sgn_neg a), ?(Z.sgn_pos a), ?(Z.sgn_neg b), ?(Z.sgn_pos b) by done;
    simpl; rewrite ?(Z.abs_neq a), ?(Z.abs_eq a), ?(Z.abs_neq b), ?(Z.abs_eq b) by lia;
    rewrite ?Z.quot_opp_opp, ?Z.quot_opp_l, ?Z.quot_opp_r, ?Z.opp_involutive by lia; try done.
Qed.

Lemma smod_rem a b : b <> 0 ->
  (if Z.sgn a <? 0 then - big_mod (Z.abs a) (Z.abs b)
   else big_mod (Z.abs a) (Z.abs b)) = Z.rem a b.
Proof.
  intros Hb. unfold big_mod. rewrite Z.abs_idemp.
  rewrite <- Z.rem_mod_nonneg by lia.
  rewrite Z.rem_abs_r by lia.
  destruct (Z.lt_trichotomy a 0) as [Ha|[->|Ha]].
  - rewrite Z.sgn_neg, Z.abs_neq, Z.rem_opp_l by lia. simpl. lia.
  - done.
  - rewrite Z.sgn_pos, Z.abs_eq by lia. done.
Qed.

(** ** Exponentiation by squaring *)

Lemma word_mul_l a b : word (word a * b) = word (a * b).
Proof. unfold word. apply Z.mul_mod_idemp_l. discriminate. Qed.
Lemma word_mul_r a b : word (a * word b) = word (a * b).
Proof. unfold word. apply Z.mul_mod_idemp_r. discriminate. Qed.

Lemma word_pow a n : word (word a ^ Z.of_nat n) = word (a ^ Z.of_nat n).
Proof.
  induction n as [|n IH]; [done|].
  rewrite Nat2Z.inj_succ, !Z.pow_succ_r, word_mul_l, <- word_mul_r, IH, word_mul_r by lia.
  done.
Qed.

Lemma word_pow_Z a n : 0 <= n -> word (word a ^ n) = word (a ^ n).
Proof. intros Hn. rewrite <- (Z2Nat.id n Hn). apply word_pow. Qed.

Lemma land_1_odd d : (Z.land d 1 =? 1) = Z.odd d.
Proof.
  change 1 with (Z.ones 1) at 1. rewrite Z.land_ones by lia. change (2 ^ 1) with 2.
  rewrite Zmod_odd. by destruct (Z.odd d).
Qed.

(** The [n] rounds of a word [d < 2^n] multiply [z] by [x^d] and leave [x] squared
    [n] times. *)
Lemma exp_bits_spec n d x z :
  0 <= d < 2 ^ Z.of_nat n -> is_u256 x -> is_u256 z ->
  exp_bits n d x z = (word (x ^ (2 ^ Z.of_nat n)), word (z * x ^ d)).
Proof.
  revert d x z. induction n as [|n IH]; intros d x z Hd Hx Hz.
  - assert (d = 0) as -> by (simpl in Hd; lia). simpl.
    by rewrite Z.mul_1_r, Z.pow_1_r, !word_small.
  - cbn [exp_bits]. rewrite land_1_odd, !toU256_word.
    rewrite Nat2Z.inj_succ, Z.pow_succ_r in Hd |- * by lia.
    rewrite Z.shiftr_div_pow2 by lia. change (2 ^ 1) with 2.
    assert (Hp : 0 <= 2 ^ Z.of_nat n) by (apply Z.pow_nonneg; lia).
    assert (Hd2 : 0 <= d / 2 < 2 ^ Z.of_nat n).
    { split; [apply Z.div_pos; lia | apply Z.div_lt_upper_bound; lia]. }
    assert (Hsq : forall k, 0 <= k -> word (word (x * x) ^ k) = word (x ^ (2 * k))).
    { intros k Hk. rewrite word_pow_Z, <- Z.pow_2_r, <- Z.pow_mul_r by lia. done. }
    rewrite IH; [|done|apply word_u256|by destruct (Z.odd d); [apply word_u256|]].
    rewrite Hsq by lia. f_equal.
    pose proof (Z.div_mod d 2 ltac:(lia)) as Hdm. rewrite Zmod_odd in Hdm.
    rewrite <- word_mul_r, Hsq, word_mul_r by lia.
    destruct (Z.odd d).
    + rewrite word_mul_l. f_equal. rewrite Hdm at 2.
      rewrite Z.pow_add_r, Z.pow_1_r by lia. ring.
    + f_equal. f_equal. f_equal. lia.
Qed.

Lemma exp_words_spec n y x z :
  0 <= y < two64 ^ Z.of_nat n -> is_u256 x -> is_u256 z ->
  snd (exp_words (le_words n y) x z) = word (z * x ^ y).
Proof.
  revert y x z. induction n as [|n IH]; intros y x z Hy Hx Hz.
  - assert (y = 0) as -> by (simpl in Hy; lia). simpl. by rewrite Z.mul_1_r, word_small.
  - cbn [le_words exp_words].
    assert (Hm : 0 <= y mod two64 < 2 ^ Z.of_nat _W).
    { change (2 ^ Z.of_nat _W) with two64. apply Z.mod_pos_bound. reflexivity. }
    rewrite exp_bits_spec by done. change (2 ^ Z.of_nat _W) with two64.
    rewrite Nat2Z.inj_succ, Z.pow_succ_r in Hy by lia.
    assert (Hq : 0 <= y / two64 < two64 ^ Z.of_nat n).
    { pose proof two64_pos. split; [apply Z.div_pos; lia | apply Z.div_lt_upper_bound; lia]. }
    rewrite IH; [|done|apply word_u256|apply word_u256].
    rewrite word_mul_l, <- word_mul_r, word_pow_Z, word_mul_r by lia. f_equal.
    rewrite <- Z.pow_mul_r by (pose proof two64_pos; lia).
    rewrite <- Z.mul_assoc, <- Z.pow_add_r by (pose proof two64_pos; lia).
    do 2 f_equal. pose proof (Z.div_mod y two64). unfold two64 in *. lia.
Qed.

Lemma big_bits_bound y : 0 <= y ->
  0 <= y < two64 ^ Z.of_nat (Z.to_nat ((bit_len y + 63) / 64)).
Proof.
  intros Hy. pose proof (bit_len_nonneg y). split; [done|].
  rewrite Z2Nat.id by (apply Z.div_pos; lia). change two64 with (2 ^ 64).
  rewrite <- Z.pow_mul_r by (try apply Z.div_pos; lia).
  assert (Z.abs y < 2 ^ (64 * ((bit_len y + 63) / 64))); [|lia].
  assert (bit_len y <= 64 * ((bit_len y + 63) / 64)).
  { pose proof (Z.div_mod (bit_len y + 63) 64). pose proof (Z.mod_pos_bound (bit_len y + 63) 64). lia. }
  apply bit_len_le; lia.
Qed.

(** The loops of [opExp] over the words and bits of the exponent. *)
Lemma exp_loop_pow x y :
  is_u256 x -> 0 <= y -> snd (exp_words (big_bits y) x 1) = word (x ^ y).
Proof.
  intros Hx Hy. unfold big_bits. rewrite Z.abs_eq by done.
  rewrite exp_words_spec; [by rewrite Z.mul_1_l|by apply big_bits_bound|done|].
  unfold is_u256, two256. lia.
Qed.

(** ** Shifts *)

Lemma overflow_shift sh : 0 <= sh -> equalOrOverflowsUint256 sh = (256 <=? sh).
Proof.
  intros Hsh. unfold equalOrOverflowsUint256.
  destruct (Z.ltb_spec 8 (bit_len sh)) as [H|H]; destruct (Z.leb_spec 256 sh) as [H1|H1];
    try done; exfalso.
  - assert (bit_len sh <= 8); [apply bit_len_le; simpl; lia | lia].
  - apply bit_len_le in H; simpl in *; lia.
Qed.

Lemma pow2_256 sh : 256 <= sh -> exists q, 0 < q /\ 2 ^ sh = q * two256.
Proof.
  intros H. exists (2 ^ (sh - 256)). split; [apply Z.pow_pos_nonneg; lia|].
  unfold two256. rewrite <- Z.pow_add_r by lia. f_equal. lia.
Qed.

Lemma shl_word sh v : 0 <= sh ->
  (if equalOrOverflowsUint256 sh then 0 else toU256 (Z.shiftl v (big_uint64 sh))) = spec_shl sh v.
Proof.
  intros Hsh. rewrite overflow_shift by done. unfold spec_shl.
  destruct (Z.leb_spec 256 sh) as [H|H].
  - destruct (pow2_256 sh H) as (q & _ & ->). unfold word.
    rewrite Z.mul_assoc, Z.mod_mul by discriminate. done.
  - rewrite toU256_word, big_uint64_small, Z.shiftl_mul_pow2 by (unfold is_u64, two64; lia). done.
Qed.

Lemma shr_word sh v : 0 <= sh -> is_u256 v ->
  (if equalOrOverflowsUint256 sh then 0 else toU256 (Z.shiftr v (big_uint64 sh))) = spec_shr sh v.
Proof.
  intros Hsh Hv. rewrite overflow_shift by done. unfold spec_shr.
  destruct (Z.leb_spec 256 sh) as [H|H].
  - destruct (pow2_256 sh H) as (q & Hq & ->). symmetry. apply Z.div_small.
    unfold is_u256 in Hv. nia.
  - rewrite toU256_word, big_uint64_small, Z.shiftr_div_pow2 by (unfold is_u64, two64; lia).
    apply word_small. unfold is_u256 in *.
    assert (0 < 2 ^ sh) by (apply Z.pow_pos_nonneg; lia).
    split; [apply Z.div_pos; lia|]. apply Z.div_lt_upper_bound; nia.
Qed.

Lemma sar_word sh v : 0 <= sh -> is_u256 v ->
  (if equalOrOverflowsUint256 sh
   then if 0 <=? to256 v then 0 else tt256m1
   else toU256 (Z.shiftr (to256 v) (big_uint64 sh))) = spec_sar sh v.
Proof.
  intros Hsh Hv. rewrite overflow_shift, to256_signed by done. unfold spec_sar.
  pose proof (signed_range v Hv) as Hr.
  destruct (Z.leb_spec 256 sh) as [H|H].
  - destruct (pow2_256 sh H) as (q & Hq & ->). unfold two256 in *.
    destruct (Z.leb_spec 0 (signed v)) as [H0|H0].
    + rewrite Z.div_small; [done|nia].
    + replace (signed v / (q * 2 ^ 256)) with (-1); [done|].
      apply (Z.div_unique_pos _ _ _ (signed v + q * 2 ^ 256)); nia.
  - by rewrite toU256_word, big_uint64_small, Z.shiftr_div_pow2 by (unfold is_u64, two64; lia).
Qed.

(** ** BYTE and SIGNEXTEND *)

Lemma byte_small i v : 0 <= i < 2 ^ 63 ->
  (if 31 <? big_int64 i then 0
   else Z.land (Z.shiftr v (u64 (i64 (i64 (31 - big_int64 i) * 8)))) 255) = spec_byte i v.
Proof.
  intros Hi. unfold big_int64, spec_byte. replace (i <? 0) with false by lia.
  rewrite i64_small by lia.
  destruct (Z.ltb_spec 31 i) as [H|H]; destruct (Z.ltb_spec i 32) as [H1|H1]; try lia.
  rewrite !i64_small by (rewrite ?i64_small; lia).
  rewrite u64_small by (unfold is_u64, two64; lia).
  change 255 with (Z.ones 8). rewrite Z.land_ones, Z.shiftr_div_pow2 by lia.
  change 256 with (2 ^ 8). rewrite <- Z.pow_mul_r by lia. do 3 f_equal. lia.
Qed.

Lemma lor_lnot_ones x n : 0 <= n ->
  Z.lor x (Z.lnot (Z.ones n)) = x mod 2 ^ n - 2 ^ n.
Proof.
  intros Hn.
  assert (Hd : Z.land (x mod 2 ^ n) (- 2 ^ n) = 0).
  { rewrite <- Z.land_ones by done. apply Z.bits_inj'. intros k Hk.
    rewrite !Z.land_spec, Z.bits_0. replace (- 2 ^ n) with (Z.lnot (Z.ones n)).
    - rewrite Z.lnot_spec by done. by destruct (Z.testbit x k), (Z.testbit (Z.ones n) k).
    - rewrite Z.ones_equiv. pose proof (Z.add_lnot_diag (Z.pred (2 ^ n))). lia. }
  replace (x mod 2 ^ n - 2 ^ n) with (x mod 2 ^ n + - 2 ^ n) by lia.
  rewrite Z.add_nocarry_lxor, Z.lxor_lor by done.
  replace (- 2 ^ n) with (Z.lnot (Z.ones n)).
  - rewrite <- Z.land_ones by done. apply Z.bits_inj'. intros k Hk.
    rewrite !Z.lor_spec, Z.land_spec, Z.lnot_spec by done.
    by destruct (Z.testbit x k), (Z.testbit (Z.ones n) k).
  - rewrite Z.ones_equiv. pose proof (Z.add_lnot_diag (Z.pred (2 ^ n))). lia.
Qed.

(** The top bit decides which half of the range a number modulo [2^(n+1)] is in. *)
Lemma testbit_mod x n : 0 <= n ->
  Z.testbit x n = negb (x mod 2 ^ (n + 1) <? 2 ^ n) /\
  x mod 2 ^ n = x mod 2 ^ (n + 1) - (if Z.testbit x n then 2 ^ n else 0).
Proof.
  intros Hn. assert (Hp : 0 < 2 ^ n) by (apply Z.pow_pos_nonneg; lia).
  assert (E : x mod 2 ^ (n + 1) = x mod 2 ^ n + 2 ^ n * (x / 2 ^ n mod 2)).
  { rewrite Z.pow_add_r by lia. change (2 ^ 1) with 2. by rewrite Z.rem_mul_r by lia. }
  assert (T : x / 2 ^ n mod 2 = if Z.testbit x n then 1 else 0).
  { rewrite Zmod_odd, <- Z.shiftr_div_pow2, <- Z.bit0_odd, Z.shiftr_spec by lia.
    by rewrite Z.add_0_l. }
  pose proof (Z.mod_pos_bound x (2 ^ n) Hp). rewrite E, T.
  destruct (Z.testbit x n); split; lia.
Qed.

Lemma signextend_word k v : is_u256 v -> 0 <= k <= 32 ->
  (let bit := u64 (u64 (big_uint64 k * 8) + 7) in
   let mask := Z.shiftl 1 bit - 1 in
   if Z.testbit v bit then toU256 (Z.lor v (Z.lnot mask)) else toU256 (Z.land v mask))
  = spec_signextend k v.
Proof.
  intros Hv Hk. cbv zeta. rewrite big_uint64_small by (unfold is_u64, two64; lia).
  rewrite (u64_small (k * 8)) by (unfold is_u64, two64; lia).
  rewrite u64_small by (unfold is_u64, two64; lia).
  set (n := k * 8 + 7). assert (Hn : 0 <= n) by lia.
  replace (Z.shiftl 1 n - 1) with (Z.ones n) by (rewrite Z.ones_equiv, Z.shiftl_1_l; lia).
  rewrite !toU256_word, lor_lnot_ones, Z.land_ones by done.
  destruct (testbit_mod v n Hn) as [T M]. unfold spec_signextend.
  assert (Hpow : 256 ^ (k + 1) = 2 ^ (n + 1)).
  { change 256 with (2 ^ 8). rewrite <- Z.pow_mul_r by lia. f_equal. lia. }
  rewrite Hpow. replace (8 * k + 7) with n by lia.
  assert (Hhalf : 2 ^ (n + 1) = 2 * 2 ^ n) by (rewrite Z.pow_add_r; lia).
  destruct (Z.ltb_spec k 31) as [H|H].
  - destruct (Z.ltb_spec (v mod 2 ^ (n + 1)) (2 ^ n)) as [Hb|Hb]; simpl in T;
      rewrite T in *; f_equal; lia.
  - assert (Hge : two256 <= 2 ^ (n + 1)) by (apply Z.pow_le_mono_r; lia).
    rewrite (Z.mod_small v (2 ^ (n + 1))) in * by (unfold is_u256 in Hv; lia).
    destruct (Z.testbit v n) eqn:Tb.
    + assert (n = 255) as E.
      { destruct (Z.eq_dec n 255); [done|]. exfalso. 
        assert (2 ^ 256 <= 2 ^ n) by (apply Z.pow_le_mono_r; lia).
        unfold is_u256, two256 in Hv. symmetry in T. apply negb_true_iff, Z.ltb_ge in T. lia. }
      rewrite M. rewrite E in *. replace (v - 2 ^ 255 - 2 ^ 255) with (v + (-1) * two256)
        by (unfold two256; lia).
      unfold word. rewrite Z.mod_add by discriminate. by apply word_small.
    + rewrite M, Z.sub_0_r. by apply word_small.
Qed.

(** ** The instructions *)

Section instructions.
Context {W : Type} `{GA : !GoAlloc, KK : !Keccak, HO : !Host W}.

Lemma pop_top_run {B} (f : Z -> Z -> EvmM W B) (s : state W) a b r :
  stack s = a :: b :: r ->
  (x ← popZ; y ← topZ; f x y) s = f a b (set_stack (b :: r) s).
Proof.
  intros Hs. unfold popZ, topZ, pop, top, get, gets, modify, deref, mret, GoM_ret, mbind, GoM_bind.
  simpl. by rewrite Hs.
Qed.

Lemma setTop_run v b r (s : state W) :
  setTop v (set_stack (b :: r) s) = (Ok tt, set_stack (v :: r) s).
Proof. done. Qed.

(** The instructions on two words, each with the function it computes. *)
Definition binops : list (EvmM W unit * (Z -> Z -> Z)) :=
  [ (opAdd, fun a b => word (a + b));
    (opMul, fun a b => word (a * b));
    (opSub, fun a b => word (a - b));
    (opDiv, spec_div); (opSDiv, spec_sdiv); (opMod, spec_mod); (opSMod, spec_smod);
    (opAnd, Z.land); (opOr, Z.lor); (opXor, Z.lxor);
    (opEq, fun a b => bool_word (a =? b));
    (opLt, fun a b => bool_word (a <? b));
    (opGt, fun a b => bool_word (b <? a));
    (opSlt, fun a b => bool_word (signed a <? signed b));
    (opSgt, fun a b => bool_word (signed b <? signed a));
    (opShl, spec_shl); (opShr, spec_shr); (opSar, spec_sar) ].

Definition computes (m : EvmM W unit) (f : Z -> Z -> Z) : Prop :=
  forall s a b r, stack s = a :: b :: r -> is_u256 a -> is_u256 b ->
    Constantinople (config s) = true ->
    m s = (Ok tt, set_stack (f a b :: r) s) /\ is_u256 (f a b).

Lemma u256_high_bits x n : is_u256 x -> 256 <= n -> Z.testbit x n = false.
Proof.
  intros Hx Hn. rewrite <- (Z.mod_small x (2 ^ 256)) by exact Hx.
  apply Z.mod_pow2_bits_high. lia.
Qed.

Lemma bitwise_u256 (f : Z -> Z -> Z) (g : bool -> bool -> bool) a b :
  (forall x y n, Z.testbit (f x y) n = g (Z.testbit x n) (Z.testbit y n)) ->
  g false false = false -> is_u256 a -> is_u256 b -> is_u256 (f a b).
Proof.
  intros Hf Hg Ha Hb. assert (E : f a b = f a b mod 2 ^ 256).
  { rewrite <- Z.land_ones by lia. apply Z.bits_inj'. intros n Hn.
    rewrite Z.land_spec, Z.testbit_ones_nonneg by lia.
    destruct (Z.ltb_spec n 256); [by rewrite andb_true_r|].
    by rewrite andb_false_r, Hf, !u256_high_bits by done. }
  rewrite E. apply Z.mod_pos_bound. apply two256_pos.
Qed.

Lemma spec_sar_range sh v : is_u256 (spec_sar sh v).
Proof. apply word_u256. Qed.

Lemma div_u256 a b : is_u256 a -> 0 < b -> is_u256 (a / b).
Proof.
  unfold is_u256. intros Ha Hb. split; [apply Z.div_pos; lia|].
  apply Z.div_lt_upper_bound; [lia|]. nia.
Qed.

Lemma zero_u256 : is_u256 0.
Proof. split; [lia | apply two256_pos]. Qed.

Hint Resolve word_u256 bool_word_u256 zero_u256 : go.

Lemma run_binop (k : Z -> Z -> Z) :
  forall (m : EvmM W unit) (f : Z -> Z -> Z),
  (forall s, m s = (x ← popZ; y ← topZ; setTop (k x y)) s) ->
  (forall a b, is_u256 a -> is_u256 b -> k a b = f a b /\ is_u256 (f a b)) ->
  computes m f.
Proof.
  intros m f Hm Hk s a b r Hs Ha Hb _. destruct (Hk a b Ha Hb) as [<- Hr].
  by rewrite Hm, (pop_top_run _ _ _ _ _ Hs).
Qed.

(** An instruction that treats a zero operand apart. *)
Lemma run_binop_zero (k : Z -> Z -> Z) (z : Z -> bool) :
  forall (m : EvmM W unit) (f : Z -> Z -> Z),
  (forall s, m s = (x ← popZ; y ← topZ; if z y then setTop 0 else setTop (k x y)) s) ->
  (forall a b, is_u256 a -> is_u256 b ->
     (if z b then 0 else k a b) = f a b /\ is_u256 (f a b)) ->
  computes m f.
Proof.
  intros m f Hm Hk. apply (run_binop (fun a b => if z b then 0 else k a b)); [|done].
  intros s. rewrite Hm. unfold mbind, GoM_bind.
  destruct (popZ s) as [[x|] s1]; [|done]. destruct (topZ s1) as [[y|] s2]; [|done].
  by destruct (z y).
Qed.

Lemma opAdd_computes : computes opAdd (fun a b => word (a + b)).
Proof. apply (run_binop (fun a b => toU256 (a + b))); [done|]. intros. rewrite toU256_word. auto with go. Qed.
Lemma opMul_computes : computes opMul (fun a b => word (a * b)).
Proof. apply (run_binop (fun a b => toU256 (a * b))); [done|]. intros. rewrite toU256_word. auto with go. Qed.
Lemma opSub_computes : computes opSub (fun a b => word (a - b)).
Proof. apply (run_binop (fun a b => toU256 (a - b))); [done|]. intros. rewrite toU256_word. auto with go. Qed.

Lemma opDiv_computes : computes opDiv spec_div.
Proof.
  apply (run_binop_zero (fun a b => toU256 (big_div a b)) (fun b => b =? 0)); [done|].
  intros a b Ha Hb. unfold spec_div. destruct (Z.eqb_spec b 0); [auto with go|].
  assert (0 < b) by (unfold is_u256 in Hb; lia).
  pose proof (div_u256 a b Ha ltac:(lia)). split; [|done].
  unfold big_div. rewrite Z.sgn_pos, Z.abs_eq, Z.mul_1_l, toU256_word by lia. by apply word_small.
Qed.

Lemma opMod_computes : computes opMod spec_mod.
Proof.
  apply (run_binop_zero (fun a b => toU256 (big_mod a b)) (fun b => b =? 0)); [done|].
  intros a b Ha Hb. unfold spec_mod. destruct (Z.eqb_spec b 0); [auto with go|].
  unfold is_u256 in Hb. pose proof (Z.mod_pos_bound a b ltac:(lia)).
  assert (is_u256 (a mod b)) by (unfold is_u256; lia). split; [|done].
  unfold big_mod. rewrite Z.abs_eq, toU256_word by lia. by apply word_small.
Qed.

Lemma opSDiv_computes : computes opSDiv spec_sdiv.
Proof.
  apply (run_binop_zero
    (fun a b => toU256 (if negb (Z.sgn (to256 a) =? Z.sgn (to256 b))
                        then - big_div (Z.abs (to256 a)) (Z.abs (to256 b))
                        else big_div (Z.abs (to256 a)) (Z.abs (to256 b))))
    (fun b => to256 b =? 0)); [done|].
  intros a b Ha Hb. unfold spec_sdiv. rewrite !to256_signed by done.
  pose proof (signed_zero b Hb).
  destruct (Z.eqb_spec (signed b) 0); destruct (Z.eqb_spec b 0); try (exfalso; tauto);
    [auto with go|]. rewrite sdiv_quot, toU256_word by done. auto with go.
Qed.

Lemma opSMod_computes : computes opSMod spec_smod.
Proof.
  apply (run_binop_zero
    (fun a b => toU256 (if Z.sgn (to256 a) <? 0
                        then - big_mod (Z.abs (to256 a)) (Z.abs (to256 b))
                        else big_mod (Z.abs (to256 a)) (Z.abs (to256 b))))
    (fun b => to256 b =? 0)); [done|].
  intros a b Ha Hb. unfold spec_smod. rewrite !to256_signed by done.
  pose proof (signed_zero b Hb).
  destruct (Z.eqb_spec (signed b) 0); destruct (Z.eqb_spec b 0); try (exfalso; tauto);
    [auto with go|]. rewrite smod_rem, toU256_word by done. auto with go.
Qed.

Lemma bitops_compute : computes opAnd Z.land /\ computes opOr Z.lor /\ computes opXor Z.lxor.
Proof.
  split; [|split].
  - apply (run_binop Z.land); [done|]. intros. split; [done|].
    apply (bitwise_u256 Z.land andb); auto using Z.land_spec.
  - apply (run_binop Z.lor); [done|]. intros. split; [done|].
    apply (bitwise_u256 Z.lor orb); auto using Z.lor_spec.
  - apply (run_binop Z.lxor); [done|]. intros. split; [done|].
    apply (bitwise_u256 Z.lxor xorb); auto using Z.lxor_spec.
Qed.

Lemma compare_computes (m : EvmM W unit) (c c' : Z -> Z -> bool) :
  (forall s, m s = (x ← popZ; y ← topZ; setTop (if c x y then 1 else 0)) s) ->
  (forall a b, is_u256 a -> is_u256 b -> c a b = c' a b) ->
  computes m (fun a b => bool_word (c' a b)).
Proof.
  intros Hm Hc. apply (run_binop (fun a b => if c a b then 1 else 0)); [done|].
  intros a b Ha Hb. rewrite (Hc a b Ha Hb). auto with go.
Qed.

(** The shifts come with Constantinople. *)
Lemma shift_computes (m : EvmM W unit) (k f : Z -> Z -> Z) :
  (forall s, Constantinople (config s) = true ->
     m s = (x ← popZ; y ← topZ; setTop (k x y)) s) ->
  (forall a b, is_u256 a -> is_u256 b -> k a b = f a b /\ is_u256 (f a b)) ->
  computes m f.
Proof.
  intros Hm Hk s a b r Hs Ha Hb HC. destruct (Hk a b Ha Hb) as [<- Hr].
  by rewrite Hm, (pop_top_run _ _ _ _ _ Hs).
Qed.

Ltac shift_run HC :=
  unfold requires, gets, mbind at 1, GoM_bind at 1; cbv beta iota; rewrite HC; cbn [negb];
  unfold mbind, GoM_bind; destruct (popZ _) as [[x|] s1]; [|done];
  destruct (topZ s1) as [[y|] s2]; [|done].

Lemma shifts_compute :
  computes opShl spec_shl /\ computes opShr spec_shr /\ computes opSar spec_sar.
Proof.
  split; [|split]; eapply shift_computes.
  - intros s HC. unfold opShl. shift_run HC.
    instantiate (1 := fun sh v => if equalOrOverflowsUint256 sh then 0
      else toU256 (Z.shiftl v (big_uint64 sh))). cbv beta. by case_match.
  - intros a b Ha Hb. cbv beta. rewrite shl_word by (unfold is_u256 in Ha; lia).
    split; [done | apply word_u256].
  - intros s HC. unfold opShr. shift_run HC.
    instantiate (1 := fun sh v => if equalOrOverflowsUint256 sh then 0
      else toU256 (Z.shiftr v (big_uint64 sh))). cbv beta. by case_match.
  - intros a b Ha Hb. cbv beta. rewrite shr_word by (unfold is_u256 in *; lia). split; [done|].
    apply div_u256; [done|]. apply Z.pow_pos_nonneg; unfold is_u256 in *; lia.
  - intros s HC. unfold opSar. shift_run HC.
    instantiate (1 := fun sh v => if equalOrOverflowsUint256 sh
      then if 0 <=? to256 v then 0 else tt256m1
      else toU256 (Z.shiftr (to256 v) (big_uint64 sh))). cbv beta. by repeat case_match.
  - intros a b Ha Hb. cbv beta. rewrite sar_word by (unfold is_u256 in *; lia). auto using spec_sar_range.
Qed.

Lemma binops_compute : Forall (fun p => computes (fst p) (snd p)) binops.
Proof.
  destruct bitops_compute as (HA & HO' & HX). destruct shifts_compute as (HL & HR & HS).
  unfold binops. repeat apply Forall_cons_2; try apply Forall_nil_2; cbn [fst snd];
    eauto using opAdd_computes, opMul_computes, opSub_computes, opDiv_computes,
      opSDiv_computes, opMod_computes, opSMod_computes.
  - by apply (compare_computes _ Z.eqb).
  - by apply (compare_computes _ Z.ltb).
  - by apply (compare_computes _ (fun a b => b <? a)).
  - apply (compare_computes _ (fun a b => to256 a <? to256 b)); [done|].
    intros. by rewrite !to256_signed.
  - apply (compare_computes _ (fun a b => to256 b <? to256 a)
             (fun a b => signed b <? signed a)); [done|].
    intros. by rewrite !to256_signed.
Qed.

Lemma pop2_top_run {B} (f : Z -> Z -> Z -> EvmM W B) (s : state W) a b n r :
  stack s = a :: b :: n :: r ->
  (x ← popZ; y ← popZ; z ← topZ; f x y z) s = f a b n (set_stack (n :: r) s).
Proof.
  intros Hs. unfold popZ, topZ, pop, top, get, gets, modify, deref, mret, GoM_ret, mbind, GoM_bind.
  simpl. by rewrite Hs.
Qed.

Lemma top_run {B} (f : Z -> EvmM W B) (s : state W) a r :
  stack s = a :: r -> (x ← topZ; f x) s = f a s.
Proof.
  intros Hs. unfold topZ, top, get, gets, deref, mret, GoM_ret, mbind, GoM_bind. by rewrite Hs.
Qed.

(** The remainders are taken of the exact sum and product. *)
Lemma mod3_run (op : Z -> Z -> Z) (m : EvmM W unit) (s : state W) a b n r :
  (forall s, m s = (x ← popZ; y ← popZ; z ← topZ;
                    if z =? 0 then setTop 0 else setTop (toU256 (big_mod (op x y) z))) s) ->
  stack s = a :: b :: n :: r -> is_u256 n ->
  m s = (Ok tt, set_stack ((if n =? 0 then 0 else op a b mod n) :: r) s).
Proof.
  intros Hm Hs Hn. rewrite Hm, (pop2_top_run _ _ _ _ _ _ Hs). unfold is_u256 in Hn.
  destruct (Z.eqb_spec n 0) as [->|H0]; [done|].
  unfold big_mod. rewrite Z.abs_eq, toU256_word, word_small, setTop_run; [done| |lia].
  pose proof (Z.mod_pos_bound (op a b) n ltac:(lia)). unfold is_u256. lia.
Qed.

Lemma opSignExtension_run (s : state W) k v r :
  stack s = k :: v :: r -> 0 <= k ->
  opSignExtension s =
    (Ok tt, set_stack
       ((if 32 <? k then v
         else let bit := u64 (u64 (big_uint64 k * 8) + 7) in
              let mask := Z.shiftl 1 bit - 1 in
              if Z.testbit v bit then toU256 (Z.lor v (Z.lnot mask))
              else toU256 (Z.land v mask)) :: r) s).
Proof.
  intros Hs Hk. unfold opSignExtension, popZ, top, pop, get, gets, modify, deref, mret, GoM_ret,
    mbind, GoM_bind. simpl. rewrite Hs. simpl. unfold wordSize.
  destruct (32 <? k); [done|]. by destruct (Z.testbit _ _).
Qed.
End instructions.

(** * Properties *)

(** C26: eighteen instructions on two words (all but EXP, BYTE and SIGNEXTEND) compute what the specification of
    the machine says, for all 256-bit operands: wrapping sum, product and
    difference, unsigned and truncated signed division and remainder (zero for a
    zero divisor), bitwise operations, signed and unsigned comparisons, and the
    three shifts; each replaces its operands by one 256-bit result and changes
    nothing else. *)
Theorem arith_correct {W} `{GA : !GoAlloc, KK : !Keccak, HO : !Host W} :
  Forall (fun p => computes (W := W) (fst p) (snd p)) binops.
Proof. exact binops_compute. Qed.

(** C27: EXP charges 50 (10 before EIP-158) per byte of the exponent, stops the frame
    out of gas when that cannot be paid, and otherwise leaves the base to the
    exponent modulo 2^256: the word-by-word squaring loop is exponentiation. *)
Theorem opExp_correct {W} (s : state W) (x y : Z) (r : list Z) :
  stack s = x :: y :: r -> is_u256 x -> is_u256 y ->
  let cost := (bit_len y + 7) / 8 * (if EIP158 (config s) then 50 else 10) in
  if gas s <? cost
  then exists s', opExp s = (Ok tt, s') /\ stop s' = true /\ err s' = Some ErrOutOfGas
  else opExp s = (Ok tt, set_stack (x ^ y mod two256 :: r) (set_gas (gas s - cost) s)).
Proof.
  intros Hs Hx Hy. cbv zeta. unfold opExp. rewrite (pop_top_run _ _ _ _ _ Hs).
  assert (Hb : 0 <= bit_len y <= 256).
  { split; [apply bit_len_nonneg|]. apply bit_len_le; unfold is_u256, two256 in Hy; lia. }
  assert (0 <= (bit_len y + 7) / 8 <= 32).
  { split; [apply Z.div_pos; lia|]. apply Z.lt_succ_r, Z.div_lt_upper_bound; lia. }
  unfold consumeGas, get, gets, modify, exit, mbind, GoM_bind, mret, GoM_ret.
  cbn [config gas set_stack]. rewrite (u64_small ((bit_len y + 7) / 8)), (u64_small (_ * _))
    by (unfold is_u64, two64; destruct (EIP158 (config s)); lia).
  destruct (gas s <? _); [by eexists|].
  rewrite (exp_loop_pow x y) by (unfold is_u256 in *; lia). done.
Qed.

Import Demo.

(** A running frame with a given stack. *)
Definition arith_demo (st : list Z) : state unit :=
  mkState 0 [] (frame [] 100) forks nil_slice 0 st None false 100 nil_slice [] [] tt.

Lemma opExp_correct_witness :
  exists s', opExp (arith_demo [3; 5; 7]) = (Ok tt, s') /\ stack s' = [243; 7] /\ gas s' = 50.
Proof.
  eexists. split.
  - apply (opExp_correct (arith_demo [3; 5; 7]) 3 5 [7]); [reflexivity|by split|by split].
  - split; vm_compute; reflexivity.
Defined.

(** ADDMOD and MULMOD take the remainder of the exact sum and product, which
    may exceed 256 bits, and give zero for a zero modulus; NOT complements all 256
    bits and ISZERO tests for zero. *)
Theorem modular_correct {W} (s : state W) (a b n : Z) (r : list Z) :
  stack s = a :: b :: n :: r -> is_u256 a -> is_u256 b -> is_u256 n ->
  opAddMod s = (Ok tt, set_stack ((if n =? 0 then 0 else (a + b) mod n) :: r) s) /\
  opMulMod s = (Ok tt, set_stack ((if n =? 0 then 0 else a * b mod n) :: r) s) /\
  opNot s = (Ok tt, set_stack (two256 - 1 - a :: b :: n :: r) s) /\
  opIsZero s = (Ok tt, set_stack (bool_word (a =? 0) :: b :: n :: r) s).
Proof.
  intros Hs Ha Hb Hn. split; [|split; [|split]].
  - by apply (mod3_run Z.add).
  - by apply (mod3_run Z.mul).
  - unfold opNot. rewrite (top_run _ _ _ _ Hs), toU256_word.
    replace (word (Z.lnot a)) with (two256 - 1 - a).
    + unfold setTop, modify. by rewrite Hs.
    + unfold word, is_u256 in *. pose proof (Z.add_lnot_diag a).
      apply (Z.mod_unique_pos _ _ (-1)); lia.
  - unfold opIsZero. rewrite (top_run _ _ _ _ Hs). unfold setTop, modify. by rewrite Hs.
Qed.

Lemma modular_correct_witness :
  opMulMod (arith_demo [two256 - 1; two256 - 1; 12]) =
    (Ok tt, set_stack [(two256 - 1) * (two256 - 1) mod 12] (arith_demo [two256 - 1; two256 - 1; 12])).
Proof.
  apply (modular_correct (arith_demo [two256 - 1; two256 - 1; 12]) (two256 - 1) (two256 - 1) 12 []);
    [reflexivity|by split|by split|by split].
Defined.

(** SIGNEXTEND extends the sign of the byte counted from the right by the first
    operand over the higher bytes, and leaves the word alone when that is the top
    byte or beyond; BYTE selects the byte counted from the left, zero beyond the
    word, for every index below 2^63. *)
Theorem byte_signextend_correct {W} (s : state W) (k v : Z) (r : list Z) :
  stack s = k :: v :: r -> is_u256 k -> is_u256 v ->
  opSignExtension s = (Ok tt, set_stack (spec_signextend k v :: r) s) /\
  (k < 2 ^ 63 -> opByte s = (Ok tt, set_stack (spec_byte k v :: r) s)).
Proof.
  intros Hs Hk Hv. unfold is_u256 in Hk. split.
  - rewrite (opSignExtension_run s k v r) by (done || lia). do 3 f_equal.
    destruct (Z.ltb_spec 32 k) as [H|H]; [|apply signextend_word; [done|lia]].
    unfold spec_signextend. by destruct (Z.ltb_spec k 31); [lia|].
  - intros H63. unfold opByte. rewrite (pop_top_run _ _ _ _ _ Hs), <- byte_small by lia.
    by destruct (31 <? big_int64 k).
Qed.

Lemma byte_signextend_correct_witness :
  opSignExtension (arith_demo [0; 255]) =
    (Ok tt, set_stack [spec_signextend 0 255] (arith_demo [0; 255])) /\
  opByte (arith_demo [31; 258]) = (Ok tt, set_stack [spec_byte 31 258] (arith_demo [31; 258])).
Proof.
  split; [apply (byte_signextend_correct (arith_demo [0; 255]) 0 255 []) |
          apply (byte_signextend_correct (arith_demo [31; 258]) 31 258 [])];
    try reflexivity; by split.
Defined.

(** BYTE looks at the low 64 bits of its index only: for the index 2^64 it
    returns the most significant byte, where the specification says zero. *)
Theorem opByte_truncates {W} (s : state W) (v : Z) (r : list Z) :
  stack s = 2 ^ 64 :: v :: r ->
  opByte s = (Ok tt, set_stack (spec_byte 0 v :: r) s) /\ spec_byte (2 ^ 64) v = 0.
Proof.
  intros Hs. split; [|done]. unfold opByte. rewrite (pop_top_run _ _ _ _ _ Hs).
  change (big_int64 (2 ^ 64)) with (big_int64 0). rewrite <- byte_small by lia. done.
Qed.

Lemma opByte_truncates_witness :
  opByte (arith_demo [2 ^ 64; 2 ^ 255]) = (Ok tt, set_stack [128] (arith_demo [2 ^ 64; 2 ^ 255])).
Proof. exact (proj1 (opByte_truncates (arith_demo [2 ^ 64; 2 ^ 255]) (2 ^ 255) [] eq_refl)). Defined.
