(* ===== verification/Memory.v ===== *)
(** The memory of a frame: expansion in words with a quadratic price, and the
    instructions that read and write it. *)

From S2P Require Import Prelude Types Chain Runtime Crypto Slice Instances Bitmap.
From S2P Require Import EvmState OpCodes Instructions Evm EvmFacts Arith.

(** The price the code computes for [w] words, in [uint64] arithmetic. *)
Definition memCost (w : Z) : Z := u64 (u64 (3 * w) + u64 (w * w) / 512).
(** The price of the specification. *)
Definition Cmem (w : Z) : Z := 3 * w + w * w / 512.

Section memory.
Context {W : Type} `{GA : !GoAlloc}.
Implicit Types s : state W.

(** The memory is a whole number of words and [lastGasCost] is what it cost. *)
Definition mem_inv (s : state W) : Prop :=
  slice_ok (memory s) /\ slen (memory s) mod 32 = 0 /\
  slen (memory s) <= 2 ^ 41 /\
  lastGasCost s = memCost (slen (memory s) / 32).

Definition words (n : Z) : Z := (n + 31) / 32.

Lemma words_bound n : n <= 32 * words n < n + 32.
Proof.
  unfold words. pose proof (Z.div_mod (n + 31) 32). pose proof (Z.mod_pos_bound (n + 31) 32). lia.
Qed.

(** No overflow while the memory has fewer than 2^32 words. *)
Lemma memCost_small w : 0 <= w < 2 ^ 32 -> memCost w = Cmem w.
Proof.
  intros Hw. unfold memCost, Cmem, two64.
  rewrite (u64_small (3 * w)), (u64_small (w * w)) by (unfold is_u64, two64; nia).
  apply u64_small. assert (0 <= w * w / 512) by (apply Z.div_pos; nia).
  assert (w * w / 512 <= 2 ^ 55) by (apply Z.div_le_upper_bound; nia).
  unfold is_u64, two64. lia.
Qed.

Lemma Cmem_mono w w' : 0 <= w <= w' -> Cmem w <= Cmem w'.
Proof.
  intros H. unfold Cmem. assert (w * w / 512 <= w' * w' / 512) by (apply Z.div_le_mono; nia). lia.
Qed.

(** The three ways [extendMemory] ends. *)
Inductive extend_result (o n : Z) (s : state W) : bool -> state W -> Prop :=
| extend_fail e s' :
    e = errGasUintOverflow \/ e = ErrOutOfGas ->
    err s' = Some e -> stop s' = true -> host s' = host s ->
    extend_result o n s false s'
| extend_enough :
    is_u64 o -> is_u64 n ->
    n = 0 \/ (o <= memLimit /\ n <= memLimit /\ o + n <= slen (memory s)) ->
    extend_result o n s true s
| extend_grow g :
    0 <= o <= memLimit -> 0 < n <= memLimit -> slen (memory s) < o + n ->
    g = u64 (memCost (words (o + n)) - lastGasCost s) -> g <= gas s ->
    extend_result o n s true
      (set_memory (extendByteSlice (memory s) (32 * words (o + n)))
         (set_gas (gas s - g) (set_lastGasCost (memCost (words (o + n))) s))).

Lemma extendMemory_run o n s :
  exists b s', extendMemory o n s = (Ok b, s') /\ extend_result o n s b s'.
Proof.
  unfold extendMemory. destruct (negb (big_is_uint64 o) || negb (big_is_uint64 n)) eqn:E1.
  { do 2 eexists; split; [done|]. by eapply extend_fail; [left|..]. }
  apply orb_false_iff in E1 as [Ho Hn]. apply negb_false_iff, big_is_uint64_spec in Ho, Hn.
  destruct (Z.eqb_spec n 0) as [->|Hn0].
  { do 2 eexists; split; [done|]. apply extend_enough; auto. }
  rewrite !big_uint64_small by done.
  destruct ((memLimit <? o) || (memLimit <? n)) eqn:E2.
  { do 2 eexists; split; [done|]. by eapply extend_fail; [left|..]. }
  apply orb_false_iff in E2 as [Ho' Hn']. apply Z.ltb_ge in Ho', Hn'.
  unfold get, mbind, GoM_bind. cbv beta iota. unfold memLimit in *.
  rewrite (u64_small (o + n)) by (unfold is_u64, two64 in *; lia).
  destruct (Z.ltb_spec (slen (memory s)) (o + n)) as [Hlt|Hge].
  2:{ do 2 eexists; split; [done|]. apply extend_enough; auto. }
  rewrite (u64_small (o + n + 31)) by (unfold is_u64, two64 in *; lia).
  fold (words (o + n)). pose proof (words_bound (o + n)) as Hw.
  fold (memCost (words (o + n))).
  rewrite (u64_small (words (o + n) * 32)), i64_small by (unfold is_u64, two64 in *; lia).
  rewrite (Z.mul_comm (words (o + n)) 32).
  unfold consumeGas, get, mbind, GoM_bind, modify, exit, mret, GoM_ret. simpl.
  destruct (Z.ltb_spec (gas s) (u64 (memCost (words (o + n)) - lastGasCost s))); simpl.
  - do 2 eexists; split; [done|]. by eapply extend_fail; [right|..].
  - do 2 eexists; split; [done|]. eapply extend_grow; unfold is_u64, memLimit in *; lia || done.
Qed.

(** Expansion keeps the memory invariant, never touches what is there, and
    appends zeros. *)
Lemma extend_result_mem o n s s' :
  mem_inv s -> extend_result o n s true s' ->
  mem_inv s' /\ (n <> 0 -> 0 <= o /\ 0 < n /\ o + n <= slen (memory s')) /\
  slen (memory s) <= slen (memory s') /\
  contents (memory s') =
    contents (memory s) ++ replicate (Z.to_nat (slen (memory s') - slen (memory s))) 0.
Proof.
  intros (Hok & Hmod & Hle & Hcost) Hr. inversion Hr; subst; simpl.
  - split; [done|]. split; [unfold is_u64 in *; lia|]. split; [lia|].
    by rewrite Z.sub_diag, app_nil_r.
  - pose proof (words_bound (o + n)) as Hw. unfold memLimit in *.
    destruct (extend_ok (memory s) (32 * words (o + n)) Hok ltac:(lia)) as (Hok' & Hl & Hc).
    split; [|split; [lia|split; [lia|exact Hc]]].
    split; [done|]. simpl. split; [|split; [lia|]].
    + rewrite Z.mul_comm. by apply Z.mod_mul.
    + rewrite (Z.mul_comm 32), Z.div_mul by lia. done.
Qed.

(** Within 2^32 words the charge is the difference of the specified prices. *)
Lemma extend_result_gas o n s s' :
  mem_inv s -> slen (memory s') < 2 ^ 37 -> extend_result o n s true s' ->
  gas s' = gas s - (Cmem (slen (memory s') / 32) - Cmem (slen (memory s) / 32)) /\
  gas s' <= gas s.
Proof.
  intros (Hok & Hmod & Hle & Hcost) Hsmall Hr. inversion Hr; subst; simpl in *; [lia|].
  pose proof (words_bound (o + n)) as Hw. destruct Hok as ([Hpos _] & _).
  rewrite (Z.mul_comm 32), Z.div_mul by lia.
  set (w := slen (memory s) / 32) in *. set (w' := words (o + n)) in *.
  assert (Hww : 0 <= w <= w').
  { split; [apply Z.div_pos; lia|]. apply Z.div_le_upper_bound; lia. }
  rewrite Hcost, !memCost_small by lia.
  pose proof (Cmem_mono w w' Hww). assert (0 <= Cmem w).
  { unfold Cmem. assert (0 <= w * w / 512) by (apply Z.div_pos; nia). lia. }
  assert (Cmem w' < two64).
  { unfold Cmem, two64. assert (w' * w' / 512 <= 2 ^ 55) by (apply Z.div_le_upper_bound; nia). lia. }
  rewrite u64_small by (unfold is_u64; lia). lia.
Qed.
End memory.

(** ** The word written by MSTORE *)

Lemma be_bytes_snoc n x : be_bytes (S n) x = be_bytes n (x / 256) ++ [x mod 256].
Proof. done. Qed.

Lemma be_bytes_app m n x :
  be_bytes (m + n) x = be_bytes m (x / 256 ^ Z.of_nat n) ++ be_bytes n (x mod 256 ^ Z.of_nat n).
Proof.
  revert x. induction n as [|n IH]; intros x.
  - rewrite Nat.add_0_r, Z.pow_0_r, Z.div_1_r. by rewrite app_nil_r.
  - rewrite Nat.add_succ_r, !be_bytes_snoc, IH, (app_assoc _ _ [_]).
    rewrite Nat2Z.inj_succ, Z.pow_succ_r by lia. rewrite Z.div_div by lia.
    assert (E : x mod (256 * 256 ^ Z.of_nat n) =
                x mod 256 + (x / 256) mod 256 ^ Z.of_nat n * 256)
      by (rewrite Z.rem_mul_r by lia; lia).
    rewrite E, Z.div_add, Z.mod_add, Zmod_mod by lia.
    rewrite (Z.div_small (x mod 256)) by (apply Z.mod_pos_bound; lia). done.
Qed.

Lemma copy_at_snoc {A} p (d : list A) x l :
  (p + length d < length l)%nat ->
  copy_at p (d ++ [x]) l = copy_at p d (<[(p + length d)%nat := x]> l).
Proof.
  intros H. rewrite !copy_at_exact by (rewrite ?length_app, ?length_insert; simpl; lia).
  rewrite take_insert_ge by lia. rewrite length_app, <- app_assoc. do 2 f_equal. simpl.
  rewrite <- (take_drop_middle (<[_:=x]> l) (p + length d) x)
    by (apply list_lookup_insert_eq; lia).
  rewrite drop_app_length' by (rewrite length_take, length_insert; lia). f_equal.
  rewrite drop_insert_lt by lia. f_equal. lia.
Qed.

Lemma copy_at_app {A} p (d1 d2 : list A) l :
  (p + length d1 + length d2 <= length l)%nat ->
  copy_at p (d1 ++ d2) l = copy_at p d1 (copy_at (p + length d1) d2 l).
Proof.
  intros H. rewrite (copy_at_exact p d1) by (rewrite length_copy_at; lia).
  rewrite !copy_at_exact by (rewrite ?length_app; lia).
  rewrite (take_app_le (take _ _)), take_take, Nat.min_l by (rewrite ?length_take; lia).
  rewrite drop_app_length' by (rewrite length_take; lia).
  rewrite length_app, <- app_assoc. do 4 f_equal. lia.
Qed.

Section mstore.
Context {W : Type} `{GA : !GoAlloc, KK : !Keccak, HO : !Host W}.
Implicit Types s : state W.

(** The state after [d] has been written at [o]. *)
Definition mem_written (o : Z) (d : bytes) (s : state W) : state W :=
  set_memory (slice_write (memory s) o d) s.

Lemma bufStore_run o i v s :
  0 <= i < 32 -> bufStore o i v s = (Ok tt, set_memory
    (mkSlice (<[Z.to_nat (o + i) := v]> (arr (memory s))) (slen (memory s))) s).
Proof.
  intros H. unfold bufStore.
  destruct (Z.leb_spec 0 i), (Z.ltb_spec i 32); (lia || done).
Qed.

Lemma mem_written_nil o s : mem_written o [] s = s.
Proof.
  destruct s as [? ? ? ? [a l]]. unfold mem_written, slice_write, copy_at, set_memory; simpl.
  rewrite take_nil, Nat.add_0_r; simpl. by rewrite take_drop.
Qed.

Lemma mem_written_app o d1 d2 s :
  0 <= o -> o + zlen d1 + zlen d2 <= cap (memory s) ->
  mem_written o d1 (mem_written (o + zlen d1) d2 s) = mem_written o (d1 ++ d2) s.
Proof.
  intros Ho Hc. unfold mem_written, slice_write, cap, zlen in *. simpl.
  rewrite copy_at_app by lia. rewrite (Z2Nat.inj_add o), Nat2Z.id by lia. done.
Qed.

Lemma cap_mem_written o d s :
  0 <= o <= cap (memory s) -> cap (memory (mem_written o d s)) = cap (memory s).
Proof. intros H. unfold cap, zlen in *; simpl. rewrite length_copy_at; lia. Qed.

Lemma bufStore_written o i v s :
  0 <= o -> 0 <= i < 32 -> o + 32 <= cap (memory s) ->
  bufStore o i v s = (Ok tt, mem_written (o + i) [v] s).
Proof.
  intros Ho Hi Hc. rewrite bufStore_run by done. unfold mem_written, slice_write.
  do 3 f_equal. unfold cap, zlen in Hc. rewrite insert_take_drop, copy_at_exact by (simpl; lia).
  do 3 f_equal. simpl. lia.
Qed.

Lemma mstore_word_run n o d i s :
  0 <= o -> Z.of_nat n <= i <= 32 -> o + 32 <= cap (memory s) ->
  mstore_word n o d i s =
    (Ok (i - Z.of_nat n), mem_written (o + i - Z.of_nat n) (be_bytes n d) s).
Proof.
  intros Ho. revert d i s. induction n as [|n IH]; intros d i s Hi Hc.
  - simpl. rewrite Z.sub_0_r. by rewrite mem_written_nil.
  - cbn [mstore_word]. unfold mbind, GoM_bind.
    rewrite bufStore_written by lia. rewrite IH by (rewrite ?cap_mem_written; lia).
    rewrite Z.shiftr_div_pow2 by lia. change (2 ^ 8) with 256.
    rewrite be_bytes_snoc, <- mem_written_app.
    + f_equal; [f_equal; lia|]. unfold zlen. rewrite length_be_bytes.
      f_equal; [lia|]. f_equal; lia.
    + lia.
    + unfold zlen. rewrite length_be_bytes. simpl. lia.
Qed.

Lemma mstore_words_run n o y i s :
  0 <= o -> 8 * Z.of_nat n <= i <= 32 -> o + 32 <= cap (memory s) ->
  mstore_words (le_words n y) o i s =
    (Ok (i - 8 * Z.of_nat n),
     mem_written (o + i - 8 * Z.of_nat n) (be_bytes (8 * n) y) s).
Proof.
  intros Ho. revert y i s. induction n as [|n IH]; intros y i s Hi Hc.
  - simpl. rewrite Z.sub_0_r. by rewrite mem_written_nil.
  - cbn [le_words mstore_words]. unfold mbind, GoM_bind.
    rewrite mstore_word_run by (unfold _S; lia).
    rewrite IH by (rewrite ?cap_mem_written; unfold _S; lia).
    replace (8 * S n)%nat with (8 * n + 8)%nat by lia.
    rewrite be_bytes_app, <- mem_written_app.
    + unfold _S, zlen. rewrite length_be_bytes.
      f_equal; [f_equal; lia|]. f_equal; [lia|]. f_equal. lia.
    + lia.
    + unfold zlen. rewrite !length_be_bytes. lia.
Qed.

Lemma mstore_zeros_run i o s :
  0 <= o -> (i <= 32)%nat -> o + 32 <= cap (memory s) ->
  mstore_zeros i o s = (Ok tt, mem_written o (replicate i 0) s).
Proof.
  intros Ho. revert s. induction i as [|i IH]; intros s Hi Hc.
  - simpl. by rewrite mem_written_nil.
  - cbn [mstore_zeros]. unfold mbind, GoM_bind. rewrite bufStore_written by lia.
    rewrite IH by (rewrite ?cap_mem_written; lia).
    rewrite replicate_S_end, <- mem_written_app; unfold zlen;
      rewrite ?length_replicate; simpl; [done|lia|lia].
Qed.

Lemma be_bytes_pad k n v :
  0 <= v < 256 ^ Z.of_nat n -> be_bytes (k + n) v = replicate k 0 ++ be_bytes n v.
Proof.
  intros Hv. rewrite be_bytes_app, Z.div_small, Z.mod_small by done. f_equal.
  induction k as [|k IH]; [done|]. rewrite be_bytes_snoc, replicate_S_end. f_equal. exact IH.
Qed.

Lemma big_bits_words v : is_u256 v ->
  exists n, big_bits v = le_words n v /\ (n <= 4)%nat /\ v < 256 ^ Z.of_nat (8 * n).
Proof.
  intros Hv. unfold is_u256, two256 in Hv.
  assert (Hb : bit_len v <= 256) by (apply bit_len_le; lia).
  pose proof (bit_len_nonneg v).
  pose proof (big_bits_bound v ltac:(lia)) as [_ Hlt].
  exists (Z.to_nat ((bit_len v + 63) / 64)). unfold big_bits.
  rewrite Z.abs_eq by lia. split; [done|]. split.
  - apply Nat2Z.inj_le. rewrite Z2Nat.id by (apply Z.div_pos; lia).
    apply Z.lt_succ_r, Z.div_lt_upper_bound; lia.
  - by rewrite Nat2Z.inj_mul, Z.pow_mul_r by lia.
Qed.

(** The two loops of MSTORE write the 32 big-endian bytes of the value. *)
Lemma mstore_bytes o v s :
  0 <= o -> is_u256 v -> o + 32 <= cap (memory s) ->
  (i ← mstore_words (big_bits v) o 32; mstore_zeros (Z.to_nat i) o) s =
    (Ok tt, mem_written o (be_bytes 32 v) s).
Proof.
  intros Ho Hv Hc. destruct (big_bits_words v Hv) as (n & -> & Hn & Hlt).
  unfold mbind, GoM_bind. rewrite mstore_words_run by lia.
  rewrite mstore_zeros_run by (rewrite ?cap_mem_written; lia).
  replace 32%nat with ((32 - 8 * n) + 8 * n)%nat at 1 by lia.
  rewrite be_bytes_pad by (unfold is_u256 in Hv; lia).
  rewrite <- mem_written_app by
    (unfold zlen; rewrite ?length_replicate, ?length_be_bytes; lia).
  unfold zlen. rewrite length_replicate. do 3 f_equal; [f_equal; lia|f_equal; lia].
Qed.

Lemma popZ_run v r s : stack s = v :: r -> popZ s = (Ok v, set_stack r s).
Proof.
  intros E. unfold popZ, pop, mbind, GoM_bind, get, modify, deref. rewrite E. done.
Qed.

Lemma memSlice_run lo hi s :
  0 <= lo <= hi -> hi <= cap (memory s) ->
  memSlice lo hi s = (Ok (sub_list lo (hi - lo) (arr (memory s))), s).
Proof.
  intros H1 H2. unfold memSlice, mbind, GoM_bind, get.
  destruct (Z.leb_spec 0 lo), (Z.leb_spec lo hi), (Z.leb_spec hi (cap (memory s)));
    (lia || done).
Qed.

(** The offset of a successful expansion, as the code reads it back. *)
Lemma extend_result_u64 o n s s' :
  extend_result o n s true s' -> is_u64 o.
Proof. intros H. inversion H; subst; auto. unfold is_u64, two64, memLimit in *; lia. Qed.

Lemma extend_result_fields o n s s' :
  extend_result o n s true s' ->
  stack s' = stack s /\ host s' = host s /\ stop s' = stop s /\ err s' = err s.
Proof. by inversion 1. Qed.

Lemma opMStore_run off v r s :
  mem_inv s -> stack s = off :: v :: r -> is_u256 v ->
  exists b s1, extend_result off wordSize (set_stack r s) b s1 /\
    opMStore s = (Ok tt, if b then mem_written off (be_bytes 32 v) s1 else s1).
Proof.
  intros Hm Hst Hv. unfold opMStore.
  rewrite (bind_ok _ _ _ _ _ (popZ_run off (v :: r) s Hst)).
  rewrite (bind_ok _ _ _ _ _ (popZ_run v r (set_stack (v :: r) s) eq_refl)).
  change (set_stack r (set_stack (v :: r) s)) with (set_stack r s).
  destruct (extendMemory_run off wordSize (set_stack r s)) as (b & s1 & E & Hr).
  exists b, s1. split; [done|]. rewrite (bind_ok _ _ _ _ _ E). clear E.
  destruct b; [|done]. cbn [negb].
  pose proof (extend_result_u64 _ _ _ _ Hr) as Hu.
  destruct (extend_result_mem _ _ (set_stack r s) _ Hm Hr) as ((Hok & Hmod & Hle & _) & Hb & _).
  destruct Hok as ([_ Hcap] & _). unfold wordSize in Hb.
  rewrite big_uint64_small, u64_small by (unfold is_u64, two64 in *; lia).
  erewrite bind_ok by (apply memSlice_run; lia). apply mstore_bytes; lia || done.
Qed.

(** [get2] returns the bytes of the expanded memory. *)
Lemma get2_run off n s :
  mem_inv s -> n <> 0 ->
  exists b s1, extend_result off n s b s1 /\
    get2 off n s = (Ok (if b then Some (sub_list off n (arr (memory s1))) else None), s1).
Proof.
  intros Hm Hn. unfold get2. destruct (Z.eqb_spec n 0) as [|_]; [done|].
  destruct (extendMemory_run off n s) as (b & s1 & E & Hr).
  exists b, s1. split; [done|]. rewrite (bind_ok _ _ _ _ _ E). clear E.
  destruct b; [|done]. cbn [negb].
  pose proof (extend_result_u64 _ _ _ _ Hr) as Hu.
  destruct (extend_result_mem _ _ _ _ Hm Hr) as ((Hok & Hmod & Hle & _) & Hb & _).
  destruct Hok as ([_ Hcap] & _).
  rewrite !big_uint64_small, u64_small by (unfold is_u64, two64 in *; lia).
  erewrite bind_ok by (apply memSlice_run; lia). by replace (off + n - off) with n by lia.
Qed.

Lemma opMload_run off r s :
  mem_inv s -> stack s = off :: r ->
  exists b s1, extend_result off wordSize (set_stack r s) b s1 /\
    opMload s = if b then push (set_bytes (sub_list off 32 (arr (memory s1)))) s1
                else (Ok tt, s1).
Proof.
  intros Hm Hst. unfold opMload. rewrite (bind_ok _ _ _ _ _ (popZ_run off r s Hst)).
  destruct (get2_run off wordSize (set_stack r s)) as (b & s1 & Hr & E); [done..|].
  exists b, s1. split; [done|]. rewrite (bind_ok _ _ _ _ _ E). by destruct b.
Qed.

Lemma sub_list_copy o (d l : list Z) :
  0 <= o -> o + zlen d <= zlen l -> sub_list o (zlen d) (copy_at (Z.to_nat o) d l) = d.
Proof.
  intros Ho Hl. unfold sub_list, zlen in *. rewrite copy_at_exact by lia.
  rewrite drop_app_length' by (rewrite length_take; lia). by rewrite Nat2Z.id, take_app_length.
Qed.

Lemma mem_written_inv o d s :
  mem_inv s -> Forall is_byte d -> 0 <= o -> o + zlen d <= slen (memory s) ->
  mem_inv (mem_written o d s).
Proof. intros (H1 & H2) Hd Ho Hl. split; [by apply slice_write_ok|done]. Qed.

(** A word inside the memory is read without any expansion. *)
Lemma extend_inside o n s :
  0 <= o <= memLimit -> 0 < n <= memLimit -> o + n <= slen (memory s) ->
  extendMemory o n s = (Ok true, s).
Proof.
  intros Ho Hn Hl. unfold extendMemory.
  assert (Hb : forall x, is_u64 x -> big_is_uint64 x = true) by (intros; by apply big_is_uint64_spec).
  rewrite !Hb by (unfold is_u64, two64, memLimit in *; lia). cbn [negb orb].
  destruct (Z.eqb_spec n 0); [lia|].
  rewrite !big_uint64_small by (unfold is_u64, two64, memLimit in *; lia).
  destruct (Z.ltb_spec memLimit o), (Z.ltb_spec memLimit n); try lia. simpl.
  unfold mbind, GoM_bind, get. rewrite u64_small by (unfold is_u64, memLimit, two64 in *; lia).
  destruct (Z.ltb_spec (slen (memory s)) (o + n)); [lia|done].
Qed.

Lemma mem_written_read o d s :
  mem_inv s -> 0 <= o -> o + zlen d <= slen (memory s) ->
  sub_list o (zlen d) (contents (memory (mem_written o d s))) = d /\
  sub_list o (zlen d) (arr (memory (mem_written o d s))) = d.
Proof.
  intros (Hok & _) Ho Hl. pose proof (length_contents _ Hok).
  unfold mem_written; simpl. rewrite slice_write_contents by done.
  destruct Hok as ([_ ?] & _). unfold cap in *. split; apply sub_list_copy; lia.
Qed.

Lemma mload_written off v r s :
  mem_inv s -> is_u256 v -> 0 <= off <= memLimit -> off + 32 <= slen (memory s) ->
  stack s = off :: r ->
  opMload (mem_written off (be_bytes 32 v) s) =
    (Ok tt, set_stack (v :: r) (mem_written off (be_bytes 32 v) s)).
Proof.
  intros Hm Hv Ho Hl Hst. set (s1 := mem_written _ _ _). unfold opMload.
  rewrite (bind_ok _ _ _ _ _ (popZ_run off r s1 Hst)).
  unfold get2. change (wordSize =? 0) with false. cbv iota.
  rewrite bind_assoc. erewrite bind_ok by (apply extend_inside; unfold wordSize, memLimit in *; simpl; lia).
  cbn [negb]. rewrite !big_uint64_small, u64_small
    by (unfold is_u64, two64, wordSize, memLimit in *; lia).
  destruct Hm as (Hok & Hmm). pose proof Hok as ([_ ?] & _).
  rewrite bind_assoc. erewrite bind_ok by (apply memSlice_run; simpl;
    change (cap (slice_write _ _ _)) with (cap (memory s1)); subst s1;
    rewrite ?cap_mem_written; unfold wordSize; lia).
  assert (Hlen : zlen (be_bytes 32 v) = 32) by (unfold zlen; by rewrite length_be_bytes).
  replace (off + wordSize - off) with (zlen (be_bytes 32 v)) by (unfold wordSize; lia).
  destruct (mem_written_read off (be_bytes 32 v) s) as [_ Hrd]; [done|lia|lia|].
  change (memory (set_stack r s1)) with (memory s1). subst s1. rewrite Hrd. unfold mbind, GoM_bind, mret, GoM_ret, push, modify.
  rewrite set_bytes_be, Z.mod_small by done. done.
Qed.
End mstore.

(** * Properties *)

(** C28: expanding the memory never panics. When it succeeds the requested range is
    inside the memory, the old bytes are untouched and the new ones are zero, the
    size is a whole number of words and, below 2^37 bytes, the gas charged is the
    difference of the specified quadratic prices; when it fails the frame stops
    with an out-of-gas or an overflow error and the world is untouched. *)
Theorem extendMemory_correct {W} `{GA : !GoAlloc} (o n : Z) (s : state W) :
  mem_inv s ->
  match extendMemory o n s with
  | (Ok true, s') =>
      mem_inv s' /\ (n <> 0 -> 0 <= o /\ 0 < n /\ o + n <= slen (memory s')) /\
      contents (memory s') =
        contents (memory s) ++ replicate (Z.to_nat (slen (memory s') - slen (memory s))) 0 /\
      (slen (memory s') < 2 ^ 37 ->
       gas s' = gas s - (Cmem (slen (memory s') / 32) - Cmem (slen (memory s) / 32)) /\
       gas s' <= gas s)
  | (Ok false, s') =>
      stop s' = true /\ host s' = host s /\
      (err s' = Some errGasUintOverflow \/ err s' = Some ErrOutOfGas)
  | (Panic, _) => False
  end.
Proof.
  intros Hm. destruct (extendMemory_run o n s) as ([] & s' & -> & Hr).
  - destruct (extend_result_mem o n s s' Hm Hr) as (? & ? & ? & ?).
    repeat (split; [done|]). intros Hs. by eapply extend_result_gas.
  - inversion Hr as [e ? He| |]; subst. destruct He; subst; auto.
Qed.

Import Demo.

(** A frame about to start, with a given stack. *)
Definition demo_state (g : Z) (st : list Z) : state unit :=
  set_stack st (init_state (mkPooled nil_slice nil_slice) nil_slice (frame [] g) forks tt).

Lemma demo_state_inv g st : mem_inv (demo_state g st).
Proof. split; [apply nil_slice_ok|]. by vm_compute. Qed.

Lemma extendMemory_correct_witness :
  exists s', extendMemory 10 20 (demo_state 100 []) = (Ok true, s') /\ mem_inv s'.
Proof.
  exists (snd (extendMemory 10 20 (demo_state 100 []))).
  generalize (extendMemory_correct 10 20 (demo_state 100 []) (demo_state_inv _ _)).
  vm_compute. intros H. split; [reflexivity | apply H].
Defined.

(** What MSTORE writes MLOAD reads back. From a state whose memory invariant
    holds, MSTORE of a 256-bit value either stops the frame with a gas error or
    leaves the 32 big-endian bytes of the value at the offset, keeping the memory
    invariant, and then MLOAD at that offset pushes the value and charges nothing
    for memory. *)
Theorem mstore_mload {W} `{GA : !GoAlloc, KK : !Keccak, HO : !Host W}
    (off v : Z) (r : list Z) (s : state W) :
  mem_inv s -> stack s = off :: v :: off :: r -> is_u256 v ->
  exists s1, opMStore s = (Ok tt, s1) /\
    ((stop s1 = true /\
      (err s1 = Some errGasUintOverflow \/ err s1 = Some ErrOutOfGas)) \/
     (mem_inv s1 /\ sub_list off 32 (contents (memory s1)) = be_bytes 32 v /\
      opMload s1 = (Ok tt, set_stack (v :: r) s1))).
Proof.
  intros Hm Hst Hv. destruct (opMStore_run off v (off :: r) s Hm Hst Hv) as (b & s1 & Hr & E).
  exists (if b then mem_written off (be_bytes 32 v) s1 else s1). split; [done|].
  destruct b; [right|left; inversion Hr as [e ? He| |]; subst; destruct He; subst; auto].
  destruct (extend_result_mem _ _ (set_stack (off :: r) s) _ Hm Hr) as (Hm1 & Hb & _).
  specialize (Hb ltac:(done)). unfold wordSize in Hb.
  assert (Hlen : zlen (be_bytes 32 v) = 32) by (unfold zlen; by rewrite length_be_bytes).
  assert (Hm2 : mem_inv (mem_written off (be_bytes 32 v) s1))
    by (apply mem_written_inv; auto using be_bytes_is_byte; lia).
  split; [done|]. split; [rewrite <- Hlen; apply mem_written_read; lia || done|].
  apply mload_written; try done; [|lia|by inversion Hr].
  inversion Hr; subst; unfold wordSize in *; lia.
Qed.

Lemma mstore_mload_witness :
  exists s1, opMStore (demo_state 100 [64; 258; 64]) = (Ok tt, s1) /\
    opMload s1 = (Ok tt, set_stack [258] s1).
Proof.
  destruct (mstore_mload 64 258 [] (demo_state 100 [64; 258; 64]) (demo_state_inv _ _) eq_refl)
    as (s1 & E & H); [by split|].
  exists s1. split; [exact E|].
  destruct H as [[H _] | (_ & _ & H)]; [|exact H].
  assert (Hs : stop (snd (opMStore (demo_state 100 [64; 258; 64]))) = false)
    by (vm_compute; reflexivity).
  rewrite E in Hs. simpl in Hs. congruence.
Defined.

(** The square in the price of memory wraps around [uint64]: an empty frame
    with 3 * 2^32 gas extends its memory to 2^32 words (2^37 bytes), an eighth of
    what the size check allows, although the specified price is larger than that
    by 2^55. *)
Theorem extendMemory_wraps {W} `{GA : !GoAlloc} (s : state W) :
  memory s = nil_slice -> lastGasCost s = 0 -> gas s = 3 * 2 ^ 32 ->
  exists s', extendMemory 0 (2 ^ 37) s = (Ok true, s') /\
    slen (memory s') = 2 ^ 37 /\ gas s' = 0 /\ Cmem (2 ^ 32) = gas s + 2 ^ 55.
Proof.
  intros Hm Hl Hg. destruct (extendMemory_run 0 (2 ^ 37) s) as (b & s' & E & Hr).
  assert (Hb : b = true).
  { destruct b; [done|]. revert E. unfold extendMemory, mbind, GoM_bind, get. simpl.
    rewrite Hm. simpl. unfold consumeGas, mbind, GoM_bind, get; simpl. rewrite Hg, Hl. done. }
  subst b. exists s'. split; [done|]. rewrite Hg. split; [|split; [|done]].
  - inversion Hr as [|_ H0 H|]; subst; [|done]. rewrite Hm in H. simpl in H. lia.
  - inversion Hr as [|_ H0 H|g ? ? ? Hgg]; subst; [rewrite Hm in H; simpl in H; lia|].
    simpl. rewrite Hl, Hg. done.
Qed.

Lemma extendMemory_wraps_witness :
  exists s', extendMemory 0 (2 ^ 37) (demo_state (3 * 2 ^ 32) []) = (Ok true, s') /\
    gas s' = 0.
Proof.
  destruct (extendMemory_wraps (demo_state (3 * 2 ^ 32) []) eq_refl eq_refl eq_refl)
    as (s' & E & _ & Hg & _).
  exists s'. split; assumption.
Defined.
