(* ===== verification/EvmCorrect.v ===== *)
(** What a run of the interpreter promises: it ends, it never creates gas, it
    keeps static frames from changing the world, and jumps land on jump
    destinations only. *)

From S2P Require Import Prelude Types Chain Runtime Crypto Slice Instances Bitmap.
From S2P Require Import EvmState OpCodes Instructions Calls Evm EvmFacts CallFacts.
From S2P Require Import Progress Locality Arith Memory.

(** What the pool hands out: two cleared buffers, of any capacity. *)
Definition pooled_ok (p : pooled) : Prop :=
  slice_ok (p_memory p) /\ slen (p_memory p) = 0 /\
  slice_ok (p_bitmap p) /\ slen (p_bitmap p) = 0.

(** The frames the executor builds: byte code and a 64-bit gas limit. *)
Definition frame_ok (k : Contract) : Prop :=
  Forall is_byte (c_Code k) /\ is_u64 (c_Gas k).

Section run.
Context {W : Type} `{GA : !GoAlloc, KK : !Keccak, RL : !FastRlp, HO : !Host W}.
Context (callx : CallxT W).
Implicit Types s : state W.

(** Rounds that are not needed change nothing. *)
Lemma run_loop_more fuel s r s' n :
  run_loop callx fuel s = (r, s') -> r <> Ok false ->
  run_loop callx (fuel + n) s = (r, s').
Proof.
  revert s. induction fuel as [|fuel IH]; intros s E Hr.
  - rewrite run_loop_eq in E |- *. destruct (stop s); [done|]. by simplify_eq.
  - rewrite run_loop_eq in E |- *. destruct (stop s); [done|]. cbn [Nat.add].
    unfold mbind, GoM_bind in *. destruct (step callx s) as [[[]|] s1]; [|done]. by apply IH.
Qed.

Lemma run_loop_ends_at `{!CallxGas callx} s fuel :
  EIP150 (config s) = true -> is_u64 (gas s) -> (run_fuel (gas s) <= fuel)%nat ->
  run_loop callx fuel s = run_loop callx (run_fuel (gas s)) s.
Proof.
  intros HE HU Hf. replace fuel with (run_fuel (gas s) + (fuel - run_fuel (gas s)))%nat by lia.
  destruct (run_loop callx (run_fuel (gas s)) s) as [r s'] eqn:E.
  apply run_loop_more; [done|]. change r with (fst (r, s')). rewrite <- E.
  apply (run_loop_ends anyW); (done || unfold run_fuel; lia).
Qed.

(** [EVM.Run] always returns a result, from the state its loop ends in. *)
Lemma EVM_Run_inv p k cfg w :
  pooled_ok p -> frame_ok k ->
  exists bm r s', setCode (p_bitmap p) (c_Code k) = Some bm /\
    run_loop callx (run_fuel (c_Gas k)) (init_state p bm k cfg w) = (r, s') /\
    EVM_Run callx p k cfg w =
      (Ok (mkResult (match r with Ok _ => ret s' | Panic => [] end)
             (match r with
              | Ok _ => match err s' with
                        | None | Some ErrExecutionReverted => gas s'
                        | _ => 0
                        end
              | Panic => 0
              end) 0
             (match r with Ok _ => err s' | Panic => Some errEvmPanic end)), host s').
Proof.
  intros (_ & _ & Hb & Hb0) (Hc & _).
  destruct (setCode_spec (p_bitmap p) (c_Code k) Hc Hb Hb0) as (bm & Hs & _).
  destruct (run_loop callx (run_fuel (c_Gas k)) (init_state p bm k cfg w)) as [r s'] eqn:E.
  exists bm, r, s'. split; [done|]. split; [done|].
  unfold EVM_Run. rewrite Hs. unfold deref, get, modify, mbind, GoM_bind, mret, GoM_ret, Run.
  cbn -[run_loop]. change (gas (init_state p bm k cfg w)) with (c_Gas k). rewrite E.
  destruct r as [b|]; [|done]. simpl. by destruct (err s') as [[]|].
Qed.

End run.

(** A valid frame keeps its bitmap of the code. *)
Lemma bitmap_jumpdest `{GA : !GoAlloc} (b bm : slice) (c : bytes) (dest : Z) :
  Forall is_byte c -> slice_ok b -> slen b = 0 -> setCode b c = Some bm ->
  0 <= dest < zlen c -> exists v, isSet bm dest = Some v /\ (v = true <-> jumpdest_at c dest).
Proof.
  intros Hc Hok Hl E Hd. destruct (setCode_spec b c Hc Hok Hl) as (b' & E' & _ & _ & H).
  rewrite E in E'. injection E' as <-. by apply H.
Qed.

(** * Properties *)

(** C2: the interpreter loop ends. Under the EIP-150 rules, with callees that give
    back no more gas than they got, the loop ends by itself within one round per
    unit of gas (plus two), so that any larger number of rounds gives the same
    outcome. *)
Theorem Run_terminates {W} `{GA : !GoAlloc, KK : !Keccak, RL : !FastRlp, HO : !Host W}
    (callx : CallxT W) (HG : CallxGas callx) (s : state W) (fuel : nat) :
  EIP150 (config s) = true -> is_u64 (gas s) -> (run_fuel (gas s) <= fuel)%nat ->
  fst (run_loop callx fuel s) <> Ok false /\
  run_loop callx fuel s = run_loop callx (run_fuel (gas s)) s.
Proof.
  intros HE HU Hf. split; [|by apply run_loop_ends_at].
  apply (run_loop_ends anyW); (done || unfold run_fuel in *; lia).
Qed.

Import Demo.

(** PUSH1 4; JUMP; INVALID; JUMPDEST; PUSH1 1; PUSH1 0; SSTORE *)
Definition demo_code : bytes := [0x60; 4; 0x56; 0xfe; 0x5b; 0x60; 1; 0x60; 0; 0x55].
Definition demo_pool : pooled := mkPooled nil_slice nil_slice.

Lemma demo_pool_ok : pooled_ok demo_pool.
Proof. repeat split; try apply nil_slice_ok; done. Qed.
Lemma demo_frame_ok : frame_ok (frame demo_code 100).
Proof. split; [|done]. repeat apply Forall_cons_2; try apply Forall_nil_2; done. Qed.

Lemma Run_terminates_witness :
  fst (run_loop callx 102 (demo_state 100 [])) <> Ok false.
Proof.
  exact (proj1 (Run_terminates callx callx_gas_ok (demo_state 100 []) 102
                  eq_refl ltac:(done) ltac:(vm_compute; lia))).
Defined.

(** C12: from EIP-150 on, with callees that give back no more gas than they got,
    [EVM.Run] is total and never creates gas. On a pooled state and a frame with byte code it returns a result (no panic escapes), the gas left is between
    zero and the gas of the frame, and an error other than a revert leaves no gas. *)
Theorem EVM_Run_gas {W} `{GA : !GoAlloc, KK : !Keccak, RL : !FastRlp, HO : !Host W}
    (callx : CallxT W) (HG : CallxGas callx) (p : pooled) (k : Contract) (cfg : ForksInTime)
    (w : W) :
  pooled_ok p -> frame_ok k -> EIP150 cfg = true ->
  exists r w', EVM_Run callx p k cfg w = (Ok r, w') /\
    0 <= GasLeft r <= c_Gas k /\
    (Err r <> None -> Err r <> Some ErrExecutionReverted -> GasLeft r = 0).
Proof.
  intros Hp Hk HE. destruct (EVM_Run_inv callx p k cfg w Hp Hk) as (bm & r & s' & _ & E & ->).
  destruct Hk as [_ Hu]. do 2 eexists. split; [done|].
  destruct (run_loop_evolves callx anyW _ _ _ _ E) as [Hg _ _ _ _ _ _].
  specialize (Hg HE Hu). simpl in *. unfold is_u64 in Hu.
  destruct r; simpl; [|lia]. destruct (err s') as [[]|]; split; (lia || done).
Qed.

Lemma EVM_Run_gas_witness :
  exists r w', EVM_Run callx demo_pool (frame demo_code 100) forks tt = (Ok r, w') /\
    0 <= GasLeft r <= 100.
Proof.
  destruct (EVM_Run_gas callx callx_gas_ok demo_pool (frame demo_code 100) forks tt
              demo_pool_ok demo_frame_ok eq_refl) as (r & w' & E & Hg & _).
  exists r, w'. split; assumption.
Defined.

(** Static frames cannot change the world. For every preorder on worlds that
    the callees of static frames respect, a run of a static frame stays within it;
    in particular the world is unchanged when static callees leave it unchanged.
    This covers SSTORE, LOG, SELFDESTRUCT, CREATE and value-bearing CALLs at any
    point of the program. *)
Theorem EVM_Run_static {W} `{GA : !GoAlloc, KK : !Keccak, RL : !FastRlp, HO : !Host W}
    (callx : CallxT W) (RW : relation W) (HR : PreOrder RW) (HG : CallxGas callx)
    (HS : forall k w, static_frame k -> RW w (snd (callx k w)))
    (p : pooled) (k : Contract) (cfg : ForksInTime) (w : W) :
  read_only k -> RW w (snd (EVM_Run callx p k cfg w)).
Proof.
  intros Hk. pose (P := mkPolicy true RW).
  assert (CallxKeeps P callx) by (intros k' w' Hc; apply HS, Hc; reflexivity).
  assert (Allowed P) by done. assert (PreOrder (rel P)) by exact HR.
  apply (EVM_Run_keeps callx P). by intros _.
Qed.

Lemma EVM_Run_static_witness :
  tt = snd (EVM_Run callx demo_pool (set_c_Static true (frame demo_code 100)) forks tt).
Proof.
  refine (EVM_Run_static callx eq _ callx_gas_ok _ demo_pool
            (set_c_Static true (frame demo_code 100)) forks tt _).
  - intros k [] _. reflexivity.
  - split; [reflexivity|]. split; [reflexivity|]. by apply Forall_replicate.
Defined.

(** C25: a jump is valid exactly when its target is a JUMPDEST that starts an
    instruction: in every state reached from the start of a frame, [validJumpdest]
    never panics, for any 256-bit target, and accepts it iff the byte there is a
    JUMPDEST that is not part of the data of a PUSH. *)
Theorem validJumpdest_correct {W} `{GA : !GoAlloc, KK : !Keccak, RL : !FastRlp, HO : !Host W}
    (callx : CallxT W) (HG : CallxGas callx) (p : pooled) (k : Contract) (cfg : ForksInTime)
    (w : W) (fuel : nat) (bm : slice) (r : result bool) (s : state W) (dest : Z) :
  pooled_ok p -> frame_ok k -> setCode (p_bitmap p) (c_Code k) = Some bm ->
  run_loop callx fuel (init_state p bm k cfg w) = (r, s) -> is_u256 dest ->
  zlen (c_Code k) < 2 ^ 62 ->
  exists v, validJumpdest dest s = (Ok v, s) /\ (v = true <-> jumpdest_at (c_Code k) dest).
Proof.
  intros (_ & _ & Hb & Hb0) [Hc _] Hbm E Hd Hlen.
  destruct (run_loop_evolves callx anyW _ _ _ _ E) as [_ _ Hcode _ _ Hbit _].
  simpl in Hcode, Hbit. unfold validJumpdest, mbind, GoM_bind, get. rewrite Hcode, Hbit.
  unfold is_u256 in Hd.
  destruct (Z.leb_spec 63 (bit_len dest)) as [H63|H63].
  - exists false. split; [done|]. split; [done|]. intros [_ Hl]. exfalso.
    apply lookup_lt_Some in Hl. assert (bit_len dest <= 62); [|lia].
    apply bit_len_le; unfold zlen in *; lia.
  - assert (Hsm : dest < 2 ^ 62).
    { assert (Hd' : bit_len dest <= 62) by lia. apply bit_len_le in Hd'; lia. }
    rewrite big_uint64_small by (unfold is_u64, two64; lia). cbn [orb].
    destruct (Z.leb_spec (zlen (c_Code k)) dest) as [Hge|Hlt].
    + exists false. split; [done|]. split; [done|]. intros [_ Hl]. exfalso.
      apply lookup_lt_Some in Hl. unfold zlen in *. lia.
    + destruct (bitmap_jumpdest _ _ _ dest Hc Hb Hb0 Hbm ltac:(lia)) as (v & -> & Hv).
      by exists v.
Qed.

Lemma validJumpdest_correct_witness :
  exists bm r s, setCode (p_bitmap demo_pool) demo_code = Some bm /\
    run_loop callx 2 (init_state demo_pool bm (frame demo_code 100) forks tt) = (r, s) /\
    validJumpdest 4 s = (Ok true, s) /\ jumpdest_at demo_code 4.
Proof.
  assert (H4 : is_u256 4) by done. assert (Hl : zlen demo_code < 2 ^ 62) by done.
  destruct (setCode (p_bitmap demo_pool) demo_code) as [bm|] eqn:Hbm; [|vm_compute in Hbm; congruence].
  destruct (run_loop callx 2 (init_state demo_pool bm (frame demo_code 100) forks tt))
    as [r s] eqn:E.
  exists bm, r, s. split; [reflexivity|]. split; [exact E|].
  destruct (validJumpdest_correct callx callx_gas_ok demo_pool (frame demo_code 100) forks tt 2
              bm r s 4 demo_pool_ok demo_frame_ok Hbm E H4 Hl) as (v & Hv & Hj).
  assert (Ht : fst (validJumpdest 4 s) = Ok true).
  { change s with (snd (r, s)). rewrite <- E. vm_compute in Hbm. injection Hbm as <-.
    vm_compute. reflexivity. }
  rewrite Hv in Ht |- *. injection Ht as ->. split; [reflexivity|]. apply Hj. reflexivity.
Defined.

(** RETURNDATACOPY of nothing panics beyond the memory: with a length of zero
    the memory is not extended, and re-slicing it at an offset past its end is out
    of range. The frame ends with a recovered panic and loses all its gas, where
    copying zero bytes should do nothing. *)
Theorem returndatacopy_panics {W} `{GA : !GoAlloc, KK : !Keccak, HO : !Host W}
    (s : state W) (off : Z) (r : list Z) :
  Byzantium (config s) = true -> stack s = off :: 0 :: 0 :: r -> is_u64 off -> 0 <= gas s ->
  slen (memory s) < off -> fst (opReturnDataCopy s) = Panic.
Proof.
  intros HB Hs Ho Hg Hl. unfold opReturnDataCopy, requires, gets, mbind at 1, GoM_bind at 1.
  rewrite HB. cbn [negb].
  rewrite (bind_ok _ _ _ _ _ (popZ_run off (0 :: 0 :: r) s Hs)).
  rewrite (bind_ok _ _ _ _ _ (popZ_run 0 (0 :: r) (set_stack (0 :: 0 :: r) s) eq_refl)).
  rewrite (bind_ok _ _ _ _ _ (popZ_run 0 r (set_stack (0 :: r) (set_stack (0 :: 0 :: r) s)) eq_refl)).
  set (s3 := set_stack r _). assert (E : extendMemory off 0 s3 = (Ok true, s3)).
  { unfold extendMemory. apply big_is_uint64_spec in Ho. by rewrite Ho. }
  rewrite (bind_ok _ _ _ _ _ E). cbn [negb].
  change (negb (big_is_uint64 0)) with false. cbv iota.
  assert (E' : consumeGas 0 s3 = (Ok true, set_gas (gas s - 0) s3)).
  { unfold consumeGas, get, mbind, GoM_bind. change (gas s3) with (gas s).
    destruct (Z.ltb_spec (gas s) 0); [lia|done]. }
  change (u64 _) with 0. rewrite (bind_ok _ _ _ _ _ E'). cbn [negb].
  change (negb (big_is_uint64 (0 + 0))) with false. cbv iota.
  unfold get at 1, mbind at 1, GoM_bind at 1. rewrite (big_uint64_small off) by done.
  change (big_uint64 (0 + 0)) with 0.
  destruct (Z.ltb_spec (zlen (returnData (set_gas (gas s - 0) s3))) 0) as [Hz|_].
  { unfold zlen in Hz. lia. }
  unfold memFrom, get, mbind, GoM_bind. change (memory (set_gas (gas s - 0) s3)) with (memory s).
  destruct (Z.leb_spec off (slen (memory s))); [lia|]. by destruct (0 <=? off).
Qed.

Lemma returndatacopy_panics_witness :
  fst (opReturnDataCopy (demo_state 100 [1; 0; 0])) = Panic.
Proof.
  apply (returndatacopy_panics (demo_state 100 [1; 0; 0]) 1 []); [reflexivity|reflexivity| | |];
    vm_compute; (split; congruence) || congruence.
Defined.

(** A callee that returns one byte, and a CALL to it that asks for none of it but
    names the offset 1. *)
Definition one_byte_callx : CallxT unit := fun c => mret (mkResult [1] (c_Gas c) 0 None).
Definition empty_ret_call : bytes :=
  [0x60; 0; 0x60; 1; 0x60; 0; 0x60; 0; 0x60; 0; 0x60; 0; 0x60; 0; 0xf1].
Definition roomy_pool : pooled := mkPooled (mkSlice [0; 0] 0) nil_slice.

(** The outcome of a frame depends on the capacity of the pooled memory it
    happens to get: a CALL with an empty return range at an offset beyond the
    memory slices [memory[1:1]], which is in range only if a previous user of the
    buffer left enough capacity. The same frame, in the same world, succeeds with
    one cleared buffer and ends in a recovered panic with another. *)
Theorem EVM_Run_pool_dependent :
  CallxGas one_byte_callx /\ pooled_ok demo_pool /\ pooled_ok roomy_pool /\
  exists r r', EVM_Run one_byte_callx roomy_pool (frame empty_ret_call 10000) forks tt = (Ok r, tt) /\
    EVM_Run one_byte_callx demo_pool (frame empty_ret_call 10000) forks tt = (Ok r', tt) /\
    Succeeded r = true /\ Err r' = Some errEvmPanic /\ GasLeft r' = 0.
Proof.
  split; [intros c w r Hu [= <-]; unfold is_u64 in Hu; simpl; lia|].
  split; [apply demo_pool_ok|]. split.
  - repeat split; try apply nil_slice_ok; simpl; try done.
    all: repeat apply Forall_cons_2; try apply Forall_nil_2; done.
  - do 2 eexists. split; [vm_compute; reflexivity|]. split; [vm_compute; reflexivity|]. done.
Qed.
