(* ===== verification/TxTypes.v ===== *)
(** Transactions, logs, receipts and bloom filters (types/transaction.go,
    types/receipt.go). *)

From S2P Require Import Prelude Types Chain Runtime Crypto Slice Instances.

(** ** Transactions *)

(** Pointers that may be nil are options. *)
Record Transaction := mkTransaction {
  tr_Nonce : Z;
  tr_GasPrice : option Z;
  tr_Gas : Z;
  tr_To : option Address;
  tr_Value : option Z;
  tr_Input : bytes;
  tr_V : option Z;
  tr_R : option Z;
  tr_S : option Z;
  tr_From : Address;
}.

Definition IsContractCreation (t : Transaction) : bool := bool_decide (tr_To t = None).

Definition set_From (a : Address) (t : Transaction) : Transaction :=
  mkTransaction (tr_Nonce t) (tr_GasPrice t) (tr_Gas t) (tr_To t) (tr_Value t) (tr_Input t)
    (tr_V t) (tr_R t) (tr_S t) a.

(** The price and the value of the copy are never nil; the signature values lose
    their sign. *)
Definition Transaction_Copy (t : Transaction) : Transaction :=
  mkTransaction (tr_Nonce t) (Some (default 0 (tr_GasPrice t))) (tr_Gas t) (tr_To t)
    (Some (default 0 (tr_Value t))) (tr_Input t)
    (Z.abs <$> tr_V t) (Z.abs <$> tr_R t) (Z.abs <$> tr_S t) (tr_From t).

(** [None] is the nil dereference. *)
Definition Cost (t : Transaction) : option Z :=
  p ← tr_GasPrice t; v ← tr_Value t; Some (p * tr_Gas t + v).

Definition ExceedsBlockGasLimit (t : Transaction) (blockGasLimit : Z) : bool :=
  blockGasLimit <? tr_Gas t.

Definition IsUnderpriced (t : Transaction) (priceLimit : Z) : option bool :=
  p ← tr_GasPrice t; Some (p <? priceLimit).

Section rlp.
Context `{KK : !Keccak, RL : !FastRlp}.

(** [arena.NewBigInt] of a pointer. *)
Definition marshalBig (b : option Z) : Value :=
  match b with None => NewNull | Some z => NewBigInt z end.

Definition Transaction_MarshalRLPWith (t : Transaction) : Value :=
  NewArray
    [ NewUint (tr_Nonce t); marshalBig (tr_GasPrice t); NewUint (tr_Gas t);
      match tr_To t with Some a => NewBytes a | None => NewNull end;
      marshalBig (tr_Value t); NewBytes (tr_Input t);
      marshalBig (tr_V t); marshalBig (tr_R t); marshalBig (tr_S t) ].

Definition rlpHash (t : Transaction) : Hash := keccak256 (MarshalTo (Transaction_MarshalRLPWith t)).

(** [t.Hash()] of a transaction whose hash is not cached yet. *)
Definition Transaction_Hash (t : Transaction) : Hash := rlpHash t.

(** The sender is not part of the encoding and keeps its value. *)
Definition Transaction_UnmarshalRLPFrom (t : Transaction) (v : Value) : option Transaction :=
  elems ← GetElems v;
  match elems with
  | e0 :: e1 :: e2 :: e3 :: e4 :: e5 :: e6 :: e7 :: e8 :: _ =>
      nonce ← GetUint64 e0;
      price ← GetBigInt e1;
      gas ← GetUint64 e2;
      let vv := default [] (GetBytes e3) in
      let to := if (length vv =? 20)%nat then Some (BytesToAddress vv) else None in
      val ← GetBigInt e4;
      input ← GetBytes e5;
      tv ← GetBigInt e6; r ← GetBigInt e7; s ← GetBigInt e8;
      Some (mkTransaction nonce (Some price) gas to (Some val) input (Some tv) (Some r) (Some s)
              (tr_From t))
  | _ => None
  end.
End rlp.

(** ** Logs, receipts and blooms *)

Record Log := mkLog { l_Address : Address; l_Topics : list Hash; l_Data : bytes }.

(** [type ReceiptStatus uint64] *)
Abbreviation ReceiptStatus := Z (only parsing).
Definition ReceiptFailed : ReceiptStatus := 0.
Definition ReceiptSuccess : ReceiptStatus := 1.

(** The 256 bytes of a bloom filter. *)
Abbreviation Bloom := bytes (only parsing).
Definition BloomByteLength : Z := 256.

Record Receipt := mkReceipt {
  r_Root : Hash;
  r_CumulativeGasUsed : Z;
  r_LogsBloom : Bloom;
  r_Logs : list Log;
  r_Status : option ReceiptStatus;
  r_GasUsed : Z;
  r_ContractAddress : option Address;
  r_TxHash : Hash;
}.

Section bloom.
Context `{KK : !Keccak}.

Definition emptyBloom : Bloom := replicate (Z.to_nat BloomByteLength) 0.

(** The bit of round [i] of a digest, and where it lives. *)
Definition bloomBit (buf : bytes) (i : nat) : Z :=
  Z.land (nth (i + 1) buf 0 + Z.shiftl (nth i buf 0) 8) 2047.
Definition byteLocation (bit : Z) : Z := 256 - 1 - bit / 8.
Definition bitLocation (bit : Z) : Z := bit mod 8.

(** [1 << n] for a byte: zero when [n >= 8]. *)
Definition byte_shl1 (n : Z) : Z := Z.land (Z.shiftl 1 n) 255.

Definition setBit (b : Bloom) (bit : Z) : Bloom :=
  <[Z.to_nat (byteLocation bit) :=
      Z.lor (nth (Z.to_nat (byteLocation bit)) b 0) (byte_shl1 (bitLocation bit))]> b.

Definition setEncode (b : Bloom) (h : bytes) : Bloom :=
  let buf := keccak256 h in
  fold_left (fun b i => setBit b (bloomBit buf i)) [0; 2; 4]%nat b.

Definition addLog (b : Bloom) (log : Log) : Bloom :=
  fold_left setEncode (l_Topics log) (setEncode b (l_Address log)).

Definition CreateBloom (receipts : list Receipt) : Bloom :=
  fold_left (fun b r => fold_left addLog (r_Logs r) b) receipts emptyBloom.

(** The shift count [bitLocation - 1] is a [uint]: it wraps for the lowest bit, and
    the shifted byte is then zero. *)
Definition isBitPresent (b : Bloom) (bit : Z) : bool :=
  let referenceByte := nth (Z.to_nat (byteLocation bit)) b 0 in
  let sh := u64 (bitLocation bit - 1) in
  negb (Z.land referenceByte (if 8 <=? sh then 0 else byte_shl1 sh) =? 0).

Definition isByteArrPresent (b : Bloom) (data : bytes) : bool :=
  let buf := keccak256 data in
  forallb (fun i => isBitPresent b (bloomBit buf i)) [0; 2; 4]%nat.

Definition IsLogInBloom (b : Bloom) (log : Log) : bool :=
  isByteArrPresent b (l_Address log) && forallb (isByteArrPresent b) (l_Topics log).
End bloom.

(** ** Lemmas *)

Section bloom_lemmas.
Context `{KK : !Keccak}.

(** The bit [bit] of a filter is set. *)
Definition bloom_bit (b : Bloom) (bit : Z) : bool :=
  Z.testbit (nth (Z.to_nat (byteLocation bit)) b 0) (bitLocation bit).

(** The three bits of the digest of [data] are set. *)
Definition bloom_has (b : Bloom) (data : bytes) : Prop :=
  Forall (fun i => bloom_bit b (bloomBit (keccak256 data) i) = true) [0; 2; 4]%nat.

(** A log is recorded: its address and all its topics are. *)
Definition bloom_has_log (b : Bloom) (log : Log) : Prop :=
  bloom_has b (l_Address log) /\ Forall (bloom_has b) (l_Topics log).

Lemma bloomBit_range buf i : 0 <= bloomBit buf i < 2048.
Proof.
  unfold bloomBit. change 2047 with (Z.ones 11). rewrite Z.land_ones by lia.
  apply Z.mod_pos_bound. lia.
Qed.

Lemma byte_shl1_bit n k : 0 <= n < 8 -> 0 <= k < 8 ->
  Z.testbit (byte_shl1 n) k = (n =? k).
Proof.
  intros Hn Hk. unfold byte_shl1. rewrite Z.land_spec, Z.shiftl_1_l.
  change 255 with (Z.ones 8). rewrite Z.testbit_ones_nonneg by lia.
  replace (k <? 8) with true by lia. rewrite andb_true_r. apply Z.pow2_bits_eqb. lia.
Qed.

(** Setting a bit sets it and clears none. *)
Lemma setBit_spec b bit bit' :
  length b = 256%nat -> 0 <= bit < 2048 -> 0 <= bit' < 2048 ->
  bloom_bit (setBit b bit) bit' = (bit =? bit') || bloom_bit b bit'.
Proof.
  intros Hl Hb Hb'. unfold bloom_bit, setBit, byteLocation, bitLocation.
  pose proof (Z.div_mod bit 8 ltac:(lia)). pose proof (Z.div_mod bit' 8 ltac:(lia)).
  pose proof (Z.mod_pos_bound bit 8 ltac:(lia)). pose proof (Z.mod_pos_bound bit' 8 ltac:(lia)).
  assert (0 <= bit / 8 < 256) by (split; [apply Z.div_pos|apply Z.div_lt_upper_bound]; lia).
  assert (0 <= bit' / 8 < 256) by (split; [apply Z.div_pos|apply Z.div_lt_upper_bound]; lia).
  rewrite !nth_lookup.
  destruct (decide (bit / 8 = bit' / 8)) as [E|E].
  - rewrite E, list_lookup_insert_eq by lia. cbn [default from_option id].
    rewrite Z.lor_spec, byte_shl1_bit by lia. rewrite orb_comm. f_equal.
    destruct (Z.eqb_spec (bit mod 8) (bit' mod 8)), (Z.eqb_spec bit bit'); (lia || done).
  - rewrite list_lookup_insert_ne by lia.
    destruct (Z.eqb_spec bit bit'); [subst; lia|done].
Qed.

Lemma setEncode_spec b h bit :
  length b = 256%nat -> 0 <= bit < 2048 ->
  bloom_bit (setEncode b h) bit =
    existsb (fun i => bloomBit (keccak256 h) i =? bit) [0; 2; 4]%nat || bloom_bit b bit.
Proof.
  intros Hl Hb. unfold setEncode. cbn [fold_left existsb].
  assert (Hs : forall b bit, length (setBit b bit) = length b) by (intros; apply length_insert).
  rewrite !setBit_spec; rewrite ?Hs; auto using bloomBit_range.
  rewrite orb_false_r, !orb_assoc. f_equal.
  by destruct (bloomBit _ 0 =? bit), (bloomBit _ 2 =? bit), (bloomBit _ 4 =? bit).
Qed.

Lemma length_setEncode b h : length (setEncode b h) = length b.
Proof. unfold setEncode, setBit. cbn [fold_left]. by rewrite !length_insert. Qed.

(** [b'] has all the bits of [b]. *)
Definition bloom_le (b b' : Bloom) : Prop :=
  length b = length b' /\ forall bit, 0 <= bit < 2048 -> bloom_bit b bit = true -> bloom_bit b' bit = true.

#[global] Instance bloom_le_preorder : PreOrder bloom_le.
Proof.
  split; [by split|]. intros a b c [H1 H2] [H3 H4]. split; [congruence|]. auto.
Qed.

Lemma setEncode_le b h : length b = 256%nat -> bloom_le b (setEncode b h).
Proof.
  intros Hl. split; [by rewrite length_setEncode|]. intros bit Hb H.
  rewrite setEncode_spec by done. by rewrite H, orb_true_r.
Qed.

Lemma setEncode_has b h : length b = 256%nat -> bloom_has (setEncode b h) h.
Proof.
  intros Hl. unfold bloom_has. rewrite List.Forall_forall. intros i Hi.
  rewrite setEncode_spec by auto using bloomBit_range.
  apply orb_true_iff. left. apply existsb_exists. exists i. by rewrite Z.eqb_refl.
Qed.

Lemma bloom_has_le b b' h : bloom_le b b' -> bloom_has b h -> bloom_has b' h.
Proof.
  intros [_ H]. unfold bloom_has. apply Forall_impl. intros i. apply H, bloomBit_range.
Qed.

(** A fold of steps that only add bits keeps the bits that were there, and has the
    bits of each of its steps. *)
Lemma fold_le {A} (f : Bloom -> A -> Bloom) l b :
  (forall b x, length b = 256%nat -> bloom_le b (f b x)) -> length b = 256%nat ->
  bloom_le b (fold_left f l b).
Proof.
  intros Hf. revert b. induction l as [|x l IH]; intros b Hl; simpl; [done|].
  pose proof (Hf b x Hl) as Hx. etrans; [exact Hx|]. apply IH. destruct Hx; congruence.
Qed.

Lemma fold_has {A} (f : Bloom -> A -> Bloom) (P : Bloom -> A -> Prop) l b x :
  (forall b x, length b = 256%nat -> bloom_le b (f b x)) ->
  (forall b x, length b = 256%nat -> P (f b x) x) ->
  (forall b b' x, bloom_le b b' -> P b x -> P b' x) ->
  length b = 256%nat -> In x l -> P (fold_left f l b) x.
Proof.
  intros Hf HP Hle. revert b. induction l as [|y l IH]; intros b Hl [].
  - subst. simpl. pose proof (Hf b x Hl) as Hx. eapply Hle; [|by apply HP].
    apply fold_le; [done|]. destruct Hx; congruence.
  - simpl. apply IH; [|done]. destruct (Hf b y Hl); congruence.
Qed.

Lemma addLog_le b log : length b = 256%nat -> bloom_le b (addLog b log).
Proof.
  intros Hl. unfold addLog. etrans; [by apply (setEncode_le b (l_Address log))|].
  apply fold_le; [apply setEncode_le|]. by rewrite length_setEncode.
Qed.

Lemma bloom_has_log_le b b' log : bloom_le b b' -> bloom_has_log b log -> bloom_has_log b' log.
Proof.
  intros H [Ha Ht]. split; [by eapply bloom_has_le|].
  revert Ht. apply Forall_impl. intros t. by apply bloom_has_le.
Qed.

Lemma addLog_has b log : length b = 256%nat -> bloom_has_log (addLog b log) log.
Proof.
  intros Hl. assert (Hl' : length (setEncode b (l_Address log)) = 256%nat)
    by by rewrite length_setEncode.
  split.
  - eapply bloom_has_le; [|by apply (setEncode_has b)].
    apply fold_le; [apply setEncode_le|done].
  - rewrite List.Forall_forall. intros t Ht. unfold addLog.
    apply (fold_has setEncode bloom_has); [apply setEncode_le|apply setEncode_has| |done|done].
    apply bloom_has_le.
Qed.
End bloom_lemmas.

(** * Properties *)

(** Every log of every receipt is in the bloom filter created from the
    receipts: the three bits of the digest of its address and of each of its topics
    are set. *)
Theorem CreateBloom_complete `{KK : !Keccak} (receipts : list Receipt) (r : Receipt) (log : Log) :
  In r receipts -> In log (r_Logs r) -> bloom_has_log (CreateBloom receipts) log.
Proof.
  intros Hr Hl. unfold CreateBloom.
  apply (fold_has (fun b r => fold_left addLog (r_Logs r) b)
           (fun b r => forall log, In log (r_Logs r) -> bloom_has_log b log) receipts _ r); auto.
  - intros b x Hb. apply fold_le; [apply addLog_le|done].
  - intros b x Hb log' Hlog'. apply (fold_has addLog bloom_has_log); try done;
      [apply addLog_le|apply addLog_has|apply bloom_has_log_le].
  - intros b b' x Hb H log' Hlog'. eapply bloom_has_log_le; eauto.
Qed.

Import Demo.

Definition demo_log : Log := mkLog ZeroAddress [ZeroHash] [1].
Definition demo_receipt : Receipt :=
  mkReceipt ZeroHash 0 [] [demo_log] (Some ReceiptSuccess) 0 None ZeroHash.

Lemma CreateBloom_complete_witness : bloom_has_log (CreateBloom [demo_receipt]) demo_log.
Proof. apply (CreateBloom_complete [demo_receipt] demo_receipt demo_log); left; reflexivity. Defined.

(** The membership test of the filter looks one bit below the one that was set,
    and finds nothing at all when that bit is the lowest of its byte: a log whose
    address hashes to such a bit is reported absent from every filter, whatever was
    recorded in it. *)
Theorem IsLogInBloom_misses `{KK : !Keccak} (b : Bloom) (log : Log) :
  bitLocation (bloomBit (keccak256 (l_Address log)) 0) = 0 -> IsLogInBloom b log = false.
Proof.
  intros H. unfold IsLogInBloom, isByteArrPresent. cbn [forallb].
  unfold isBitPresent at 1. rewrite H. change (8 <=? u64 (0 - 1)) with true. cbv iota.
  by rewrite Z.land_0_r.
Qed.

Lemma IsLogInBloom_misses_witness : IsLogInBloom (CreateBloom [demo_receipt]) demo_log = false.
Proof. apply (IsLogInBloom_misses (CreateBloom [demo_receipt]) demo_log). vm_compute. reflexivity. Defined.

(** 64-bit nonce and gas, non-nil non-negative amounts and signature values, and a
    20-byte receiver if any. *)
Definition nonneg (o : option Z) : Prop := exists z, o = Some z /\ 0 <= z.
Record tx_wf (t : Transaction) : Prop := {
  tx_nonce : is_u64 (tr_Nonce t);
  tx_gas : is_u64 (tr_Gas t);
  tx_to : forall a, tr_To t = Some a -> is_address a;
  tx_price : nonneg (tr_GasPrice t);
  tx_value : nonneg (tr_Value t);
  tx_v : nonneg (tr_V t);
  tx_r : nonneg (tr_R t);
  tx_s : nonneg (tr_S t);
}.

(** What was encoded is decoded; the sender is the one of the receiving object. *)
Lemma Transaction_decode `{KK : !Keccak, RL : !FastRlp} (t t0 : Transaction) :
  tx_wf t -> Transaction_UnmarshalRLPFrom t0 (norm (Transaction_MarshalRLPWith t)) = Some (set_From (tr_From t0) t).
Proof.
  intros [Hn Hg Ha (p & Ep & Hp) (w & Ew & Hw) (v & Ev & Hv) (r & Er & Hr) (s & Es & Hs)].
  unfold Transaction_UnmarshalRLPFrom, Transaction_MarshalRLPWith.
  rewrite norm_NewArray, GetElems_NewArray. simpl. rewrite Ep, Ew, Ev, Er, Es. simpl.
  rewrite !norm_NewUint, !norm_NewBigInt, norm_NewBytes.
  rewrite !GetUint64_NewUint, !GetBigInt_NewBigInt, GetBytes_NewBytes by done. simpl.
  destruct t; simpl in *; subst. unfold set_From; simpl. do 2 f_equal.
  destruct tr_To0 as [a|]; [rewrite norm_NewBytes|by rewrite norm_NewNull, GetBytes_NewBytes].
  destruct (Ha a eq_refl) as [Hl Hb]. rewrite GetBytes_NewBytes. simpl. rewrite Hl. simpl.
  unfold BytesToAddress. rewrite <- Hl. by rewrite fixed_of_bytes_id.
Qed.

Lemma Transaction_roundtrip `{KK : !Keccak, RL : !FastRlp} (t t0 : Transaction) :
  tx_wf t ->
  (w ← Parse (MarshalTo (Transaction_MarshalRLPWith t)); Transaction_UnmarshalRLPFrom t0 w) =
    Some (set_From (tr_From t0) t).
Proof. intros Ht. rewrite Parse_MarshalTo. simpl. by apply Transaction_decode. Qed.

Definition demo_tx : Transaction :=
  mkTransaction 7 (Some 5) 21000 (Some ZeroAddress) (Some 100) [1; 2] (Some 27) (Some 9) (Some 11)
    ZeroAddress.

Lemma demo_tx_wf : tx_wf demo_tx.
Proof.
  split; try (by split); try (by eexists; split; [reflexivity|lia]).
  intros a [= <-]. split; [reflexivity|]. by apply Forall_replicate.
Qed.
