(* ===== verification/BlockTypes.v ===== *)
(** Headers, blocks and receipts with their RLP forms, the hash of a header and the
    extra data of the consensus it leaves out, and validator sets (types/header.go,
    types/header_hash.go, types/istanbulExtra.go, types/block.go, types/receipt.go,
    types/rlp_marshal_storage.go, types/rlp_unmarshal_storage.go, types/validators.go). *)

From S2P Require Import Prelude Types Chain Runtime Crypto Rlp Slice Instances TxTypes.

(** ** Headers (types/header.go) *)

Record Header := mkHeader {
  h_ParentHash : Hash;
  h_Sha3Uncles : Hash;
  h_Miner : Address;
  h_StateRoot : Hash;
  h_TxRoot : Hash;
  h_ReceiptsRoot : Hash;
  h_LogsBloom : Bloom;
  h_Difficulty : Z;
  h_Number : Z;
  h_GasLimit : Z;
  h_GasUsed : Z;
  h_Timestamp : Z;
  h_ExtraData : bytes;
  h_MixHash : Hash;
  h_Nonce : bytes;
  h_Hash : Hash;
}.

(** [&Header{}] *)
Definition emptyHeader : Header :=
  mkHeader ZeroHash ZeroHash ZeroAddress ZeroHash ZeroHash ZeroHash (replicate 256 0) 0 0 0 0 0 []
    ZeroHash (replicate 8 0) ZeroHash.

Definition set_ExtraData (b : bytes) (h : Header) : Header :=
  mkHeader (h_ParentHash h) (h_Sha3Uncles h) (h_Miner h) (h_StateRoot h) (h_TxRoot h)
    (h_ReceiptsRoot h) (h_LogsBloom h) (h_Difficulty h) (h_Number h) (h_GasLimit h) (h_GasUsed h)
    (h_Timestamp h) b (h_MixHash h) (h_Nonce h) (h_Hash h).
Definition set_Hash (b : Hash) (h : Header) : Header :=
  mkHeader (h_ParentHash h) (h_Sha3Uncles h) (h_Miner h) (h_StateRoot h) (h_TxRoot h)
    (h_ReceiptsRoot h) (h_LogsBloom h) (h_Difficulty h) (h_Number h) (h_GasLimit h) (h_GasUsed h)
    (h_Timestamp h) (h_ExtraData h) (h_MixHash h) (h_Nonce h) b.
Definition set_hNonce (b : bytes) (h : Header) : Header :=
  mkHeader (h_ParentHash h) (h_Sha3Uncles h) (h_Miner h) (h_StateRoot h) (h_TxRoot h)
    (h_ReceiptsRoot h) (h_LogsBloom h) (h_Difficulty h) (h_Number h) (h_GasLimit h) (h_GasUsed h)
    (h_Timestamp h) (h_ExtraData h) (h_MixHash h) b (h_Hash h).

Definition Header_Equal (h hh : Header) : bool := hash_eqb (h_Hash h) (h_Hash hh).
Definition HasBody (h : Header) : bool :=
  negb (hash_eqb (h_TxRoot h) EmptyRootHash) || negb (hash_eqb (h_Sha3Uncles h) EmptyUncleHash).
Definition HasReceipts (h : Header) : bool := negb (hash_eqb (h_ReceiptsRoot h) EmptyRootHash).

(** [binary.BigEndian.PutUint64] *)
Definition Header_SetNonce (i : Z) (h : Header) : Header := set_hNonce (be_bytes 8 i) h.

(** Values are copied; the extra data is a fresh slice. *)
Definition Header_Copy (h : Header) : Header := h.

(** ** The extra data (types/istanbulExtra.go) *)

Record IstanbulExtra := mkIstanbulExtra {
  i_Validators : list Address;
  i_Seal : bytes;
  i_CommittedSeal : list bytes;
}.

Definition IstanbulExtraVanity : nat := 32.

Definition isEmpty (b : bytes) : bool := match b with [] => true | _ => false end.

Section types.
Context `{KK : !Keccak, RL : !FastRlp}.

(** An empty committed seal goes to the outer list. *)
Definition IstanbulExtra_MarshalRLPWith (i : IstanbulExtra) : Value :=
  NewArray
    ([ NewArray (map NewBytes (i_Validators i));
       match i_Seal i with [] => NewNull | s => NewBytes s end ] ++
     match i_CommittedSeal i with
     | [] => [NewNullArray]
     | seals =>
         map (fun _ => NewNull) (List.filter isEmpty seals) ++
         [NewArray (map NewBytes (List.filter (fun s => negb (isEmpty s)) seals))]
     end).

Definition IstanbulExtra_UnmarshalRLPFrom (v : Value) : option IstanbulExtra :=
  elems ← GetElems v;
  match elems with
  | e0 :: e1 :: e2 :: _ =>
      vals ← GetElems e0;
      validators ← mapM GetAddr vals;
      seal ← GetBytes e1;
      vals ← GetElems e2;
      committed ← mapM GetBytes vals;
      Some (mkIstanbulExtra validators seal committed)
  | _ => None
  end.

(** [UnmarshalRlp]: the parser, then the decoder. *)
Definition UnmarshalRlp {A} (obj : Value -> option A) (input : bytes) : option A :=
  v ← Parse input; obj v.

Definition GetIbftExtra (h : Header) : option IstanbulExtra :=
  if (length (h_ExtraData h) <? IstanbulExtraVanity)%nat then None
  else UnmarshalRlp IstanbulExtra_UnmarshalRLPFrom (drop IstanbulExtraVanity (h_ExtraData h)).

(** The vanity, padded with zeros or cut to 32 bytes, and the validators alone. *)
Definition PutIbftExtraValidators (h : Header) (validators : list Address) : Header :=
  let extra := h_ExtraData h in
  let extra :=
    if (length extra <? IstanbulExtraVanity)%nat
    then extra ++ replicate (IstanbulExtraVanity - length extra) 0
    else take IstanbulExtraVanity extra in
  let ibftExtra := mkIstanbulExtra validators [] [] in
  set_ExtraData (extra ++ MarshalTo (IstanbulExtra_MarshalRLPWith ibftExtra)) h.

(** The digest of the header without its seals, its mix hash and its nonce. *)
Definition CalculateHeaderHash (h : Header) : option bytes :=
  let h := Header_Copy h in
  extra ← GetIbftExtra h;
  let h := PutIbftExtraValidators h (i_Validators extra) in
  Some (keccak256 (MarshalTo (NewArray
    [ NewBytes (h_ParentHash h); NewBytes (h_Sha3Uncles h); NewBytes (h_Miner h);
      NewBytes (h_StateRoot h); NewBytes (h_TxRoot h); NewBytes (h_ReceiptsRoot h);
      NewBytes (h_LogsBloom h); NewUint (h_Difficulty h); NewUint (h_Number h);
      NewUint (h_GasLimit h); NewUint (h_GasUsed h); NewUint (h_Timestamp h);
      NewBytes (h_ExtraData h) ]))).

(** An error leaves the empty message, and the zero hash. *)
Definition HeaderHash (h : Header) : Hash := BytesToHash (default [] (CalculateHeaderHash h)).
Definition ComputeHash (h : Header) : Header := set_Hash (HeaderHash h) h.

(** ** The RLP form of a header *)

Definition Header_MarshalRLPWith (h : Header) : Value :=
  NewArray
    [ NewBytes (h_ParentHash h); NewBytes (h_Sha3Uncles h); NewBytes (h_Miner h);
      NewBytes (h_StateRoot h); NewBytes (h_TxRoot h); NewBytes (h_ReceiptsRoot h);
      NewBytes (h_LogsBloom h); NewUint (h_Difficulty h); NewUint (h_Number h);
      NewUint (h_GasLimit h); NewUint (h_GasUsed h); NewUint (h_Timestamp h);
      NewBytes (h_ExtraData h); NewBytes (h_MixHash h); NewBytes (h_Nonce h) ].

Definition Header_MarshalRLPTo (h : Header) : bytes := MarshalTo (Header_MarshalRLPWith h).

Definition Header_UnmarshalRLPFrom (v : Value) : option Header :=
  elems ← GetElems v;
  match elems with
  | e0 :: e1 :: e2 :: e3 :: e4 :: e5 :: e6 :: e7 :: e8 :: e9 :: e10 :: e11 :: e12 :: e13 :: e14 :: _ =>
      parentHash ← GetHash e0;
      sha3Uncles ← GetHash e1;
      miner ← GetAddr e2;
      stateRoot ← GetHash e3;
      txRoot ← GetHash e4;
      receiptsRoot ← GetHash e5;
      logsBloom ← GetBytesOf 256 e6;
      difficulty ← GetUint64 e7;
      number ← GetUint64 e8;
      gasLimit ← GetUint64 e9;
      gasUsed ← GetUint64 e10;
      timestamp ← GetUint64 e11;
      extraData ← GetBytes e12;
      mixHash ← GetHash e13;
      nonce ← GetUint64 e14;
      Some (ComputeHash (Header_SetNonce nonce
        (mkHeader parentHash sha3Uncles miner stateRoot txRoot receiptsRoot logsBloom difficulty
           number gasLimit gasUsed timestamp extraData mixHash (replicate 8 0) ZeroHash)))
  | _ => None
  end.

Definition Header_UnmarshalRLP (input : bytes) : option Header :=
  UnmarshalRlp Header_UnmarshalRLPFrom input.
End types.

(** ** Blocks (types/block.go) *)

Record Body := mkBody { bd_Transactions : list Transaction; bd_Uncles : list Header }.
Record Block := mkBlock {
  b_Header : Header;
  b_Transactions : list Transaction;
  b_Uncles : list Header;
}.

(** The order of the queue: by number. *)
Definition Block_Compare (b o : Block) : Z :=
  if h_Number (b_Header o) <? h_Number (b_Header b) then 1
  else if h_Number (b_Header o) =? h_Number (b_Header b) then 0
  else -1.

Definition Block_Hash (b : Block) : Hash := h_Hash (b_Header b).
Definition Block_Number (b : Block) : Z := h_Number (b_Header b).
Definition Block_ParentHash (b : Block) : Hash := h_ParentHash (b_Header b).
Definition Block_Body (b : Block) : Body := mkBody (b_Transactions b) (b_Uncles b).
Definition WithSeal (b : Block) (header : Header) : Block :=
  mkBlock header (b_Transactions b) (b_Uncles b).

(** [&Transaction{}] *)
Definition emptyTransaction : Transaction :=
  mkTransaction 0 None 0 None None [] None None None ZeroAddress.

Section blocks.
Context `{KK : !Keccak, RL : !FastRlp}.

(** A list of encoded elements, or the empty array. *)
Definition marshalList {A} (f : A -> Value) (l : list A) : Value :=
  match l with [] => NewNullArray | _ => NewArray (map f l) end.

Definition Block_MarshalRLPWith (b : Block) : Value :=
  NewArray [ Header_MarshalRLPWith (b_Header b);
             marshalList Transaction_MarshalRLPWith (b_Transactions b);
             marshalList Header_MarshalRLPWith (b_Uncles b) ].

Definition Block_MarshalRLP (b : Block) : bytes := MarshalTo (Block_MarshalRLPWith b).
Definition Block_Size (b : Block) : Z := zlen (Block_MarshalRLP b).

Definition Block_UnmarshalRLPFrom (v : Value) : option Block :=
  elems ← GetElems v;
  match elems with
  | e0 :: e1 :: e2 :: _ =>
      header ← Header_UnmarshalRLPFrom e0;
      txns ← GetElems e1;
      transactions ← mapM (Transaction_UnmarshalRLPFrom emptyTransaction) txns;
      uncles ← GetElems e2;
      uncles ← mapM Header_UnmarshalRLPFrom uncles;
      Some (mkBlock header transactions uncles)
  | _ => None
  end.

Definition Block_UnmarshalRLP (input : bytes) : option Block :=
  UnmarshalRlp Block_UnmarshalRLPFrom input.

(** ** Stored transactions and bodies *)

Definition Transaction_MarshalStoreRLPWith (t : Transaction) : Value :=
  NewArray [Transaction_MarshalRLPWith t; NewBytes (tr_From t)].

Definition Transaction_UnmarshalStoreRLPFrom (v : Value) : option Transaction :=
  elems ← GetElems v;
  match elems with
  | e0 :: e1 :: _ =>
      t ← Transaction_UnmarshalRLPFrom emptyTransaction e0;
      from ← GetAddr e1;
      Some (set_From from t)
  | _ => None
  end.

Definition Body_MarshalRLPWith (b : Body) : Value :=
  NewArray [ marshalList Transaction_MarshalStoreRLPWith (bd_Transactions b);
             marshalList Header_MarshalRLPWith (bd_Uncles b) ].

Definition Body_UnmarshalRLPFrom (v : Value) : option Body :=
  tuple ← GetElems v;
  match tuple with
  | e0 :: e1 :: _ =>
      txns ← GetElems e0;
      transactions ← mapM Transaction_UnmarshalStoreRLPFrom txns;
      uncles ← GetElems e1;
      uncles ← mapM Header_UnmarshalRLPFrom uncles;
      Some (mkBody transactions uncles)
  | _ => None
  end.

(** ** Receipts (types/receipt.go) *)

Definition Log_MarshalRLPWith (l : Log) : Value :=
  NewArray [NewBytes (l_Address l); NewArray (map NewBytes (l_Topics l)); NewBytes (l_Data l)].

Definition Log_UnmarshalRLPFrom (v : Value) : option Log :=
  elems ← GetElems v;
  match elems with
  | e0 :: e1 :: e2 :: _ =>
      address ← GetAddr e0;
      topicElems ← GetElems e1;
      topics ← mapM GetHash topicElems;
      data ← GetBytes e2;
      Some (mkLog address topics data)
  | _ => None
  end.

Definition MarshalLogsWith (r : Receipt) : Value := marshalList Log_MarshalRLPWith (r_Logs r).

Definition Receipt_MarshalRLPWith (r : Receipt) : Value :=
  NewArray
    [ match r_Status r with Some s => NewUint s | None => NewBytes (r_Root r) end;
      NewUint (r_CumulativeGasUsed r); NewBytes (r_LogsBloom r); MarshalLogsWith r ].

Definition Receipts_MarshalRLPWith (l : list Receipt) : Value := NewArray (map Receipt_MarshalRLPWith l).

(** The root or the status, by the size. *)
Definition decodeStatus (buf : bytes) : Hash * option ReceiptStatus :=
  match buf with
  | [b] => (ZeroHash, Some b)
  | _ => if (length buf =? 32)%nat then (buf, None) else (ZeroHash, Some 0)
  end.

(** The context fields keep their zero values. *)
Definition Receipt_UnmarshalRLPFrom (v : Value) : option Receipt :=
  elems ← GetElems v;
  match elems with
  | e0 :: e1 :: e2 :: e3 :: _ =>
      buf ← GetBytes e0;
      let '(root, status) := decodeStatus buf in
      cumulativeGasUsed ← GetUint64 e1;
      logsBloom ← GetBytesOf 256 e2;
      logsElems ← GetElems e3;
      logs ← mapM Log_UnmarshalRLPFrom logsElems;
      Some (mkReceipt root cumulativeGasUsed logsBloom logs status 0 None ZeroHash)
  | _ => None
  end.

Definition Receipts_UnmarshalRLPFrom (v : Value) : option (list Receipt) :=
  elems ← GetElems v; mapM Receipt_UnmarshalRLPFrom elems.

Definition Receipt_MarshalStoreRLPWith (r : Receipt) : Value :=
  NewArray
    [ Receipt_MarshalRLPWith r;
      match r_ContractAddress r with None => NewNull | Some a => NewBytes a end;
      NewUint (r_GasUsed r); NewBytes (r_TxHash r) ].

Definition Receipt_UnmarshalStoreRLPFrom (v : Value) : option Receipt :=
  elems ← GetElems v;
  match elems with
  | e0 :: e1 :: e2 :: rest =>
      r ← Receipt_UnmarshalRLPFrom e0;
      vv ← GetBytes e1;
      let contractAddress := if (length vv =? 20)%nat then Some (BytesToAddress vv) else None in
      gasUsed ← GetUint64 e2;
      txHash ← (match rest with [e3] => vv ← GetBytes e3; Some (BytesToHash vv) | _ => Some ZeroHash end);
      Some (mkReceipt (r_Root r) (r_CumulativeGasUsed r) (r_LogsBloom r) (r_Logs r) (r_Status r)
              gasUsed contractAddress txHash)
  | _ => None
  end.

Definition Receipts_MarshalStoreRLPWith (l : list Receipt) : Value :=
  NewArray (map Receipt_MarshalStoreRLPWith l).
Definition Receipts_UnmarshalStoreRLPFrom (v : Value) : option (list Receipt) :=
  elems ← GetElems v; mapM Receipt_UnmarshalStoreRLPFrom elems.
End blocks.

(** ** Validator sets (types/validators.go) *)

Definition Validators : Type := list Address.

Fixpoint indexFrom (i : Z) (v : Validators) (addr : Address) : Z :=
  match v with
  | [] => -1
  | a :: v => if addr_eqb a addr then i else indexFrom (i + 1) v addr
  end.
Definition Validators_Index (v : Validators) (addr : Address) : Z := indexFrom 0 v addr.
Definition Validators_Includes (v : Validators) (addr : Address) : bool :=
  negb (Validators_Index v addr =? -1).
Definition Validators_Len (v : Validators) : Z := zlen v.
Definition Validators_Add (v : Validators) (addr : Address) : Validators := v ++ [addr].
Definition Validators_Equal (v vv : Validators) : bool := bool_decide (v = vv).

(** [None] is the division by zero of an empty set. *)
Definition CalcProposer (v : Validators) (round : Z) (lastProposer : Address) : option Address :=
  let seed :=
    if addr_eqb lastProposer ZeroAddress then round
    else
      let indx := Validators_Index v lastProposer in
      let offset := if negb (indx =? -1) then indx else 0 in
      u64 (u64 (offset + round) + 1) in
  if Validators_Len v =? 0 then None else v !! Z.to_nat (seed mod Validators_Len v).

(** [Del] shifts the array the loop runs over: [B] is the array, [m] the length of the
    set; a match beyond it is an invalid slice expression. *)
Fixpoint delLoop (n : nat) (indx : nat) (B : list Address) (m : nat) (addr : Address)
    : result (list Address * nat) :=
  match n with
  | O => Ok (B, m)
  | S n =>
      match B !! indx with
      | None => Panic
      | Some i =>
          if addr_eqb i addr then
            if (m <? indx + 1)%nat then Panic
            else delLoop n (S indx) (take indx B ++ sub_list (Z.of_nat (indx + 1)) (Z.of_nat (m - (indx + 1))) B
                                       ++ drop (m - 1) B) (m - 1) addr
          else delLoop n (S indx) B m addr
      end
  end.
Definition Validators_Del (v : Validators) (addr : Address) : result Validators :=
  match delLoop (length v) 0 v (length v) addr with
  | Ok (B, m) => Ok (take m B)
  | Panic => Panic
  end.

(** Go's division truncates. *)
Definition CalcMaxFaultyNodes (s : Validators) : Z := Z.quot (Validators_Len s - 1) 3.
