(* ===== verification/BlockCorrect.v ===== *)
(** Round trips of headers, blocks and receipts through RLP, what the hash of a header
    depends on, the sizes of what is decoded, and the turns of the proposers. *)

From S2P Require Import Prelude Types Chain Runtime Crypto Rlp Slice Instances TxTypes BlockTypes.

(** ** Well-formed values *)

Record header_wf (h : Header) : Prop := {
  hw_parent : is_hash (h_ParentHash h);
  hw_uncles : is_hash (h_Sha3Uncles h);
  hw_miner : is_address (h_Miner h);
  hw_state : is_hash (h_StateRoot h);
  hw_tx : is_hash (h_TxRoot h);
  hw_receipts : is_hash (h_ReceiptsRoot h);
  hw_bloom : zlen (h_LogsBloom h) = 256;
  hw_difficulty : is_u64 (h_Difficulty h);
  hw_number : is_u64 (h_Number h);
  hw_gasLimit : is_u64 (h_GasLimit h);
  hw_gasUsed : is_u64 (h_GasUsed h);
  hw_timestamp : is_u64 (h_Timestamp h);
  hw_mix : is_hash (h_MixHash h);
  hw_nonce : length (h_Nonce h) = 8%nat /\ Forall is_byte (h_Nonce h);
}.

Definition block_wf (b : Block) : Prop :=
  header_wf (b_Header b) /\ Forall tx_wf (b_Transactions b) /\ Forall header_wf (b_Uncles b).

Definition log_wf (l : Log) : Prop := is_address (l_Address l) /\ Forall is_hash (l_Topics l).

(** A receipt has a status or a root. *)
Record receipt_wf (r : Receipt) : Prop := {
  rw_root : is_hash (r_Root r);
  rw_status : forall s, r_Status r = Some s -> (s = ReceiptFailed \/ s = ReceiptSuccess) /\ r_Root r = ZeroHash;
  rw_cumulative : is_u64 (r_CumulativeGasUsed r);
  rw_bloom : zlen (r_LogsBloom r) = 256;
  rw_logs : Forall log_wf (r_Logs r);
  rw_gasUsed : is_u64 (r_GasUsed r);
  rw_contract : forall a, r_ContractAddress r = Some a -> is_address a;
  rw_txHash : is_hash (r_TxHash r);
}.

(** ** Encoders and decoders *)

Section roundtrip.
Context `{KK : !Keccak, RL : !FastRlp}.

(** Decoding the elements of an encoded list. *)
Lemma mapM_decode {A B} (enc : A -> Value) (dec : Value -> option B) (g : A -> B) l :
  Forall (fun x => dec (norm (enc x)) = Some (g x)) l ->
  mapM dec (map norm (map enc l)) = Some (map g l).
Proof. intros H. apply mapM_Some. induction H; simpl; by constructor. Qed.

Lemma GetElems_marshalList {A} (f : A -> Value) l :
  GetElems (norm (marshalList f l)) = Some (map norm (map f l)).
Proof.
  destruct l as [|x l]; simpl.
  - by rewrite norm_NewNullArray, GetElems_NewArray.
  - by rewrite norm_NewArray, GetElems_NewArray.
Qed.

(** Rewriting with what the readers give for the values of the constructors. *)
Ltac rlp :=
  repeat first
    [ rewrite norm_NewArray | rewrite norm_NewBytes | rewrite norm_NewUint | rewrite norm_NewNull
    | rewrite GetElems_NewArray | rewrite GetBytes_NewBytes | rewrite GetUint64_NewUint by done
    | rewrite GetHash_NewBytes by done | rewrite GetAddr_NewBytes by done
    | rewrite GetBytesOf_NewBytes by done | rewrite GetElems_marshalList | progress simpl ].

(** The hash is computed anew. *)
Lemma Header_decode h :
  header_wf h -> Header_UnmarshalRLPFrom (norm (Header_MarshalRLPWith h)) = Some (ComputeHash h).
Proof.
  intros [? ? ? ? ? ? ? ? ? ? ? ? ? [Hn Hb]]. unfold Header_UnmarshalRLPFrom, Header_MarshalRLPWith. rlp.
  rewrite GetUint64_NewBytes; [|done|unfold zlen; lia]. simpl. f_equal.
  unfold Header_SetNonce, set_hNonce. simpl. rewrite <- Hn, be_set_bytes by done. by destruct h.
Qed.

Lemma Header_roundtrip h :
  header_wf h -> Header_UnmarshalRLP (Header_MarshalRLPTo h) = Some (ComputeHash h).
Proof.
  intros Hh. unfold Header_UnmarshalRLP, UnmarshalRlp, Header_MarshalRLPTo. rewrite Parse_MarshalTo.
  by apply Header_decode.
Qed.

Lemma Block_decode b :
  block_wf b ->
  Block_UnmarshalRLPFrom (norm (Block_MarshalRLPWith b)) =
    Some (mkBlock (ComputeHash (b_Header b)) (map (set_From ZeroAddress) (b_Transactions b))
            (map ComputeHash (b_Uncles b))).
Proof.
  intros (Hh & Ht & Hu). unfold Block_UnmarshalRLPFrom, Block_MarshalRLPWith. rlp.
  rewrite Header_decode by done. rlp.
  rewrite (mapM_decode Transaction_MarshalRLPWith _ (set_From ZeroAddress)) by
    (eapply Forall_impl; [|exact Ht]; intros x Hx; by apply (Transaction_decode x emptyTransaction)).
  rlp. rewrite (mapM_decode Header_MarshalRLPWith _ ComputeHash); [done|].
  eapply Forall_impl; [|exact Hu]. apply Header_decode.
Qed.

Lemma Log_decode l : log_wf l -> Log_UnmarshalRLPFrom (norm (Log_MarshalRLPWith l)) = Some l.
Proof.
  intros [Ha Ht]. unfold Log_UnmarshalRLPFrom, Log_MarshalRLPWith. rlp.
  rewrite (mapM_decode NewBytes _ id).
  - rlp. rewrite map_id. by destruct l.
  - eapply Forall_impl; [|exact Ht]. intros x Hx. by rewrite norm_NewBytes, GetHash_NewBytes.
Qed.

(** The status as it is read back. *)
Lemma decodeStatus_spec r :
  receipt_wf r ->
  exists buf,
    GetBytes (norm (match r_Status r with Some s => NewUint s | None => NewBytes (r_Root r) end)) = Some buf /\
    decodeStatus buf = (r_Root r, r_Status r).
Proof.
  intros Hr. destruct (r_Status r) as [s|] eqn:Es.
  - destruct (rw_status r Hr s Es) as [Hs ->]. rewrite norm_NewUint.
    exists (big_bytes s). destruct Hs as [-> | ->]; (split; [by apply GetBytes_NewUint|reflexivity]).
  - exists (r_Root r). rewrite norm_NewBytes, GetBytes_NewBytes. split; [done|].
    destruct (rw_root r Hr) as [Hl _]. unfold decodeStatus. rewrite Hl.
    by destruct (r_Root r) as [|x [|y l]].
Qed.

Lemma Receipt_decode r :
  receipt_wf r ->
  Receipt_UnmarshalRLPFrom (norm (Receipt_MarshalRLPWith r)) =
    Some (mkReceipt (r_Root r) (r_CumulativeGasUsed r) (r_LogsBloom r) (r_Logs r) (r_Status r) 0 None ZeroHash).
Proof.
  intros Hr. pose proof Hr as [_ _ ? ? Hl _ _ _]. destruct (decodeStatus_spec r Hr) as (buf & Eb & Ed).
  unfold Receipt_UnmarshalRLPFrom, Receipt_MarshalRLPWith, MarshalLogsWith.
  rewrite norm_NewArray, GetElems_NewArray. cbn [map mbind option_bind]. rewrite Eb. cbn [mbind option_bind].
  rewrite Ed. rlp. rewrite (mapM_decode Log_MarshalRLPWith _ id).
  - rlp. by rewrite map_id.
  - eapply Forall_impl; [|exact Hl]. apply Log_decode.
Qed.

Lemma Receipt_store_decode r :
  receipt_wf r -> Receipt_UnmarshalStoreRLPFrom (norm (Receipt_MarshalStoreRLPWith r)) = Some r.
Proof.
  intros Hr. pose proof Hr as [_ _ _ _ _ ? Ha Hh]. unfold Receipt_UnmarshalStoreRLPFrom, Receipt_MarshalStoreRLPWith.
  rlp. rewrite Receipt_decode by done. simpl.
  assert (Hc : exists vv, GetBytes (norm (match r_ContractAddress r with None => NewNull | Some a => NewBytes a end)) =
      Some vv /\ (if (length vv =? 20)%nat then Some (BytesToAddress vv) else None) = r_ContractAddress r).
  { destruct (r_ContractAddress r) as [a|]; eexists.
    - rewrite norm_NewBytes, GetBytes_NewBytes. split; [done|]. pose proof (Ha a eq_refl) as Ha'.
      destruct Ha' as [Hl Hb] eqn:E. rewrite Hl. simpl. by rewrite BytesToAddress_address.
    - rewrite norm_NewNull, GetBytes_NewBytes. by split. }
  destruct Hc as (vv & Ev & Hv). rewrite Ev. simpl. rewrite Hv. rlp. rewrite BytesToHash_hash by done. by destruct r.
Qed.

(** ** The extra data and the hash of a header *)

Definition extra_wf (i : IstanbulExtra) : Prop :=
  Forall is_address (i_Validators i) /\ Forall (fun s => s <> []) (i_CommittedSeal i).

Lemma filter_nonempty l :
  Forall (fun s => s <> []) l ->
  List.filter isEmpty l = [] /\ List.filter (fun s => negb (isEmpty s)) l = l.
Proof. induction 1 as [|s l Hs _ [IH1 IH2]]; [done|]. destruct s; [done|]. simpl. by rewrite IH1, IH2. Qed.

Lemma IstanbulExtra_decode i :
  extra_wf i -> IstanbulExtra_UnmarshalRLPFrom (norm (IstanbulExtra_MarshalRLPWith i)) = Some i.
Proof.
  intros [Hv Hc]. unfold IstanbulExtra_UnmarshalRLPFrom, IstanbulExtra_MarshalRLPWith.
  set (c := match i_CommittedSeal i with [] => _ | _ :: _ => _ end).
  assert (Hc' : exists e, c = [e] /\ GetElems (norm e) = Some (map norm (map NewBytes (i_CommittedSeal i)))).
  { unfold c. destruct (filter_nonempty _ Hc) as [E1 E2]. destruct (i_CommittedSeal i) as [|s l].
    - exists NewNullArray. split; [done|]. by rewrite norm_NewNullArray, GetElems_NewArray.
    - rewrite E1, E2. eexists. split; [done|]. by rewrite norm_NewArray, GetElems_NewArray. }
  destruct Hc' as (e & -> & Ee). rlp.
  rewrite (mapM_decode NewBytes _ id).
  - simpl. rewrite map_id.
    assert (Hs : GetBytes (norm (match i_Seal i with [] => NewNull | _ :: _ => NewBytes (i_Seal i) end)) =
      Some (i_Seal i)) by (destruct (i_Seal i); rewrite ?norm_NewNull, ?norm_NewBytes; apply GetBytes_NewBytes).
    destruct (i_Seal i) eqn:Ei; rewrite Hs; simpl; rewrite Ee; simpl;
      (rewrite (mapM_decode NewBytes _ id); [simpl; rewrite map_id; destruct i; simpl in Ei; by subst|]);
      (apply Forall_true; intros x; by rewrite norm_NewBytes, GetBytes_NewBytes).
  - eapply Forall_impl; [|exact Hv]. intros x Hx. by rewrite norm_NewBytes, GetAddr_NewBytes.
Qed.

(** An empty committed seal makes the third element a string. *)
Lemma IstanbulExtra_decode_empty i :
  [] ∈ i_CommittedSeal i -> IstanbulExtra_UnmarshalRLPFrom (norm (IstanbulExtra_MarshalRLPWith i)) = None.
Proof.
  intros Hi. unfold IstanbulExtra_UnmarshalRLPFrom, IstanbulExtra_MarshalRLPWith.
  set (c := match i_CommittedSeal i with [] => _ | _ :: _ => _ end).
  assert (Hc : exists l, c = NewNull :: l).
  { unfold c. destruct (i_CommittedSeal i) as [|s seals] eqn:E; [by apply elem_of_nil in Hi|].
    assert (Hf : List.filter isEmpty (s :: seals) <> []).
    { intros Hf. apply list_elem_of_In in Hi.
      assert (In [] (List.filter isEmpty (s :: seals))) by (apply List.filter_In; by split). by rewrite Hf in *. }
    destruct (List.filter isEmpty (s :: seals)) as [|x l]; [done|]. by eexists. }
  destruct Hc as [l ->]. rlp. destruct (mapM GetAddr _); simpl; [|done].
  destruct (GetBytes _); simpl; [|done]. by rewrite GetElems_NewBytes.
Qed.

Lemma GetIbftExtra_marshal h vanity i :
  length vanity = IstanbulExtraVanity -> h_ExtraData h = vanity ++ MarshalTo (IstanbulExtra_MarshalRLPWith i) ->
  GetIbftExtra h = IstanbulExtra_UnmarshalRLPFrom (norm (IstanbulExtra_MarshalRLPWith i)).
Proof.
  intros Hl Eh. unfold GetIbftExtra, UnmarshalRlp. rewrite Eh, length_app, Hl.
  destruct (Nat.ltb_spec (IstanbulExtraVanity + length (MarshalTo (IstanbulExtra_MarshalRLPWith i)))
    IstanbulExtraVanity); [lia|].
  rewrite <- Hl, drop_app_length, Parse_MarshalTo. done.
Qed.

(** The fields of a header that are hashed, the extra data apart. *)
Definition hashed (h : Header) :=
  (h_ParentHash h, h_Sha3Uncles h, h_Miner h, h_StateRoot h, h_TxRoot h, h_ReceiptsRoot h, h_LogsBloom h,
   (h_Difficulty h, h_Number h, h_GasLimit h, h_GasUsed h, h_Timestamp h)).

Lemma CalculateHeaderHash_seals h h' vanity i i' :
  length vanity = IstanbulExtraVanity -> extra_wf i -> extra_wf i' -> i_Validators i = i_Validators i' ->
  h_ExtraData h = vanity ++ MarshalTo (IstanbulExtra_MarshalRLPWith i) ->
  h_ExtraData h' = vanity ++ MarshalTo (IstanbulExtra_MarshalRLPWith i') ->
  hashed h = hashed h' -> CalculateHeaderHash h = CalculateHeaderHash h'.
Proof.
  intros Hl Hi Hi' Hv E E' Hh. unfold CalculateHeaderHash, Header_Copy.
  rewrite (GetIbftExtra_marshal h vanity i), (GetIbftExtra_marshal h' vanity i') by done.
  rewrite !IstanbulExtra_decode by done. cbn [mbind option_bind]. rewrite Hv.
  unfold PutIbftExtraValidators. rewrite E, E', !length_app, Hl.
  rewrite !(proj2 (Nat.ltb_ge _ _)) by lia. rewrite <- Hl, !take_app_length.
  unfold hashed in Hh. injection Hh as E1 E2 E3 E4 E5 E6 E7 E8 E9 E10 E11 E12.
  unfold set_ExtraData. cbn. by rewrite E1, E2, E3, E4, E5, E6, E7, E8, E9, E10, E11, E12.
Qed.
End roundtrip.

(** ** Validators *)

Lemma indexFrom_spec i v a :
  0 <= i ->
  (indexFrom i v a = -1 /\ a ∉ v) \/ (i <= indexFrom i v a < i + zlen v /\ v !! Z.to_nat (indexFrom i v a - i) = Some a).
Proof.
  revert i. induction v as [|x v IH]; intros i Hi; simpl.
  - left. split; [done|]. apply not_elem_of_nil.
  - unfold addr_eqb. case_bool_decide as E.
    + subst. right. unfold zlen. simpl. rewrite Z.sub_diag. split; [lia|done].
    + destruct (IH (i + 1) ltac:(lia)) as [[E1 E2]|[E1 E2]].
      * left. split; [done|]. by apply not_elem_of_cons.
      * right. unfold zlen in *. simpl length. split; [lia|].
        replace (Z.to_nat (indexFrom (i + 1) v a - i)) with (S (Z.to_nat (indexFrom (i + 1) v a - (i + 1)))) by lia.
        done.
Qed.

Lemma Validators_Index_range v a : -1 <= Validators_Index v a < Z.max 1 (zlen v).
Proof.
  unfold Validators_Index. destruct (indexFrom_spec 0 v a ltac:(lia)) as [[-> _]|[H _]]; unfold zlen in *; lia.
Qed.

(** Every remainder is reached within [n] consecutive numbers. *)
Lemma mod_reaches s n j : 0 < n -> 0 <= j < n -> exists k, 0 <= k < n /\ (s + k) mod n = j.
Proof.
  intros Hn Hj. exists ((j - s) mod n). split; [by apply Z.mod_pos_bound|].
  rewrite Z.add_mod_idemp_r by lia. replace (s + (j - s)) with j by lia. by apply Z.mod_small.
Qed.

(** Removing an element the rest of the array does not have. *)
Lemma delLoop_absent n indx B m a :
  (forall k x, (indx <= k < indx + n)%nat -> B !! k = Some x -> x <> a) -> (indx + n <= length B)%nat ->
  delLoop n indx B m a = Ok (B, m).
Proof.
  revert indx. induction n as [|n IH]; intros indx H Hl; [done|]. simpl.
  destruct (lookup_lt_is_Some_2 B indx ltac:(lia)) as [x E]. rewrite E.
  unfold addr_eqb. rewrite bool_decide_false by (apply (H indx x); [lia|done]).
  apply IH; [|lia]. intros k y Hk. apply H. lia.
Qed.

Lemma filter_absent (a : Address) v : a ∉ v -> List.filter (fun x => negb (addr_eqb x a)) v = v.
Proof.
  induction v as [|x v IH]; intros H; [done|]. apply not_elem_of_cons in H as [H1 H2]. simpl.
  unfold addr_eqb at 1. rewrite bool_decide_false by congruence. simpl. by rewrite IH.
Qed.

Lemma delLoop_spec pre v a :
  a ∉ pre -> NoDup v ->
  exists B m, delLoop (length v) (length pre) (pre ++ v) (length (pre ++ v)) a = Ok (B, m) /\
    take m B = pre ++ List.filter (fun x => negb (addr_eqb x a)) v.
Proof.
  revert pre. induction v as [|x v IH]; intros pre Hp Hn.
  { simpl. do 2 eexists. split; [done|]. by rewrite firstn_all. }
  inversion Hn as [|? ? Hx Hn']; subst. simpl. rewrite list_lookup_middle by done.
  destruct (addr_eqb x a) eqn:E; [apply bool_decide_eq_true in E|apply bool_decide_eq_false in E].
  - subst x. simpl. rewrite !length_app. simpl length.
    destruct (Nat.ltb_spec (length pre + S (length v)) (length pre + 1)); [lia|].
    replace (length pre + S (length v) - 1)%nat with (length pre + length v)%nat by lia.
    replace (Z.of_nat (length pre + S (length v) - (length pre + 1))) with (Z.of_nat (length v)) by lia.
    set (B := take _ _ ++ _). assert (EB : B = pre ++ v ++ drop (length v) (a :: v)).
    { unfold B, sub_list. rewrite take_app_length, !Nat2Z.id, <- !(drop_drop (pre ++ a :: v)), !drop_app_length.
      simpl. by rewrite firstn_all. }
    rewrite EB. rewrite delLoop_absent.
    + do 2 eexists. split; [done|]. rewrite app_assoc, <- length_app, take_app_length.
      by rewrite filter_absent.
    + assert (Hd : a ∉ drop 1 (v ++ drop (length v) (a :: v))).
      { intros Ha. apply list_elem_of_lookup in Ha as [k Hk]. rewrite lookup_drop in Hk.
        apply lookup_app_Some in Hk as [Hk|[Hl Hk]]; [apply Hx; by eapply list_elem_of_lookup_2|].
        rewrite lookup_drop in Hk. replace (length v + (1 + k - length v))%nat with (S k) in Hk by lia.
        apply Hx. by eapply (list_elem_of_lookup_2 v k). }
      intros k y Hk Hy ->. apply Hd. rewrite lookup_app_r in Hy by lia.
      apply (list_elem_of_lookup_2 _ (k - length pre - 1)). rewrite lookup_drop.
      replace (1 + (k - length pre - 1))%nat with (k - length pre)%nat by lia. done.
    + rewrite !length_app, length_drop. simpl. lia.
  - replace (S (length pre)) with (length (pre ++ [x])) by (rewrite length_app; simpl; lia).
    assert (Ea : pre ++ x :: v = (pre ++ [x]) ++ v) by by rewrite <- app_assoc. rewrite Ea. simpl negb.
    destruct (IH (pre ++ [x])) as (B & m & E1 & E2); [|exact Hn'|].
    + rewrite elem_of_app, list_elem_of_singleton. naive_solver.
    + exists B, m. split; [done|]. rewrite E2, <- app_assoc. simpl. done.
Qed.

(** [Del] removes the address from a set without repetitions. *)
Lemma Validators_Del_spec v a :
  NoDup v -> Validators_Del v a = Ok (List.filter (fun x => negb (addr_eqb x a)) v).
Proof.
  intros Hn. unfold Validators_Del. destruct (delLoop_spec [] v a (not_elem_of_nil _) Hn) as (B & m & E1 & E2).
  simpl in E1, E2. by rewrite E1, E2.
Qed.

(** * Properties *)

(** C23: a well-formed block survives its encoding: what is decoded has the header with
    its hash computed from its fields, the transactions without their senders, and
    the uncles. *)
Theorem Block_roundtrip `{KK : !Keccak, RL : !FastRlp} (b : Block) :
  block_wf b ->
  Block_UnmarshalRLP (Block_MarshalRLP b) =
    Some (mkBlock (ComputeHash (b_Header b)) (map (set_From ZeroAddress) (b_Transactions b))
            (map ComputeHash (b_Uncles b))).
Proof.
  intros Hb. unfold Block_UnmarshalRLP, UnmarshalRlp, Block_MarshalRLP. rewrite Parse_MarshalTo.
  by apply Block_decode.
Qed.

(** A receipt with its context survives the encoding it is stored in. *)
Theorem Receipt_store_roundtrip `{KK : !Keccak, RL : !FastRlp} (r : Receipt) :
  receipt_wf r ->
  UnmarshalRlp Receipt_UnmarshalStoreRLPFrom (MarshalTo (Receipt_MarshalStoreRLPWith r)) = Some r.
Proof. intros Hr. unfold UnmarshalRlp. rewrite Parse_MarshalTo. by apply Receipt_store_decode. Qed.

(** What the types of the fields promise. *)
Definition header_sized (h : Header) : Prop :=
  Forall (fun x => length x = HashLength)
    [h_ParentHash h; h_Sha3Uncles h; h_StateRoot h; h_TxRoot h; h_ReceiptsRoot h; h_MixHash h; h_Hash h] /\
  length (h_Miner h) = AddressLength /\ zlen (h_LogsBloom h) = 256 /\ length (h_Nonce h) = 8%nat /\
  Forall is_u64 [h_Difficulty h; h_Number h; h_GasLimit h; h_GasUsed h; h_Timestamp h].

Lemma Header_decoded_sized `{KK : !Keccak, RL : !FastRlp} v h :
  Header_UnmarshalRLPFrom v = Some h -> header_sized h /\ h_Hash h = HeaderHash h.
Proof.
  unfold Header_UnmarshalRLPFrom. destruct (GetElems v) as [l|]; [|done]. cbn [mbind option_bind].
  do 15 (destruct l as [|? l]; [done|]). intros H.
  repeat match type of H with
  | (?o ≫= _) = Some _ => let E := fresh "E" in destruct o eqn:E; [cbn [mbind option_bind] in H|done]
  end.
  injection H as <-. split; [|reflexivity].
  split; [|split; [|split; [|split]]].
  - repeat constructor; simpl; eauto using GetHash_length. apply length_BytesToHash.
  - simpl. eauto using GetAddr_length.
  - simpl. eauto using GetBytesOf_length.
  - exact (length_be_bytes 8 _).
  - simpl. repeat (constructor; [eapply GetUint64_range; eassumption|]). constructor.
Qed.

Lemma mapM_all {A B} (f : A -> option B) (P : B -> Prop) l k :
  (forall x y, f x = Some y -> P y) -> mapM f l = Some k -> Forall P k.
Proof. intros H E. apply mapM_Some in E. induction E; constructor; eauto. Qed.

(** C24: every block that decodes has fields of the widths of their types, in its
    header and in its uncles, and the hash each header carries is the one of its
    fields. *)
Theorem Block_decoded_sized `{KK : !Keccak, RL : !FastRlp} (input : bytes) (b : Block) :
  Block_UnmarshalRLP input = Some b ->
  Forall (fun h => header_sized h /\ h_Hash h = HeaderHash h) (b_Header b :: b_Uncles b).
Proof.
  unfold Block_UnmarshalRLP, UnmarshalRlp, Block_UnmarshalRLPFrom. intros H.
  destruct (Parse input) as [v|]; [|done]. cbn [mbind option_bind] in H.
  destruct (GetElems v) as [l|]; [|done]. cbn [mbind option_bind] in H.
  do 3 (destruct l as [|? l]; [done|]).
  repeat match type of H with
  | (?o ≫= _) = Some _ => let E := fresh "E" in destruct o eqn:E; [cbn [mbind option_bind] in H|done]
  end.
  injection H as <-. simpl. constructor; [by eapply Header_decoded_sized|].
  eapply mapM_all; [apply Header_decoded_sized|eassumption].
Qed.

Lemma indexFrom_found v a : forall i k,
  v !! i = Some a -> a ∉ take i v -> indexFrom k v a = k + Z.of_nat i.
Proof.
  induction v as [|x v IH]; intros i k Hi Hf; [done|]. simpl. unfold addr_eqb. destruct i as [|i]; simpl in *.
  - injection Hi as ->. rewrite bool_decide_true by done. lia.
  - apply not_elem_of_cons in Hf as [Hne Hf]. rewrite bool_decide_false by congruence. rewrite (IH i) by done. lia.
Qed.

(** Where the turns of the set start. *)
Definition turn (v : Validators) (lastProposer : Address) : Z :=
  if addr_eqb lastProposer ZeroAddress then 0
  else (if negb (Validators_Index v lastProposer =? -1) then Validators_Index v lastProposer else 0) + 1.

Lemma CalcProposer_turn v round lastProposer :
  v <> [] -> 0 <= round -> round + zlen v + 1 < two64 ->
  CalcProposer v round lastProposer = v !! Z.to_nat ((turn v lastProposer + round) mod zlen v).
Proof.
  intros Hv Hr Hb. assert (Hn : 0 < zlen v) by (destruct v; [done|unfold zlen; simpl; lia]).
  pose proof (Validators_Index_range v lastProposer) as Hi. unfold CalcProposer, turn, Validators_Len.
  destruct (Z.eqb_spec (zlen v) 0); [lia|]. do 3 f_equal. destruct (addr_eqb _ _); [lia|]. set (o := if negb _ then _ else _).
  assert (0 <= o <= zlen v) by (unfold o; destruct (Z.eqb_spec (Validators_Index v lastProposer) (-1)); simpl; lia).
  rewrite (u64_small (o + round)), u64_small; unfold is_u64; lia.
Qed.

(** C33: proposers take turns. At the start of a chain the proposer of round [r] is the
    member at [r] modulo the size of the set; after a proposer at index [i] it is the one
    at [i + 1 + r], the next one in round 0; after a proposer that is not in the set it is
    the one at [1 + r]. So each member is the proposer of one of any as many consecutive
    rounds as the set has members, whoever proposed last. *)
Theorem CalcProposer_fair (v : Validators) (round : Z) (lastProposer : Address) :
  v <> [] -> 0 <= round -> round + 2 * zlen v + 1 < two64 ->
  (lastProposer = ZeroAddress -> CalcProposer v round lastProposer = v !! Z.to_nat (round mod zlen v)) /\
  (forall i, lastProposer <> ZeroAddress -> v !! i = Some lastProposer -> lastProposer ∉ take i v ->
     CalcProposer v round lastProposer = v !! Z.to_nat ((Z.of_nat i + 1 + round) mod zlen v)) /\
  (lastProposer <> ZeroAddress -> lastProposer ∉ v ->
     CalcProposer v round lastProposer = v !! Z.to_nat ((1 + round) mod zlen v)) /\
  (forall a, a ∈ v -> exists k, 0 <= k < zlen v /\ CalcProposer v (round + k) lastProposer = Some a).
Proof.
  intros Hv Hr Hb. assert (Hn : 0 < zlen v) by (destruct v; [done|unfold zlen; simpl; lia]).
  split; [|split; [|split]].
  - intros ->. by rewrite CalcProposer_turn by (done || lia).
  - intros i Hne Hi Hf. rewrite CalcProposer_turn by (done || lia). unfold turn, addr_eqb. rewrite bool_decide_false by done.
    unfold Validators_Index. rewrite (indexFrom_found v _ i 0) by done.
    destruct (Z.eqb_spec (0 + Z.of_nat i) (-1)); [lia|]. simpl negb. cbv iota. by rewrite Z.add_0_l.
  - intros Hne Hf. rewrite CalcProposer_turn by (done || lia). unfold turn, addr_eqb. rewrite bool_decide_false by done.
    unfold Validators_Index. destruct (indexFrom_spec 0 v lastProposer ltac:(lia)) as [[-> _]|[H1 H2]]; [done|].
    by apply list_elem_of_lookup_2 in H2.
  - intros a Ha. apply list_elem_of_lookup in Ha as [j Hj]. apply lookup_lt_Some in Hj as Hj'.
    destruct (mod_reaches (turn v lastProposer + round) (zlen v) (Z.of_nat j)) as (k & Hk & E); [unfold zlen in *; lia..|].
    exists k. split; [done|]. rewrite CalcProposer_turn by (done || lia). by rewrite Z.add_assoc, E, Nat2Z.id.
Qed.

(** ** Concrete values *)

Import (hints) Demo.

Definition demo_header : Header :=
  mkHeader ZeroHash ZeroHash ZeroAddress ZeroHash ZeroHash ZeroHash (replicate 256 0) 3 3 1000000 0 77
    (replicate 32 0) ZeroHash (replicate 8 1) ZeroHash.

Lemma zero_hash : is_hash ZeroHash.
Proof. split; [reflexivity|]. by apply Forall_replicate. Qed.
Lemma zero_address : is_address ZeroAddress.
Proof. split; [reflexivity|]. by apply Forall_replicate. Qed.

Lemma demo_header_wf : header_wf demo_header.
Proof.
  split; try apply zero_hash; try apply zero_address; try (by split); try reflexivity.
  split; [reflexivity|]. by apply Forall_replicate.
Qed.

Lemma Block_roundtrip_witness :
  Block_UnmarshalRLP (Block_MarshalRLP (mkBlock demo_header [demo_tx] [demo_header])) =
    Some (mkBlock (ComputeHash demo_header) [set_From ZeroAddress demo_tx] [ComputeHash demo_header]).
Proof.
  apply (Block_roundtrip (mkBlock demo_header [demo_tx] [demo_header])).
  split; [apply demo_header_wf|]. split.
  - constructor; [apply demo_tx_wf|constructor].
  - constructor; [apply demo_header_wf|constructor].
Defined.

Definition demo_stored : Receipt :=
  mkReceipt ZeroHash 100 (replicate 256 0) [mkLog ZeroAddress [ZeroHash] [1]] (Some ReceiptSuccess) 100
    (Some ZeroAddress) ZeroHash.

Lemma Receipt_store_roundtrip_witness :
  UnmarshalRlp Receipt_UnmarshalStoreRLPFrom (MarshalTo (Receipt_MarshalStoreRLPWith demo_stored)) = Some demo_stored.
Proof.
  apply (Receipt_store_roundtrip demo_stored). split; try apply zero_hash; try (by split); try reflexivity.
  - intros s [= <-]. split; [by right|reflexivity].
  - constructor; [|done]. split; [apply zero_address|]. constructor; [apply zero_hash|done].
  - intros a [= <-]. apply zero_address.
Defined.

Lemma Block_decoded_sized_witness :
  Forall (fun h => header_sized h /\ h_Hash h = HeaderHash h) [ComputeHash demo_header].
Proof.
  apply (Block_decoded_sized (Block_MarshalRLP (mkBlock demo_header [] []))
           (mkBlock (ComputeHash demo_header) [] [])).
  vm_compute. reflexivity.
Defined.

Lemma CalcProposer_fair_witness :
  CalcProposer [[1]; [2]; [3]] 0 [2] = Some [3] /\
  exists k, 0 <= k < 3 /\ CalcProposer [[1]; [2]; [3]] (0 + k) [2] = Some [1].
Proof.
  destruct (CalcProposer_fair [[1]; [2]; [3]] 0 [2]) as (_ & H & _ & Hf); [discriminate|lia|reflexivity|]. split.
  - rewrite (H 1%nat); [reflexivity|discriminate|reflexivity|]. by intros [?|[]%elem_of_nil]%elem_of_cons.
  - apply Hf. left.
Defined.
