(* ===== verification/PriorityQueue.v ===== *)
(** The queue of announced blocks (protocol/pq.go): a heap ordered by block number, with
    a set of the numbers it holds and a list of the readers waiting for a block. *)

From Stdlib Require Import Sorting.Sorted.
From S2P Require Import Prelude Heap Types BlockTypes.

(** [waiters]: how many blocks each blocked [Get] asked for, oldest first. [pq_locked]
    says that [lock] is held by a call that has returned. *)
Record PriorityQueue := mkPriorityQueue {
  pq_waiters : list nat;
  pq_items : list Block;
  pq_itemMap : gset Z;
  pq_locked : bool;
  pq_disposed : bool;
  pq_allowDuplicates : bool;
}.

Definition NewPriorityQueue (allowDuplicates : bool) : PriorityQueue :=
  mkPriorityQueue [] [] ∅ false false allowDuplicates.

(** ** The heap *)

Definition block_less (a b : Block) : bool := Block_Compare a b <? 0.
Definition pq_pop : list Block -> option (Block * list Block) := heap_pop_truncated block_less.
Definition pq_push (item : Block) (items : list Block) : list Block := heap_Push block_less item items.

Fixpoint pq_get (number : nat) (items : list Block) : list Block * list Block :=
  match number with
  | O => ([], items)
  | S number =>
      match pq_pop items with
      | None => ([], items)
      | Some (b, items) => let '(got, items) := pq_get number items in (b :: got, items)
      end
  end.

(** ** Operations

    [None] stands for a call that waits for the lock for ever. *)

Definition with_lock {A} (q : PriorityQueue) (a : A) : option A := if pq_locked q then None else Some a.

Inductive pq_error := ErrDisposed.

Definition deleteItems (items : list Block) (m : gset Z) : gset Z :=
  fold_left (fun m b => m ∖ {[Block_Number b]}) items m.

(** The body of the first loop of [Put]. *)
Definition putItem (allowDuplicates : bool) (s : list Block * gset Z) (item : Block) : list Block * gset Z :=
  let '(items, m) := s in
  if allowDuplicates then (pq_push item items, m)
  else if decide (Block_Number item ∈ m) then (items, m)
  else (pq_push item items, {[Block_Number item]} ∪ m).

(** The second loop of [Put]: the readers are served in turn until the heap is empty;
    each runs the rest of its [Get] while [Put] waits for it. *)
Fixpoint serve (allowDuplicates : bool) (ws : list nat) (items : list Block) (m : gset Z)
    : list (list Block) * (list nat * list Block * gset Z) :=
  match ws with
  | [] => ([], ([], items, m))
  | number :: ws =>
      let '(got, items) := pq_get number items in
      let m := if allowDuplicates then m else deleteItems got m in
      match items with
      | [] => ([got], (ws, items, m))
      | _ => let '(out, s) := serve allowDuplicates ws items m in (got :: out, s)
      end
  end.

(** The blocks handed to waiting readers, in the order of the readers. *)
Definition Put (new : list Block) (q : PriorityQueue) : option ((pq_error + list (list Block)) * PriorityQueue) :=
  match new with
  | [] => Some (inr [], q)
  | _ =>
      with_lock q
        (if pq_disposed q then (inl ErrDisposed, q)
         else
           let dup := pq_allowDuplicates q in
           let '(items, m) := fold_left (putItem dup) new (pq_items q, pq_itemMap q) in
           let '(out, (ws, items, m)) := serve dup (pq_waiters q) items m in
           (inr out, mkPriorityQueue ws items m false false dup))
  end.

Inductive get_result := Got (items : list Block) | Waits | GetErr (e : pq_error).

Definition Get (number : nat) (q : PriorityQueue) : option (get_result * PriorityQueue) :=
  if (number <? 1)%nat then Some (Got [], q)
  else
    with_lock q
      (if pq_disposed q then (GetErr ErrDisposed, q)
       else
         match pq_items q with
         | [] => (Waits, mkPriorityQueue (pq_waiters q ++ [number]) [] (pq_itemMap q) false false (pq_allowDuplicates q))
         | items =>
             let '(got, items) := pq_get number items in
             (Got got, mkPriorityQueue (pq_waiters q) items (deleteItems got (pq_itemMap q)) false false (pq_allowDuplicates q))
         end).

Definition Peek (q : PriorityQueue) : option (option Block) := with_lock q (head (pq_items q)).
Definition Empty (q : PriorityQueue) : option bool :=
  with_lock q (match pq_items q with [] => true | _ => false end).
Definition Len (q : PriorityQueue) : option nat := with_lock q (length (pq_items q)).

(** [Latest] reads one past the end, and returns without unlocking when the queue is
    empty. *)
Definition Latest (q : PriorityQueue) : option (result Z * PriorityQueue) :=
  let locked := mkPriorityQueue (pq_waiters q) (pq_items q) (pq_itemMap q) true (pq_disposed q) (pq_allowDuplicates q) in
  with_lock q
    (match pq_items q with
     | [] => (Ok 0, locked)
     | items =>
         match items !! length items with
         | None => (Panic, locked)
         | Some b => (Ok (Block_Number b), q)
         end
     end).

Definition Disposed (q : PriorityQueue) : bool := pq_disposed q.

(** The waiting readers return [ErrDisposed]. *)
Definition Dispose (q : PriorityQueue) : option PriorityQueue :=
  with_lock q (mkPriorityQueue [] [] (pq_itemMap q) false true (pq_allowDuplicates q)).

(** ** The order of the heap *)

Lemma block_less_spec a b : block_less a b = true <-> Block_Number a < Block_Number b.
Proof.
  unfold block_less, Block_Compare, Block_Number. destruct (h_Number (b_Header b) <? h_Number (b_Header a)) eqn:E1; simpl.
  { apply Z.ltb_lt in E1. split; [done|lia]. }
  apply Z.ltb_ge in E1. destruct (h_Number (b_Header b) =? h_Number (b_Header a)) eqn:E2; simpl.
  - apply Z.eqb_eq in E2. split; [done|lia].
  - apply Z.eqb_neq in E2. split; [lia|done].
Qed.

Lemma block_less_false a b : block_less a b = false <-> Block_Number b <= Block_Number a.
Proof. rewrite <- not_true_iff_false, block_less_spec. lia. Qed.

Lemma block_less_asym a b : block_less a b = true -> block_less b a = false.
Proof. rewrite block_less_spec, block_less_false. lia. Qed.

Lemma block_less_trans a b c : block_less b a = false -> block_less c b = false -> block_less c a = false.
Proof. rewrite !block_less_false. lia. Qed.

Definition block_heap (l : list Block) : Prop := is_heap block_less l (length l).

Lemma pq_push_heap b l : block_heap l -> block_heap (pq_push b l).
Proof. apply heap_Push_heap; [exact block_less_asym|exact block_less_trans]. Qed.

Lemma pq_push_perm b l : pq_push b l ≡ₚ b :: l.
Proof. apply heap_Push_perm. Qed.

Lemma pq_pop_spec l b l' :
  block_heap l -> pq_pop l = Some (b, l') ->
  l ≡ₚ b :: l' /\ block_heap l' /\ Forall (fun c => Block_Number b <= Block_Number c) l'.
Proof.
  unfold pq_pop. rewrite heap_pop_truncated_Pop by exact block_less_asym. intros Hh Hp.
  split; [by eapply heap_Pop_perm; [exact block_less_asym|]|].
  destruct (heap_Pop_heap block_less block_less_asym block_less_trans l b l' Hh Hp) as [H1 H2]. split; [done|].
  eapply Forall_impl; [|exact H2]. intros c. by rewrite block_less_false.
Qed.

Lemma pq_pop_Some l : l <> [] -> is_Some (pq_pop l).
Proof. intros H. unfold pq_pop. rewrite heap_pop_truncated_Pop by exact block_less_asym. by apply heap_Pop_Some. Qed.

(** ** Taking blocks *)

Definition lowest (l rest : list Block) : Prop :=
  forall b c, b ∈ l -> c ∈ rest -> Block_Number b <= Block_Number c.

Abbreviation by_number := (fun b c => Block_Number b <= Block_Number c).

(** [get] takes the lowest blocks in ascending order. *)
Lemma pq_get_spec n : forall l got rest,
  block_heap l -> pq_get n l = (got, rest) ->
  l ≡ₚ got ++ rest /\ block_heap rest /\ length got = Nat.min n (length l) /\ lowest got rest /\ StronglySorted by_number got.
Proof.
  induction n as [|n IH]; intros l got rest Hh H; simpl in H.
  { injection H as <- <-. split; [done|]. split; [done|]. split; [done|]. split; [intros b c []%elem_of_nil|constructor]. }
  destruct (pq_pop l) as [[b l1]|] eqn:Ep.
  - destruct (pq_get n l1) as [got1 rest1] eqn:Eg. injection H as <- <-.
    destruct (pq_pop_spec l b l1 Hh Ep) as (Hp & Hh1 & Hmin). destruct (IH _ _ _ Hh1 Eg) as (Hp1 & Hh2 & Hl & Hlow & Hs).
    rewrite Forall_forall in Hmin. assert (Hin : forall c, c ∈ got1 \/ c ∈ rest1 -> Block_Number b <= Block_Number c).
    { intros c Hc. apply Hmin, list_elem_of_In. rewrite Hp1. by apply elem_of_app. }
    split; [by rewrite Hp, Hp1|]. split; [done|]. split; [rewrite Hp; simpl; lia|]. split.
    + intros x c [->|Hx]%elem_of_cons Hc; [apply Hin; by right|by apply Hlow].
    + constructor; [done|]. apply Forall_forall. intros c Hc%list_elem_of_In. apply Hin. by left.
  - destruct l as [|x l]; [|by destruct (pq_pop_Some (x :: l) ltac:(done)) as [? E]; rewrite Ep in E].
    injection H as <- <-. split; [done|]. split; [done|]. split; [done|]. split; [intros b c []%elem_of_nil|constructor].
Qed.

(** ** The invariant *)

Definition numbers (l : list Block) : list Z := map Block_Number l.

(** [itemMap] holds the numbers of the blocks of the heap, each once; readers wait only
    for an empty heap. The queue of the syncer does not allow duplicates. *)
Record pq_ok (q : PriorityQueue) : Prop := {
  ok_lock : pq_locked q = false;
  ok_duplicates : pq_allowDuplicates q = false;
  ok_heap : block_heap (pq_items q);
  ok_waiters : pq_waiters q <> [] -> pq_items q = [];
  ok_asked : Forall (fun n => (1 <= n)%nat) (pq_waiters q);
  ok_map : pq_disposed q = false -> forall n, n ∈ pq_itemMap q <-> n ∈ numbers (pq_items q);
  ok_once : NoDup (numbers (pq_items q));
}.

Lemma deleteItems_elem l : forall m n, n ∈ deleteItems l m <-> n ∈ m /\ n ∉ numbers l.
Proof.
  induction l as [|b l IH]; intros m n; simpl.
  - split; [intros H; split; [done|by intros []%elem_of_nil]|by intros [? _]].
  - unfold deleteItems in IH |- *. simpl. rewrite IH, not_elem_of_cons. set_solver.
Qed.

(** The blocks of a list whose number is new. *)
Fixpoint fresh (seen : list Z) (l : list Block) : list Block :=
  match l with
  | [] => []
  | b :: l => if decide (Block_Number b ∈ seen) then fresh seen l else b :: fresh (Block_Number b :: seen) l
  end.

Definition map_ok (s : list Block * gset Z) : Prop :=
  block_heap s.1 /\ (forall n, n ∈ s.2 <-> n ∈ numbers s.1) /\ NoDup (numbers s.1).

Lemma numbers_perm l l' : l ≡ₚ l' -> numbers l ≡ₚ numbers l'.
Proof. unfold numbers. by intros ->. Qed.

Lemma fresh_ext l : forall s s', (forall n, n ∈ s <-> n ∈ s') -> fresh s l = fresh s' l.
Proof.
  induction l as [|b l IH]; intros s s' H; [done|]. simpl.
  destruct (decide (Block_Number b ∈ s)) as [Hb|Hb].
  - rewrite decide_True by (by apply H). by apply IH.
  - rewrite decide_False by (by rewrite <- H). f_equal. apply IH. intros n. rewrite !elem_of_cons, H. done.
Qed.

Lemma putItems_spec new : forall s,
  map_ok s ->
  let s' := fold_left (putItem false) new s in map_ok s' /\ s'.1 ≡ₚ s.1 ++ fresh (numbers s.1) new.
Proof.
  induction new as [|b new IH]; intros [items m] (Hh & Hm & Hd); cbv zeta; [by rewrite app_nil_r|].
  cbn [fold_left putItem fresh fst snd] in *. destruct (decide (Block_Number b ∈ m)) as [Hb|Hb].
  - rewrite decide_True by (by apply Hm). by apply (IH (items, m)).
  - rewrite decide_False by (by rewrite <- Hm). pose proof (pq_push_perm b items) as Hp.
    pose proof (numbers_perm _ _ Hp) as Hn. destruct (IH (pq_push b items, {[Block_Number b]} ∪ m)) as [H1 H2].
    { split; [by apply pq_push_heap|]. cbn [fst snd]. split.
      - intros n. rewrite Hn. simpl. rewrite elem_of_cons, <- Hm. set_solver.
      - rewrite Hn. simpl. constructor; [|done]. by rewrite <- Hm. }
    split; [done|]. rewrite H2. cbn [fst].
    rewrite (fresh_ext new (numbers (pq_push b items)) (Block_Number b :: numbers items)) by (intros n; by rewrite Hn).
    rewrite Hp. simpl. by rewrite Permutation_middle.
Qed.

Lemma get_map_ok n items m got rest :
  map_ok (items, m) -> pq_get n items = (got, rest) -> map_ok (rest, deleteItems got m).
Proof.
  intros (Hh & Hm & Hd) E. cbn [fst snd] in *. destruct (pq_get_spec n items got rest Hh E) as (Hp & Hh' & _).
  apply numbers_perm in Hp. unfold numbers in Hp at 2. rewrite map_app in Hp. fold (numbers got) (numbers rest) in Hp.
  rewrite Hp in Hd. apply list.NoDup_app in Hd as (_ & Hdis & Hd). split; [done|]. cbn [fst snd]. split; [|done].
  intros k. rewrite deleteItems_elem, Hm, Hp, elem_of_app. split; [by intros [[?|?] ?]|]. intros H. split; [by right|].
  intros H'. by apply (Hdis k).
Qed.

(** Sorted and without equal numbers is strictly ascending. *)
Lemma strictly_sorted l : StronglySorted by_number l -> NoDup (numbers l) -> StronglySorted Z.lt (numbers l).
Proof.
  induction 1 as [|b l Hs IH Hall]; intros Hd; simpl in *; constructor; apply list.NoDup_cons in Hd as [Hn Hd]; [by apply IH|].
  apply Forall_forall. intros n Hin%list_elem_of_In. rewrite Forall_forall in Hall. unfold numbers in Hin, Hn.
  apply list_elem_of_fmap in Hin as (c & -> & Hc). specialize (Hall c (proj1 (list_elem_of_In _ _) Hc)).
  destruct (decide (Block_Number b = Block_Number c)) as [E|]; [|lia]. destruct Hn. rewrite E.
  apply list_elem_of_fmap. by exists c.
Qed.

Lemma StronglySorted_app_lowest l1 l2 :
  StronglySorted by_number l1 -> StronglySorted by_number l2 -> lowest l1 l2 -> StronglySorted by_number (l1 ++ l2).
Proof.
  intros H1 H2. induction H1 as [|b l1 Hs IH Hall]; intros Hl; [done|]. simpl. constructor.
  - apply IH. intros x c Hx Hc. apply Hl; [by apply elem_of_cons; right|done].
  - apply Forall_app. split; [done|]. apply Forall_forall. intros c Hc%list_elem_of_In. apply Hl; [by apply elem_of_cons; left|done].
Qed.

(** What [Put] hands out: blocks in ascending order, something to every reader served,
    and nothing stays in the heap below what was handed out. *)
Record served (ws : list nat) (items : list Block) (out : list (list Block)) (ws' : list nat) (items' : list Block) : Prop := {
  sv_perm : items ≡ₚ concat out ++ items';
  sv_some : Forall (fun l => l <> []) out;
  sv_sorted : StronglySorted by_number (concat out);
  sv_lowest : lowest (concat out) items';
  sv_waiters : ws' = drop (length out) ws;
  sv_enough : Forall2 (fun l n => (length l <= n)%nat) out (take (length out) ws);
  sv_empty : ws' <> [] -> items' = [];
}.

Lemma serve_spec ws : forall items m out ws' items' m',
  map_ok (items, m) -> items <> [] -> Forall (fun n => (1 <= n)%nat) ws ->
  serve false ws items m = (out, (ws', items', m')) -> map_ok (items', m') /\ served ws items out ws' items'.
Proof.
  induction ws as [|n ws IH]; intros items m out ws' items' m' Hm Hne Hw H; simpl in H.
  { injection H as <- <- <- <-. split; [done|]. split; simpl; try done; try apply SSorted_nil; try constructor. intros b c []%elem_of_nil. }
  apply Forall_cons_iff in Hw as [Hn Hw]. destruct (pq_get n items) as [got rest] eqn:Eg.
  destruct (pq_get_spec n items got rest (proj1 Hm) Eg) as (Hp & Hh & Hl & Hlow & Hs).
  pose proof (get_map_ok _ _ _ _ _ Hm Eg) as Hm1.
  assert (Hgot : got <> []) by (intros ->; destruct items; [done|]; simpl in Hl; lia).
  destruct rest as [|x rest].
  { injection H as <- <- <- <-. split; [done|]. rewrite app_nil_r in Hp. split; simpl; rewrite ?app_nil_r; [done|by repeat constructor|done| |done| |done].
    - intros b c _ []%elem_of_nil.
    - constructor; [lia|constructor]. }
  destruct (serve false ws (x :: rest) (deleteItems got m)) as [out1 [[ws1 items1] m1]] eqn:Es.
  injection H as <- <- <- <-. destruct (IH _ _ _ _ _ _ Hm1 ltac:(done) Hw Es) as [Hm2 [P1 P2 P3 P4 P5 P6 P7]].
  split; [done|]. assert (Hlow' : lowest got (concat out1) /\ lowest got items1).
  { split; intros b c Hb Hc; apply Hlow; try done; rewrite P1; apply elem_of_app; auto. }
  destruct Hlow' as [L1 L2]. split; simpl; try done.
  - by rewrite Hp, P1, app_assoc.
  - by constructor.
  - by apply StronglySorted_app_lowest.
  - intros b c [Hb|Hb]%elem_of_app Hc; [by apply L2|by apply P4].
  - constructor; [lia|done].
Qed.

(** ** Every use of the queue *)

Lemma Put_run new q :
  pq_ok q -> pq_disposed q = false -> new <> [] ->
  exists out q', Put new q = Some (inr out, q') /\ pq_ok q' /\ pq_disposed q' = false /\
    served (pq_waiters q) (pq_items q ++ fresh (numbers (pq_items q)) new) out (pq_waiters q') (pq_items q').
Proof.
  intros [Hl Hd Hh Hw Ha Hm Ho] Hdis Hne. unfold Put, with_lock. destruct new as [|b0 new0] eqn:En; [done|].
  rewrite <- En in *. rewrite Hl, Hdis, Hd.
  destruct (putItems_spec new (pq_items q, pq_itemMap q)) as [Hm1 Hp1]; [by split; [|split; [apply Hm|]]|].
  destruct (fold_left (putItem false) new (pq_items q, pq_itemMap q)) as [items m] eqn:Ef. cbn [fst] in Hp1.
  destruct (serve false (pq_waiters q) items m) as [out [[ws items'] m']] eqn:Es.
  assert (Hne' : items <> []).
  { intros ->. symmetry in Hp1. apply Permutation_nil_r in Hp1 as Hnil. apply app_eq_nil in Hnil as [E1 E2].
    rewrite E1 in E2. by rewrite En in E2. }
  destruct (serve_spec _ _ _ _ _ _ _ Hm1 Hne' Ha Es) as [(Hh2 & Hm2 & Hd2) Hs]. pose proof Hs as [_ _ _ _ P5 _ P7].
  eexists out, _. split; [done|]. split; [|split; [done|]].
  - split; cbn [pq_locked pq_allowDuplicates pq_items pq_waiters pq_disposed pq_itemMap]; try done.
    rewrite P5. by apply Forall_drop.
  - destruct Hs as [Q1 Q2 Q3 Q4 Q5 Q6 Q7]. by split; [rewrite <- Hp1|..].
Qed.

Lemma Get_run n q :
  pq_ok q -> pq_disposed q = false -> (1 <= n)%nat -> pq_items q <> [] ->
  exists got q', Get n q = Some (Got got, q') /\ (pq_ok q' /\ pq_waiters q' = pq_waiters q /\ pq_disposed q' = false) /\
    pq_items q ≡ₚ got ++ pq_items q' /\ length got = Nat.min n (length (pq_items q)) /\ lowest got (pq_items q') /\ StronglySorted Z.lt (numbers got).
Proof.
  intros [Hl Hd Hh Hw Ha Hm Ho] Hdis Hn Hne. unfold Get, with_lock. destruct (Nat.ltb_spec n 1); [lia|]. rewrite Hl, Hdis.
  destruct (pq_items q) as [|b0 l0] eqn:En; [done|]. rewrite <- En in *. destruct (pq_get n (pq_items q)) as [got rest] eqn:Eg.
  destruct (pq_get_spec n _ got rest Hh Eg) as (Hp & Hh' & Hlen & Hlow & Hs).
  destruct (get_map_ok n _ (pq_itemMap q) got rest ltac:(by split; [|split; [apply Hm|]]) Eg) as (_ & Hm1 & Hd1).
  eexists got, _. split; [done|]. split; [split; [|done]|].
  - split; cbn [pq_locked pq_allowDuplicates pq_items pq_waiters pq_disposed pq_itemMap]; try done.
    intros Hq. by rewrite (Hw Hq) in En.
  - split; [done|]. split; [done|]. split; [done|]. apply strictly_sorted; [done|].
    apply numbers_perm in Hp. rewrite Hp in Ho. unfold numbers in Ho. rewrite map_app in Ho. by apply list.NoDup_app in Ho as [? _].
Qed.

(** The calls that change the queue. *)
Inductive pq_step : PriorityQueue -> PriorityQueue -> Prop :=
  | step_Put new r q q' : Put new q = Some (r, q') -> pq_step q q'
  | step_Get n r q q' : Get n q = Some (r, q') -> pq_step q q'
  | step_Dispose q q' : Dispose q = Some q' -> pq_step q q'.

Lemma pq_ok_empty q :
  pq_locked q = false -> pq_allowDuplicates q = false -> pq_items q = [] -> pq_waiters q = [] ->
  (pq_disposed q = false -> pq_itemMap q = ∅) -> pq_ok q.
Proof.
  intros Hl Hd Hi Hw Hm. split; rewrite ?Hi, ?Hw; try done.
  - intros H n. rewrite (Hm H). split; [by intros []%elem_of_empty|by intros []%elem_of_nil].
  - constructor.
Qed.

Lemma pq_step_ok q q' : pq_step q q' -> pq_ok q -> pq_ok q'.
Proof.
  intros Hs Hok. pose proof Hok as [Hl Hd Hh Hw Ha Hm Ho]. destruct Hs as [new r q q' H|n r q q' H|q q' H].
  - destruct (decide (new = [])) as [->|Hne]; [by injection H as <- <-|]. destruct (pq_disposed q) eqn:Ed.
    { unfold Put, with_lock in H. destruct new; [done|]. rewrite Hl, Ed in H. by injection H as <- <-. }
    destruct (Put_run new q Hok Ed Hne) as (out & q1 & E & Hok1 & _). rewrite H in E. by injection E as -> ->.
  - unfold Get, with_lock in H. destruct (Nat.ltb_spec n 1); [by injection H as <- <-|]. rewrite Hl in H.
    destruct (pq_disposed q) eqn:Ed; [by injection H as <- <-|]. destruct (pq_items q) as [|b l] eqn:Ei.
    + injection H as <- <-. split; cbn [pq_locked pq_allowDuplicates pq_items pq_waiters pq_disposed pq_itemMap]; try done.
      apply Forall_app. split; [done|]. by constructor.
    + rewrite <- Ei in H. destruct (Get_run n q Hok Ed ltac:(done) ltac:(by rewrite Ei)) as (got & q1 & E & (Hok1 & _) & _).
      unfold Get, with_lock in E. destruct (Nat.ltb_spec n 1); [lia|]. rewrite Hl, Ed in E.
      rewrite Ei in E, H. rewrite H in E. by injection E as -> ->.
  - unfold Dispose, with_lock in H. rewrite Hl in H. injection H as <-. by apply pq_ok_empty.
Qed.

Lemma pq_reachable_ok q : rtc pq_step (NewPriorityQueue false) q -> pq_ok q.
Proof.
  intros H. assert (H0 : pq_ok (NewPriorityQueue false)).
  { by apply pq_ok_empty. }
  induction H as [|q q1 q2 Hs _ IH]; [done|]. by apply IH, (pq_step_ok q).
Qed.

(** C17: the queue of announced blocks hands every block out once, lowest number first.
    After any sequence of calls of [Put], [Get] and [Dispose] that leaves it open: [Get] returns the lowest blocks of the queue, as many as
    asked for if there are so many, in strictly ascending order, and keeps the others;
    [Put] adds exactly the blocks whose number is neither queued nor earlier in the same
    call, hands the lowest ones to the readers that wait, in the order of their arrival,
    at least one to each it wakes up, and leaves a reader waiting only if nothing is
    left. *)
Theorem PriorityQueue_correct (q : PriorityQueue) :
  rtc pq_step (NewPriorityQueue false) q -> pq_disposed q = false ->
  (forall n, (1 <= n)%nat -> pq_items q <> [] ->
   exists got q', Get n q = Some (Got got, q') /\ pq_items q ≡ₚ got ++ pq_items q' /\
     length got = Nat.min n (length (pq_items q)) /\ lowest got (pq_items q') /\ StronglySorted Z.lt (numbers got)) /\
  (forall new, new <> [] ->
   exists out q', Put new q = Some (inr out, q') /\
     served (pq_waiters q) (pq_items q ++ fresh (numbers (pq_items q)) new) out (pq_waiters q') (pq_items q')).
Proof.
  intros Hr Hd. apply pq_reachable_ok in Hr. split.
  - intros n Hn Hne. destruct (Get_run n q Hr Hd Hn Hne) as (got & q' & E & _ & H). by exists got, q'.
  - intros new Hne. destruct (Put_run new q Hr Hd Hne) as (out & q' & E & _ & _ & H). by exists out, q'.
Qed.

(** [Latest] never returns a block number: it panics on a queue with blocks, and on an
    empty one it keeps the lock, after which every other call blocks. *)
Lemma Latest_unusable q :
  pq_locked q = false ->
  exists r q', Latest q = Some (r, q') /\ (pq_items q <> [] -> r = Panic) /\
    (forall new, new <> [] -> Put new q' = None) /\ (forall n, (1 <= n)%nat -> Get n q' = None) /\ Dispose q' = None.
Proof.
  intros Hl. unfold Latest, with_lock. rewrite Hl. destruct (pq_items q) as [|b l] eqn:Ei.
  - eexists _, _. split; [done|]. split; [done|]. split; [by intros []|]. split; [|done]. intros [|n] Hn; [lia|done].
  - rewrite lookup_ge_None_2 by done. eexists _, _. split; [done|]. split; [done|]. split; [by intros []|].
    split; [|done]. intros [|n] Hn; [lia|done].
Qed.

(** A queue with two blocks, put in the wrong order. *)
Module DemoQueue.
Definition block (n : Z) : Block :=
  mkBlock (mkHeader [] [] [] [] [] [] [] 0 n 0 0 0 [] [] [] []) [] [].
Definition queue : PriorityQueue :=
  match Put [block 7; block 5; block 7] (NewPriorityQueue false) with Some (_, q) => q | None => NewPriorityQueue false end.
End DemoQueue.

Lemma PriorityQueue_correct_witness :
  exists got q', Get 2 DemoQueue.queue = Some (Got got, q') /\ numbers got = [5; 7] /\ pq_items q' = [].
Proof.
  destruct (PriorityQueue_correct DemoQueue.queue) as [HG _].
  - apply rtc_once. apply (step_Put [DemoQueue.block 7; DemoQueue.block 5; DemoQueue.block 7] (inr [])). reflexivity.
  - reflexivity.
  - destruct (HG 2%nat ltac:(lia) ltac:(discriminate)) as (got & q' & E & _). exists got, q'. split; [exact E|].
    vm_compute in E. injection E as <- <-. split; reflexivity.
Defined.
