(* ===== verification/Genesis.v ===== *)
(** The genesis block (chain/chain.go): its header and hash, and its JSON form. A JSON
    object is the record of its members, each of them absent or a text. *)

From Stdlib Require Import String.
From S2P Require Import Prelude Types Chain Runtime Crypto Text Rlp Instances TxTypes BlockTypes BlockCorrect.

Definition GenesisGasLimit : Z := 4712388.
Definition GenesisDifficulty : Z := 131072.

(** A nil slice is [None]; the storage is in the order it is ranged over. *)
Record GenesisAccount := mkGenesisAccount {
  g_Code : option bytes;
  g_Storage : list (Hash * Hash);
  g_Balance : option Z;
  g_Nonce : Z;
  g_PrivateKey : option bytes;
}.

(** [Config] is not used by the header and not encoded. [Alloc] is nil or the map, in the
    order it is ranged over. *)
Record Genesis := mkGenesis {
  gn_Nonce : bytes;
  gn_Timestamp : Z;
  gn_ExtraData : bytes;
  gn_GasLimit : Z;
  gn_Difficulty : Z;
  gn_Mixhash : Hash;
  gn_Coinbase : Address;
  gn_Alloc : option (list (Address * GenesisAccount));
  gn_StateRoot : Hash;
  gn_Number : Z;
  gn_GasUsed : Z;
  gn_ParentHash : Hash;
}.

(** The members of the two objects. *)
Record accountJSON := mkAccountJSON {
  ja_code : option bytes;
  ja_storage : option (list (bytes * bytes));
  ja_balance : option bytes;
  ja_nonce : option bytes;
  ja_secretKey : option bytes;
}.
Record genesisJSON := mkGenesisJSON {
  jg_nonce : option bytes;
  jg_timestamp : option bytes;
  jg_extraData : option bytes;
  jg_gasLimit : option bytes;
  jg_difficulty : option bytes;
  jg_mixHash : option bytes;
  jg_coinbase : option bytes;
  jg_alloc : option (list (bytes * accountJSON));
  jg_number : option bytes;
  jg_gasUsed : option bytes;
  jg_parentHash : option bytes;
}.

(** Assignment to a map entry, the entries kept in order. *)
Fixpoint assoc_set {A} (k : Address) (v : A) (l : list (Address * A)) : list (Address * A) :=
  match l with
  | [] => [(k, v)]
  | (k', v') :: l => if bool_decide (k' = k) then (k, v) :: l else (k', v') :: assoc_set k v l
  end.

Section genesis.
Context `{KK : !Keccak, RL : !FastRlp}.

Definition GenesisHeader (g : Genesis) : Header :=
  let stateRoot := if hash_eqb (gn_StateRoot g) ZeroHash then EmptyRootHash else gn_StateRoot g in
  mkHeader (gn_ParentHash g) EmptyUncleHash (gn_Coinbase g) stateRoot EmptyRootHash EmptyRootHash
    (replicate 256 0)
    (if gn_Difficulty g =? 0 then GenesisDifficulty else gn_Difficulty g)
    (gn_Number g)
    (if gn_GasLimit g =? 0 then GenesisGasLimit else gn_GasLimit g)
    (gn_GasUsed g) (gn_Timestamp g) (gn_ExtraData g) (gn_Mixhash g) (gn_Nonce g) ZeroHash.

Definition Genesis_Hash (g : Genesis) : Hash := h_Hash (ComputeHash (GenesisHeader g)).

(** ** JSON *)

Definition GenesisAccount_MarshalJSON (g : GenesisAccount) : accountJSON :=
  mkAccountJSON (EncodeBytes <$> g_Code g)
    (if (length (g_Storage g) =? 0)%nat then None
     else Some (map (prod_map Hash_String Hash_String) (g_Storage g)))
    (EncodeBigInt <$> g_Balance g)
    (if g_Nonce g =? 0 then None else Some (EncodeUint64 (g_Nonce g)))
    (EncodeBytes <$> g_PrivateKey g).

(** A hash member and a storage as the library reads them, with [UnmarshalText]. *)
Definition readHash (m : option bytes) : option (option Hash) :=
  match m with None => Some None | Some s => Some <$> Hash_UnmarshalText s end.
Definition readStorage (l : list (bytes * bytes)) : option (list (Hash * Hash)) :=
  mapM (fun '(k, v) => k ← Hash_UnmarshalText k; v ← Hash_UnmarshalText v; Some (k, v)) l.
(** A bytes member that is there. *)
Definition readBytes (m : option bytes) : option (option bytes) :=
  match m with None => Some None | Some s => Some <$> ParseBytes (Some s) end.

(** [None] when there is an error. *)
Definition GenesisAccount_UnmarshalJSON (dec : accountJSON) : option GenesisAccount :=
  storage ← match ja_storage dec with None => Some [] | Some l => readStorage l end;
  code ← readBytes (ja_code dec);
  balance ← ParseUint256orHex (ja_balance dec);
  nonce ← ParseUint64orHex (ja_nonce dec);
  privateKey ← readBytes (ja_secretKey dec);
  Some (mkGenesisAccount code storage balance nonce privateKey).

Definition Genesis_MarshalJSON (g : Genesis) : genesisJSON :=
  mkGenesisJSON (Some (EncodeToHex (gn_Nonce g))) (Some (EncodeUint64 (gn_Timestamp g)))
    (Some (EncodeBytes (gn_ExtraData g))) (Some (EncodeUint64 (gn_GasLimit g)))
    (Some (EncodeUint64 (gn_Difficulty g))) (Some (Hash_String (gn_Mixhash g)))
    (Some (Address_String (gn_Coinbase g)))
    (map (prod_map Address_String GenesisAccount_MarshalJSON) <$> gn_Alloc g)
    (Some (EncodeUint64 (gn_Number g))) (Some (EncodeUint64 (gn_GasUsed g)))
    (Some (Hash_String (gn_ParentHash g))).

(** The object the decoder fills is a new one. *)
Definition Genesis_UnmarshalJSON (dec : genesisJSON) : option Genesis :=
  mixhash ← readHash (jg_mixHash dec);
  coinbase ← match jg_coinbase dec with
             | None => Some None | Some s => Some <$> Address_UnmarshalText s end;
  accounts ← match jg_alloc dec with
             | None => Some None
             | Some l => Some <$> mapM (fun '(k, v) => v ← GenesisAccount_UnmarshalJSON v; Some (k, v)) l
             end;
  parentHash ← readHash (jg_parentHash dec);
  nonce ← ParseUint64orHex (jg_nonce dec);
  timestamp ← ParseUint64orHex (jg_timestamp dec);
  extraData ← readBytes (jg_extraData dec);
  gasLimitText ← jg_gasLimit dec;
  gasLimit ← ParseUint64orHex (Some gasLimitText);
  difficulty ← ParseUint64orHex (jg_difficulty dec);
  number ← ParseUint64orHex (jg_number dec);
  gasUsed ← ParseUint64orHex (jg_gasUsed dec);
  Some (mkGenesis (be_bytes 8 nonce) timestamp (default [] extraData) gasLimit difficulty
          (default ZeroHash mixhash) (default ZeroAddress coinbase)
          ((fun m => fold_left (fun l '(k, v) => assoc_set (StringToAddress k) v l) m []) <$> accounts)
          ZeroHash number gasUsed (default ZeroHash parentHash)).
End genesis.

(** ** Lemmas *)

Record account_wf (a : GenesisAccount) : Prop := {
  aw_code : forall b, g_Code a = Some b -> Forall is_byte b;
  aw_storage : Forall (fun '(k, v) => is_hash k /\ is_hash v) (g_Storage a);
  aw_nonce : is_u64 (g_Nonce a);
  aw_key : forall b, g_PrivateKey a = Some b -> Forall is_byte b;
}.

Record genesis_wf (g : Genesis) : Prop := {
  gw_nonce : length (gn_Nonce g) = 8%nat /\ Forall is_byte (gn_Nonce g);
  gw_timestamp : is_u64 (gn_Timestamp g);
  gw_extra : Forall is_byte (gn_ExtraData g);
  gw_gasLimit : is_u64 (gn_GasLimit g);
  gw_difficulty : is_u64 (gn_Difficulty g);
  gw_mixhash : is_hash (gn_Mixhash g);
  gw_coinbase : is_address (gn_Coinbase g);
  gw_alloc : forall l, gn_Alloc g = Some l ->
    NoDup (map fst l) /\ Forall (fun '(a, v) => is_address a /\ account_wf v) l;
  gw_number : is_u64 (gn_Number g);
  gw_gasUsed : is_u64 (gn_GasUsed g);
  gw_parent : is_hash (gn_ParentHash g);
}.

Lemma assoc_set_fresh {A} k (v : A) l : k ∉ map fst l -> assoc_set k v l = l ++ [(k, v)].
Proof.
  induction l as [|[k' v'] l IH]; [done|]. simpl. intros [Hk Hl]%not_elem_of_cons.
  rewrite bool_decide_eq_false_2 by done. by rewrite IH.
Qed.

(** Entries with distinct keys are put in the order they come. *)
Lemma assoc_set_all {A B} (f : B -> Address) (l : list (B * A)) m :
  NoDup (map fst m ++ map (fun x => f (fst x)) l) ->
  fold_left (fun l '(k, v) => assoc_set (f k) v l) l m = m ++ map (fun '(k, v) => (f k, v)) l.
Proof.
  revert m. induction l as [|[k v] l IH]; intros m Hd; simpl in *; [by rewrite app_nil_r|].
  apply list.NoDup_app in Hd as (Hm & Hd & Hl). rewrite assoc_set_fresh, IH; [by rewrite <- app_assoc| |].
  - rewrite map_app. simpl. rewrite <- app_assoc. apply list.NoDup_app. split; [done|]. split; [|done].
    intros x Hx. by apply Hd.
  - intros Hk. apply (Hd _ Hk). left.
Qed.

Section facts.
Context `{KK : !Keccak, RL : !FastRlp}.

Lemma readHash_String h : is_hash h -> readHash (Some (Hash_String h)) = Some (Some h).
Proof. intros H. unfold readHash, Hash_UnmarshalText. simpl. do 2 f_equal. by apply StringToHash_String. Qed.

Lemma readBytes_Encode m : (forall b, m = Some b -> Forall is_byte b) -> readBytes (EncodeBytes <$> m) = Some m.
Proof.
  intros H. destruct m as [b|]; [|done]. unfold readBytes. cbn [fmap option_fmap option_map].
  by rewrite ParseBytes_Encode by auto.
Qed.

Lemma readStorage_String l :
  Forall (fun '(k, v) => is_hash k /\ is_hash v) l ->
  readStorage (map (prod_map Hash_String Hash_String) l) = Some l.
Proof.
  intros H. unfold readStorage. apply mapM_Some. induction H as [|[k v] l [Hk Hv] _ IH]; [constructor|].
  constructor; [|done]. unfold Hash_UnmarshalText. simpl. fold (StringToHash (Hash_String k)).
  fold (StringToHash (Hash_String v)). by rewrite !StringToHash_String.
Qed.

Lemma GenesisAccount_roundtrip a :
  account_wf a -> GenesisAccount_UnmarshalJSON (GenesisAccount_MarshalJSON a) = Some a.
Proof.
  intros [Hc Hs Hn Hk]. unfold GenesisAccount_UnmarshalJSON, GenesisAccount_MarshalJSON.
  cbn [ja_code ja_storage ja_balance ja_nonce ja_secretKey].
  assert (Es : match (if (length (g_Storage a) =? 0)%nat then None
      else Some (map (prod_map Hash_String Hash_String) (g_Storage a))) with
      None => Some [] | Some l => readStorage l end = Some (g_Storage a)).
  { destruct (Nat.eqb_spec (length (g_Storage a)) 0) as [E|E]; [|by apply readStorage_String].
    by destruct (g_Storage a). }
  assert (Eb : ParseUint256orHex (EncodeBigInt <$> g_Balance a) = Some (g_Balance a)).
  { destruct (g_Balance a); [apply ParseUint256orHex_Encode|done]. }
  assert (En : ParseUint64orHex (if g_Nonce a =? 0 then None else Some (EncodeUint64 (g_Nonce a))) =
    Some (g_Nonce a)).
  { destruct (Z.eqb_spec (g_Nonce a) 0) as [->|]; [done|]. by apply ParseUint64orHex_Encode. }
  rewrite Es, !readBytes_Encode, Eb, En by done. by destruct a.
Qed.

Lemma readAlloc l :
  Forall (fun '(a, v) => is_address a /\ account_wf v) l ->
  mapM (fun '(k, v) => v ← GenesisAccount_UnmarshalJSON v; Some (k, v))
    (map (prod_map Address_String GenesisAccount_MarshalJSON) l) = Some (map (prod_map Address_String id) l).
Proof.
  intros H. apply mapM_Some. induction H as [|[k v] l [Hk Hv] _ IH]; [constructor|].
  constructor; [|done]. simpl. by rewrite GenesisAccount_roundtrip.
Qed.

Lemma putAlloc l :
  NoDup (map fst l) -> Forall (fun '(a, v) => is_address a /\ account_wf v) l ->
  fold_left (fun l '(k, v) => assoc_set (StringToAddress k) v l) (map (prod_map Address_String id) l) [] = l.
Proof.
  intros Hd Hl. rewrite (assoc_set_all StringToAddress).
  - simpl. rewrite map_map. rewrite <- (map_id l) at 2. apply map_ext_in. intros [k v] Hin. simpl.
    rewrite StringToAddress_String; [done|]. rewrite List.Forall_forall in Hl. by apply Hl in Hin as [? _].
  - simpl. rewrite map_map. replace (map _ l) with (map fst l); [done|]. apply map_ext_in. intros [k v] Hin. simpl.
    rewrite StringToAddress_String; [done|]. rewrite List.Forall_forall in Hl. by apply Hl in Hin as [? _].
Qed.

Lemma ParseUint_nonce b :
  length b = 8%nat -> Forall is_byte b -> ParseUint64orHex (Some (EncodeToHex b)) = Some (set_bytes b).
Proof.
  intros Hl Hb. unfold ParseUint64orHex, EncodeToHex. change (HasPrefix0x _) with true. cbv iota.
  change (drop 2 (str "0x" ++ EncodeToString b)) with (EncodeToString b).
  assert (E : forall b acc, Forall is_byte b ->
    parseDigits 16 acc (EncodeToString b) = Some (acc * 256 ^ zlen b + set_bytes b)).
  { clear. intros b. induction b as [|x b IH]; intros acc Hb.
    - change (256 ^ zlen []) with 1. change (set_bytes []) with 0. cbn [EncodeToString map concat parseDigits].
      f_equal. lia.
    - inversion Hb as [|? ? Hx Hb']; subst. destruct (nibbles_of_byte x Hx) as (H1 & H2 & E).
      rewrite EncodeToString_cons. cbn [parseDigits]. rewrite !digitOf_hexDigit by done.
      cbn [mbind option_bind]. rewrite IH by done. f_equal.
      change (x :: b) with ([x] ++ b). rewrite set_bytes_app. unfold zlen. rewrite length_app. cbn [length].
      rewrite Nat2Z.inj_add, Z.pow_add_r by lia. change (set_bytes [x]) with (x + 256 * 0).
      change (256 ^ Z.of_nat 1) with 256. nia. }
  unfold ParseUint. destruct (EncodeToString b) as [|c s] eqn:Ec; [by destruct b|]. rewrite <- Ec, E by done.
  cbn [mbind option_bind]. pose proof (set_bytes_bound b Hb) as Hr. unfold zlen in *. rewrite Hl in *.
  change (256 ^ Z.of_nat 8) with two64 in *. by rewrite Z.mul_0_l, Z.add_0_l, (proj2 (Z.ltb_lt _ _)) by lia.
Qed.

(** A genesis written as JSON is read back: every field that is encoded, the allocated
    accounts with their code, storage, balance (also a negative one) and nonce included.
    The state root and the configuration are not part of the text. *)
Theorem Genesis_JSON_roundtrip (g : Genesis) :
  genesis_wf g -> gn_StateRoot g = ZeroHash -> Genesis_UnmarshalJSON (Genesis_MarshalJSON g) = Some g.
Proof.
  intros [[Hn1 Hn2] Ht He Hg Hd Hm Hc Ha Hb Hu Hp] Hs. unfold Genesis_UnmarshalJSON, Genesis_MarshalJSON.
  cbn [jg_nonce jg_timestamp jg_extraData jg_gasLimit jg_difficulty jg_mixHash jg_coinbase jg_alloc
    jg_number jg_gasUsed jg_parentHash].
  rewrite !readHash_String, Address_UnmarshalText_String by done. cbn [mbind option_bind fmap option_fmap option_map].
  rewrite ParseUint_nonce by done. rewrite !ParseUint64orHex_Encode by done.
  change (Some (EncodeBytes (gn_ExtraData g))) with (EncodeBytes <$> Some (gn_ExtraData g)).
  rewrite readBytes_Encode by (intros b [= <-]; done).
  assert (En : be_bytes 8 (set_bytes (gn_Nonce g)) = gn_Nonce g) by (rewrite <- Hn1; by apply be_set_bytes).
  destruct g as [n t e gl d m c al sr nu gu ph]; cbn in *. subst sr. destruct al as [l|]; cbn.
  - destruct (Ha l eq_refl) as [Hnd Hl]. rewrite readAlloc by done. cbn. rewrite putAlloc by done. by rewrite En.
  - by rewrite En.
Qed.
End facts.

Import (hints) Demo.

Definition demo_genesis : Genesis :=
  mkGenesis (replicate 8 7) 1000 [1; 2] 1000000 5 ZeroHash ZeroAddress
    (Some [(ZeroAddress, mkGenesisAccount (Some [1]) [(ZeroHash, ZeroHash)] (Some 5) 3 None)]) ZeroHash 0 0 ZeroHash.

Lemma Genesis_JSON_roundtrip_witness : Genesis_UnmarshalJSON (Genesis_MarshalJSON demo_genesis) = Some demo_genesis.
Proof.
  apply (Genesis_JSON_roundtrip demo_genesis); [|reflexivity].
  split; try apply zero_hash; try apply zero_address; try (by split).
  - split; [reflexivity|]. by apply Forall_replicate.
  - by repeat constructor.
  - intros l [= <-]. split; [apply NoDup_singleton|]. constructor; [|constructor].
    split; [apply zero_address|]. split; [|constructor; [split; apply zero_hash|constructor]|by split|done].
    intros b [= <-]. by repeat constructor.
Defined.
