(* ===== verification/Signer.v ===== *)
(** Transaction signers and block seals (crypto/txsigner.go, the signature part of
    crypto/crypto.go, blockchain/helper.go). The curve is third-party code and stays
    a parameter. *)

From S2P Require Import Prelude Types Chain Runtime Crypto Rlp Instances TxTypes BlockTypes BlockCorrect.

(** github.com/btcsuite/btcd/btcec on secp256k1 and crypto/elliptic's encoding of its
    points. A compact signature is a byte that selects the key among those with the
    same values, followed by the 32-byte [R] and [S]; it recovers the key that made it. *)
Class Btcec := {
  PrivateKey : Type;
  PublicKey : Type;
  publicKey : PrivateKey -> PublicKey;
  SignCompact : PrivateKey -> bytes -> option bytes;
  RecoverCompact : bytes -> bytes -> option PublicKey;
  elliptic_Marshal : PublicKey -> bytes;
  SignCompact_length : forall k h sig, SignCompact k h = Some sig -> length sig = 65%nat;
  SignCompact_bytes : forall k h sig, SignCompact k h = Some sig -> Forall is_byte sig;
  RecoverCompact_SignCompact : forall k h sig,
    SignCompact k h = Some sig -> RecoverCompact sig h = Some (publicKey k);
}.

Section crypto.
Context `{KK : !Keccak, RL : !FastRlp, EC : !Btcec}.

Definition MarshalPublicKey (pub : PublicKey) : bytes := elliptic_Marshal pub.

(** [None] is an error: no signature, or one that does not recover. *)
Definition RecoverPubkey (signature hash : bytes) : option PublicKey :=
  match signature with
  | [] => None
  | _ =>
      let size := length signature in
      let term := if nth (size - 1) signature 0 =? 1 then 28 else 27 in
      RecoverCompact (term :: take (size - 1) signature) hash
  end.

Definition Ecrecover (hash sig : bytes) : option bytes :=
  pub ← RecoverPubkey sig hash; Some (MarshalPublicKey pub).

(** The selecting byte moves to the end, as 0 or 1. *)
Definition Sign (priv : PrivateKey) (hash : bytes) : option bytes :=
  sig ← SignCompact priv hash;
  let term := if nth 0 sig 0 =? 28 then 1 else 0 in
  Some (drop 1 (sig ++ [term])).

(** [Keccak256(pub[1:])[12:]] *)
Definition addressOfMarshalled (pub : bytes) : Address := BytesToAddress (drop 12 (Keccak256 [drop 1 pub])).

Definition PubKeyToAddress (pub : PublicKey) : Address := addressOfMarshalled (MarshalPublicKey pub).

(** ** txsigner.go *)

Definition calcTxHash (tx : Transaction) (chainID : Z) : Hash :=
  let v :=
    [ NewUint (tr_Nonce tx); marshalBig (tr_GasPrice tx); NewUint (tr_Gas tx);
      match tr_To tx with None => NewNull | Some a => NewBytes a end;
      marshalBig (tr_Value tx); NewBytes (tr_Input tx) ] ++
    (if chainID =? 0 then [] else [NewUint chainID; NewUint 0; NewUint 0]) in
  BytesToHash (keccak256 (MarshalTo (NewArray v))).

(** [Ok None] is the error. Each [copy] ends at a fixed index and begins before it by
    the length of the value: one longer than 32 bytes begins before the array for [R]
    and inside the field of [R] for [S]. *)
Definition encodeSignature (R S : option Z) (V : Z) : result (option bytes) :=
  match ValidateSignatureValues V R S, R, S with
  | true, Some zr, Some zs =>
      let r := big_bytes zr in
      let s := big_bytes zs in
      if (32 <? length r)%nat || (64 <? length s)%nat then Panic
      else
        let sig := replicate (32 - length r) 0 ++ r ++ replicate 32 0 in
        Ok (Some (take (64 - length s) sig ++ s ++ [V]))
  | _, _, _ => Ok None
  end.

(** The signature part of both [Sender]s. *)
Definition recoverSender (tx : Transaction) (hash : Hash) (V : Z) : result (option Address) :=
  sig ← encodeSignature (tr_R tx) (tr_S tx) V;
  Ok (sig ← sig; pub ← Ecrecover hash sig; Some (addressOfMarshalled pub)).

(** [big.Int.Bytes] drops a sign. *)
Definition absV (tx : Transaction) : Z := match tr_V tx with Some v => Z.abs v | None => 0 end.

Definition Frontier_Hash (tx : Transaction) : Hash := calcTxHash tx 0.

(** [byte(refV.Int64())] *)
Definition Frontier_Sender (tx : Transaction) : result (option Address) :=
  recoverSender tx (Frontier_Hash tx) (big_int64 (absV tx - 27) mod 256).

Definition Frontier_CalculateV (parity : Z) : bytes := big_bytes (parity + 27).

(** The part of both [SignTx]s after the hash. *)
Definition signWith (tx : Transaction) (hash : Hash) (calculateV : Z -> bytes) (privateKey : PrivateKey)
    : option Transaction :=
  sig ← Sign privateKey hash;
  Some (mkTransaction (tr_Nonce tx) (tr_GasPrice tx) (tr_Gas tx) (tr_To tx) (tr_Value tx) (tr_Input tx)
          (Some (set_bytes (calculateV (nth 64 sig 0)))) (Some (set_bytes (take 32 sig)))
          (Some (set_bytes (take 32 (drop 32 sig)))) (tr_From tx)).

Definition Frontier_SignTx (tx : Transaction) (privateKey : PrivateKey) : option Transaction :=
  let tx := Transaction_Copy tx in signWith tx (Frontier_Hash tx) Frontier_CalculateV privateKey.

Definition EIP155_Hash (chainID : Z) (tx : Transaction) : Hash := calcTxHash tx chainID.

(** [bits.Len(uint(vv)) <= 8] *)
Definition EIP155_Sender (chainID : Z) (tx : Transaction) : result (option Address) :=
  let bigV := absV tx in
  let vv := big_uint64 bigV in
  let protected := if bit_len vv <=? 8 then negb (vv =? 27) && negb (vv =? 28) else true in
  if negb protected then Frontier_Sender tx
  else
    let mulOperand := i64 chainID * 2 in
    recoverSender tx (EIP155_Hash chainID tx) (big_int64 (bigV - mulOperand - 35) mod 256).

Definition EIP155_CalculateV (chainID : Z) (parity : Z) : bytes :=
  big_bytes (parity + 35 + i64 chainID * 2).

Definition EIP155_SignTx (chainID : Z) (tx : Transaction) (privateKey : PrivateKey) : option Transaction :=
  let tx := Transaction_Copy tx in
  signWith tx (EIP155_Hash chainID tx) (EIP155_CalculateV chainID) privateKey.

(** [TxSigner] *)
Inductive TxSigner := FrontierSigner | EIP155Signer (chainID : Z).

Definition NewSigner (forks : ForksInTime) (chainID : Z) : TxSigner :=
  if EIP155 forks then EIP155Signer chainID else FrontierSigner.

Definition signer_Hash (s : TxSigner) (tx : Transaction) : Hash :=
  match s with FrontierSigner => Frontier_Hash tx | EIP155Signer c => EIP155_Hash c tx end.
Definition signer_Sender (s : TxSigner) (tx : Transaction) : result (option Address) :=
  match s with FrontierSigner => Frontier_Sender tx | EIP155Signer c => EIP155_Sender c tx end.
Definition signer_SignTx (s : TxSigner) (tx : Transaction) (k : PrivateKey) : option Transaction :=
  match s with FrontierSigner => Frontier_SignTx tx k | EIP155Signer c => EIP155_SignTx c tx k end.

(** ** Block seals (blockchain/helper.go) *)

Definition ecrecoverFromHeader (h : Header) : option Address :=
  extra ← GetIbftExtra h;
  msg ← CalculateHeaderHash h;
  pub ← RecoverPubkey (i_Seal extra) (Keccak256 [msg]);
  Some (PubKeyToAddress pub).
End crypto.

(** ** Lemmas *)

(** The big-endian value of 32 bytes is padded back to them. *)
Lemma pad_set_bytes b n :
  Forall is_byte b -> length b = n ->
  (length (big_bytes (set_bytes b)) <= n)%nat /\
  replicate (n - length (big_bytes (set_bytes b))) 0 ++ big_bytes (set_bytes b) = b.
Proof.
  intros Hb Hn. pose proof (set_bytes_bound b Hb) as Hx. unfold zlen in Hx. rewrite Hn in Hx.
  pose proof (length_big_bytes _ _ Hx) as Hl. split; [done|].
  pose proof (fixed_of_big_bytes n _ Hx) as E. rewrite fixed_of_bytes_alt in E.
  replace (length (big_bytes (set_bytes b)) - n)%nat with 0%nat in E by lia.
  rewrite drop_0 in E. rewrite E, <- Hn. by apply be_set_bytes.
Qed.

Section facts.
Context `{KK : !Keccak, RL : !FastRlp, EC : !Btcec}.

Lemma encodeSignature_fields r s V :
  Forall is_byte r -> Forall is_byte s -> length r = 32%nat -> length s = 32%nat ->
  ValidateSignatureValues V (Some (set_bytes r)) (Some (set_bytes s)) = true ->
  encodeSignature (Some (set_bytes r)) (Some (set_bytes s)) V = Ok (Some (r ++ s ++ [V])).
Proof.
  intros Hr Hs Lr Ls Hv. destruct (pad_set_bytes r 32 Hr Lr) as [L1 E1].
  destruct (pad_set_bytes s 32 Hs Ls) as [L2 E2]. unfold encodeSignature. rewrite Hv.
  destruct (Nat.ltb_spec 32 (length (big_bytes (set_bytes r)))); [lia|].
  destruct (Nat.ltb_spec 64 (length (big_bytes (set_bytes s)))); [lia|]. cbn [orb].
  do 2 f_equal. rewrite (app_assoc _ (big_bytes (set_bytes r))), E1. rewrite take_app_ge by lia. rewrite Lr, <- app_assoc. f_equal.
  rewrite take_replicate, Nat.min_l by lia.
  replace (64 - length (big_bytes (set_bytes s)) - 32)%nat with (32 - length (big_bytes (set_bytes s)))%nat by lia.
  by rewrite app_assoc, E2.
Qed.

(** A compact signature as its three parts. *)
Lemma compact_parts k h sig :
  SignCompact k h = Some sig -> exists hd r s, sig = hd :: r ++ s /\ length r = 32%nat /\ length s = 32%nat /\
    Forall is_byte r /\ Forall is_byte s.
Proof.
  intros H. pose proof (SignCompact_length _ _ _ H) as L. pose proof (SignCompact_bytes _ _ _ H) as B.
  destruct sig as [|hd sig]; [done|]. inversion B as [|? ? _ B']; subst.
  exists hd, (take 32 sig), (drop 32 sig). rewrite take_drop. simpl in L. split; [done|].
  rewrite length_take, length_drop. split; [lia|]. split; [lia|].
  split; [by apply Forall_take|by apply Forall_drop].
Qed.

(** The values of the signature a key makes are ones the code accepts: the compact
    header is 27 or 28, and neither [R] nor [S] is rejected. *)
Definition acceptable (sig : bytes) : Prop :=
  (nth 0 sig 0 = 27 \/ nth 0 sig 0 = 28) /\
  ValidateSignatureValues 0 (Some (set_bytes (take 32 (drop 1 sig)))) (Some (set_bytes (drop 33 sig))) = true.

Lemma Sign_parts k h sig :
  SignCompact k h = Some sig -> acceptable sig ->
  exists r s p, Sign k h = Some (r ++ s ++ [p]) /\ length r = 32%nat /\ length s = 32%nat /\
    (p = 0 \/ p = 1) /\ sig = (27 + p) :: r ++ s /\
    encodeSignature (Some (set_bytes r)) (Some (set_bytes s)) p = Ok (Some (r ++ s ++ [p])).
Proof.
  intros H [Hh Hv]. destruct (compact_parts _ _ _ H) as (hd & r & s & -> & Lr & Ls & Br & Bs).
  cbn [nth] in Hh. rewrite (skipn_cons 32), (skipn_cons 0), drop_0 in Hv. rewrite take_app_length', drop_app_length' in Hv by lia.
  exists r, s, (if hd =? 28 then 1 else 0). unfold Sign. rewrite H. cbn [mbind option_bind].
  cbn [app nth drop]. rewrite <- app_assoc. split; [done|]. split; [done|]. split; [done|].
  assert (Hp : (if hd =? 28 then 1 else 0) = hd - 27) by (destruct Hh; subst; done).
  rewrite Hp. split; [lia|]. split; [f_equal; lia|].
  apply encodeSignature_fields; try done. destruct Hh as [->| ->]; [done|].
  revert Hv. unfold ValidateSignatureValues. by destruct (sig_value_bad (set_bytes r)), (sig_value_bad (set_bytes s)).
Qed.

(** What [Sign] gives is what [RecoverPubkey] reads. *)
Lemma RecoverPubkey_Sign k h sig r s p :
  SignCompact k h = Some sig -> sig = (27 + p) :: r ++ s -> (p = 0 \/ p = 1) ->
  RecoverPubkey (r ++ s ++ [p]) h = Some (publicKey k).
Proof.
  intros H -> Hp. unfold RecoverPubkey. rewrite app_assoc.
  assert (E : forall l : bytes, match l ++ [p] with [] => None | _ :: _ =>
      RecoverCompact ((if nth (length (l ++ [p]) - 1) (l ++ [p]) 0 =? 1 then 28 else 27)
        :: take (length (l ++ [p]) - 1) (l ++ [p])) h end =
    RecoverCompact ((27 + p) :: l) h).
  { intros l. rewrite length_app. cbn [length]. replace (length l + 1 - 1)%nat with (length l) by lia.
    rewrite app_nth2, Nat.sub_diag, take_app_length by lia. cbn [nth].
    replace (if p =? 1 then 28 else 27) with (27 + p) by (destruct Hp; subst; done).
    by destruct (l ++ [p]) eqn:E; [destruct l|]. }
  rewrite E. by apply RecoverCompact_SignCompact.
Qed.

(** A transaction signed over a hash its own hash does not depend on. *)
Lemma recoverSender_signWith tx h V k sig :
  SignCompact k h = Some sig -> acceptable sig ->
  exists tx' p, signWith tx h V k = Some tx' /\ (p = 0 \/ p = 1) /\ tr_V tx' = Some (set_bytes (V p)) /\
    (forall chainID, calcTxHash tx' chainID = calcTxHash tx chainID) /\
    recoverSender tx' h p = Ok (Some (PubKeyToAddress (publicKey k))).
Proof.
  intros H Ha. destruct (Sign_parts k h sig H Ha) as (r & s & p & E & Lr & Ls & Hp & Es & Ee).
  unfold signWith. rewrite E. cbn [mbind option_bind]. eexists _, p. split; [done|]. split; [done|].
  assert (E1 : take 32 (r ++ s ++ [p]) = r) by (by apply take_app_length').
  assert (E2 : drop 32 (r ++ s ++ [p]) = s ++ [p]) by (by apply drop_app_length').
  assert (E3 : take 32 (s ++ [p]) = s) by (by apply take_app_length').
  assert (E4 : nth 64 (r ++ s ++ [p]) 0 = p).
  { rewrite !app_nth2 by lia. rewrite Lr, Ls. done. }
  rewrite E1, E2, E3, E4. split; [done|]. split; [done|].
  unfold recoverSender. cbn [tr_R tr_S]. rewrite Ee. cbn [mbind result_bind option_bind].
  unfold Ecrecover. by rewrite (RecoverPubkey_Sign k h sig).
Qed.

Lemma big_int64_bit p : p = 0 \/ p = 1 -> big_int64 p mod 256 = p.
Proof. by intros [->| ->]. Qed.

(** Chain identifiers whose [V] values fit. *)
Definition signer_wf (s : TxSigner) : Prop :=
  match s with FrontierSigner => True | EIP155Signer c => 0 <= c < 2 ^ 62 end.

(** C18: the sender recovered from a transaction a signer has signed is the address of the
    key it was signed with: for both signers, every transaction and every chain
    identifier below 2^62, whenever the curve gives a signature with an acceptable header
    byte and values. *)
Theorem Sender_SignTx (s : TxSigner) (tx : Transaction) (k : PrivateKey) (sig : bytes) :
  signer_wf s -> SignCompact k (signer_Hash s (Transaction_Copy tx)) = Some sig -> acceptable sig ->
  exists tx', signer_SignTx s tx k = Some tx' /\
    signer_Sender s tx' = Ok (Some (PubKeyToAddress (publicKey k))).
Proof.
  intros Hs H Ha. destruct s as [|c]; cbn [signer_Hash signer_SignTx signer_Sender] in *.
  - destruct (recoverSender_signWith (Transaction_Copy tx) _ Frontier_CalculateV k sig H Ha)
      as (tx' & p & E & Hp & EV & Eh & Er). exists tx'. split; [done|].
    unfold Frontier_Sender, Frontier_Hash in *. rewrite Eh. unfold absV. rewrite EV.
    unfold Frontier_CalculateV. rewrite set_bytes_big_bytes by lia.
    replace (Z.abs (p + 27) - 27) with p by lia. by rewrite big_int64_bit.
  - destruct (recoverSender_signWith (Transaction_Copy tx) _ (EIP155_CalculateV c) k sig H Ha)
      as (tx' & p & E & Hp & EV & Eh & Er). exists tx'. split; [done|]. simpl in Hs.
    unfold EIP155_Sender, EIP155_Hash in *. rewrite Eh. unfold absV. rewrite EV. unfold EIP155_CalculateV.
    assert (Ec : i64 c = c).
    { unfold i64, two64. rewrite Z.mod_small by lia. by destruct (Z.ltb_spec c (2 ^ 63)); [|lia]. }
    rewrite Ec, set_bytes_big_bytes by lia. rewrite Z.abs_eq by lia.
    assert (Eu : big_uint64 (p + 35 + c * 2) = p + 35 + c * 2).
    { unfold big_uint64, u64, two64. rewrite Z.abs_eq by lia. apply Z.mod_small. lia. }
    rewrite Eu. rewrite !(proj2 (Z.eqb_neq _ _)) by lia. cbn [negb andb].
    replace (if _ <=? 8 then true else true) with true by (by destruct (_ <=? 8)). cbn [negb].
    replace (p + 35 + c * 2 - c * 2 - 35) with p by lia. by rewrite big_int64_bit.
Qed.

(** C40: a value [R] of 33 bytes is accepted by the signature check, which compares byte
    strings, and the signature is then written before the start of its array: both
    signers panic on such a transaction. *)
Theorem Sender_panics (s : TxSigner) (tx : Transaction) :
  tr_R tx = Some (2 ^ 256) -> tr_S tx = Some 1 -> tr_V tx = Some 27 -> signer_Sender s tx = Panic.
Proof.
  intros HR HS HV.
  assert (E : Frontier_Sender tx = Panic).
  { unfold Frontier_Sender, recoverSender, absV. rewrite HR, HS, HV. by vm_compute. }
  destruct s as [|c]; [done|]. cbn [signer_Sender]. unfold EIP155_Sender, absV. by rewrite HV.
Qed.

(** C31: the proposer who seals a block is the address recovered from its header: the seal
    is a signature of the header's digest, which neither the seal nor the committed seals
    change. *)
Theorem ecrecoverFromHeader_seal (h h' : Header) (vanity : bytes) (i i' : IstanbulExtra) (k : PrivateKey)
    (msg sig : bytes) :
  length vanity = IstanbulExtraVanity -> extra_wf i -> extra_wf i' -> i_Validators i = i_Validators i' ->
  h_ExtraData h = vanity ++ MarshalTo (IstanbulExtra_MarshalRLPWith i) ->
  h_ExtraData h' = vanity ++ MarshalTo (IstanbulExtra_MarshalRLPWith i') ->
  hashed h = hashed h' ->
  CalculateHeaderHash h = Some msg -> SignCompact k (Keccak256 [msg]) = Some sig -> acceptable sig ->
  Sign k (Keccak256 [msg]) = Some (i_Seal i') ->
  ecrecoverFromHeader h' = Some (PubKeyToAddress (publicKey k)).
Proof.
  intros Hl Hi Hi' Hv E E' Hh Hm H Ha Hseal. unfold ecrecoverFromHeader.
  rewrite (GetIbftExtra_marshal h' vanity i'), IstanbulExtra_decode by done. cbn [mbind option_bind].
  rewrite <- (CalculateHeaderHash_seals h h' vanity i i') by done. rewrite Hm. cbn [mbind option_bind].
  destruct (Sign_parts k _ sig H Ha) as (r & s & p & Es & _ & _ & Hp & Eg & _).
  rewrite Es in Hseal. injection Hseal as <-. by rewrite (RecoverPubkey_Sign k _ sig).
Qed.
End facts.

(** ** Concrete values *)

Import (hints) Demo.

Module DemoBtcec.
(** One key, whose signatures are one value. *)
Definition signature : bytes := 28 :: replicate 32 1 ++ replicate 32 2.

Lemma signature_bytes : Forall is_byte signature.
Proof. constructor; [by split|]. apply Forall_app. split; by apply Forall_replicate. Qed.

#[export, refine] Instance btcec : Btcec := {
  PrivateKey := unit;
  PublicKey := unit;
  publicKey := id;
  SignCompact _ _ := Some signature;
  RecoverCompact _ _ := Some tt;
  elliptic_Marshal _ := replicate 65 4;
}.
Proof.
  all: try done.
  - by intros _ _ ? [= <-].
  - intros _ _ ? [= <-]. apply signature_bytes.
  - by intros [] _ ? _.
Defined.

Definition key : PrivateKey := tt.
End DemoBtcec.
Import (hints) DemoBtcec.

Lemma demo_acceptable : acceptable DemoBtcec.signature.
Proof. split; [by right|by vm_compute]. Qed.

Lemma Sender_SignTx_witness :
  exists tx', signer_SignTx (EIP155Signer 2000) demo_tx DemoBtcec.key = Some tx' /\
    signer_Sender (EIP155Signer 2000) tx' = Ok (Some (PubKeyToAddress (publicKey DemoBtcec.key))).
Proof.
  apply (Sender_SignTx (EIP155Signer 2000) demo_tx DemoBtcec.key DemoBtcec.signature);
    [by split|reflexivity|apply demo_acceptable].
Defined.

Lemma Sender_panics_witness :
  signer_Sender (EIP155Signer 2000)
    (mkTransaction 0 (Some 1) 21000 None (Some 0) [] (Some 27) (Some (2 ^ 256)) (Some 1) ZeroAddress) = Panic.
Proof. apply Sender_panics; reflexivity. Defined.

Definition demo_extra (seal : bytes) : IstanbulExtra := mkIstanbulExtra [ZeroAddress] seal [[7]].
Definition demo_sealed (seal : bytes) : Header :=
  set_ExtraData (replicate 32 0 ++ MarshalTo (IstanbulExtra_MarshalRLPWith (demo_extra seal))) demo_header.

Lemma demo_extra_wf seal : extra_wf (demo_extra seal).
Proof. split; (constructor; [|done]); [apply zero_address|done]. Qed.

Lemma ecrecoverFromHeader_seal_witness :
  ecrecoverFromHeader (demo_sealed (replicate 32 1 ++ replicate 32 2 ++ [1])) = Some (PubKeyToAddress (publicKey DemoBtcec.key)).
Proof.
  apply (ecrecoverFromHeader_seal (demo_sealed []) _ (replicate 32 0) (demo_extra [])
           (demo_extra (replicate 32 1 ++ replicate 32 2 ++ [1])) DemoBtcec.key ZeroHash DemoBtcec.signature);
    try reflexivity; try apply demo_extra_wf; apply demo_acceptable.
Defined.
