(* ===== verification/StateTxn.v ===== *)
(** The transient state of a block (state/txn.go, state/state.go): accounts read
    from a committed snapshot, overlaid by a radix tree of changed objects, with
    logs and refunds, snapshots and reverts. *)

From S2P Require Import Prelude Types Chain Runtime Crypto TxTypes.

(** github.com/hashicorp/go-immutable-radix: a persistent map from byte strings,
    walked in full by [Walk]. A tree that was committed is not affected by later
    changes of the transaction it came from. *)
Class Iradix (T : Type -> Type) := {
  ir_New : forall V, T V;
  ir_Get : forall {V}, bytes -> T V -> option V;
  ir_Insert : forall {V}, bytes -> V -> T V -> T V;
  ir_Delete : forall {V}, bytes -> T V -> T V;
  ir_Walk : forall {V}, T V -> list (bytes * V);
  ir_Get_New : forall V k, ir_Get k (ir_New V) = None;
  ir_Get_Insert : forall V k (v : V) k' t,
    ir_Get k' (ir_Insert k v t) = if bool_decide (k = k') then Some v else ir_Get k' t;
  ir_Get_Delete : forall V k k' (t : T V),
    ir_Get k' (ir_Delete k t) = if bool_decide (k = k') then None else ir_Get k' t;
  ir_Walk_Get : forall V (t : T V) k v, In (k, v) (ir_Walk t) <-> ir_Get k t = Some v;
  ir_Walk_NoDup : forall V (t : T V), NoDup (map fst (ir_Walk t));
}.

(** ** Data *)

(** An account; [Snap] is the type of the tries it can read. *)
Record Account (Snap : Type) := mkAccount {
  a_Nonce : Z;
  a_Balance : Z;
  a_Root : Hash;
  a_CodeHash : bytes;
  a_Trie : Snap;
}.
Arguments mkAccount {Snap}.
Arguments a_Nonce {Snap}.
Arguments a_Balance {Snap}.
Arguments a_Root {Snap}.
Arguments a_CodeHash {Snap}.
Arguments a_Trie {Snap}.

(** [Txn] is the tree of changed slots, nil until one is; a nil value is a deleted
    slot. *)
Record StateObject (T : Type -> Type) (Snap : Type) := mkStateObject {
  so_Account : Account Snap;
  so_Code : bytes;
  so_Suicide : bool;
  so_Deleted : bool;
  so_DirtyCode : bool;
  so_Txn : option (T (option bytes));
}.
Arguments mkStateObject {T Snap}.
Arguments so_Account {T Snap}.
Arguments so_Code {T Snap}.
Arguments so_Suicide {T Snap}.
Arguments so_Deleted {T Snap}.
Arguments so_DirtyCode {T Snap}.
Arguments so_Txn {T Snap}.

Record StorageObject := mkStorageObject { s_Deleted : bool; s_Key : bytes; s_Val : bytes }.

Record Object := mkObject {
  o_Address : Address;
  o_CodeHash : Hash;
  o_Balance : Z;
  o_Root : Hash;
  o_Nonce : Z;
  o_Deleted : bool;
  o_DirtyCode : bool;
  o_Code : bytes;
  o_Storage : list StorageObject;
}.

(** The [State] and [Snapshot] interfaces; a missing key or root is [None]. A snapshot
    belongs to the database it was opened from, as it was then; a commit gives the
    snapshot of the database after it. A new snapshot is empty. *)
Class State (Snap : Type) := {
  NewSnapshotAt : Snap -> Hash -> option Snap;
  NewSnapshot : Snap;
  state_GetCode : Snap -> Hash -> bytes * bool;
  snap_Get : Snap -> bytes -> option bytes;
  snap_Commit : list Object -> Snap -> result (Snap * bytes);
  snap_Get_New : forall k, snap_Get NewSnapshot k = None;
}.

(** The values of the radix tree, told apart in the code by type assertions. *)
Inductive value (T : Type -> Type) (Snap : Type) :=
| VObject (o : StateObject T Snap)
| VLogs (l : list Log)
| VRefund (g : Z).
Arguments VObject {T Snap}.
Arguments VLogs {T Snap}.
Arguments VRefund {T Snap}.

Record txn (T : Type -> Type) (Snap : Type) := mkTxn {
  tx_snapshot : Snap;
  tx_snapshots : list (T (value T Snap));
  tx_txn : T (value T Snap);
}.
Arguments mkTxn {T Snap}.
Arguments tx_snapshot {T Snap}.
Arguments tx_snapshots {T Snap}.
Arguments tx_txn {T Snap}.

Definition emptyStateHash : Hash :=
  be_bytes 32 0x56e81f171bcc55a6ff8345e692c0f86e5b48e01b996cadc001622fb5e363b421.
Definition logIndex : bytes := BytesToHash [2].
Definition refundIndex : bytes := BytesToHash [3].
Definition zeroHash : Hash := ZeroHash.
Definition emptyCodeHash `{KK : !Keccak} : bytes := Keccak256 [].

(** ** Accounts and objects (state/state.go) *)

Section objects.
Context {T : Type -> Type} {Snap : Type}.
Context `{IR : !Iradix T, KK : !Keccak, RL : !FastRlp, ST : !State Snap}.

Definition Account_MarshalWith (a : Account Snap) : Value :=
  NewArray [NewUint (a_Nonce a); NewBigInt (a_Balance a); NewBytes (a_Root a);
            NewBytes (a_CodeHash a)].

(** The nonce, balance, root and code hash of an encoded account. *)
Definition Account_UnmarshalRlp (b : bytes) : option (Z * Z * Hash * bytes) :=
  v ← Parse b;
  elems ← GetElems v;
  match elems with
  | e0 :: e1 :: e2 :: e3 :: _ =>
      nonce ← GetUint64 e0;
      balance ← GetBigInt e1;
      root ← GetHash e2;
      codeHash ← GetBytes e3;
      Some (nonce, balance, root, codeHash)
  | _ => None
  end.

(** The balance goes through its bytes. *)
Definition Account_Copy (a : Account Snap) : Account Snap :=
  mkAccount (a_Nonce a) (set_bytes (big_bytes (a_Balance a))) (a_Root a) (a_CodeHash a) (a_Trie a).

Definition StateObject_Empty (s : StateObject T Snap) : bool :=
  (a_Nonce (so_Account s) =? 0) && (a_Balance (so_Account s) =? 0) &&
  bool_decide (a_CodeHash (so_Account s) = emptyCodeHash).

Definition GetCommitedState (s : StateObject T Snap) (key : Hash) : Hash :=
  match snap_Get (a_Trie (so_Account s)) key with
  | None => ZeroHash
  | Some val =>
      match Parse val with
      | None => ZeroHash
      | Some v => match GetBytes v with None => ZeroHash | Some res => BytesToHash res end
      end
  end.

Definition StateObject_Copy (s : StateObject T Snap) : StateObject T Snap :=
  mkStateObject (Account_Copy (so_Account s)) (so_Code s) (so_Suicide s) (so_Deleted s)
    (so_DirtyCode s) (so_Txn s).

Definition newStateObject : StateObject T Snap :=
  mkStateObject (mkAccount 0 0 emptyStateHash emptyCodeHash NewSnapshot) [] false false false None.

(** Field updates. *)
Definition set_Account (f : Account Snap -> Account Snap) (s : StateObject T Snap) :=
  mkStateObject (f (so_Account s)) (so_Code s) (so_Suicide s) (so_Deleted s) (so_DirtyCode s)
    (so_Txn s).
Definition set_Balance (f : Z -> Z) : StateObject T Snap -> StateObject T Snap :=
  set_Account (fun a => mkAccount (a_Nonce a) (f (a_Balance a)) (a_Root a) (a_CodeHash a) (a_Trie a)).
Definition set_Nonce (f : Z -> Z) : StateObject T Snap -> StateObject T Snap :=
  set_Account (fun a => mkAccount (f (a_Nonce a)) (a_Balance a) (a_Root a) (a_CodeHash a) (a_Trie a)).
Definition set_Suicide (s : StateObject T Snap) :=
  mkStateObject (so_Account s) (so_Code s) true (so_Deleted s) (so_DirtyCode s) (so_Txn s).
Definition set_Deleted (s : StateObject T Snap) :=
  mkStateObject (so_Account s) (so_Code s) (so_Suicide s) true (so_DirtyCode s) (so_Txn s).
Definition set_Code (code : bytes) (s : StateObject T Snap) :=
  mkStateObject
    (mkAccount (a_Nonce (so_Account s)) (a_Balance (so_Account s)) (a_Root (so_Account s))
       (Keccak256 [code]) (a_Trie (so_Account s)))
    code (so_Suicide s) (so_Deleted s) true (so_Txn s).
Definition set_Slot (key value : Hash) (s : StateObject T Snap) :=
  let t := match so_Txn s with None => ir_New _ | Some t => t end in
  mkStateObject (so_Account s) (so_Code s) (so_Suicide s) (so_Deleted s) (so_DirtyCode s)
    (Some (ir_Insert key (if bool_decide (value = zeroHash) then None else Some value) t)).
End objects.

(** ** The transaction (state/txn.go) *)

Module Txn.
Section txn.
Context {T : Type -> Type} {Snap : Type}.
Context `{IR : !Iradix T, KK : !Keccak, RL : !FastRlp, ST : !State Snap}.
#[local] Abbreviation txn := (txn T Snap).
#[local] Abbreviation StateObject := (StateObject T Snap).

Definition newTxn (snapshot : Snap) : txn := mkTxn snapshot [] (ir_New _).

Definition with_txn (t : T (value T Snap)) (x : txn) : txn :=
  mkTxn (tx_snapshot x) (tx_snapshots x) t.

Definition hashit (src : bytes) : bytes := keccak256 src.

Definition Snapshot (x : txn) : nat * txn :=
  (length (tx_snapshots x), mkTxn (tx_snapshot x) (tx_snapshots x ++ [tx_txn x]) (tx_txn x)).

(** Both the guard and the index can panic. *)
Definition RevertToSnapshot (id : nat) : GoM txn unit :=
  x ← get;
  if (length (tx_snapshots x) <? id)%nat then panic
  else
    tree ← deref (tx_snapshots x !! id);
    modify (with_txn tree).

(** The type assertion on the value of an address: only the 32-byte keys hold other
    values. *)
Definition as_object (v : value T Snap) : option StateObject :=
  match v with VObject o => Some o | _ => None end.

Definition loadObject (x : txn) (addr : Address) : option StateObject :=
  data ← snap_Get (tx_snapshot x) (hashit addr);
  acc ← Account_UnmarshalRlp data;
  let '(nonce, balance, root, codeHash) := acc in
  trie ← (if bool_decide (root = emptyStateHash) then Some NewSnapshot else NewSnapshotAt (tx_snapshot x) root);
  Some (mkStateObject (Account_Copy (mkAccount nonce balance root codeHash trie))
          [] false false false None).

Definition getStateObject (x : txn) (addr : Address) : option StateObject :=
  match ir_Get addr (tx_txn x) with
  | Some v =>
      obj ← as_object v;
      if so_Deleted obj then None else Some (StateObject_Copy obj)
  | None => loadObject x addr
  end.

Definition GetAccount (x : txn) (addr : Address) : option (Account Snap) :=
  so_Account <$> getStateObject x addr.

Definition insertObject (addr : Address) (o : StateObject) (x : txn) : txn :=
  with_txn (ir_Insert addr (VObject o) (tx_txn x)) x.

(** [upsertAccount] with [create] set. *)
Definition upsertAccount (addr : Address) (f : StateObject -> StateObject) (x : txn) : txn :=
  insertObject addr (f (default newStateObject (getStateObject x addr))) x.

Definition AddSealingReward (addr : Address) (balance : Z) : txn -> txn :=
  upsertAccount addr (fun o =>
    if so_Suicide o then set_Balance (fun _ => set_bytes (big_bytes balance)) newStateObject
    else set_Balance (fun b => b + balance) o).

Definition AddBalance (addr : Address) (balance : Z) : txn -> txn :=
  upsertAccount addr (set_Balance (fun b => b + balance)).

Definition GetBalance (x : txn) (addr : Address) : Z :=
  match getStateObject x addr with None => 0 | Some o => a_Balance (so_Account o) end.

Definition SubBalance (addr : Address) (amount : Z) (x : txn) : option error * txn :=
  if amount =? 0 then (None, x)
  else if GetBalance x addr <? amount then (Some ErrNotEnoughFunds, x)
  else (None, upsertAccount addr (set_Balance (fun b => b - amount)) x).

Definition SetBalance (addr : Address) (balance : Z) : txn -> txn :=
  upsertAccount addr (set_Balance (fun _ => set_bytes (big_bytes balance))).

(** *** Logs and refunds *)

Definition getLogs (x : txn) : option (list Log) :=
  match ir_Get logIndex (tx_txn x) with Some (VLogs l) => Some l | _ => None end.

Definition AddLog (log : Log) (x : txn) : txn :=
  with_txn (ir_Insert logIndex (VLogs (default [] (getLogs x) ++ [log])) (tx_txn x)) x.

Definition EmitLog (addr : Address) (topics : list Hash) (data : bytes) : txn -> txn :=
  AddLog (mkLog addr topics data).

Definition Logs (x : txn) : list Log * txn :=
  match getLogs x with
  | None => ([], x)
  | Some l => (l, with_txn (ir_Delete logIndex (tx_txn x)) x)
  end.

Definition GetRefund (x : txn) : Z :=
  match ir_Get refundIndex (tx_txn x) with Some (VRefund g) => g | _ => 0 end.

Definition setRefund (g : Z) (x : txn) : txn :=
  with_txn (ir_Insert refundIndex (VRefund g) (tx_txn x)) x.

Definition AddRefund (gas : Z) (x : txn) : txn := setRefund (u64 (GetRefund x + gas)) x.
Definition SubRefund (gas : Z) (x : txn) : txn := setRefund (u64 (GetRefund x - gas)) x.

(** *** Storage *)

Definition SetState (addr : Address) (key value : Hash) : txn -> txn :=
  upsertAccount addr (set_Slot key value).

Definition GetState (x : txn) (addr : Address) (key : Hash) : Hash :=
  match getStateObject x addr with
  | None => ZeroHash
  | Some o =>
      match (match so_Txn o with None => None | Some t => ir_Get key t end) with
      | Some None => ZeroHash
      | Some (Some val) => BytesToHash val
      | None => GetCommitedState o (BytesToHash (hashit key))
      end
  end.

Definition GetCommittedState (x : txn) (addr : Address) (key : Hash) : Hash :=
  match getStateObject x addr with
  | None => ZeroHash
  | Some o => GetCommitedState o (BytesToHash (hashit key))
  end.

Definition SetStorage (addr : Address) (key value : Hash) (config : ForksInTime) (x : txn)
    : StorageStatus * txn :=
  let oldValue := GetState x addr key in
  if hash_eqb oldValue value then (StorageUnchanged, x)
  else
    let current := oldValue in
    let original := GetCommittedState x addr key in
    let x := SetState addr key value x in
    let legacyGasMetering :=
      negb (Istanbul config) && (Petersburg config || negb (Constantinople config)) in
    if legacyGasMetering then
      if hash_eqb oldValue zeroHash then (StorageAdded, x)
      else if hash_eqb value zeroHash then (StorageDeleted, AddRefund 15000 x)
      else (StorageModified, x)
    else if hash_eqb original current then
      if hash_eqb original zeroHash then (StorageAdded, x)
      else if hash_eqb value zeroHash then (StorageDeleted, AddRefund 15000 x)
      else (StorageModified, x)
    else
      let x :=
        if negb (hash_eqb original zeroHash) then
          if hash_eqb current zeroHash then SubRefund 15000 x
          else if hash_eqb value zeroHash then AddRefund 15000 x
          else x
        else x in
      let x :=
        if hash_eqb original value then
          if hash_eqb original zeroHash then AddRefund (if Istanbul config then 19200 else 19800) x
          else AddRefund (if Istanbul config then 4200 else 4800) x
        else x in
      (StorageModifiedAgain, x).

(** *** Nonce and code *)

Definition IncrNonce (addr : Address) : txn -> txn :=
  upsertAccount addr (set_Nonce (fun n => u64 (n + 1))).

Definition SetNonce (addr : Address) (nonce : Z) : txn -> txn :=
  upsertAccount addr (set_Nonce (fun _ => nonce)).

Definition GetNonce (x : txn) (addr : Address) : Z :=
  match getStateObject x addr with None => 0 | Some o => a_Nonce (so_Account o) end.

Definition SetCode (addr : Address) (code : bytes) : txn -> txn :=
  upsertAccount addr (set_Code code).

Definition GetCode (x : txn) (addr : Address) : bytes :=
  match getStateObject x addr with
  | None => []
  | Some o =>
      if so_DirtyCode o then so_Code o
      else fst (state_GetCode (tx_snapshot x) (BytesToHash (a_CodeHash (so_Account o))))
  end.

Definition GetCodeSize (x : txn) (addr : Address) : Z := zlen (GetCode x addr).

Definition GetCodeHash (x : txn) (addr : Address) : Hash :=
  match getStateObject x addr with
  | None => ZeroHash
  | Some o => BytesToHash (a_CodeHash (so_Account o))
  end.

(** *** Life of an account *)

Definition Suicide (addr : Address) (x : txn) : bool * txn :=
  match getStateObject x addr with
  | None => (false, x)
  | Some o =>
      (negb (so_Suicide o), insertObject addr (set_Balance (fun _ => 0) (set_Suicide o)) x)
  end.

Definition HasSuicided (x : txn) (addr : Address) : bool :=
  match getStateObject x addr with None => false | Some o => so_Suicide o end.

Definition TouchAccount (addr : Address) : txn -> txn := upsertAccount addr id.

Definition Exist (x : txn) (addr : Address) : bool :=
  match getStateObject x addr with None => false | Some _ => true end.

Definition Empty (x : txn) (addr : Address) : bool :=
  match getStateObject x addr with None => true | Some o => StateObject_Empty o end.

Definition CreateAccount (addr : Address) (x : txn) : txn :=
  insertObject addr
    match getStateObject x addr with
    | None => newStateObject
    | Some prev => set_Balance (fun _ => set_bytes (big_bytes (a_Balance (so_Account prev)))) newStateObject
    end x.

(** The objects to remove: the walk happens before any of them is marked. *)
Definition removable (deleteEmptyObjects : bool) (v : value T Snap) : bool :=
  match v with
  | VObject a => so_Suicide a || (StateObject_Empty a && deleteEmptyObjects)
  | _ => false
  end.

Definition markDeleted (k : bytes) : GoM txn unit :=
  x ← get;
  v ← deref (ir_Get k (tx_txn x));
  obj ← deref (as_object v);
  modify (insertObject k (set_Deleted (StateObject_Copy obj))).

Fixpoint markAll (ks : list bytes) : GoM txn unit :=
  match ks with
  | [] => mret tt
  | k :: ks => markDeleted k;; markAll ks
  end.

Definition CleanDeleteObjects (deleteEmptyObjects : bool) : GoM txn unit :=
  x ← get;
  let remove :=
    map fst (List.filter (fun kv => removable deleteEmptyObjects (snd kv)) (ir_Walk (tx_txn x))) in
  markAll remove;;
  modify (fun x => with_txn (ir_Delete refundIndex (tx_txn x)) x).

Definition commitStorage (kv : bytes * option bytes) : StorageObject :=
  match snd kv with
  | None => mkStorageObject true (fst kv) []
  | Some v => mkStorageObject false (fst kv) v
  end.

Definition commitObject (k : bytes) (a : StateObject) : Object :=
  mkObject (BytesToAddress k) (BytesToHash (a_CodeHash (so_Account a)))
    (a_Balance (so_Account a)) (a_Root (so_Account a)) (a_Nonce (so_Account a)) (so_Deleted a)
    (so_DirtyCode a) (so_Code a)
    (if so_Deleted a then []
     else match so_Txn a with None => [] | Some t => map commitStorage (ir_Walk t) end).

Definition Commit (deleteEmptyObjects : bool) : GoM txn (list Object) :=
  CleanDeleteObjects deleteEmptyObjects;;
  x ← get;
  mret (omap (fun kv => commitObject (fst kv) <$> as_object (snd kv)) (ir_Walk (tx_txn x))).
End txn.
End Txn.
