(* ===== verification/TxnFacts.v ===== *)
(** Facts on the transient state: what each operation changes of the objects that
    can be read back, and that everything else stays. *)

From S2P Require Import Prelude Types Chain Runtime Crypto TxTypes StateTxn.

Lemma big_bytes_abs x : big_bytes (Z.abs x) = big_bytes x.
Proof.
  unfold big_bytes, bit_len. rewrite Z.abs_idemp.
  destruct (Z.eqb_spec x 0), (Z.eqb_spec (Z.abs x) 0); (lia || done).
Qed.

Lemma set_bytes_big_bytes_abs x : set_bytes (big_bytes x) = Z.abs x.
Proof. rewrite <- big_bytes_abs. apply set_bytes_big_bytes. lia. Qed.

Section facts.
Context {T : Type -> Type} {Snap : Type}.
Context `{IR : !Iradix T, KK : !Keccak, RL : !FastRlp, ST : !State Snap}.
Implicit Types (x : txn T Snap) (o : StateObject T Snap) (a : Address).

(** What reading an object guarantees. *)
Definition live o : Prop := so_Deleted o = false /\ 0 <= a_Balance (so_Account o).

Lemma Account_Copy_id (acc : Account Snap) : 0 <= a_Balance acc -> Account_Copy acc = acc.
Proof.
  intros H. destruct acc as [n b r c t]. unfold Account_Copy; simpl in *.
  by rewrite set_bytes_big_bytes_abs, Z.abs_eq.
Qed.

Lemma StateObject_Copy_id o : live o -> StateObject_Copy o = o.
Proof.
  intros [Hd Hb]. destruct o. unfold StateObject_Copy; simpl in *. by rewrite Account_Copy_id.
Qed.

Lemma getStateObject_live x a o : Txn.getStateObject x a = Some o -> live o.
Proof.
  unfold Txn.getStateObject, Txn.loadObject. intros H.
  assert (Hpos : forall z, 0 <= set_bytes (big_bytes z)) by (intros; rewrite set_bytes_big_bytes_abs; lia).
  destruct (ir_Get a (tx_txn x)) as [v|].
  - destruct v as [o'| |]; simpl in H; try done.
    destruct (so_Deleted o') eqn:Hd; [done|]. simplify_eq. split; simpl; auto.
  - destruct (snap_Get _ _) as [d|]; simpl in H; [|done].
    destruct (Account_UnmarshalRlp d) as [[[[n b] r] c]|]; simpl in H; [|done].
    destruct (if bool_decide (r = emptyStateHash) then _ else _) as [t|]; simpl in H; [|done].
    simplify_eq. split; simpl; auto.
Qed.

Lemma newStateObject_live : live newStateObject.
Proof. by split. Qed.

Lemma default_live x a : live (default newStateObject (Txn.getStateObject x a)).
Proof.
  destruct (Txn.getStateObject x a) eqn:E; simpl; [by eapply getStateObject_live|].
  apply newStateObject_live.
Qed.

Lemma get_insertObject x a o a' :
  Txn.getStateObject (Txn.insertObject a o x) a' =
    if bool_decide (a = a') then if so_Deleted o then None else Some (StateObject_Copy o)
    else Txn.getStateObject x a'.
Proof.
  unfold Txn.getStateObject, Txn.insertObject. simpl. rewrite ir_Get_Insert.
  by destruct (bool_decide (a = a')).
Qed.

Lemma get_insert_live x a o a' :
  live o ->
  Txn.getStateObject (Txn.insertObject a o x) a' =
    if bool_decide (a = a') then Some o else Txn.getStateObject x a'.
Proof.
  intros Ho. rewrite get_insertObject, StateObject_Copy_id by done. by destruct Ho as [-> _].
Qed.

(** Reading back an updated account: the update where it was made, the old object
    elsewhere. *)
Lemma get_upsert x a f a' :
  live (f (default newStateObject (Txn.getStateObject x a))) ->
  Txn.getStateObject (Txn.upsertAccount a f x) a' =
    if bool_decide (a = a') then Some (f (default newStateObject (Txn.getStateObject x a)))
    else Txn.getStateObject x a'.
Proof. intros Hf. unfold Txn.upsertAccount. by rewrite get_insert_live. Qed.

Lemma get_upsert_ne x a f a' :
  a <> a' -> Txn.getStateObject (Txn.upsertAccount a f x) a' = Txn.getStateObject x a'.
Proof.
  intros H. unfold Txn.upsertAccount. rewrite get_insertObject.
  by rewrite bool_decide_eq_false_2.
Qed.

Lemma live_set_Nonce f o : live o -> live (set_Nonce f o).
Proof. done. Qed.
Lemma live_set_Code c o : live o -> live (set_Code c o).
Proof. done. Qed.
Lemma live_set_Slot k v o : live o -> live (set_Slot k v o).
Proof. done. Qed.
Lemma live_set_Balance f o :
  live o -> (0 <= a_Balance (so_Account o) -> 0 <= f (a_Balance (so_Account o))) -> live (set_Balance f o).
Proof. intros [Hd Hb] Hf. split; simpl; auto. Qed.

(** The default object reads like a missing one. *)
Lemma GetBalance_default x a :
  Txn.GetBalance x a = a_Balance (so_Account (default newStateObject (Txn.getStateObject x a))).
Proof. unfold Txn.GetBalance. by destruct (Txn.getStateObject x a). Qed.
Lemma GetNonce_default x a :
  Txn.GetNonce x a = a_Nonce (so_Account (default newStateObject (Txn.getStateObject x a))).
Proof. unfold Txn.GetNonce. by destruct (Txn.getStateObject x a). Qed.

Lemma GetBalance_nonneg x a : 0 <= Txn.GetBalance x a.
Proof. rewrite GetBalance_default. apply default_live. Qed.

(** ** Balances *)

Lemma GetBalance_AddBalance x a v a' :
  0 <= Txn.GetBalance x a + v ->
  Txn.GetBalance (Txn.AddBalance a v x) a' =
    if bool_decide (a = a') then Txn.GetBalance x a + v else Txn.GetBalance x a'.
Proof.
  intros Hv. rewrite GetBalance_default in Hv. unfold Txn.GetBalance at 1, Txn.AddBalance.
  rewrite get_upsert by (apply live_set_Balance; [apply default_live|done]).
  case_bool_decide; [|done]. simpl. by rewrite GetBalance_default.
Qed.

Lemma SubBalance_spec x a v :
  0 <= v ->
  (v <= Txn.GetBalance x a /\ fst (Txn.SubBalance a v x) = None /\
   forall a', Txn.GetBalance (snd (Txn.SubBalance a v x)) a' =
     if bool_decide (a = a') then Txn.GetBalance x a - v else Txn.GetBalance x a') \/
  (Txn.GetBalance x a < v /\ Txn.SubBalance a v x = (Some ErrNotEnoughFunds, x)).
Proof.
  intros Hv. unfold Txn.SubBalance. destruct (Z.eqb_spec v 0) as [->|H0].
  { left. pose proof (GetBalance_nonneg x a). split; [lia|]. split; [done|]. intros a'.
    case_bool_decide; subst; simpl; lia. }
  destruct (Z.ltb_spec (Txn.GetBalance x a) v) as [H|H]; [by right|left].
  split; [done|]. split; [done|]. intros a'. simpl.
  rewrite GetBalance_default in H. unfold Txn.GetBalance at 1.
  rewrite get_upsert by (apply live_set_Balance; [apply default_live|lia]).
  case_bool_decide; [|done]. simpl. by rewrite GetBalance_default.
Qed.

Lemma get_CreateAccount x a a' :
  Txn.getStateObject (Txn.CreateAccount a x) a' =
    (if decide (a = a') then Some (set_Balance (fun _ => Txn.GetBalance x a) newStateObject)
     else Txn.getStateObject x a') /\
  Txn.getStateObject (Txn.CreateAccount a x) a =
    Some (set_Balance (fun _ => Txn.GetBalance x a) newStateObject).
Proof.
  assert (Hx : Txn.CreateAccount a x =
    Txn.insertObject a (set_Balance (fun _ => Txn.GetBalance x a) newStateObject) x).
  { unfold Txn.CreateAccount, Txn.GetBalance. destruct (Txn.getStateObject x a) as [o|] eqn:E; [|done].
    destruct (getStateObject_live x a o E) as [_ Hb].
    rewrite set_bytes_big_bytes_abs. by rewrite Z.abs_eq. }
  rewrite Hx, !get_insert_live by (split; [done|apply GetBalance_nonneg]).
  rewrite (bool_decide_eq_true_2 (a = a)) by done. split; [|done].
  case_bool_decide; case_decide; done.
Qed.

(** ** Keys of different kinds *)

Lemma address_key a : is_address a -> a <> logIndex /\ a <> refundIndex.
Proof. intros [H _]. split; intros ->; discriminate H. Qed.

Lemma log_refund_key : logIndex <> refundIndex.
Proof. discriminate. Qed.

Lemma get_with_other x k v a :
  a <> k -> Txn.getStateObject (Txn.with_txn (ir_Insert k v (tx_txn x)) x) a = Txn.getStateObject x a.
Proof.
  intros H. unfold Txn.getStateObject. simpl. rewrite ir_Get_Insert.
  by rewrite bool_decide_eq_false_2 by congruence.
Qed.

Lemma get_setRefund x g a :
  is_address a -> Txn.getStateObject (Txn.setRefund g x) a = Txn.getStateObject x a.
Proof. intros Ha. apply get_with_other. by apply address_key. Qed.

Lemma GetRefund_setRefund x g : Txn.GetRefund (Txn.setRefund g x) = g.
Proof. unfold Txn.GetRefund, Txn.setRefund. simpl. rewrite ir_Get_Insert. by rewrite bool_decide_eq_true_2. Qed.

Lemma GetRefund_insertObject x a o :
  is_address a -> Txn.GetRefund (Txn.insertObject a o x) = Txn.GetRefund x.
Proof.
  intros Ha. destruct (address_key a Ha) as [_ H]. unfold Txn.GetRefund, Txn.insertObject. simpl.
  rewrite ir_Get_Insert. by rewrite bool_decide_eq_false_2.
Qed.

Lemma GetRefund_upsert x a f :
  is_address a -> Txn.GetRefund (Txn.upsertAccount a f x) = Txn.GetRefund x.
Proof. apply GetRefund_insertObject. Qed.

(** ** Storage *)

(** Reading a slot of an object. *)
Definition slot o (key : Hash) : Hash :=
  match (match so_Txn o with None => None | Some t => ir_Get key t end) with
  | Some None => ZeroHash
  | Some (Some val) => BytesToHash val
  | None => GetCommitedState o (BytesToHash (Txn.hashit key))
  end.

Lemma committed_new h : GetCommitedState (newStateObject : StateObject T Snap) h = ZeroHash.
Proof. unfold GetCommitedState. simpl. by rewrite snap_Get_New. Qed.

Lemma GetState_default x a k :
  Txn.GetState x a k = slot (default newStateObject (Txn.getStateObject x a)) k.
Proof.
  unfold Txn.GetState. destruct (Txn.getStateObject x a); [done|]. symmetry. apply committed_new.
Qed.

Lemma GetCommittedState_default x a k :
  Txn.GetCommittedState x a k =
    GetCommitedState (default newStateObject (Txn.getStateObject x a)) (BytesToHash (Txn.hashit k)).
Proof.
  unfold Txn.GetCommittedState. destruct (Txn.getStateObject x a); [done|].
  symmetry. apply committed_new.
Qed.

Lemma slot_set_Slot o k v k' :
  is_hash v -> slot (set_Slot k v o) k' = if bool_decide (k = k') then v else slot o k'.
Proof.
  intros Hv. unfold slot. simpl. rewrite ir_Get_Insert. case_bool_decide as E.
  - destruct (decide (v = zeroHash)) as [->|Hz]; [by rewrite bool_decide_eq_true_2|].
    rewrite bool_decide_eq_false_2 by done. by apply BytesToHash_hash.
  - destruct (so_Txn o); [done|]. by rewrite ir_Get_New.
Qed.

Lemma GetState_SetState x a k v a' k' :
  is_hash v ->
  Txn.GetState (Txn.SetState a k v x) a' k' =
    if bool_decide (a = a' /\ k = k') then v else Txn.GetState x a' k'.
Proof.
  intros Hv. rewrite !GetState_default. unfold Txn.SetState.
  rewrite get_upsert by apply live_set_Slot, default_live.
  destruct (decide (a = a')) as [<-|Hne].
  - rewrite bool_decide_eq_true_2 by done. simpl. rewrite slot_set_Slot by done.
    by destruct (decide (k = k')); [rewrite !bool_decide_eq_true_2|rewrite !bool_decide_eq_false_2 by tauto].
  - by rewrite !bool_decide_eq_false_2 by tauto.
Qed.

Lemma GetCommittedState_SetState x a k v a' k' :
  Txn.GetCommittedState (Txn.SetState a k v x) a' k' = Txn.GetCommittedState x a' k'.
Proof.
  rewrite !GetCommittedState_default. unfold Txn.SetState.
  rewrite get_upsert by apply live_set_Slot, default_live.
  case_bool_decide; [by subst|done].
Qed.

Lemma GetState_setRefund x g a k :
  is_address a -> Txn.GetState (Txn.setRefund g x) a k = Txn.GetState x a k.
Proof. intros Ha. rewrite !GetState_default. by rewrite get_setRefund. Qed.

Lemma GetCommittedState_setRefund x g a k :
  is_address a -> Txn.GetCommittedState (Txn.setRefund g x) a k = Txn.GetCommittedState x a k.
Proof. intros Ha. rewrite !GetCommittedState_default. by rewrite get_setRefund. Qed.

(** ** Net gas metering *)

(** The outcome of a write by the text of EIP-2200 (EIP-1283 before Istanbul): the
    status, which decides the price, and the change of the refund counter, for the
    original value of the slot, its current value and the new one. *)
Definition legacy_metering (config : ForksInTime) : bool :=
  negb (Istanbul config) && (Petersburg config || negb (Constantinople config)).

Definition net_status (original current new : Hash) : StorageStatus :=
  if decide (current = new) then StorageUnchanged
  else if decide (original = current) then
    if decide (original = zeroHash) then StorageAdded
    else if decide (new = zeroHash) then StorageDeleted else StorageModified
  else StorageModifiedAgain.

Definition net_refund (istanbul : bool) (original current new : Hash) : Z :=
  if decide (current = new) then 0
  else if decide (original = current) then
    if decide (original <> zeroHash /\ new = zeroHash) then 15000 else 0
  else
    (if decide (original <> zeroHash) then
       if decide (current = zeroHash) then -15000
       else if decide (new = zeroHash) then 15000 else 0
     else 0) +
    (if decide (original = new) then
       if decide (original = zeroHash) then if istanbul then 19200 else 19800
       else if istanbul then 4200 else 4800
     else 0).

(** [x'] is [x] after the slot was written and the refund changed by [d]. *)
Record slot_written x a (k v : Hash) (d : Z) (x' : txn T Snap) : Prop := {
  sw_state : forall a' k', is_address a' ->
    Txn.GetState x' a' k' = if bool_decide (a = a' /\ k = k') then v else Txn.GetState x a' k';
  sw_committed : forall a' k', is_address a' ->
    Txn.GetCommittedState x' a' k' = Txn.GetCommittedState x a' k';
  sw_refund : Txn.GetRefund x' = u64 (Txn.GetRefund x + d);
}.

Lemma slot_written_SetState x a k v :
  is_address a -> is_hash v -> is_u64 (Txn.GetRefund x) ->
  slot_written x a k v 0 (Txn.SetState a k v x).
Proof.
  intros Ha Hv Hr. split; intros.
  - by apply GetState_SetState.
  - apply GetCommittedState_SetState.
  - unfold Txn.SetState. by rewrite GetRefund_upsert, Z.add_0_r, u64_small.
Qed.

Lemma u64_add_u64 (n m : Z) : u64 (u64 n + m) = u64 (n + m).
Proof. unfold u64. apply Z.add_mod_idemp_l. discriminate. Qed.

Lemma slot_written_refund x a k v d x' d' :
  slot_written x a k v d x' ->
  slot_written x a k v (d + d') (Txn.setRefund (u64 (Txn.GetRefund x' + d')) x').
Proof.
  intros [H1 H2 H3]. split; intros.
  - rewrite GetState_setRefund by done. auto.
  - rewrite GetCommittedState_setRefund by done. auto.
  - rewrite GetRefund_setRefund, H3, u64_add_u64. f_equal. lia.
Qed.

Lemma slot_written_eq x a k v d d' x' :
  slot_written x a k v d x' -> d = d' -> slot_written x a k v d' x'.
Proof. by intros ? ->. Qed.

Lemma slot_unchanged x a k :
  is_u64 (Txn.GetRefund x) -> slot_written x a k (Txn.GetState x a k) 0 x.
Proof.
  intros Hr. split; intros.
  - case_bool_decide as E; [|done]. by destruct E as [-> ->].
  - done.
  - by rewrite Z.add_0_r, u64_small.
Qed.

Lemma hash_eqb_decide (h h' : Hash) : hash_eqb h h' = if decide (h = h') then true else false.
Proof. unfold hash_eqb. by destruct (decide (h = h')); [rewrite bool_decide_eq_true_2|rewrite bool_decide_eq_false_2]. Qed.

(** A write is metered by the text of the EIP. *)
Lemma SetStorage_net x a k v config :
  is_address a -> is_hash v -> is_u64 (Txn.GetRefund x) -> legacy_metering config = false ->
  let original := Txn.GetCommittedState x a k in
  let current := Txn.GetState x a k in
  fst (Txn.SetStorage a k v config x) = net_status original current v /\
  slot_written x a k v (net_refund (Istanbul config) original current v)
    (snd (Txn.SetStorage a k v config x)).
Proof.
  intros Ha Hv Hr Hl original current. unfold Txn.SetStorage.
  fold (legacy_metering config). rewrite Hl. fold current. fold original.
  pose proof (slot_written_SetState x a k v Ha Hv Hr) as Hw.
  unfold net_status, net_refund. rewrite !hash_eqb_decide.
  destruct (decide (current = v)) as [<-|Hne]; [split; [done|by apply slot_unchanged]|].
  destruct (decide (original = current)) as [Hoc|Hoc].
  - destruct (decide (original = zeroHash)) as [Hz|Hz]; simpl.
    { split; [done|]. destruct (decide _) as [[]|]; done. }
    destruct (decide (v = zeroHash)) as [Hv0|Hv0]; simpl.
    + split; [done|]. destruct (decide _) as [|Hn]; [|tauto].
      eapply slot_written_eq; [by apply slot_written_refund|done].
    + split; [done|]. destruct (decide _) as [[]|]; done.
  - simpl. split; [done|].
    set (x1 := Txn.SetState a k v x) in *.
    set (x2 := if negb _ then _ else _).
    assert (H2 : slot_written x a k v
              (if decide (original <> zeroHash) then
                 if decide (current = zeroHash) then -15000
                 else if decide (v = zeroHash) then 15000 else 0
               else 0) x2).
    { subst x2. destruct (decide (original = zeroHash)), (decide (original <> zeroHash)); try done.
      simpl. destruct (decide (current = zeroHash)); [|destruct (decide (v = zeroHash)); [|done]];
        (eapply slot_written_eq; [by apply slot_written_refund|done]). }
    destruct (decide (original = v)); [|by rewrite Z.add_0_r].
    destruct (decide (original = zeroHash)); by apply slot_written_refund.
Qed.

(** ** The refund counter covers the cleared slots *)

(** What a slot may still take back from the counter: 15000 when it held a value
    that has been cleared. *)
Definition owed x (s : Address * Hash) : Z :=
  if decide (Txn.GetCommittedState x (fst s) (snd s) <> zeroHash /\
             Txn.GetState x (fst s) (snd s) = zeroHash) then 15000 else 0.

Fixpoint total {A} (f : A -> Z) (l : list A) : Z :=
  match l with [] => 0 | y :: l => f y + total f l end.

(** The counter covers what all slots together may take back. *)
Definition refund_covers x : Prop :=
  forall L, NoDup L -> Forall (fun s : Address * Hash => is_address (fst s)) L ->
    total (owed x) L <= Txn.GetRefund x.

Lemma total_update {A} `{EqDecision A} (f f' : A -> Z) y l :
  NoDup l -> (forall z, z ∈ l -> z <> y -> f' z = f z) ->
  total f' l = total f l + (if decide (y ∈ l) then f' y - f y else 0).
Proof.
  induction 1 as [|z l Hz Hl IH]; intros Hf; simpl.
  { destruct (decide (y ∈ [])) as [H|]; [by apply not_elem_of_nil in H|done]. }
  rewrite IH by (intros; apply Hf; [by right|done]).
  destruct (decide (z = y)) as [->|Hne].
  - rewrite (decide_False (P := y ∈ l)) by done. rewrite decide_True by left. lia.
  - rewrite Hf by (done || left).
    destruct (decide (y ∈ l)) as [Hin|Hin].
    + rewrite decide_True by by right. lia.
    + rewrite decide_False by (rewrite elem_of_cons; intros [|]; congruence). lia.
Qed.

Lemma net_refund_owed ist original current new :
  (if decide (original <> zeroHash /\ new = zeroHash) then 15000 else 0) -
  (if decide (original <> zeroHash /\ current = zeroHash) then 15000 else 0) <=
  net_refund ist original current new <= 34800.
Proof.
  unfold net_refund. split; repeat case_decide; subst; try (destruct ist); try lia; try tauto;
    destruct_and?; congruence.
Qed.

Lemma owed_nonneg x s : 0 <= owed x s.
Proof. unfold owed. destruct (decide _); lia. Qed.

Lemma owed_written x a k v d x' s :
  slot_written x a k v d x' -> is_address (fst s) ->
  owed x' s =
    if decide (s = (a, k))
    then if decide (Txn.GetCommittedState x a k <> zeroHash /\ v = zeroHash) then 15000 else 0
    else owed x s.
Proof.
  intros [H1 H2 _] Ha. destruct s as [a' k']. unfold owed. simpl in *.
  rewrite H1, H2 by done. destruct (decide ((a', k') = (a, k))) as [[= -> ->]|Hne].
  - by rewrite bool_decide_eq_true_2.
  - rewrite bool_decide_eq_false_2; [done|]. intros [-> ->]. by apply Hne.
Qed.

Lemma refund_covers_written ist x a k v x' :
  is_address a -> refund_covers x -> Txn.GetRefund x + 34800 < two64 ->
  slot_written x a k v
    (net_refund ist (Txn.GetCommittedState x a k) (Txn.GetState x a k) v) x' ->
  refund_covers x' /\
  Txn.GetRefund x' = Txn.GetRefund x +
    net_refund ist (Txn.GetCommittedState x a k) (Txn.GetState x a k) v.
Proof.
  intros Ha Hcov Hlim Hw. set (d := net_refund _ _ _ _) in *.
  pose proof (net_refund_owed ist (Txn.GetCommittedState x a k) (Txn.GetState x a k) v) as Hd.
  fold d in Hd. fold (owed x (a, k)) in Hd.
  assert (Hak : owed x' (a, k) - owed x (a, k) <= d).
  { rewrite (owed_written _ _ _ _ _ _ _ Hw) by done. rewrite decide_True by done.
    unfold owed at 1. simpl. lia. }
  assert (Hone : owed x (a, k) <= Txn.GetRefund x).
  { specialize (Hcov [(a, k)] ltac:(apply NoDup_singleton) ltac:(by constructor)).
    simpl in Hcov. lia. }
  assert (Hpos : 0 <= Txn.GetRefund x + d).
  { pose proof (owed_nonneg x' (a, k)). lia. }
  assert (HR : Txn.GetRefund x' = Txn.GetRefund x + d).
  { rewrite (sw_refund _ _ _ _ _ _ Hw). apply u64_small. unfold is_u64. lia. }
  split; [|done]. intros L HL HF. rewrite HR.
  rewrite (total_update (owed x) (owed x') (a, k) L) by
    (done || (intros z Hz Hne; rewrite (owed_written _ _ _ _ _ _ _ Hw);
              [by rewrite decide_False | exact (proj1 (Forall_forall _ _) HF z (proj1 (list_elem_of_In _ _) Hz))])).
  destruct (decide ((a, k) ∈ L)) as [Hin|Hin].
  - specialize (Hcov L HL HF). lia.
  - specialize (Hcov ((a, k) :: L)). simpl in Hcov. pose proof (owed_nonneg x' (a, k)).
    assert (owed x (a, k) + total (owed x) L <= Txn.GetRefund x); [|lia].
    apply Hcov; by constructor.
Qed.

(** ** Snapshots *)

(** [x'] comes after [x] in the same block: the snapshots of [x] are still there. *)
Definition after x (x' : txn T Snap) : Prop :=
  tx_snapshot x' = tx_snapshot x /\ tx_snapshots x `prefix_of` tx_snapshots x'.

#[global] Instance after_preorder : PreOrder after.
Proof.
  split; [by intros x|]. intros x y z [H1 H2] [H3 H4]. split; [congruence|by etrans].
Qed.

Lemma after_with_txn x t : after x (Txn.with_txn t x).
Proof. by split. Qed.

Lemma after_Snapshot x : after x (snd (Txn.Snapshot x)).
Proof. split; [done|]. by apply prefix_app_r. Qed.

(** Reverting brings back the tree of the snapshot, and keeps all snapshots. *)
Lemma RevertToSnapshot_run x x2 :
  after (snd (Txn.Snapshot x)) x2 ->
  Txn.RevertToSnapshot (fst (Txn.Snapshot x)) x2 = (Ok tt, Txn.with_txn (tx_txn x) x2).
Proof.
  intros [_ [l Hl]]. simpl in *. unfold Txn.RevertToSnapshot, get, mbind, GoM_bind.
  rewrite Hl. destruct (Nat.ltb_spec (length ((tx_snapshots x ++ [tx_txn x]) ++ l)) (length (tx_snapshots x)))
    as [H|_].
  { rewrite !length_app in H. lia. }
  rewrite <- app_assoc, lookup_app_r, Nat.sub_diag by lia. done.
Qed.

(** Everything that can be read depends on the tree and the committed snapshot. *)
Lemma getStateObject_same x x2 a :
  tx_snapshot x2 = tx_snapshot x ->
  Txn.getStateObject (Txn.with_txn (tx_txn x) x2) a = Txn.getStateObject x a.
Proof. intros H. unfold Txn.getStateObject, Txn.loadObject. simpl. by rewrite H. Qed.

(** ** Removal of dead objects *)

Definition is_object x k : Prop := exists o, ir_Get k (tx_txn x) = Some (VObject o).

Lemma markDeleted_run x k o :
  ir_Get k (tx_txn x) = Some (VObject o) ->
  Txn.markDeleted k x = (Ok tt, Txn.insertObject k (set_Deleted (StateObject_Copy o)) x).
Proof. intros H. unfold Txn.markDeleted, get, mbind, GoM_bind. by rewrite H. Qed.

(** Marking a list of objects marks them and nothing else. *)
Lemma markAll_run ks x :
  NoDup ks -> Forall (is_object x) ks ->
  exists x', Txn.markAll ks x = (Ok tt, x') /\ after x x' /\
    forall k, ir_Get k (tx_txn x') =
      match ir_Get k (tx_txn x) with
      | Some (VObject o) =>
          Some (VObject (if decide (k ∈ ks) then set_Deleted (StateObject_Copy o) else o))
      | v => v
      end.
Proof.
  intros Hnd. revert x. induction Hnd as [|k ks Hk Hnd IH]; intros x HF.
  { exists x. split; [done|]. split; [done|]. intros k.
    destruct (ir_Get k (tx_txn x)) as [[o| |]|]; done. }
  inversion_clear HF as [|? ? [o Ho] HF']. cbn [Txn.markAll].
  rewrite (bind_ok _ _ _ _ _ (markDeleted_run x k o Ho)).
  set (x1 := Txn.insertObject k _ x).
  assert (Hget : forall k', ir_Get k' (tx_txn x1) =
            if bool_decide (k = k') then Some (VObject (set_Deleted (StateObject_Copy o)))
            else ir_Get k' (tx_txn x)) by (intros; apply ir_Get_Insert).
  destruct (IH x1) as (x' & -> & Ha & Hx').
  { rewrite Forall_forall. intros k' Hin. apply list_elem_of_In in Hin.
    assert (k <> k') by (intros ->; done).
    unfold is_object. rewrite Hget, bool_decide_eq_false_2 by done.
    rewrite Forall_forall in HF'. apply HF'. by apply list_elem_of_In. }
  exists x'. split; [done|]. split; [by etrans; [apply after_with_txn|]|]. intros k'.
  rewrite Hx', Hget. case_bool_decide as E; [subst k'|].
  - rewrite Ho, decide_False by done. by rewrite decide_True by left.
  - destruct (ir_Get k' (tx_txn x)) as [[o'| |]|]; try done. do 2 f_equal.
    destruct (decide (k' ∈ ks)) as [Hin|Hin].
    + by rewrite decide_True by by right.
    + by rewrite decide_False by (rewrite elem_of_cons; intros [|]; congruence).
Qed.

Lemma NoDup_map_filter {A B} (f : A -> B) (p : A -> bool) l :
  NoDup (map f l) -> NoDup (map f (List.filter p l)).
Proof.
  induction l as [|y l IH]; simpl; [done|]. rewrite list.NoDup_cons. intros [Hn Hnd].
  destruct (p y); simpl; [|by apply IH]. rewrite list.NoDup_cons. split; [|by apply IH].
  intros Hin. apply Hn. rewrite list_elem_of_In, in_map_iff in Hin |- *.
  destruct Hin as (z & <- & Hz). apply filter_In in Hz as [Hz _]. by exists z.
Qed.

Lemma CleanDeleteObjects_run del x :
  exists x', Txn.CleanDeleteObjects del x = (Ok tt, x') /\ after x x' /\
    Txn.GetRefund x' = 0 /\ Txn.getLogs x' = Txn.getLogs x /\
    forall a, is_address a ->
      Txn.getStateObject x' a =
        if match ir_Get a (tx_txn x) with Some v => Txn.removable del v | None => false end
        then None else Txn.getStateObject x a.
Proof.
  unfold Txn.CleanDeleteObjects. rewrite (bind_ok _ _ _ _ _ (eq_refl : get x = (Ok x, x))).
  cbv beta zeta. set (ks := map fst _).
  assert (Hks : forall k, k ∈ ks <-> exists v, ir_Get k (tx_txn x) = Some v /\ Txn.removable del v = true).
  { intros k. subst ks. rewrite list_elem_of_In, in_map_iff. split.
    - intros ([k' v] & <- & Hin). apply filter_In in Hin as [Hin Hr].
      exists v. split; [by apply ir_Walk_Get|done].
    - intros (v & Hv & Hr). exists (k, v). split; [done|]. apply filter_In. split; [|done].
      by apply ir_Walk_Get. }
  assert (Hobj : Forall (is_object x) ks).
  { rewrite Forall_forall. intros k Hk. apply list_elem_of_In, Hks in Hk as (v & Hv & Hr).
    destruct v as [o| |]; try done. by exists o. }
  destruct (markAll_run ks x) as (x1 & E & Ha & Hget);
    [apply NoDup_map_filter, ir_Walk_NoDup|done|].
  rewrite (bind_ok _ _ _ _ _ E). eexists. split; [done|]. split; [by etrans; [|apply after_with_txn]|].
  split; [|split].
  - unfold Txn.GetRefund. simpl. rewrite ir_Get_Delete. by rewrite bool_decide_eq_true_2.
  - unfold Txn.getLogs. simpl. rewrite ir_Get_Delete, bool_decide_eq_false_2 by discriminate.
    rewrite Hget. by destruct (ir_Get logIndex (tx_txn x)) as [[]|].
  - intros a Haddr. destruct (address_key a Haddr) as [_ Hne].
    unfold Txn.getStateObject at 1, Txn.loadObject at 1. simpl.
    rewrite ir_Get_Delete, bool_decide_eq_false_2, Hget by congruence.
    destruct Ha as [Hs _]. rewrite Hs.
    unfold Txn.getStateObject. destruct (ir_Get a (tx_txn x)) as [v|] eqn:Ev; [|done].
    destruct v as [o| |]; simpl; try done.
    destruct (decide (a ∈ ks)) as [Hin|Hin]; simpl.
    + apply Hks in Hin as (v & Hv & Hr). rewrite Ev in Hv. injection Hv as <-. simpl in Hr. by rewrite Hr.
    + destruct (so_Suicide o || _) eqn:Hr; [|done]. exfalso. apply Hin, Hks. by eexists.
Qed.
End facts.
