(* ===== verification/TxnCorrect.v ===== *)
(** What the transient state of a block promises: balances, storage and its
    metering, snapshots, and the removal of dead accounts. *)

From S2P Require Import Prelude Types Chain Runtime Crypto Slice Instances TxTypes.
From S2P Require Import StateTxn TxnFacts.

(** ** Concrete trees and snapshots *)

Module DemoState.
#[export, refine] Instance radix : Iradix (gmap bytes) := {
  ir_New V := ∅;
  ir_Get V k t := t !! k;
  ir_Insert V k v t := <[k := v]> t;
  ir_Delete V k t := delete k t;
  ir_Walk V t := map_to_list t;
}.
Proof.
  - intros V k. apply lookup_empty.
  - intros V k v k' t. case_bool_decide as E; [subst; apply lookup_insert_eq|by apply lookup_insert_ne].
  - intros V k k' t. case_bool_decide as E; [subst; apply lookup_delete_eq|by apply lookup_delete_ne].
  - intros V t k v. rewrite <- list_elem_of_In. apply elem_of_map_to_list.
  - intros V t. apply NoDup_fst_map_to_list.
Defined.

Import Demo.

(** Slot values and accounts as they are stored. *)
Definition trie : gmap bytes bytes := {[ZeroHash := MarshalTo (NewBytes [5])]}.

(** Every root leads to one trie. *)
#[export, refine] Instance state : State (gmap bytes bytes) := {
  NewSnapshotAt _ _ := Some trie;
  NewSnapshot := ∅;
  state_GetCode _ _ := ([], false);
  snap_Get t k := t !! k;
  snap_Commit _ t := Ok (t, []);
}.
Proof. intros k. apply lookup_empty. Defined.

(** A committed state in which every address has 1000 and one slot holding 5. *)
Definition account : Account (gmap bytes bytes) := mkAccount 1 1000 ZeroHash (Keccak256 []) trie.
Definition committed : gmap bytes bytes := {[ZeroHash := MarshalTo (Account_MarshalWith account)]}.
Definition start : txn (gmap bytes) (gmap bytes bytes) := Txn.newTxn committed.

Definition addr (n : Z) : Address := BytesToAddress [n].
Definition hash (n : Z) : Hash := BytesToHash [n].

Lemma BytesToHash_is_hash b : Forall is_byte b -> is_hash (BytesToHash b).
Proof.
  intros Hb. split; [apply length_fixed_of_bytes|by apply fixed_of_bytes_is_byte].
Qed.
Lemma addr_ok n : is_byte n -> is_address (addr n).
Proof.
  intros Hn. split; [apply length_fixed_of_bytes|]. apply fixed_of_bytes_is_byte. by constructor.
Qed.
Lemma hash_ok n : is_byte n -> is_hash (hash n).
Proof. intros Hn. apply BytesToHash_is_hash. by constructor. Qed.
End DemoState.

Section claims.
Context {T : Type -> Type} {Snap : Type}.
Context `{IR : !Iradix T, KK : !Keccak, RL : !FastRlp, ST : !State Snap}.
Implicit Types (x : txn T Snap) (a : Address).

(** A block starts with nothing to take back. *)
Lemma refund_covers_newTxn (s : Snap) : refund_covers (Txn.newTxn s : txn T Snap).
Proof.
  intros L HL HF. unfold Txn.GetRefund. simpl. rewrite ir_Get_New.
  induction HL as [|[a k] L _ _ IH]; simpl; [done|]. inversion_clear HF as [|? ? Ha HF'].
  specialize (IH HF'). assert (owed (Txn.newTxn s) (a, k) = 0); [|lia].
  unfold owed. destruct (decide _) as [[Hc Hs]|]; [|done]. exfalso. apply Hc. simpl in *.
  rewrite GetState_default in Hs. rewrite GetCommittedState_default.
  unfold slot in Hs. simpl in *.
  assert (Htx : so_Txn (default newStateObject (Txn.getStateObject (Txn.newTxn s : txn T Snap) a)) = None).
  { unfold Txn.getStateObject, Txn.loadObject. simpl. rewrite ir_Get_New.
    destruct (snap_Get s (Txn.hashit a)) as [d|]; simpl; [|done].
    destruct (Account_UnmarshalRlp d) as [[[[n b] r] c]|]; simpl; [|done].
    by destruct (if bool_decide (r = emptyStateHash) then _ else _). }
  by rewrite Htx in Hs.
Qed.

(** A sequence of writes, each an address, a slot and a value. *)
Definition writes (config : ForksInTime) (l : list (Address * Hash * Hash)) x : txn T Snap :=
  fold_left (fun x '(a, k, v) => snd (Txn.SetStorage a k v config x)) l x.

Definition write_ok (w : Address * Hash * Hash) : Prop :=
  is_address (fst (fst w)) /\ is_hash (snd w).

(** The refunds the EIP gives for the writes, one after the other. *)
Fixpoint net_refunds (config : ForksInTime) (l : list (Address * Hash * Hash)) x : Z :=
  match l with
  | [] => 0
  | (a, k, v) :: l =>
      net_refund (Istanbul config) (Txn.GetCommittedState x a k) (Txn.GetState x a k) v +
      net_refunds config l (snd (Txn.SetStorage a k v config x))
  end.

Lemma writes_refund config l x :
  legacy_metering config = false -> Forall write_ok l -> refund_covers x ->
  0 <= Txn.GetRefund x -> Txn.GetRefund x + 34800 * zlen l < two64 ->
  Txn.GetRefund (writes config l x) = Txn.GetRefund x + net_refunds config l x /\
  refund_covers (writes config l x).
Proof.
  intros Hl. revert x. induction l as [|[[a k] v] l IH]; intros x HF Hc H0 Hlim.
  { simpl. split; [lia|done]. }
  inversion_clear HF as [|? ? [Ha Hv] HF']. simpl in Ha, Hv.
  assert (Hz : zlen ((a, k, v) :: l) = zlen l + 1) by (unfold zlen; simpl; lia).
  assert (0 <= zlen l) by (unfold zlen; lia).
  destruct (SetStorage_net x a k v config Ha Hv) as [_ Hw]; [unfold is_u64; lia|done|].
  destruct (refund_covers_written _ x a k v _ Ha Hc ltac:(lia) Hw) as [Hc' Hr'].
  pose proof (net_refund_owed (Istanbul config) (Txn.GetCommittedState x a k) (Txn.GetState x a k) v).
  cbn [writes fold_left net_refunds]. fold (writes config l (snd (Txn.SetStorage a k v config x))).
  destruct (IH (snd (Txn.SetStorage a k v config x))) as [IH1 IH2]; [done|done| |lia|].
  { specialize (Hc' [] (NoDup_nil_2) (Forall_nil_2 _)). done. }
  rewrite IH1, Hr'. split; [lia|done].
Qed.

Lemma net_refunds_bound config l x : net_refunds config l x <= 34800 * zlen l.
Proof.
  revert x. induction l as [|[[a k] v] l IH]; intros x; [done|]. cbn [net_refunds].
  pose proof (net_refund_owed (Istanbul config) (Txn.GetCommittedState x a k) (Txn.GetState x a k) v).
  specialize (IH (snd (Txn.SetStorage a k v config x))). unfold zlen in *. simpl length. lia.
Qed.
End claims.

(** * Properties *)

(** Balances behave as a map of numbers. Adding an amount changes the balance of
    one address by it; subtracting succeeds exactly when the balance covers the
    amount, changes that one balance, and otherwise leaves the state as it was with
    the error for missing funds; no balance is ever negative. *)
Theorem balances_correct {T Snap} `{IR : !Iradix T, KK : !Keccak, RL : !FastRlp, ST : !State Snap}
    (x : txn T Snap) (a : Address) (v : Z) :
  0 <= v ->
  (forall a', 0 <= Txn.GetBalance x a') /\
  (forall a', Txn.GetBalance (Txn.AddBalance a v x) a' =
     Txn.GetBalance x a' + (if decide (a = a') then v else 0)) /\
  (if decide (v <= Txn.GetBalance x a)
   then fst (Txn.SubBalance a v x) = None /\
        forall a', Txn.GetBalance (snd (Txn.SubBalance a v x)) a' =
          Txn.GetBalance x a' - (if decide (a = a') then v else 0)
   else Txn.SubBalance a v x = (Some ErrNotEnoughFunds, x)).
Proof.
  intros Hv. split; [apply GetBalance_nonneg|]. split.
  - intros a'. pose proof (GetBalance_nonneg x a). rewrite GetBalance_AddBalance by lia.
    case_bool_decide; case_decide; subst; (lia || done).
  - destruct (SubBalance_spec x a v Hv) as [(Hle & He & Hb)|[Hlt He]].
    + rewrite decide_True by done. split; [done|]. intros a'. rewrite Hb.
      case_bool_decide; case_decide; subst; (lia || done).
    + by rewrite decide_False by lia.
Qed.

Import Demo DemoState.

Lemma balances_correct_witness :
  Txn.GetBalance (Txn.AddBalance (addr 1) 7 start) (addr 1) = 1007 /\
  fst (Txn.SubBalance (addr 1) 7 start) = None.
Proof.
  destruct (balances_correct start (addr 1) 7 ltac:(lia)) as (_ & Hadd & Hsub). split.
  - rewrite Hadd. vm_compute. reflexivity.
  - rewrite decide_True in Hsub by (vm_compute; congruence). exact (proj1 Hsub).
Defined.

(** Storage behaves as a map from addresses and slots to words, over the
    committed tries: a written slot reads as what was written, also when that is
    zero, every other slot reads as before, and no write changes what was
    committed. *)
Theorem storage_correct {T Snap} `{IR : !Iradix T, KK : !Keccak, RL : !FastRlp, ST : !State Snap}
    (x : txn T Snap) (a a' : Address) (k k' v : Hash) :
  is_hash v ->
  Txn.GetState (Txn.SetState a k v x) a' k' =
    (if decide (a = a' /\ k = k') then v else Txn.GetState x a' k') /\
  Txn.GetCommittedState (Txn.SetState a k v x) a' k' = Txn.GetCommittedState x a' k'.
Proof.
  intros Hv. split; [|apply GetCommittedState_SetState]. rewrite GetState_SetState by done.
  case_bool_decide; case_decide; done.
Qed.

Lemma storage_correct_witness :
  Txn.GetState (Txn.SetState (addr 1) (hash 1) (hash 9) start) (addr 1) (hash 1) = hash 9.
Proof.
  rewrite (proj1 (storage_correct start (addr 1) (addr 1) (hash 1) (hash 1) (hash 9)
                    (hash_ok 9 ltac:(by split)))).
  vm_compute. reflexivity.
Defined.

(** C29: within a transaction writes are metered by EIP-2200 (EIP-1283 before
    Istanbul) and the refund counter never wraps: from a fresh state, any sequence
    of writes (fewer than 2^64 / 34800 of them) to any slots leaves in the counter
    exactly the sum of the refunds the EIP gives, although clearing, restoring and
    clearing again subtracts from it; each single write returns the status of the
    EIP. *)
Theorem SetStorage_metered {T Snap}
    `{IR : !Iradix T, KK : !Keccak, RL : !FastRlp, ST : !State Snap}
    (s : Snap) (config : ForksInTime) (l : list (Address * Hash * Hash)) (a : Address) (k v : Hash) :
  legacy_metering config = false -> Forall write_ok l -> write_ok (a, k, v) ->
  34800 * zlen l < two64 ->
  let x := writes config l (Txn.newTxn s : txn T Snap) in
  Txn.GetRefund x = net_refunds config l (Txn.newTxn s) /\ 0 <= Txn.GetRefund x /\
  fst (Txn.SetStorage a k v config x) =
    net_status (Txn.GetCommittedState x a k) (Txn.GetState x a k) v.
Proof.
  intros Hl HF [Ha Hv] Hlim x. simpl in Ha, Hv.
  assert (H0 : Txn.GetRefund (Txn.newTxn s : txn T Snap) = 0).
  { unfold Txn.GetRefund. simpl. by rewrite ir_Get_New. }
  destruct (writes_refund config l (Txn.newTxn s) Hl HF (refund_covers_newTxn s)) as [Hr Hc];
    [lia|lia|].
  fold x in Hr, Hc. rewrite H0 in Hr. split; [lia|].
  pose proof (Hc [] NoDup_nil_2 (Forall_nil_2 _)) as Hpos. simpl in Hpos. split; [done|].
  assert (is_u64 (Txn.GetRefund x)).
  { unfold is_u64. split; [done|]. rewrite Hr. pose proof (net_refunds_bound config l (Txn.newTxn s)). lia. }
  by apply SetStorage_net.
Qed.

(** Clear the slot of address 1 and restore it. *)
Definition demo_writes : list (Address * Hash * Hash) :=
  [(addr 1, hash 1, ZeroHash); (addr 1, hash 1, hash 5)].

Lemma demo_writes_ok : Forall write_ok demo_writes.
Proof.
  apply Forall_cons_2; [split; [by apply addr_ok|by apply (hash_ok 0)]|].
  apply Forall_cons_2; [split; [by apply addr_ok|by apply hash_ok]|apply Forall_nil_2].
Qed.

Lemma SetStorage_metered_witness :
  Txn.GetRefund (writes forks demo_writes start) = 4200.
Proof.
  unfold start. rewrite (proj1 (SetStorage_metered committed forks demo_writes (addr 1) (hash 1) (hash 5)
    eq_refl demo_writes_ok (conj (addr_ok 1 ltac:(by split)) (hash_ok 5 ltac:(by split)))
    ltac:(by vm_compute))).
  vm_compute. reflexivity.
Defined.

(** C39: the original value of a slot is its value at the start of the block, not of
    the transaction, while the refund counter is reset between transactions. So
    when one transaction clears a slot and a later one of the same block writes a
    new value to it, the counter of the later one wraps around to 2^64 - 15000. *)
Theorem refund_wraps_across_transactions {T Snap}
    `{IR : !Iradix T, KK : !Keccak, RL : !FastRlp, ST : !State Snap}
    (x : txn T Snap) (a : Address) (k v : Hash) (config : ForksInTime) :
  is_address a -> is_hash v -> legacy_metering config = false ->
  Txn.GetCommittedState x a k <> zeroHash -> Txn.GetState x a k = zeroHash ->
  v <> zeroHash -> v <> Txn.GetCommittedState x a k ->
  match ir_Get a (tx_txn x) with Some o => Txn.removable true o | None => false end = false ->
  exists x', Txn.CleanDeleteObjects true x = (Ok tt, x') /\
    Txn.GetRefund (snd (Txn.SetStorage a k v config x')) = 2 ^ 64 - 15000.
Proof.
  intros Ha Hv Hl Ho Hc Hv0 Hvo Hrem.
  destruct (CleanDeleteObjects_run true x) as (x' & E & _ & Hr & _ & Hget).
  exists x'. split; [done|]. specialize (Hget a Ha).
  assert (Hsame : Txn.getStateObject x' a = Txn.getStateObject x a).
  { by rewrite Hget, Hrem. }
  destruct (SetStorage_net x' a k v config Ha Hv) as [_ Hw];
    [rewrite Hr; by split|done|].
  rewrite (sw_refund _ _ _ _ _ _ Hw), Hr.
  rewrite GetState_default, GetCommittedState_default, Hsame, <- GetState_default,
    <- GetCommittedState_default, Hc.
  unfold net_refund. rewrite decide_False by congruence. rewrite decide_False by congruence.
  rewrite decide_True by done. rewrite decide_True by done. rewrite decide_False by congruence.
  done.
Qed.

Definition cleared_start : txn (gmap bytes) (gmap bytes bytes) :=
  Txn.SetState (addr 1) (hash 1) ZeroHash start.

Lemma refund_wraps_across_transactions_witness :
  exists x', Txn.CleanDeleteObjects true cleared_start = (Ok tt, x') /\
    Txn.GetRefund (snd (Txn.SetStorage (addr 1) (hash 1) (hash 9) forks x')) = 2 ^ 64 - 15000.
Proof.
  apply (refund_wraps_across_transactions cleared_start (addr 1) (hash 1) (hash 9) forks).
  - by apply addr_ok.
  - by apply hash_ok.
  - reflexivity.
  - vm_compute. discriminate.
  - vm_compute. reflexivity.
  - discriminate.
  - vm_compute. discriminate.
  - vm_compute. reflexivity.
Defined.

(** C30: a revert brings back the state of the snapshot: whatever was done since,
    with its own snapshots and reverts, every account (balance, nonce, code,
    storage, suicide mark), the refund counter and the logs are as they were, and the
    snapshot can be used again. *)
Theorem RevertToSnapshot_restores {T Snap}
    `{IR : !Iradix T, KK : !Keccak, RL : !FastRlp, ST : !State Snap} (x x2 : txn T Snap) :
  after (snd (Txn.Snapshot x)) x2 ->
  exists x3, Txn.RevertToSnapshot (fst (Txn.Snapshot x)) x2 = (Ok tt, x3) /\
    (forall a, Txn.getStateObject x3 a = Txn.getStateObject x a) /\
    (forall a k, Txn.GetState x3 a k = Txn.GetState x a k) /\
    Txn.GetRefund x3 = Txn.GetRefund x /\ Txn.getLogs x3 = Txn.getLogs x /\ after (snd (Txn.Snapshot x)) x3.
Proof.
  intros Ha. exists (Txn.with_txn (tx_txn x) x2). split; [by apply RevertToSnapshot_run|].
  assert (Hg : forall a, Txn.getStateObject (Txn.with_txn (tx_txn x) x2) a = Txn.getStateObject x a).
  { intros a. apply getStateObject_same. by destruct Ha. }
  split; [done|]. split; [intros a k; rewrite !GetState_default; by rewrite Hg|].
  split; [done|]. split; [done|]. etrans; [exact Ha|]. apply after_with_txn.
Qed.

Lemma RevertToSnapshot_restores_witness :
  exists x3, Txn.RevertToSnapshot 0 (Txn.AddBalance (addr 1) 7 (snd (Txn.Snapshot start))) = (Ok tt, x3) /\
    Txn.GetBalance x3 (addr 1) = Txn.GetBalance start (addr 1).
Proof.
  destruct (RevertToSnapshot_restores start (Txn.AddBalance (addr 1) 7 (snd (Txn.Snapshot start)))
              (after_with_txn _ _)) as (x3 & E & Hg & _).
  exists x3. split; [exact E|]. unfold Txn.GetBalance. rewrite Hg. reflexivity.
Defined.

(** The clean-up after a transaction never panics; it makes the accounts that
    were touched and are suicided (or empty, when empty ones are to go) disappear,
    leaves every other account as it was, keeps the logs and resets the refund
    counter. *)
Theorem CleanDeleteObjects_correct {T Snap}
    `{IR : !Iradix T, KK : !Keccak, RL : !FastRlp, ST : !State Snap} (x : txn T Snap) (del : bool) :
  exists x', Txn.CleanDeleteObjects del x = (Ok tt, x') /\
    Txn.GetRefund x' = 0 /\ fst (Txn.Logs x') = fst (Txn.Logs x) /\
    forall a, is_address a ->
      Txn.getStateObject x' a =
        match ir_Get a (tx_txn x) with
        | Some v => if Txn.removable del v then None else Txn.getStateObject x a
        | None => Txn.getStateObject x a
        end.
Proof.
  destruct (CleanDeleteObjects_run del x) as (x' & E & _ & Hr & Hlogs & Hget).
  exists x'. split; [done|]. split; [done|]. split.
  - unfold Txn.Logs. rewrite Hlogs. by destruct (Txn.getLogs x).
  - intros a Ha. rewrite Hget by done. by destruct (ir_Get a (tx_txn x)).
Qed.

(** Creating an account on an address keeps its balance and clears everything
    else (nonce, code, storage, marks); a suicide empties the balance and marks the
    account, and reports whether it did so for the first time; other addresses are
    untouched. *)
Theorem account_lifecycle {T Snap}
    `{IR : !Iradix T, KK : !Keccak, RL : !FastRlp, ST : !State Snap}
    (x : txn T Snap) (a a' : Address) :
  Txn.getStateObject (Txn.CreateAccount a x) a' =
    (if decide (a = a')
     then Some (set_Balance (fun _ => Txn.GetBalance x a) newStateObject)
     else Txn.getStateObject x a') /\
  (forall k, Txn.GetState (Txn.CreateAccount a x) a k = ZeroHash) /\
  fst (Txn.Suicide a x) = Txn.Exist x a && negb (Txn.HasSuicided x a) /\
  (Txn.Exist x a = true ->
   Txn.HasSuicided (snd (Txn.Suicide a x)) a = true /\ Txn.GetBalance (snd (Txn.Suicide a x)) a = 0) /\
  (a <> a' -> Txn.getStateObject (snd (Txn.Suicide a x)) a' = Txn.getStateObject x a').
Proof.
  assert (Hc : Txn.getStateObject (Txn.CreateAccount a x) a' =
    (if decide (a = a') then Some (set_Balance (fun _ => Txn.GetBalance x a) newStateObject)
     else Txn.getStateObject x a') /\
    Txn.getStateObject (Txn.CreateAccount a x) a =
      Some (set_Balance (fun _ => Txn.GetBalance x a) newStateObject)) by apply get_CreateAccount.
  destruct Hc as [Hc Hca]. split; [done|]. split.
  { intros k. rewrite GetState_default, Hca. simpl. unfold slot. simpl. apply committed_new. }
  unfold Txn.Suicide, Txn.Exist, Txn.HasSuicided, Txn.GetBalance.
  destruct (Txn.getStateObject x a) as [o|] eqn:Ho; simpl; [|done].
  split; [done|]. assert (Hl : live (set_Balance (fun _ => 0) (set_Suicide o))).
  { destruct (getStateObject_live x a o Ho). by split. }
  rewrite !get_insert_live by done. rewrite bool_decide_eq_true_2 by done. split; [done|].
  intros Hne. by rewrite bool_decide_eq_false_2.
Qed.
