(* ===== verification/Bridge.v ===== *)
(** The events of the bridge contract (contracts/bridge/events.go) and the system
    contract addresses (contracts/systemcontracts). *)

From stdpp Require Import strings.
From S2P Require Import Prelude Types Crypto TxTypes.

Definition AddrValidatorSetContract : Address := BytesToAddress [0x10; 0x01].
Definition AddrBridgeContract : Address := BytesToAddress [0x10; 0x02].
Definition AddrVaultContract : Address := BytesToAddress [0x10; 0x03].

(** The values github.com/umbracle/go-web3 decodes event fields to. *)
Inductive abi_value := AbiAddress (a : Address) | AbiBig (n : Z) | AbiOther.

(** The ABI of the bridge contract: the identifiers of its events, and the library's
    decoding of a log to its named fields. *)
Class BridgeABI := {
  BridgeDepositedEventID : Hash;
  BridgeWithdrawnEventID : Hash;
  BridgeBurnedEventID : Hash;
  Deposited_ParseLog : Log -> option (gmap string abi_value);
  Withdrawn_ParseLog : Log -> option (gmap string abi_value);
  Burned_ParseLog : Log -> option (gmap string abi_value);
}.

(** The fee of a deposit is never set. *)
Record DepositedLog := mkDepositedLog { d_Receiver : Address; d_Amount : Z; d_Fee : option Z }.
Record WithdrawnLog := mkWithdrawnLog { w_Contract : Address; w_Amount : Z; w_Fee : Z }.
Record BurnedLog := mkBurnedLog { b_Sender : Address; b_Amount : Z }.

Definition fieldReceiver : string := "receiver".
Definition fieldAmount : string := "amount".
Definition fieldFee : string := "fee".
Definition fieldSender : string := "sender".

Definition getAddress (m : gmap string abi_value) (key : string) : option Address :=
  match m !! key with Some (AbiAddress a) => Some a | _ => None end.

Definition getBigIntFromWithdrawnLog (m : gmap string abi_value) (key : string) : option Z :=
  match m !! key with Some (AbiBig n) => Some n | _ => None end.

Section parse.
Context `{BA : !BridgeABI}.

Definition ParseBridgeDepositedLog (log : Log) : option DepositedLog :=
  m ← Deposited_ParseLog log;
  account ← getAddress m fieldReceiver;
  bigAmount ← getBigIntFromWithdrawnLog m fieldAmount;
  Some (mkDepositedLog account bigAmount None).

Definition ParseBridgeWithdrawnLog (log : Log) : option WithdrawnLog :=
  m ← Withdrawn_ParseLog log;
  amount ← getBigIntFromWithdrawnLog m fieldAmount;
  fee ← getBigIntFromWithdrawnLog m fieldFee;
  Some (mkWithdrawnLog (l_Address log) amount fee).

Definition ParseBridgeBurnedLog (log : Log) : option BurnedLog :=
  m ← Burned_ParseLog log;
  account ← getAddress m fieldSender;
  amount ← getBigIntFromWithdrawnLog m fieldAmount;
  Some (mkBurnedLog account amount).
End parse.
