(* ===== verification/Upgrader.v ===== *)
(** System contracts: their upgrades at the fork blocks (contracts/upgrader/upgrader.go),
    their addresses (contracts/systemcontracts) and the recognition of the transactions
    the consensus makes (contracts/validatorset/query.go). *)

From Stdlib Require Import String.
From S2P Require Import Prelude Types Chain Runtime Crypto Text Slice Rlp Instances TxTypes StateTxn TxnFacts TxnCorrect Bridge.

(** ** [bytes.EqualFold] *)

(** Package unicode: the next rune of the same letter, in a cycle. *)
Class Unicode := { SimpleFold : Z -> Z }.

Definition RuneError : Z := 0xFFFD.
Definition RuneSelf : Z := 0x80.

Definition cont (lo hi b : Z) : bool := (lo <=? b) && (b <=? hi).

(** [utf8.DecodeRune]: the rune and its width; a byte that begins no encoding is an
    error of width one. *)
Definition DecodeRune (p : bytes) : Z * nat :=
  match p with
  | [] => (RuneError, 0%nat)
  | b0 :: r =>
      if b0 <? RuneSelf then (b0, 1%nat)
      else if cont 0xC2 0xDF b0 then
        match r with
        | b1 :: _ => if cont 0x80 0xBF b1 then (Z.land b0 31 * 64 + Z.land b1 63, 2%nat) else (RuneError, 1%nat)
        | _ => (RuneError, 1%nat)
        end
      else if cont 0xE0 0xEF b0 then
        let lo := if b0 =? 0xE0 then 0xA0 else 0x80 in
        let hi := if b0 =? 0xED then 0x9F else 0xBF in
        match r with
        | b1 :: b2 :: _ =>
            if cont lo hi b1 && cont 0x80 0xBF b2
            then ((Z.land b0 15 * 64 + Z.land b1 63) * 64 + Z.land b2 63, 3%nat) else (RuneError, 1%nat)
        | _ => (RuneError, 1%nat)
        end
      else if cont 0xF0 0xF4 b0 then
        let lo := if b0 =? 0xF0 then 0x90 else 0x80 in
        let hi := if b0 =? 0xF4 then 0x8F else 0xBF in
        match r with
        | b1 :: b2 :: b3 :: _ =>
            if cont lo hi b1 && cont 0x80 0xBF b2 && cont 0x80 0xBF b3
            then (((Z.land b0 7 * 64 + Z.land b1 63) * 64 + Z.land b2 63) * 64 + Z.land b3 63, 4%nat)
            else (RuneError, 1%nat)
        | _ => (RuneError, 1%nat)
        end
      else (RuneError, 1%nat)
  end.

Section systemcontracts.
Context `{UC : !Unicode}.

(** From the smaller rune along the cycle until it closes or reaches the larger one; a
    cycle has at most four runes. *)
Fixpoint foldTo (n : nat) (sr tr r : Z) : Z :=
  match n with
  | O => r
  | S n => if negb (r =? sr) && (r <? tr) then foldTo n sr tr (SimpleFold r) else r
  end.

Definition sameLetter (sr tr : Z) : bool :=
  if tr =? sr then true
  else
    let '(sr, tr) := if tr <? sr then (tr, sr) else (sr, tr) in
    if tr <? RuneSelf then (65 <=? sr) && (sr <=? 90) && (tr =? sr + 32)
    else foldTo 4 sr tr (SimpleFold sr) =? tr.

(** [fuel] is the length of [s]: every rune takes a byte of it. *)
Fixpoint equalRunes (fuel : nat) (s t : bytes) : bool :=
  match fuel, s, t with
  | S fuel, _ :: _, _ :: _ =>
      let '(sr, sn) := DecodeRune s in
      let '(tr, tn) := DecodeRune t in
      sameLetter sr tr && equalRunes fuel (drop sn s) (drop tn t)
  | _, _, _ => (length s =? length t)%nat
  end.
Definition EqualFold (s t : bytes) : bool := equalRunes (length s) s t.

(** ** Transactions of the consensus *)

(** The selectors come from the contract's ABI. *)
Class ValidatorSetABI := { depositMethodID : bytes; slashMethodID : bytes }.
Context `{VA : !ValidatorSetABI}.

Definition IsDepositTransactionSignture (input : bytes) : bool :=
  if (length input <? 4)%nat then false else EqualFold (take 4 input) depositMethodID.

Definition IsSlashTransactionSignture (input : bytes) : bool :=
  if negb (length input =? 36)%nat then false else EqualFold (take 4 input) slashMethodID.

Definition SystemTransactionGasLimit : Z := 1000000.

(** The input is the encoded call. *)
Definition MakeDepositTx (nonce : Z) (from : Address) (input : bytes) : Transaction :=
  mkTransaction nonce (Some 0) SystemTransactionGasLimit (Some AddrValidatorSetContract) None input
    None None None from.
Definition MakeSlashTx (nonce : Z) (from : Address) (input : bytes) : Transaction :=
  mkTransaction nonce (Some 0) SystemTransactionGasLimit (Some AddrValidatorSetContract) None input
    None None None from.
End systemcontracts.

(** ** Upgrades *)

(** Maps are in the order they are ranged over; the commit URL is only logged. *)
Record UpgradeConfig := mkUpgradeConfig {
  u_ContractAddr : Address;
  u_Code : bytes;
  u_DefaultInitStorage : list (Hash * Hash);
  u_Rebalance : list (Address * Z);
}.

Record Upgrade := mkUpgrade { u_Name : string; u_Configs : list UpgradeConfig }.

Definition MainNetChainID : Z := 2000.
Definition DevNetChainID : Z := 668.

Inductive Network := mainNet | devNet.

(** The table of an upgrade: the networks that have it. *)
Abbreviation UpgradeTable := (Network -> option Upgrade) (only parsing).

(** The tables [init] fills; the codes of the contracts are arguments. *)
Section tables.
Variables portlandBridge detroitValidatorSet detroitBridge : bytes.

Definition addrOf (s : string) : Address := StringToAddress (str s).
Definition hashOf (s : string) : Hash := StringToHash (str s).

Definition _prePortlandUpgrade : UpgradeTable := fun network =>
  match network with
  | devNet => Some (mkUpgrade "pre-portland"
      [mkUpgradeConfig ZeroAddress [] []
        [ (addrOf "0x1b051e5D1548326284493BfA380E02C3C149Da4E", 55000000000000000000);
          (addrOf "0xa516CF76d083b4cBe93Ebdfb85FbE72aFfFb7a0c", 0);
          (addrOf "0xC7aD3276180f8dfb628d975473a81Af2836CDf2b", 0);
          (addrOf "0x521299a363f1847863e4a6c68c91df722d149c3b", 0);
          (addrOf "0x3a9185A6b49617cC2d5BE65aF199B73f24834F4f", 0) ]])
  | mainNet => None
  end.

Definition _portlandUpgrade : UpgradeTable := fun _ =>
  Some (mkUpgrade "portland" [mkUpgradeConfig AddrBridgeContract portlandBridge [] []]).

Definition detroitStorage : list (Hash * Hash) :=
  [ (hashOf "0x000000000000000000000000000000000000000a", hashOf "0xde0b6b3a7640000");
    (hashOf "0x000000000000000000000000000000000000000b", hashOf "0x19");
    (hashOf "0x000000000000000000000000000000000000000c", hashOf "0x1c20");
    (hashOf "0x000000000000000000000000000000000000000d", hashOf "0x12c");
    (hashOf "0x000000000000000000000000000000000000000e", hashOf "0x384");
    (hashOf "0x000000000000000000000000000000000000000f", hashOf "0xc");
    (hashOf "0x0000000000000000000000000000000000000010", hashOf "0x6");
    (hashOf "0x0000000000000000000000000000000000000011", hashOf "0x21e19e0c9bab2400000");
    (hashOf "0x0000000000000000000000000000000000000012", hashOf "0x56bc75e2d63100000") ].

Definition _detroitUpgrade : UpgradeTable := fun _ =>
  Some (mkUpgrade "detroit"
    [ mkUpgradeConfig AddrValidatorSetContract detroitValidatorSet detroitStorage [];
      mkUpgradeConfig AddrBridgeContract detroitBridge [] [] ]).
End tables.

Section upgrades.
Context {T : Type -> Type} {Snap : Type}.
Context `{IR : !Iradix T, KK : !Keccak, RL : !FastRlp, ST : !State Snap}.
#[local] Abbreviation W := (txn T Snap).

(** One contract; a code that is not hexadecimal panics. *)
Definition applyConfig (forksInTime : ForksInTime) (cfg : UpgradeConfig) (x : W) : result W :=
  match DecodeHex (u_Code cfg) with
  | (_, false) => Panic
  | (newContractCode, true) =>
      let x := Txn.SetCode (u_ContractAddr cfg) newContractCode x in
      let x := fold_left (fun x '(k, v) => snd (Txn.SetStorage (u_ContractAddr cfg) k v forksInTime x))
                 (u_DefaultInitStorage cfg) x in
      Ok (fold_left (fun x '(account, balance) => Txn.SetBalance account balance x) (u_Rebalance cfg) x)
  end.

Fixpoint applyConfigs (forksInTime : ForksInTime) (cfgs : list UpgradeConfig) (x : W) : result W :=
  match cfgs with
  | [] => Ok x
  | cfg :: cfgs => x ← applyConfig forksInTime cfg x; applyConfigs forksInTime cfgs x
  end.

Definition applySystemContractUpgrade (upgrade : Upgrade) (blockNumber : Z) (forks : Forks) (x : W) : result W :=
  applyConfigs (At forks blockNumber) (u_Configs upgrade) x.

(** The upgrade of a table that starts at this block, if the network has it. *)
Definition applyOn (starts : bool) (up : option Upgrade) (blockNumber : Z) (forks : Forks) (x : W) : result W :=
  if starts then
    match up with Some up => applySystemContractUpgrade up blockNumber forks x | None => Ok x end
  else Ok x.

Definition networkOf (chainID : Z) : Network := if chainID =? DevNetChainID then devNet else mainNet.

Definition UpgradeSystem (prePortland portland detroit : UpgradeTable) (chainID : Z) (forks : Forks)
    (blockNumber : Z) (x : W) : result W :=
  if blockNumber =? 0 then Ok x
  else
    let network := networkOf chainID in
    x ← applyOn (IsOnPreportland forks blockNumber) (prePortland network) blockNumber forks x;
    x ← applyOn (IsOnPortland forks blockNumber) (portland network) blockNumber forks x;
    applyOn (IsOnDetroit forks blockNumber) (detroit network) blockNumber forks x.
End upgrades.

(** ** Lemmas *)

Section facts.
Context {T : Type -> Type} {Snap : Type}.
Context `{IR : !Iradix T, KK : !Keccak, RL : !FastRlp, ST : !State Snap}.
Implicit Types (x : txn T Snap) (a b : Address).

(** A write is the one of the slot, then changes of the refund counter. *)
Lemma SetStorage_shape x a k v config :
  (Txn.GetState x a k = v /\ snd (Txn.SetStorage a k v config x) = x) \/
  exists gs, snd (Txn.SetStorage a k v config x) = fold_left (fun x g => Txn.setRefund g x) gs (Txn.SetState a k v x).
Proof.
  unfold Txn.SetStorage. destruct (hash_eqb (Txn.GetState x a k) v) eqn:E.
  { left. split; [by apply bool_decide_eq_true in E|done]. }
  right. set (x1 := Txn.SetState a k v x).
  repeat case_match; cbn [snd];
    first [by exists [] | by eexists [_] | by eexists [_; _]].
Qed.

Lemma get_refunds gs x a :
  is_address a -> Txn.getStateObject (fold_left (fun x g => Txn.setRefund g x) gs x) a = Txn.getStateObject x a.
Proof.
  intros Ha. revert x. induction gs as [|g gs IH]; intros x; [done|]. simpl. rewrite IH. by apply get_setRefund.
Qed.

(** The account has this code, set since the last commit. *)
Definition dirty_code x a (c : bytes) : Prop :=
  exists o, Txn.getStateObject x a = Some o /\ so_DirtyCode o = true /\ so_Code o = c.

Lemma dirty_code_GetCode x a c : dirty_code x a c -> Txn.GetCode x a = c.
Proof. intros (o & E & Hd & Hc). unfold Txn.GetCode. by rewrite E, Hd. Qed.

(** An update of an account that keeps the code and the slots. *)
Lemma upsert_keeps x b f a :
  (forall o, live o -> live (f o) /\ so_DirtyCode (f o) = so_DirtyCode o /\ so_Code (f o) = so_Code o /\
     forall k, slot (f o) k = slot o k) ->
  (forall c, dirty_code x a c -> dirty_code (Txn.upsertAccount b f x) a c) /\
  forall k, Txn.GetState (Txn.upsertAccount b f x) a k = Txn.GetState x a k.
Proof.
  intros Hf. destruct (Hf _ (default_live x b)) as (Hl & Hd & Hc & Hs). split.
  - intros c (o & E & Ho & Hoc). unfold dirty_code. rewrite get_upsert by done. case_bool_decide as Hab; [|by eauto].
    subst b. rewrite E in *. simpl in *. eexists. split; [done|]. by rewrite Hd, Hc.
  - intros k. rewrite !GetState_default, get_upsert by done. case_bool_decide as Hab; [|done]. subst. apply Hs.
Qed.

Lemma SetBalance_keeps x b v a :
  (forall c, dirty_code x a c -> dirty_code (Txn.SetBalance b v x) a c) /\
  forall k, Txn.GetState (Txn.SetBalance b v x) a k = Txn.GetState x a k.
Proof.
  apply upsert_keeps. intros o Ho. split; [|done]. apply live_set_Balance; [done|]. intros _.
  rewrite set_bytes_big_bytes_abs. lia.
Qed.

Lemma SetCode_keeps x b code a :
  (forall c, a <> b -> dirty_code x a c -> dirty_code (Txn.SetCode b code x) a c) /\
  forall k, Txn.GetState (Txn.SetCode b code x) a k = Txn.GetState x a k.
Proof.
  unfold Txn.SetCode. split.
  - intros c Hne (o & E & Ho). exists o. rewrite get_upsert by apply live_set_Code, default_live.
    by rewrite bool_decide_eq_false_2.
  - intros k. rewrite !GetState_default, get_upsert by apply live_set_Code, default_live.
    case_bool_decide as Hab; [|done]. by subst.
Qed.

Lemma SetCode_dirty x b code : dirty_code (Txn.SetCode b code x) b code.
Proof.
  unfold dirty_code, Txn.SetCode. rewrite get_upsert by apply live_set_Code, default_live.
  rewrite bool_decide_eq_true_2 by done. by eexists.
Qed.

Lemma SetStorage_keeps x b k v config a :
  is_address a -> is_hash v ->
  (forall c, dirty_code x a c -> dirty_code (snd (Txn.SetStorage b k v config x)) a c) /\
  forall k', Txn.GetState (snd (Txn.SetStorage b k v config x)) a k' =
    if bool_decide (b = a /\ k = k') then v else Txn.GetState x a k'.
Proof.
  intros Ha Hv. destruct (SetStorage_shape x b k v config) as [[E ->]|[gs ->]].
  - split; [done|]. intros k'. case_bool_decide as Hk; [|done]. by destruct Hk as [<- <-].
  - split.
    + intros c (o & E & Hd & Hc). unfold dirty_code. rewrite get_refunds by done. unfold Txn.SetState.
      rewrite get_upsert by apply live_set_Slot, default_live. case_bool_decide as Hab; [|by eauto].
      subst b. rewrite E. by eexists.
    + intros k'. rewrite GetState_default, get_refunds, <- GetState_default by done. by apply GetState_SetState.
Qed.

(** What a configuration installs. *)
Definition installed x (cfg : UpgradeConfig) : Prop :=
  dirty_code x (u_ContractAddr cfg) (fst (DecodeHex (u_Code cfg))) /\
  forall k v, (k, v) ∈ u_DefaultInitStorage cfg -> Txn.GetState x (u_ContractAddr cfg) k = v.

Record config_wf (cfg : UpgradeConfig) : Prop := {
  cw_addr : is_address (u_ContractAddr cfg);
  cw_code : snd (DecodeHex (u_Code cfg)) = true;
  cw_keys : NoDup (map fst (u_DefaultInitStorage cfg));
  cw_values : Forall (fun kv => is_hash (snd kv)) (u_DefaultInitStorage cfg);
}.

Lemma writeAll_keeps (l : list (Hash * Hash)) b config x a :
  is_address a -> Forall (fun kv => is_hash (snd kv)) l ->
  let x' := fold_left (fun x '(k, v) => snd (Txn.SetStorage b k v config x)) l x in
  (forall c, dirty_code x a c -> dirty_code x' a c) /\
  (a <> b -> forall k, Txn.GetState x' a k = Txn.GetState x a k) /\
  (forall k, k ∉ map fst l -> Txn.GetState x' a k = Txn.GetState x a k) /\
  (a = b -> NoDup (map fst l) -> forall k v, (k, v) ∈ l -> Txn.GetState x' a k = v).
Proof.
  intros Ha Hv. revert x. induction Hv as [|[k v] l Hk _ IH]; intros x; cbn [fold_left].
  { split; [done|]. split; [done|]. split; [done|]. intros _ _ k v H. by apply elem_of_nil in H. }
  destruct (SetStorage_keeps x b k v config a Ha Hk) as [K1 K2].
  destruct (IH (snd (Txn.SetStorage b k v config x))) as (I1 & I2 & I3 & I4). split; [by auto|]. split; [|split].
  - intros Hne k'. rewrite I2, K2 by done. by rewrite bool_decide_eq_false_2 by naive_solver.
  - intros k' [Hk1 Hk2]%not_elem_of_cons. rewrite I3, K2 by done. by rewrite bool_decide_eq_false_2 by naive_solver.
  - intros -> Hd k' v'. simpl in Hd. inversion Hd as [|? ? Hn Hd']; subst. intros [E|Hin]%elem_of_cons; [|by apply I4].
    injection E as -> ->. rewrite I3, K2 by done. by rewrite bool_decide_eq_true_2.
Qed.

Lemma rebalance_keeps (l : list (Address * Z)) x a :
  let x' := fold_left (fun x '(account, balance) => Txn.SetBalance account balance x) l x in
  (forall c, dirty_code x a c -> dirty_code x' a c) /\ forall k, Txn.GetState x' a k = Txn.GetState x a k.
Proof.
  revert x. induction l as [|[b v] l IH]; intros x; cbn [fold_left]; [done|].
  destruct (SetBalance_keeps x b v a) as [K1 K2]. destruct (IH (Txn.SetBalance b v x)) as [I1 I2].
  split; [by auto|]. intros k. by rewrite I2, K2.
Qed.

Lemma applyConfig_installs fks cfg x :
  config_wf cfg -> exists x', applyConfig fks cfg x = Ok x' /\ installed x' cfg /\
    (forall c, u_ContractAddr c <> u_ContractAddr cfg -> is_address (u_ContractAddr c) -> installed x c -> installed x' c).
Proof.
  intros [Ha Hc Hk Hv]. unfold applyConfig. destruct (DecodeHex (u_Code cfg)) as [code ok] eqn:E. simpl in Hc. subst ok.
  eexists. split; [done|].
  set (x1 := Txn.SetCode _ _ _). set (x2 := fold_left _ _ x1). set (x3 := fold_left _ _ x2).
  assert (H2 : forall a, is_address a -> _) by (intros a Hadr; exact (writeAll_keeps _ (u_ContractAddr cfg) fks x1 a Hadr Hv)).
  fold x2 in H2. split.
  - destruct (H2 _ Ha) as (D & _ & _ & S). destruct (rebalance_keeps (u_Rebalance cfg) x2 (u_ContractAddr cfg)) as [D3 S3].
    split; [rewrite E; apply D3, D, SetCode_dirty|]. intros k v Hin. unfold x3. rewrite S3. by apply S.
  - intros c Hne Hadr [Dc Sc]. destruct (H2 _ Hadr) as (D & S & _).
    destruct (rebalance_keeps (u_Rebalance cfg) x2 (u_ContractAddr c)) as [D3 S3].
    destruct (SetCode_keeps x (u_ContractAddr cfg) code (u_ContractAddr c)) as [D1 S1].
    split; [by apply D3, D, D1|]. intros k v Hin. unfold x3. rewrite S3, S by done. unfold x1. rewrite S1. by apply Sc.
Qed.

Lemma applyConfigs_installs fks cfgs x :
  NoDup (map u_ContractAddr cfgs) -> Forall config_wf cfgs ->
  exists x', applyConfigs fks cfgs x = Ok x' /\ Forall (installed x') cfgs /\
    (forall c, u_ContractAddr c ∉ map u_ContractAddr cfgs -> is_address (u_ContractAddr c) ->
       installed x c -> installed x' c).
Proof.
  intros Hd Hw. revert x. induction Hw as [|cfg cfgs Hc Hw IH]; intros x; [by exists x|].
  simpl in Hd. inversion Hd as [|? ? Hn Hd']; subst. cbn [applyConfigs].
  destruct (applyConfig_installs fks cfg x Hc) as (x1 & -> & I1 & K1). cbn [mbind result_bind].
  destruct (IH Hd' x1) as (x2 & -> & I2 & K2). exists x2. split; [done|]. split.
  - constructor; [|done]. apply K2; [done|apply Hc|done].
  - intros c [Hc1 Hc2]%not_elem_of_cons Hadr Hi. by apply K2, K1.
Qed.
End facts.

(** The block at which a fork of the system contracts starts installs its contracts:
    whatever the state before, the upgrade succeeds, and afterwards every contract of its
    configuration has the new code and every initial slot its value. On every other block
    the state is left as it is. *)
Theorem UpgradeSystem_installs {T Snap} `{IR : !Iradix T, KK : !Keccak, RL : !FastRlp, ST : !State Snap}
    (prePortland portland detroit : Network -> option Upgrade) (up : Upgrade) (chainID : Z) (forks : Forks)
    (n : Z) (x : txn T Snap) :
  detroit (networkOf chainID) = Some up ->
  NoDup (map u_ContractAddr (u_Configs up)) -> Forall config_wf (u_Configs up) -> n <> 0 ->
  (IsOnPreportland forks n = false -> IsOnPortland forks n = false -> IsOnDetroit forks n = false ->
   UpgradeSystem prePortland portland detroit chainID forks n x = Ok x) /\
  (IsOnPreportland forks n = false -> IsOnPortland forks n = false -> IsOnDetroit forks n = true ->
   exists x', UpgradeSystem prePortland portland detroit chainID forks n x = Ok x' /\
     Forall (fun cfg => Txn.GetCode x' (u_ContractAddr cfg) = fst (DecodeHex (u_Code cfg)) /\
       forall k v, (k, v) ∈ u_DefaultInitStorage cfg -> Txn.GetState x' (u_ContractAddr cfg) k = v) (u_Configs up)).
Proof.
  intros Hup Hd Hw Hn. unfold UpgradeSystem. rewrite (proj2 (Z.eqb_neq n 0)) by done. split.
  - intros -> -> ->. done.
  - intros -> -> ->. cbn [applyOn mbind result_bind]. rewrite Hup.
    destruct (applyConfigs_installs (At forks n) (u_Configs up) x Hd Hw) as (x' & E & I & _).
    exists x'. split; [done|]. eapply Forall_impl; [|done]. intros cfg [D S]. split; [by apply dirty_code_GetCode|done].
Qed.

(** The Detroit configuration, whatever the two codes. *)
Lemma detroit_wf validatorSet bridge network :
  snd (DecodeHex validatorSet) = true -> snd (DecodeHex bridge) = true ->
  exists up, _detroitUpgrade validatorSet bridge network = Some up /\
    NoDup (map u_ContractAddr (u_Configs up)) /\ Forall config_wf (u_Configs up).
Proof.
  intros Hv Hb. eexists. split; [reflexivity|]. split; [apply (bool_decide_unpack _); vm_compute; exact I|].
  constructor; [|constructor; [|constructor]]; split; cbn [u_ContractAddr u_Code u_DefaultInitStorage].
  - vm_compute; repeat first [discriminate | constructor].
  - exact Hv.
  - apply (bool_decide_unpack _). vm_compute. exact I.
  - vm_compute; repeat first [discriminate | constructor].
  - vm_compute; repeat first [discriminate | constructor].
  - exact Hb.
  - constructor.
  - constructor.
Qed.

Import (hints) Demo DemoState.

(** The main net at the Detroit block. *)
Lemma UpgradeSystem_installs_witness :
  exists up x', _detroitUpgrade (str "0x6001") (str "0x6002") mainNet = Some up /\
    UpgradeSystem _prePortlandUpgrade (_portlandUpgrade (str "6000")) (_detroitUpgrade (str "0x6001") (str "0x6002"))
      2000 AllForksEnabled 40562 DemoState.start = Ok x' /\
    Forall (fun cfg => Txn.GetCode x' (u_ContractAddr cfg) = fst (DecodeHex (u_Code cfg)) /\
      forall k v, (k, v) ∈ u_DefaultInitStorage cfg -> Txn.GetState x' (u_ContractAddr cfg) k = v) (u_Configs up).
Proof.
  destruct (detroit_wf (str "0x6001") (str "0x6002") mainNet eq_refl eq_refl) as (up & E & Hd & Hw).
  destruct (UpgradeSystem_installs _prePortlandUpgrade (_portlandUpgrade (str "6000"))
    (_detroitUpgrade (str "0x6001") (str "0x6002")) up 2000 AllForksEnabled 40562 DemoState.start
    E Hd Hw ltac:(discriminate)) as [_ H].
  destruct (H eq_refl eq_refl eq_refl) as (x' & Hx & Hi). exists up, x'. split; [exact E|]. split; [exact Hx|exact Hi].
Defined.

(** Bytes that begin no character are all read as one rune, so other selectors than
    the contract's pass for it. *)
Lemma EqualFold_binary `{UC : !Unicode} : EqualFold [0xFF; 0xFF; 0x0D; 0xFF] [0xD0; 0xE3; 0x0D; 0xB0] = true.
Proof. reflexivity. Qed.
