(* ===== verification/Executor.v ===== *)
(** The state transition (state/executor.go): frames on top of the transient state,
    transactions with their fees, blocks. *)

From S2P Require Import Prelude Types Chain Runtime Crypto Slice TxTypes BlockTypes Genesis Signer StateTxn Bridge.

Definition spuriousDragonMaxCodeSize : Z := 24576.
Definition TxGas : Z := 21000.
Definition TxGasContractCreation : Z := 53000.

(** The mutable fields of [Transition]. [t_acquired] counts the interpreter states
    taken from the pool so far. *)
Record transition (T : Type -> Type) (Snap : Type) := mkTransition {
  t_state : txn T Snap;
  t_ctx : TxContext;
  t_gasPool : Z;
  t_receipts : list Receipt;
  t_totalGas : Z;
  t_acquired : nat;
}.
Arguments mkTransition {T Snap}.
Arguments t_state {T Snap}.
Arguments t_ctx {T Snap}.
Arguments t_gasPool {T Snap}.
Arguments t_receipts {T Snap}.
Arguments t_totalGas {T Snap}.
Arguments t_acquired {T Snap}.

(** A [runtime.Runtime]; [Run] gets the host it may call back. *)
Record RuntimeT (W : Type) := mkRuntime {
  rt_CanRun : Contract -> ForksInTime -> W -> bool;
  rt_Run : CallxT W -> Contract -> ForksInTime -> GoM W ExecutionResult;
}.
Arguments mkRuntime {W}.
Arguments rt_CanRun {W}.
Arguments rt_Run {W}.

(** The errors of [apply] and of the block loop. *)
Inductive base_error :=
| ErrNotEnoughFundsForGas
| ErrIntrinsicGasOverflow
| ErrNotEnoughIntrinsicGas
| ErrNotEnoughFundsTransfer   (** [state.ErrNotEnoughFunds] *)
| ErrSender.                  (** an error of the signer *)

Inductive apply_error :=
| TransitionApplicationError (Err : base_error) (IsRecoverable : bool)
| NonceTooLowError (CorrectNonce : Z)
| NonceTooHighError (CorrectNonce : Z)
| GasLimitReachedTransitionApplicationError
| AllGasUsedError
| ErrExecutionStop
| BridgeParseError            (** a bridge log that does not decode *)
| RuntimeError (e : error)    (** an error of the state, passed on *)
| StateNotFound.              (** the parent root has no snapshot *)

Section fields.
Context {T : Type -> Type} {Snap : Type}.
#[local] Abbreviation W := (transition T Snap).

Definition set_state (x : txn T Snap) (t : W) : W :=
  mkTransition x (t_ctx t) (t_gasPool t) (t_receipts t) (t_totalGas t) (t_acquired t).
Definition set_ctx (c : TxContext) (t : W) : W :=
  mkTransition (t_state t) c (t_gasPool t) (t_receipts t) (t_totalGas t) (t_acquired t).
Definition set_gasPool (g : Z) (t : W) : W :=
  mkTransition (t_state t) (t_ctx t) g (t_receipts t) (t_totalGas t) (t_acquired t).
Definition set_receipts (r : list Receipt) (t : W) : W :=
  mkTransition (t_state t) (t_ctx t) (t_gasPool t) r (t_totalGas t) (t_acquired t).
Definition set_totalGas (g : Z) (t : W) : W :=
  mkTransition (t_state t) (t_ctx t) (t_gasPool t) (t_receipts t) g (t_acquired t).
Definition set_acquired (n : nat) (t : W) : W :=
  mkTransition (t_state t) (t_ctx t) (t_gasPool t) (t_receipts t) (t_totalGas t) n.

(** An operation of the transient state, and a change of it. *)
Definition on_state {A} (m : GoM (txn T Snap) A) : GoM W A := fun t =>
  let '(r, x) := m (t_state t) in (r, set_state x t).
Definition modify_state (f : txn T Snap -> txn T Snap) : GoM W unit :=
  modify (fun t => set_state (f (t_state t)) t).
Definition call_state {A} (f : txn T Snap -> A * txn T Snap) : GoM W A := fun t =>
  let '(a, x) := f (t_state t) in (Ok a, set_state x t).
End fields.

(** [math.MaxUint64] *)
Definition MaxUint64 : Z := two64 - 1.

(** [None] is the overflow error. *)
Definition TransactionGasCost (msg : Transaction) (isHomestead isIstanbul : bool) : option Z :=
  let cost := if IsContractCreation msg && isHomestead then TxGasContractCreation else TxGas in
  let payload := tr_Input msg in
  if 0 <? zlen payload then
    let zeros := zlen (List.filter (Z.eqb 0) payload) in
    let nonZeros := u64 (zlen payload - zeros) in
    let nonZeroCost := if isIstanbul then 16 else 68 in
    if u64 (MaxUint64 - cost) / nonZeroCost <? nonZeros then None
    else
      let cost := u64 (cost + u64 (nonZeros * nonZeroCost)) in
      if u64 (MaxUint64 - cost) / 4 <? zeros then None
      else Some (u64 (cost + u64 (zeros * 4)))
  else Some cost.

Section transition.
Context {T : Type -> Type} {Snap : Type}.
Context `{IR : !Iradix T, KK : !Keccak, RL : !FastRlp, ST : !State Snap}.
#[local] Abbreviation W := (transition T Snap).

(** The fixed fields: the forks of the block, the hashes of earlier blocks, and the
    runtimes in the order they are asked. *)
Context (config : ForksInTime) (getHash : Z -> Hash) (runtimes : list (RuntimeT W)).

Definition emptyCodeHashTwo : Hash := BytesToHash (Keccak256 []).

(** ** The [Host] interface *)

Definition Transition_Selfdestruct (addr beneficiary : Address) (t : W) : W :=
  let x := t_state t in
  let x := if Txn.HasSuicided x addr then x else Txn.AddRefund 24000 x in
  let x := Txn.AddBalance beneficiary (Txn.GetBalance x addr) x in
  set_state (snd (Txn.Suicide addr x)) t.

Definition Transition_SetStorage (addr : Address) (key value : Hash) (cfg : ForksInTime) (t : W)
    : StorageStatus * W :=
  let '(st, x) := Txn.SetStorage addr key value cfg (t_state t) in (st, set_state x t).

#[export] Instance Transition_Host : Host W := {
  AccountExists t addr := Txn.Exist (t_state t) addr;
  GetStorage t addr key := Txn.GetState (t_state t) addr key;
  SetStorage := Transition_SetStorage;
  GetBalance t addr := Txn.GetBalance (t_state t) addr;
  GetCodeSize t addr := Txn.GetCodeSize (t_state t) addr;
  GetCodeHash t addr := Txn.GetCodeHash (t_state t) addr;
  GetCode t addr := Txn.GetCode (t_state t) addr;
  Selfdestruct := Transition_Selfdestruct;
  GetTxContext t := t_ctx t;
  GetBlockHash t number := getHash (u64 number);
  EmitLog addr topics data t := set_state (Txn.EmitLog addr topics data (t_state t)) t;
  Empty t addr := Txn.Empty (t_state t) addr;
  GetNonce t addr := Txn.GetNonce (t_state t) addr;
}.

(** ** Frames *)

Fixpoint run_in (rs : list (RuntimeT W)) (callx : CallxT W) (contract : Contract)
    : GoM W ExecutionResult :=
  match rs with
  | [] => mret (mkResult [] 0 0 (Some errRuntimeNotFound))
  | r :: rs =>
      t ← get;
      if rt_CanRun r contract config t then rt_Run r callx contract config
      else run_in rs callx contract
  end.

Definition run : CallxT W -> Contract -> GoM W ExecutionResult := run_in runtimes.

Definition transfer (from to : Address) (amount : option Z) : GoM W (option error) :=
  match amount with
  | None => mret None
  | Some amount =>
      e ← call_state (Txn.SubBalance from amount);
      match e with
      | Some ErrNotEnoughFunds => mret (Some ErrInsufficientBalance)
      | Some e => mret (Some e)
      | None => modify_state (Txn.AddBalance to amount);; mret None
      end
  end.

Definition applyCall (callx : CallxT W) (c : Contract) (callType : CallType)
    : GoM W ExecutionResult :=
  if 1024 + 1 <? c_Depth c then mret (mkResult [] (c_Gas c) 0 (Some ErrDepth))
  else
    snapshot ← call_state Txn.Snapshot;
    modify_state (Txn.TouchAccount (c_Address c));;
    e ← (if bool_decide (callType = Call) then transfer (c_Caller c) (c_Address c) (c_Value c)
         else mret None);
    match e with
    | Some err => mret (mkResult [] (c_Gas c) 0 (Some err))
    | None =>
        result ← run callx c;
        (if Failed result then on_state (Txn.RevertToSnapshot snapshot) else mret tt);;
        mret result
    end.

Definition hasCodeOrNonce (addr : Address) (t : W) : bool :=
  if negb (Txn.GetNonce (t_state t) addr =? 0) then true
  else
    let codeHash := Txn.GetCodeHash (t_state t) addr in
    negb (hash_eqb codeHash emptyCodeHashTwo) && negb (hash_eqb codeHash ZeroHash).

(** The end of [applyCreate], once the init code has returned. *)
Definition storeCode (snapshot : nat) (addr : Address) (result : ExecutionResult)
    : GoM W ExecutionResult :=
  if EIP158 config && (spuriousDragonMaxCodeSize <? zlen (ReturnValue result)) then
    on_state (Txn.RevertToSnapshot snapshot);;
    mret (mkResult [] 0 0 (Some ErrMaxCodeSizeExceeded))
  else
    let gasCost := u64 (zlen (ReturnValue result) * 200) in
    if GasLeft result <? gasCost then
      if Homestead config then
        on_state (Txn.RevertToSnapshot snapshot);;
        mret (mkResult [] 0 (GasUsed result) (Some ErrCodeStoreOutOfGas))
      else mret (mkResult [] (GasLeft result) (GasUsed result) (Some ErrCodeStoreOutOfGas))
    else
      modify_state (Txn.SetCode addr (ReturnValue result));;
      mret (mkResult (ReturnValue result) (u64 (GasLeft result - gasCost)) (GasUsed result)
              (Err result)).

Definition applyCreate (callx : CallxT W) (c : Contract) : GoM W ExecutionResult :=
  let gasLimit := c_Gas c in
  if 1024 + 1 <? c_Depth c then mret (mkResult [] gasLimit 0 (Some ErrDepth))
  else
    modify_state (Txn.IncrNonce (c_Caller c));;
    collision ← gets (hasCodeOrNonce (c_Address c));
    if (collision : bool) then mret (mkResult [] 0 0 (Some ErrContractAddressCollision))
    else
      snapshot ← call_state Txn.Snapshot;
      (if EIP158 config then
         modify_state (Txn.CreateAccount (c_Address c));;
         modify_state (Txn.IncrNonce (c_Address c))
       else mret tt);;
      e ← transfer (c_Caller c) (c_Address c) (c_Value c);
      match e with
      | Some err => mret (mkResult [] gasLimit 0 (Some err))
      | None =>
          result ← run callx c;
          if Failed result then
            on_state (Txn.RevertToSnapshot snapshot);; mret result
          else storeCode snapshot (c_Address c) result
      end.

(** [Callx] calls back into [run]; every nested frame is one deeper, and frames
    beyond depth 1025 return at once, so that this many levels are enough. *)
Definition maxLevels : nat := Z.to_nat 1027.

Fixpoint Callx_at (levels : nat) (c : Contract) : GoM W ExecutionResult :=
  match levels with
  | O => panic
  | S levels =>
      if bool_decide (c_Type c = Create) then applyCreate (Callx_at levels) c
      else applyCall (Callx_at levels) c (c_Type c)
  end.

Definition Callx : CallxT W := Callx_at maxLevels.

Definition Create2_ (caller : Address) (code : bytes) (value gas : Z) : GoM W ExecutionResult :=
  t ← get;
  let address := CreateAddress caller (Txn.GetNonce (t_state t) caller) in
  applyCreate Callx (NewContractCreation 1 caller caller address (Some value) gas code).

Definition Call2 (caller to : Address) (input : bytes) (value gas : Z) : GoM W ExecutionResult :=
  t ← get;
  let code := Txn.GetCode (t_state t) to in
  applyCall Callx (NewContractCall 1 caller caller to (Some value) gas code input) Call.
End transition.

(** ** Transactions and blocks *)

Section apply.
Context {T : Type -> Type} {Snap : Type}.
Context `{IR : !Iradix T, KK : !Keccak, RL : !FastRlp, ST : !State Snap, BA : !BridgeABI}.
#[local] Abbreviation W := (transition T Snap).
Context (config : ForksInTime) (runtimes : list (RuntimeT W)).

(** The hook that may run after each transaction, and the signer of the block. *)
Context (PostHook : option (W -> W)) (Sender : Transaction -> result (option Address)).

Definition subGasPool (amount : Z) : GoM W bool :=
  t ← get;
  if t_gasPool t <? amount then mret false
  else modify (set_gasPool (t_gasPool t - amount));; mret true.

Definition addGasPool (amount : Z) : GoM W unit :=
  modify (fun t => set_gasPool (u64 (t_gasPool t + amount)) t).

Definition IncreaseSystemTransactionGas (amount : Z) : GoM W unit :=
  addGasPool amount;;
  modify (fun t =>
    let c := t_ctx t in
    set_ctx (mkTxContext (GasPrice c) (Origin c) (Coinbase c) (Number c) (Timestamp c)
               (i64 (GasLimit c + i64 amount)) (ChainID c) (Difficulty c)) t).

(** Prices and values are non-nil in the copy of the transaction that is applied. *)
Definition msg_GasPrice (msg : Transaction) : Z := default 0 (tr_GasPrice msg).
Definition msg_Value (msg : Transaction) : Z := default 0 (tr_Value msg).

Definition subGasLimitPrice (msg : Transaction) : GoM W (option base_error) :=
  e ← call_state (Txn.SubBalance (tr_From msg) (msg_GasPrice msg * tr_Gas msg));
  mret match e with Some _ => Some ErrNotEnoughFundsForGas | None => None end.

Definition nonceCheck (msg : Transaction) (t : W) : option apply_error :=
  let nonce := Txn.GetNonce (t_state t) (tr_From msg) in
  if tr_Nonce msg <? nonce then Some (NonceTooLowError nonce)
  else if nonce <? tr_Nonce msg then Some (NonceTooHighError nonce)
  else None.

(** The sender gets the gas left, the coinbase the gas used, at the price of the
    transaction. *)
Definition settle (msg : Transaction) (result : ExecutionResult) : GoM W ExecutionResult :=
  refund ← gets (fun t => Txn.GetRefund (t_state t));
  let result := UpdateGasUsed (tr_Gas msg) refund result in
  modify_state (Txn.AddBalance (tr_From msg) (GasLeft result * msg_GasPrice msg));;
  coinbase ← gets (fun t => Coinbase (t_ctx t));
  modify_state (Txn.AddBalance coinbase (GasUsed result * msg_GasPrice msg));;
  addGasPool (GasLeft result);;
  mret result.

Definition setTxContext (msg : Transaction) : GoM W unit :=
  modify (fun t =>
    let c := t_ctx t in
    set_ctx (mkTxContext (BytesToHash (big_bytes (msg_GasPrice msg))) (tr_From msg) (Coinbase c)
               (Number c) (Timestamp c) (GasLimit c) (ChainID c) (Difficulty c)) t).

(** The topmost frame of the transaction. *)
Definition execute (msg : Transaction) (gasLeft : Z) : GoM W ExecutionResult :=
  match tr_To msg with
  | None => Create2_ config runtimes (tr_From msg) (tr_Input msg) (msg_Value msg) gasLeft
  | Some to =>
      modify_state (Txn.IncrNonce (tr_From msg));;
      Call2 config runtimes (tr_From msg) to (tr_Input msg) (msg_Value msg) gasLeft
  end.

Definition apply (msg : Transaction) : GoM W (apply_error + ExecutionResult) :=
  t ← get;
  if t_gasPool t <? TxGas then mret (inl AllGasUsedError)
  else match nonceCheck msg t with
  | Some e => mret (inl e)
  | None =>
      e ← subGasLimitPrice msg;
      match e with
      | Some e => mret (inl (TransitionApplicationError e true))
      | None =>
          ok ← subGasPool (tr_Gas msg);
          if negb ok then mret (inl GasLimitReachedTransitionApplicationError)
          else match TransactionGasCost msg (Homestead config) (Istanbul config) with
          | None => mret (inl (TransitionApplicationError ErrIntrinsicGasOverflow false))
          | Some intrinsicGasCost =>
              let gasLeft := u64 (tr_Gas msg - intrinsicGasCost) in
              if tr_Gas msg <? gasLeft
              then mret (inl (TransitionApplicationError ErrNotEnoughIntrinsicGas false))
              else
                t ← get;
                if Txn.GetBalance (t_state t) (tr_From msg) <? msg_Value msg
                then mret (inl (TransitionApplicationError ErrNotEnoughFundsTransfer true))
                else
                  setTxContext msg;;
                  result ← execute msg gasLeft;
                  result ← settle msg result;
                  mret (inr result)
          end
      end
  end.

Definition Apply (msg : Transaction) : GoM W (apply_error + ExecutionResult) :=
  s ← call_state Txn.Snapshot;
  r ← apply msg;
  match r with
  | inl _ => on_state (Txn.RevertToSnapshot s)
  | inr _ => mret tt
  end;;
  match PostHook with Some hook => modify hook | None => mret tt end;;
  mret r.

(** ** Bridge logs *)

Definition handleBridgeLog (log : Log) : GoM W (option apply_error) :=
  match l_Topics log with
  | [] => mret None
  | topic :: _ =>
      if hash_eqb topic BridgeDepositedEventID then
        match ParseBridgeDepositedLog log with
        | None => mret (Some BridgeParseError)
        | Some p => modify_state (Txn.AddBalance (d_Receiver p) (d_Amount p));; mret None
        end
      else if hash_eqb topic BridgeWithdrawnEventID then
        match ParseBridgeWithdrawnLog log with
        | None => mret (Some BridgeParseError)
        | Some p =>
            let realAmount := 0 + (w_Amount p + w_Fee p) in
            e ← call_state (Txn.SubBalance (w_Contract p) realAmount);
            match e with
            | Some e => mret (Some (RuntimeError e))
            | None => modify_state (Txn.AddBalance AddrVaultContract (w_Fee p));; mret None
            end
        end
      else if hash_eqb topic BridgeBurnedEventID then
        match ParseBridgeBurnedLog log with
        | None => mret (Some BridgeParseError)
        | Some p =>
            e ← call_state (Txn.SubBalance (b_Sender p) (b_Amount p));
            mret (RuntimeError <$> e)
        end
      else mret None
  end.

Fixpoint handleLogs (logs : list Log) : GoM W (option apply_error) :=
  match logs with
  | [] => mret None
  | log :: logs =>
      e ← handleBridgeLog log;
      match e with Some e => mret (Some e) | None => handleLogs logs end
  end.

Definition handleBridgeLogs (msg : Transaction) (logs : list Log) : GoM W (option apply_error) :=
  if (zlen logs =? 0) || negb (bool_decide (tr_To msg = Some AddrBridgeContract)) then mret None
  else handleLogs logs.

(** ** Receipts *)

(** [txn.From] is recovered when it is the zero address. *)
Definition withSender (tx : Transaction) : result (option Transaction) :=
  if bool_decide (tr_From tx = ZeroAddress)
  then a ← Sender tx; Ok (a ← a; Some (set_From a tx)) else Ok (Some tx).

Definition contractAddress (tx : Transaction) : option Address :=
  match tr_To tx with None => Some (CreateAddress (tr_From tx) (tr_Nonce tx)) | Some _ => None end.

Definition withBloom (r : Receipt) : Receipt :=
  mkReceipt (r_Root r) (r_CumulativeGasUsed r) (CreateBloom [r]) (r_Logs r) (r_Status r)
    (r_GasUsed r) (r_ContractAddress r) (r_TxHash r).

Definition addReceipt (r : Receipt) : GoM W unit :=
  modify (fun t => set_receipts (t_receipts t ++ [withBloom r]) t).

Definition WriteFailedReceipt (tx : Transaction) : GoM W (option apply_error) :=
  signed ← lift (withSender tx);
  match signed with
  | None => mret (Some (TransitionApplicationError ErrSender false))
  | Some tx =>
      logs ← call_state Txn.Logs;
      total ← gets t_totalGas;
      addReceipt (mkReceipt ZeroHash total emptyBloom logs (Some ReceiptFailed) 0
                    (contractAddress tx) (Transaction_Hash tx));;
      mret None
  end.

(** What is stored between transactions: marks only from Byzantium on, a full commit
    with an intermediate root before. *)
Definition finishTransaction (result : ExecutionResult) : GoM W (Hash * option ReceiptStatus) :=
  if Byzantium config then
    on_state (Txn.CleanDeleteObjects true);;
    mret (ZeroHash, Some (if Failed result then ReceiptFailed else ReceiptSuccess))
  else
    objs ← on_state (Txn.Commit (EIP155 config));
    t ← get;
    '(ss, aux) ← lift (snap_Commit objs (tx_snapshot (t_state t)));
    modify (set_state (Txn.newTxn ss));;
    mret (BytesToHash aux, None).

Definition Write (tx : Transaction) : GoM W (option apply_error) :=
  signed ← lift (withSender tx);
  match signed with
  | None => mret (Some (TransitionApplicationError ErrSender false))
  | Some tx =>
      let msg := Transaction_Copy tx in
      r ← Apply msg;
      match r with
      | inl e => mret (Some e)
      | inr result =>
          modify (fun t => set_totalGas (u64 (t_totalGas t + GasUsed result)) t);;
          logs ← call_state Txn.Logs;
          total ← gets t_totalGas;
          rs ← finishTransaction result;
          e ← handleBridgeLogs msg logs;
          match e with
          | Some e => mret (Some e)
          | None =>
              addReceipt (mkReceipt (fst rs) total emptyBloom logs (snd rs) (GasUsed result)
                            (contractAddress tx) (Transaction_Hash tx));;
              mret None
          end
      end
  end.

Definition Transition_Commit : GoM W (Snap * Hash) :=
  objs ← on_state (Txn.Commit (EIP155 config));
  t ← get;
  '(s2, root) ← lift (snap_Commit objs (tx_snapshot (t_state t)));
  mret (s2, BytesToHash root).

(** The loop over the transactions of a block; [stopped i] tells whether the flag of
    the executor is set when the [i]th of them is reached. *)
Fixpoint process (stopped : nat -> bool) (i : nat) (gasLimit : Z) (txs : list Transaction)
    : GoM W (option apply_error) :=
  match txs with
  | [] => mret None
  | tx :: txs =>
      if stopped i then mret (Some ErrExecutionStop)
      else
        e ← (if ExceedsBlockGasLimit tx gasLimit then WriteFailedReceipt tx else Write tx);
        match e with
        | Some e => mret (Some e)
        | None => process stopped (S i) gasLimit txs
        end
  end.

Definition ProcessTransactions (stopped : nat -> bool) (gasLimit : Z) (txs : list Transaction)
    : GoM W (option apply_error) := process stopped 0 gasLimit txs.
End apply.

Section executor.
Context {T : Type -> Type} {Snap : Type}.
Context `{IR : !Iradix T, KK : !Keccak, RL : !FastRlp, ST : !State Snap, BA : !BridgeABI, EC : !Btcec}.
#[local] Abbreviation W := (transition T Snap).
Context (forks : Forks) (chainID : Z) (runtimes : list (RuntimeT W)).
Context (PostHook : option (W -> W)).

(** The signer of [Write] and [WriteFailedReceipt]. *)
Definition Sender (config : ForksInTime) (tx : Transaction) : result (option Address) :=
  signer_Sender (NewSigner config (u64 chainID)) tx.

(** [state] is the database at hand. *)
Definition BeginTxn (state : Snap) (parentRoot : Hash) (header : Header) (coinbaseReceiver : Address)
    : option (ForksInTime * W) :=
  let config := At forks (h_Number header) in
  auxSnap2 ← NewSnapshotAt state parentRoot;
  let env2 :=
    mkTxContext ZeroHash ZeroAddress coinbaseReceiver (i64 (h_Number header))
      (i64 (h_Timestamp header)) (i64 (h_GasLimit header)) (i64 chainID)
      (BytesToHash (big_bytes (h_Difficulty header))) in
  Some (config, mkTransition (Txn.newTxn auxSnap2) env2 (u64 (GasLimit env2)) [] 0 0).

(** A panic no frame recovers ends the block. *)
Definition ProcessBlock (state : Snap) (stopped : nat -> bool) (parentRoot : Hash) (header : Header)
    (txs : list Transaction) (blockCreator : Address) : result (apply_error + W) :=
  match BeginTxn state parentRoot header blockCreator with
  | None => Ok (inl StateNotFound)
  | Some (config, t) =>
      match process config runtimes PostHook (Sender config) stopped 0 (h_GasLimit header) txs t with
      | (Ok None, t) => Ok (inr t)
      | (Ok (Some e), _) => Ok (inl e)
      | (Panic, _) => Panic
      end
  end.

(** [alloc] in the order the map is ranged over. *)
Definition genesisAccount (addr : Address) (account : GenesisAccount) (x : txn T Snap)
    : txn T Snap :=
  let x := match g_Balance account with Some b => Txn.AddBalance addr b x | None => x end in
  let x := if g_Nonce account =? 0 then x else Txn.SetNonce addr (g_Nonce account) x in
  let code := default [] (g_Code account) in
  let x := if zlen code =? 0 then x else Txn.SetCode addr code x in
  fold_left (fun x '(k, v) => Txn.SetState addr k v x) (g_Storage account) x.

Definition WriteGenesis (alloc : list (Address * GenesisAccount)) : result (Snap * Hash) :=
  let snap := NewSnapshot in
  let x := fold_left (fun x '(addr, account) => genesisAccount addr account x) alloc
             (Txn.newTxn snap) in
  match Txn.Commit false x with
  | (Ok objs, _) =>
      match snap_Commit objs snap with
      | Ok (s2, root) => Ok (s2, BytesToHash root)
      | Panic => Panic
      end
  | (Panic, _) => Panic
  end.

(** [false] is the error that the account exists. *)
Definition SetAccountDirectly (config : ForksInTime) (addr : Address) (account : GenesisAccount)
    : GoM W bool :=
  t ← get;
  if Txn.Exist (t_state t) addr then mret false
  else
    modify_state (Txn.SetCode addr (default [] (g_Code account)));;
    modify_state (fun x => fold_left (fun x '(k, v) => snd (Txn.SetStorage addr k v config x))
                             (g_Storage account) x);;
    b ← deref (g_Balance account);
    modify_state (Txn.SetBalance addr b);;
    modify_state (Txn.SetNonce addr (g_Nonce account));;
    mret true.
End executor.
