(* ===== verification/ExecFacts.v ===== *)
(** Frames on top of the transient state: what every runtime promises to the
    executor, and what the executor promises to the frames it runs. *)

From S2P Require Import Prelude Types Chain Runtime Crypto Slice EvmState Instructions Calls Evm.
From S2P Require Import EvmFacts CallFacts Progress Locality.
From S2P Require Import TxTypes StateTxn TxnFacts Bridge Executor.

Lemma prefix_app_self {A} (l k : list A) : l `prefix_of` l ++ k.
Proof. by exists k. Qed.

(** ** Operations of the transient state come after it *)

Section after_ops.
Context {T : Type -> Type} {Snap : Type}.
Context `{IR : !Iradix T, KK : !Keccak, RL : !FastRlp, ST : !State Snap}.
Implicit Types (x : txn T Snap) (a : Address).

(** The refund counter is a 64-bit number, in the tree and in every snapshot. *)
Definition refund_ok (t : T (value T Snap)) : Prop :=
  forall g, ir_Get refundIndex t = Some (VRefund g) -> is_u64 g.
Definition refunds_ok x : Prop := refund_ok (tx_txn x) /\ Forall refund_ok (tx_snapshots x).

Lemma GetRefund_u64 x : refunds_ok x -> is_u64 (Txn.GetRefund x).
Proof.
  intros [H _]. unfold refund_ok, Txn.GetRefund in *.
  destruct (ir_Get refundIndex (tx_txn x)) as [[]|]; try done. by apply H.
Qed.

(** [x'] comes after [x] in a block. *)
Definition later x (x' : txn T Snap) : Prop := after x x' /\ (refunds_ok x -> refunds_ok x').

#[global] Instance later_preorder : PreOrder later.
Proof. split; [by intros x|]. intros x y z [] []. split; [by etrans|auto]. Qed.

Lemma later_Snapshot x : later x (snd (Txn.Snapshot x)).
Proof.
  split; [apply after_Snapshot|]. intros [H1 H2]. split; [done|]. simpl.
  apply Forall_app. split; [done|]. by apply Forall_singleton.
Qed.

(** Only the tree changes. *)
Definition tree_step x (x' : txn T Snap) : Prop :=
  exists t, x' = Txn.with_txn t x /\ (refund_ok (tx_txn x) -> refund_ok t).

#[global] Instance tree_step_preorder : PreOrder tree_step.
Proof.
  split; [intros []; by eexists|]. intros x y z (t & -> & Ht) (t' & -> & Ht').
  exists t'. split; [done|]. auto.
Qed.

Lemma tree_later x x' : tree_step x x' -> later x x'.
Proof.
  intros (t & -> & Ht). split; [apply after_with_txn|]. intros [H1 H2]. split; simpl; auto.
Qed.

Lemma tree_refunds x x' : tree_step x x' -> refunds_ok x -> refunds_ok x'.
Proof. intros H. apply tree_later, H. Qed.

Lemma tree_insertObject a o x : tree_step x (Txn.insertObject a o x).
Proof.
  eexists. split; [done|]. intros H g. rewrite ir_Get_Insert. case_bool_decide; [done|]. apply H.
Qed.
Lemma tree_upsert a f x : tree_step x (Txn.upsertAccount a f x).
Proof. apply tree_insertObject. Qed.
Lemma tree_setRefund g x : is_u64 g -> tree_step x (Txn.setRefund g x).
Proof.
  intros Hg. eexists. split; [done|]. intros H g'. rewrite ir_Get_Insert.
  rewrite bool_decide_eq_true_2 by done. by intros [= <-].
Qed.
Lemma tree_SubBalance a v x : tree_step x (snd (Txn.SubBalance a v x)).
Proof. unfold Txn.SubBalance. repeat case_match; simpl; try reflexivity. apply tree_upsert. Qed.
Lemma tree_EmitLog a ts d x : tree_step x (Txn.EmitLog a ts d x).
Proof.
  eexists. split; [done|]. intros H g. rewrite ir_Get_Insert. case_bool_decide; [done|]. apply H.
Qed.
Lemma tree_Suicide a x : tree_step x (snd (Txn.Suicide a x)).
Proof. unfold Txn.Suicide. case_match; simpl; [apply tree_insertObject|reflexivity]. Qed.
Lemma tree_SetStorage a k v cfg x : tree_step x (snd (Txn.SetStorage a k v cfg x)).
Proof.
  unfold Txn.SetStorage, Txn.SubRefund, Txn.AddRefund. cbv zeta.
  set (x1 := Txn.SetState a k v x). assert (H : tree_step x x1) by apply tree_upsert.
  repeat case_match; simpl; try reflexivity; try exact H;
    repeat (etrans; [|apply tree_setRefund, u64_range]); exact H.
Qed.
End after_ops.

#[export] Hint Resolve tree_insertObject tree_upsert tree_setRefund tree_SubBalance tree_EmitLog
  tree_Suicide tree_SetStorage : go.

(** ** What a frame keeps of the transition *)

Section kept.
Context {T : Type -> Type} {Snap : Type}.
Context `{IR : !Iradix T, KK : !Keccak, RL : !FastRlp, ST : !State Snap}.
#[local] Abbreviation W := (transition T Snap).
Context (config : ForksInTime) (getHash : Z -> Hash).
#[local] Hint Extern 0 (Host _) => exact (Transition_Host getHash) : typeclass_instances.

(** No frame touches the accounts of the block, and snapshots are only added. *)
Record kept (t t' : W) : Prop := mkKept {
  kept_later : later (t_state t) (t_state t');
  kept_ctx : t_ctx t' = t_ctx t;
  kept_gasPool : t_gasPool t' = t_gasPool t;
  kept_receipts : t_receipts t' = t_receipts t;
  kept_totalGas : t_totalGas t' = t_totalGas t;
}.

#[global] Instance kept_preorder : PreOrder kept.
Proof.
  split; [by intros t|]. intros t1 t2 t3 [] []. constructor; [by etrans|congruence..].
Qed.

Lemma kept_set_state t x : later (t_state t) x -> kept t (set_state x t).
Proof. intros H. by constructor. Qed.
Lemma kept_set_acquired t n : kept t (set_acquired n t).
Proof. by constructor. Qed.

Lemma keeps_modify_state f : (forall x, later x (f x)) -> keeps kept (modify_state f).
Proof. intros H t. by apply kept_set_state. Qed.
Lemma keeps_call_state {A} (f : txn T Snap -> A * txn T Snap) :
  (forall x, later x (snd (f x))) -> keeps kept (call_state f).
Proof.
  intros H t. unfold call_state. specialize (H (t_state t)). destruct (f (t_state t)).
  by apply kept_set_state.
Qed.
Lemma keeps_on_state {A} (m : GoM (txn T Snap) A) : keeps later m -> keeps kept (on_state m).
Proof.
  intros H t. unfold on_state. specialize (H (t_state t)). destruct (m (t_state t)).
  by apply kept_set_state.
Qed.

Lemma keeps_RevertToSnapshot n : keeps later (Txn.RevertToSnapshot (T := T) (Snap := Snap) n).
Proof.
  intros x. unfold Txn.RevertToSnapshot, get, deref, mbind, GoM_bind, modify.
  destruct (_ <? n)%nat; [done|]. destruct (tx_snapshots x !! n) as [tree|] eqn:E; [|done].
  split; [apply after_with_txn|]. intros [H1 H2]. split; [|done]. simpl.
  by eapply (Forall_lookup_1 _ _ _ _ H2).
Qed.

#[global] Instance kept_host : HostKeeps kept.
Proof.
  split; intros *.
  - simpl. unfold Transition_SetStorage.
    pose proof (tree_SetStorage a k v cfg (t_state w)) as H.
    destruct (Txn.SetStorage _ _ _ _ _). by apply kept_set_state, tree_later.
  - apply kept_set_state, tree_later. etrans; [|apply tree_Suicide].
    etrans; [|apply tree_upsert]. case_match; [reflexivity|apply tree_setRefund, u64_range].
  - apply kept_set_state, tree_later, tree_EmitLog.
Qed.
End kept.

(** ** Runtimes *)

Section runtimes.
Context {T : Type -> Type} {Snap : Type}.
Context `{IR : !Iradix T, KK : !Keccak, RL : !FastRlp, ST : !State Snap}.
#[local] Abbreviation W := (transition T Snap).
Context (getHash : Z -> Hash).
#[local] Hint Extern 0 (Host _) => exact (Transition_Host getHash) : typeclass_instances.

(** What the executor relies on: a runtime gives back no more gas than it gets, the
    world changes only through the host and the frames it starts, and these are one
    level deeper. Taking an interpreter state from the pool is not a change. *)
Class RuntimeOK (r : RuntimeT W) : Prop := {
  ro_gas : forall callx k cfg w x, CallxGas callx -> EIP150 cfg = true -> is_u64 (c_Gas k) ->
    fst (rt_Run r callx k cfg w) = Ok x -> 0 <= GasLeft x <= c_Gas k;
  ro_keeps : forall callx (RW : policy W) k cfg w, CallxGas callx ->
    PreOrder (rel RW) -> Allowed RW -> CallxKeeps RW callx ->
    (forall t n, rel RW t (set_acquired n t)) -> watched RW k ->
    rel RW w (snd (rt_Run r callx k cfg w));
  ro_local : forall callx callx' k cfg w, CallxGas callx ->
    agree_at (c_Depth k + 1) callx callx' ->
    rt_Run r callx k cfg w = rt_Run r callx' k cfg w;
}.

(** [EVM.Run] takes its state from a pool: [pool n] is what the [n]th acquisition
    yields. *)
Definition EVM_runtime `{GA : !GoAlloc} (pool : nat -> pooled) : RuntimeT W :=
  mkRuntime (fun k cfg _ => CanRun k cfg)
    (fun callx k cfg =>
       n ← gets t_acquired;
       modify (set_acquired (S n));;
       EVM_Run callx (pool n) k cfg).

#[global] Instance EVM_runtime_ok `{GA : !GoAlloc} pool : RuntimeOK (EVM_runtime pool).
Proof.
  split; simpl; unfold gets, modify, mbind, GoM_bind.
  - intros callx k cfg w x HC HE HU E.
    destruct (EVM_Run callx _ k cfg _) as [r w'] eqn:E'. simpl in E. subst r.
    by eapply EVM_Run_gas_bound.
  - intros callx RW k cfg w HC HP HA HK HN HW.
    etrans; [|by apply EVM_Run_keeps]. apply HN.
  - intros callx callx' k cfg w HC Ha. by apply EVM_Run_local.
Qed.

Context (config : ForksInTime) (runtimes : list (RuntimeT W)).
Hypothesis Hruntimes : Forall RuntimeOK runtimes.
Context (callx : CallxT W) `{!CallxGas callx}.

Lemma run_gas k w x :
  EIP150 config = true -> is_u64 (c_Gas k) -> fst (run config runtimes callx k w) = Ok x ->
  0 <= GasLeft x <= c_Gas k.
Proof.
  intros HE HU. unfold run. induction Hruntimes as [|r rs Hr Hrs IH]; simpl.
  { intros [= <-]. simpl. unfold is_u64 in HU. lia. }
  unfold get, mbind, GoM_bind. destruct (rt_CanRun r k config w); [|by apply IH].
  by eapply ro_gas.
Qed.

Lemma run_keeps (RW : policy W) `{!PreOrder (rel RW), !Allowed RW, !CallxKeeps RW callx} k w :
  (forall t n, rel RW t (set_acquired n t)) -> watched RW k ->
  rel RW w (snd (run config runtimes callx k w)).
Proof.
  intros HN HW. unfold run. induction Hruntimes as [|r rs Hr Hrs IH]; simpl; [reflexivity|].
  unfold get, mbind, GoM_bind. destruct (rt_CanRun r k config w); [|by apply IH].
  by apply ro_keeps.
Qed.

Lemma run_local (callx' : CallxT W) k w :
  agree_at (c_Depth k + 1) callx callx' ->
  run config runtimes callx k w = run config runtimes callx' k w.
Proof.
  intros Ha. unfold run. induction Hruntimes as [|r rs Hr Hrs IH]; simpl; [done|].
  unfold get, mbind, GoM_bind. destruct (rt_CanRun r k config w); [|by apply IH].
  by apply ro_local.
Qed.
End runtimes.

(** ** Frames *)

Lemma call_state_run {T Snap A} (f : txn T Snap -> A * txn T Snap) t :
  call_state f t = (Ok (fst (f (t_state t))), set_state (snd (f (t_state t))) t).
Proof. unfold call_state. by destruct (f (t_state t)). Qed.

Section frames.
Context {T : Type -> Type} {Snap : Type}.
Context `{IR : !Iradix T, KK : !Keccak, RL : !FastRlp, ST : !State Snap}.
#[local] Abbreviation W := (transition T Snap).
Context (getHash : Z -> Hash) (config : ForksInTime) (runtimes : list (RuntimeT W)).
#[local] Hint Extern 0 (Host _) => exact (Transition_Host getHash) : typeclass_instances.
Hypothesis Hruntimes : Forall (RuntimeOK getHash) runtimes.
Implicit Types (t : W) (c : Contract).

(** All frames keep [kept]. *)
Definition frames : policy W := mkPolicy false kept.

#[local] Instance frames_allowed : Allowed frames.
Proof. intros _. apply kept_host. Qed.
#[local] Instance frames_preorder : PreOrder (rel frames).
Proof. apply kept_preorder. Qed.

Lemma keeps_transfer a b v : keeps kept (transfer (T := T) (Snap := Snap) a b v).
Proof.
  unfold transfer. destruct v as [v|]; [|keeps_auto].
  apply keeps_bind; [apply _| |intros [[]|]; try keeps_auto].
  - apply keeps_call_state. intros x. apply tree_later, tree_SubBalance.
  - apply keeps_modify_state. intros x. apply tree_later, tree_upsert.
Qed.

(** A transfer never panics. *)
Lemma transfer_ok a b v t : exists e t', transfer (T := T) (Snap := Snap) a b v t = (Ok e, t').
Proof.
  destruct v as [v|]; simpl; [|by do 2 eexists].
  unfold mbind, GoM_bind. rewrite call_state_run.
  destruct (fst (Txn.SubBalance a v (t_state t))) as [[]|]; by do 2 eexists.
Qed.

Section one_level.
Context (callx : CallxT W) `{!CallxGas callx, !CallxKeeps frames callx}.

Lemma keeps_run c : keeps kept (run config runtimes callx c).
Proof.
  intros t. apply (run_keeps getHash config runtimes Hruntimes callx frames); [|done].
  intros. apply kept_set_acquired.
Qed.

Lemma keeps_Snapshot : keeps kept (call_state (Txn.Snapshot (T := T) (Snap := Snap))).
Proof. apply keeps_call_state. apply later_Snapshot. Qed.
Lemma keeps_upserts a f : keeps kept (modify_state (Txn.upsertAccount (T := T) (Snap := Snap) a f)).
Proof. apply keeps_modify_state. intros x. apply tree_later, tree_upsert. Qed.
Lemma keeps_revert n : keeps kept (on_state (Txn.RevertToSnapshot (T := T) (Snap := Snap) n)).
Proof. apply keeps_on_state, keeps_RevertToSnapshot. Qed.
Hint Resolve keeps_run keeps_Snapshot keeps_upserts keeps_revert keeps_transfer : go.

Lemma keeps_applyCall c typ : keeps kept (applyCall config runtimes callx c typ).
Proof.
  unfold applyCall, Txn.TouchAccount. keeps_auto.
Qed.

Lemma keeps_storeCode n a r : keeps kept (storeCode (T := T) (Snap := Snap) config n a r).
Proof. unfold storeCode, Txn.SetCode. keeps_auto. Qed.
Hint Resolve keeps_storeCode : go.

Lemma keeps_applyCreate c : keeps kept (applyCreate config runtimes callx c).
Proof.
  unfold applyCreate, Txn.IncrNonce. keeps_auto.
  apply keeps_modify_state. intros x. apply tree_later, tree_insertObject.
Qed.

(** Running the frame between taking a snapshot and giving it back. *)
Lemma revert_run t t2 t3 :
  kept (set_state (snd (Txn.Snapshot (t_state t))) t) t2 -> kept t2 t3 ->
  on_state (Txn.RevertToSnapshot (fst (Txn.Snapshot (t_state t)))) t3 =
    (Ok tt, set_state (Txn.with_txn (tx_txn (t_state t)) (t_state t3)) t3).
Proof.
  intros H1 H2. unfold on_state. rewrite RevertToSnapshot_run; [done|].
  destruct H1 as [[] _ _ _ _], H2 as [[] _ _ _ _]. by etrans.
Qed.

(** Value goes with calls only. *)
Definition transferFor (typ : CallType) c : GoM W (option error) :=
  if bool_decide (typ = Call) then transfer (c_Caller c) (c_Address c) (c_Value c) else mret None.

Lemma keeps_transferFor typ c : keeps kept (transferFor typ c).
Proof. unfold transferFor. keeps_auto. Qed.

(** [applyCall] in terms of the states it goes through. *)
Lemma applyCall_run c typ t :
  applyCall config runtimes callx c typ t =
    if 1024 + 1 <? c_Depth c then (Ok (mkResult [] (c_Gas c) 0 (Some ErrDepth)), t)
    else
      let t1 := set_state (Txn.TouchAccount (c_Address c) (snd (Txn.Snapshot (t_state t)))) t in
      match transferFor typ c t1 with
      | (Ok None, t2) =>
          match run config runtimes callx c t2 with
          | (Ok r, t3) =>
              (Ok r, if Failed r
                     then set_state (Txn.with_txn (tx_txn (t_state t)) (t_state t3)) t3 else t3)
          | (Panic, t3) => (Panic, t3)
          end
      | (Ok (Some e), t2) => (Ok (mkResult [] (c_Gas c) 0 (Some e)), t2)
      | (Panic, t2) => (Panic, t2)
      end.
Proof.
  unfold applyCall. destruct (1024 + 1 <? c_Depth c); [done|].
  erewrite bind_ok by apply call_state_run.
  cbv zeta. set (t1 := set_state (Txn.TouchAccount _ _) t).
  rewrite (bind_ok _ _ _ tt t1) by done.
  assert (H1 : kept (set_state (snd (Txn.Snapshot (t_state t))) t) t1).
  { apply (keeps_upserts (c_Address c) id (set_state (snd (Txn.Snapshot (t_state t))) t)). }
  fold (transferFor typ c). pose proof (keeps_transferFor typ c t1) as Hm. unfold mbind, GoM_bind.
  destruct (transferFor typ c t1) as [[[e|]|] t2]; simpl in Hm; try done.
  pose proof (keeps_run c t2) as Hr. destruct (run config runtimes callx c t2) as [[r|] t3]; [|done].
  simpl in Hr. destruct (Failed r); [|done].
  rewrite (revert_run t t2 t3); [done| |done]. by etrans.
Qed.

(** The end of a creation: the code is stored and paid for, or the frame fails and,
    from Homestead on, leaves nothing behind. *)
Lemma storeCode_run a r t t2 t3 :
  kept (set_state (snd (Txn.Snapshot (t_state t))) t) t2 -> kept t2 t3 -> Failed r = false ->
  exists r' t', storeCode config (fst (Txn.Snapshot (t_state t))) a r t3 = (Ok r', t') /\
    (0 <= GasLeft r -> is_u64 (GasLeft r) -> 0 <= GasLeft r' <= GasLeft r) /\
    (Failed r' = false /\ t' = set_state (Txn.SetCode a (ReturnValue r) (t_state t3)) t3 /\
       ReturnValue r' = ReturnValue r /\
       (EIP158 config = true -> zlen (ReturnValue r) <= spuriousDragonMaxCodeSize) \/
     Failed r' = true /\
       (t' = set_state (Txn.with_txn (tx_txn (t_state t)) (t_state t3)) t3 \/
        Homestead config = false /\ t' = t3)).
Proof.
  intros H1 H2 Hr. unfold storeCode.
  pose proof (revert_run t t2 t3 H1 H2) as HR.
  destruct (EIP158 config && _) eqn:Hsz.
  { rewrite (bind_ok _ _ _ _ _ HR). do 2 eexists. split; [done|]. simpl. split; [lia|]. by right; split; [|left]. }
  destruct (Z.ltb_spec (GasLeft r) (u64 (zlen (ReturnValue r) * 200))) as [Hg|Hg].
  - destruct (Homestead config) eqn:Hh.
    + rewrite (bind_ok _ _ _ _ _ HR). do 2 eexists. split; [done|]. simpl. split; [lia|].
      by right; split; [|left].
    + do 2 eexists. split; [done|]. simpl. split; [lia|]. right. split; [done|]. by right.
  - do 2 eexists. split; [done|]. simpl. split; [|left].
    2:{ split; [by rewrite <- Hr|]. split; [done|]. split; [done|]. intros HE. rewrite HE in Hsz. by apply Z.ltb_ge in Hsz. }
    intros H0 Hu. pose proof (u64_range (zlen (ReturnValue r) * 200)) as Hc.
    unfold is_u64 in *. rewrite u64_small by (unfold is_u64; lia). lia.
Qed.

(** What a creation sets up before its init code runs. *)
Definition openAccount a (x : txn T Snap) : txn T Snap :=
  if EIP158 config then Txn.IncrNonce a (Txn.CreateAccount a x) else x.

Lemma openAccount_kept a t :
  kept (set_state (snd (Txn.Snapshot (t_state t))) t)
    (set_state (openAccount a (snd (Txn.Snapshot (t_state t)))) t).
Proof.
  unfold openAccount. destruct (EIP158 config); [|done].
  apply (kept_set_state (set_state _ t)), tree_later. etrans; [apply tree_insertObject|apply tree_upsert].
Qed.

Lemma applyCreate_run c t :
  applyCreate config runtimes callx c t =
    if 1024 + 1 <? c_Depth c then (Ok (mkResult [] (c_Gas c) 0 (Some ErrDepth)), t)
    else
      let t0 := set_state (Txn.IncrNonce (c_Caller c) (t_state t)) t in
      if hasCodeOrNonce (c_Address c) t0
      then (Ok (mkResult [] 0 0 (Some ErrContractAddressCollision)), t0)
      else
        let t1 := set_state (openAccount (c_Address c) (snd (Txn.Snapshot (t_state t0)))) t0 in
        match transfer (c_Caller c) (c_Address c) (c_Value c) t1 with
        | (Ok None, t2) =>
            match run config runtimes callx c t2 with
            | (Ok r, t3) =>
                if Failed r
                then (Ok r, set_state (Txn.with_txn (tx_txn (t_state t0)) (t_state t3)) t3)
                else storeCode config (fst (Txn.Snapshot (t_state t0))) (c_Address c) r t3
            | (Panic, t3) => (Panic, t3)
            end
        | (Ok (Some e), t2) => (Ok (mkResult [] (c_Gas c) 0 (Some e)), t2)
        | (Panic, t2) => (Panic, t2)
        end.
Proof.
  unfold applyCreate. destruct (1024 + 1 <? c_Depth c); [done|]. cbv zeta.
  set (t0 := set_state (Txn.IncrNonce _ _) t). rewrite (bind_ok _ _ _ tt t0) by done.
  erewrite bind_ok by done. destruct (hasCodeOrNonce (c_Address c) t0); [done|].
  erewrite bind_ok by apply call_state_run.
  set (t1 := set_state (openAccount _ _) t0).
  rewrite (bind_ok _ _ _ tt t1) by (subst t1; unfold openAccount; by destruct (EIP158 config)).
  pose proof (openAccount_kept (c_Address c) t0) as H1. fold t1 in H1.
  pose proof (keeps_transfer (c_Caller c) (c_Address c) (c_Value c) t1) as Hm.
  unfold mbind, GoM_bind.
  destruct (transfer _ _ _ t1) as [[[e|]|] t2]; simpl in Hm; try done.
  pose proof (keeps_run c t2) as Hr. destruct (run config runtimes callx c t2) as [[r|] t3]; [|done].
  simpl in Hr. destruct (Failed r); [|done].
  rewrite (revert_run t0 t2 t3); [done| |done]. by etrans.
Qed.


(** *** Gas *)

Lemma applyCall_gas c typ t r :
  EIP150 config = true -> is_u64 (c_Gas c) ->
  fst (applyCall config runtimes callx c typ t) = Ok r -> 0 <= GasLeft r <= c_Gas c.
Proof.
  intros HE HU. rewrite applyCall_run. cbv zeta. unfold is_u64 in HU.
  destruct (1024 + 1 <? c_Depth c); [intros [= <-]; simpl; lia|].
  destruct (transferFor _ _ _) as [[[e|]|] t2]; [intros [= <-]; simpl; lia| |done].
  pose proof (run_gas getHash config runtimes Hruntimes callx c t2) as Hg.
  destruct (run config runtimes callx c t2) as [[r'|] t3]; [|done]. intros [= <-]. by apply Hg.
Qed.

Lemma applyCreate_gas c t r :
  EIP150 config = true -> is_u64 (c_Gas c) ->
  fst (applyCreate config runtimes callx c t) = Ok r -> 0 <= GasLeft r <= c_Gas c.
Proof.
  intros HE HU. rewrite applyCreate_run. cbv zeta. set (t0 := set_state (Txn.IncrNonce _ _) t).
  pose proof HU as HU'. unfold is_u64 in HU.
  destruct (1024 + 1 <? c_Depth c); [intros [= <-]; simpl; lia|].
  destruct (hasCodeOrNonce _ _); [intros [= <-]; simpl; lia|].
  pose proof (openAccount_kept (c_Address c) t0) as H1.
  destruct (transfer _ _ _ _) as [[[e|]|] t2] eqn:Et; [intros [= <-]; simpl; lia| |done].
  pose proof (keeps_transfer (c_Caller c) (c_Address c) (c_Value c)
                (set_state (openAccount (c_Address c) (snd (Txn.Snapshot (t_state t0)))) t0)) as H2.
  rewrite Et in H2. simpl in H2.
  pose proof (run_gas getHash config runtimes Hruntimes callx c t2) as Hg.
  pose proof (keeps_run c t2) as H3.
  destruct (run config runtimes callx c t2) as [[r'|] t3]; [|done].
  specialize (Hg _ HE HU' eq_refl). destruct (Failed r') eqn:Hf; [by intros [= <-]|].
  destruct (storeCode_run (c_Address c) r' t0 t2 t3 ltac:(by etrans) H3 Hf) as (r'' & t' & -> & Hs & _).
  intros [= <-]. unfold is_u64 in Hs. lia.
Qed.
End one_level.

(** *** Locality *)

Section two_hosts.
Context (callx callx' : CallxT W) `{!CallxGas callx}.

Lemma applyCall_local c typ t :
  (c_Depth c <= 1025 -> agree_at (c_Depth c + 1) callx callx') ->
  applyCall config runtimes callx c typ t = applyCall config runtimes callx' c typ t.
Proof.
  intros Ha. unfold applyCall. destruct (Z.ltb_spec (1024 + 1) (c_Depth c)) as [|Hd]; [done|].
  do 3 (apply bind_ext; intros ? ? _). case_match; [done|].
  unfold mbind at 1 3, GoM_bind at 1 3.
  rewrite (run_local getHash config runtimes Hruntimes callx callx') by (apply Ha; lia). done.
Qed.

Lemma applyCreate_local c t :
  (c_Depth c <= 1025 -> agree_at (c_Depth c + 1) callx callx') ->
  applyCreate config runtimes callx c t = applyCreate config runtimes callx' c t.
Proof.
  intros Ha. unfold applyCreate. destruct (Z.ltb_spec (1024 + 1) (c_Depth c)) as [|Hd]; [done|].
  do 2 (apply bind_ext; intros ? ? _). case_match; [done|].
  do 3 (apply bind_ext; intros ? ? _). case_match; [done|].
  unfold mbind at 1 3, GoM_bind at 1 3.
  rewrite (run_local getHash config runtimes Hruntimes callx callx') by (apply Ha; lia). done.
Qed.
End two_hosts.

(** *** The recursion *)

Hypothesis HEIP150 : EIP150 config = true.
#[local] Abbreviation CallxAt := (Callx_at config runtimes).

Lemma Callx_at_ok n : CallxGas (CallxAt n) /\ CallxKeeps frames (CallxAt n).
Proof.
  induction n as [|n [HG HK]].
  { split; [by intros c t r _|]. intros c t _. simpl. reflexivity. }
  split.
  - intros c t r HU. simpl. destruct (bool_decide _); [by apply applyCreate_gas|by apply applyCall_gas].
  - intros c t _. simpl. destruct (bool_decide _); [by apply keeps_applyCreate|by apply keeps_applyCall].
Qed.

Lemma Callx_at_enough n m c t :
  (1 <= n)%nat -> (1 <= m)%nat -> 1027 <= c_Depth c + Z.of_nat n ->
  1027 <= c_Depth c + Z.of_nat m -> CallxAt n c t = CallxAt m c t.
Proof.
  revert m c t. induction n as [|n IH]; intros m c t Hn Hm Hdn Hdm; [lia|].
  destruct m as [|m]; [lia|]. simpl. destruct (Callx_at_ok n) as [HG _].
  assert (Ha : c_Depth c <= 1025 -> agree_at (c_Depth c + 1) (CallxAt n) (CallxAt m)).
  { intros Hd k w Hk. apply IH; lia. }
  destruct (bool_decide _); [by apply applyCreate_local|by apply applyCall_local].
Qed.

Lemma Callx_at_eq n c t :
  (1 <= n)%nat -> 1027 <= c_Depth c + Z.of_nat n ->
  CallxAt n c t =
    if bool_decide (c_Type c = Create) then applyCreate config runtimes (CallxAt n) c t
    else applyCall config runtimes (CallxAt n) c (c_Type c) t.
Proof.
  intros H1 Hd. rewrite (Callx_at_enough n (S n)) by lia. cbn [Callx_at].
  by destruct (bool_decide _).
Qed.

Lemma maxLevels_eq : Z.of_nat maxLevels = 1027.
Proof. reflexivity. Qed.

(** [Callx] is the recursion of the source. *)
Lemma Callx_eq c t :
  0 <= c_Depth c ->
  Callx config runtimes c t =
    if bool_decide (c_Type c = Create) then applyCreate config runtimes (Callx config runtimes) c t
    else applyCall config runtimes (Callx config runtimes) c (c_Type c) t.
Proof. intros Hd. pose proof maxLevels_eq. apply Callx_at_eq; lia. Qed.

#[global] Instance Callx_gas_ok : CallxGas (Callx config runtimes).
Proof. apply Callx_at_ok. Qed.
#[global] Instance Callx_keeps_ok : CallxKeeps frames (Callx config runtimes).
Proof. apply Callx_at_ok. Qed.
End frames.

(** ** What can be read of the state *)

Section view.
Context {T : Type -> Type} {Snap : Type}.
Context `{IR : !Iradix T, KK : !Keccak, RL : !FastRlp, ST : !State Snap}.
Implicit Types (x : txn T Snap) (a : Address).

(** The object of an address, a fresh one when there is none. *)
Definition object x a : StateObject T Snap := default newStateObject (Txn.getStateObject x a).

(** Two states with the same objects, refund and logs. A fresh object stands for a
    missing one, so that touching an address is no difference. *)
Record same_view x (x' : txn T Snap) : Prop := mkSameView {
  sv_object : forall a, object x' a = object x a;
  sv_refund : Txn.GetRefund x' = Txn.GetRefund x;
  sv_logs : Txn.getLogs x' = Txn.getLogs x;
}.

#[global] Instance same_view_preorder : PreOrder same_view.
Proof.
  split; [by intros x|]. intros x y z [] []. constructor; intros; etrans; eauto.
Qed.

Lemma getLogs_insertObject x a o :
  is_address a -> Txn.getLogs (Txn.insertObject a o x) = Txn.getLogs x.
Proof.
  intros [Hl _]%address_key. unfold Txn.getLogs, Txn.insertObject. simpl.
  rewrite ir_Get_Insert. by rewrite bool_decide_eq_false_2.
Qed.

Lemma view_upsert x a f :
  is_address a -> f (object x a) = object x a -> same_view x (Txn.upsertAccount a f x).
Proof.
  intros Ha Hf. constructor.
  - intros a'. unfold object. rewrite get_upsert.
    + fold (object x a). rewrite Hf. case_bool_decide; by subst.
    + fold (object x a). rewrite Hf. apply default_live.
  - by apply GetRefund_upsert.
  - by apply getLogs_insertObject.
Qed.

(** The tree and the committed snapshot are all there is to see. *)
Lemma view_tree x x' :
  tx_snapshot x' = tx_snapshot x -> tx_txn x' = tx_txn x -> same_view x x'.
Proof.
  intros Hs Ht. constructor.
  - intros a. unfold object, Txn.getStateObject, Txn.loadObject. by rewrite Hs, Ht.
  - unfold Txn.GetRefund. by rewrite Ht.
  - unfold Txn.getLogs. by rewrite Ht.
Qed.

Lemma view_Touch x a : is_address a -> same_view x (Txn.TouchAccount a x).
Proof. intros Ha. by apply view_upsert. Qed.

Lemma view_AddBalance_0 x a : is_address a -> same_view x (Txn.AddBalance a 0 x).
Proof.
  intros Ha. apply view_upsert; [done|]. destruct (object x a) as [[] ? ? ? ? ?].
  unfold set_Balance, set_Account. simpl. by rewrite Z.add_0_r.
Qed.

(** What the view decides. *)
Lemma view_reads x x' :
  same_view x x' ->
  (forall a, Txn.GetBalance x' a = Txn.GetBalance x a) /\
  (forall a, Txn.GetNonce x' a = Txn.GetNonce x a) /\
  (forall a k, Txn.GetState x' a k = Txn.GetState x a k).
Proof.
  intros [Ho _ _]. unfold object in Ho. split; [|split]; intros.
  - by rewrite !GetBalance_default, Ho.
  - by rewrite !GetNonce_default, Ho.
  - by rewrite !GetState_default, Ho.
Qed.
End view.

(** ** Frames that leave the view *)

Section views.
Context {T : Type -> Type} {Snap : Type}.
Context `{IR : !Iradix T, KK : !Keccak, RL : !FastRlp, ST : !State Snap}.
#[local] Abbreviation W := (transition T Snap).
Context (getHash : Z -> Hash) (config : ForksInTime) (runtimes : list (RuntimeT W)).
#[local] Hint Extern 0 (Host _) => exact (Transition_Host getHash) : typeclass_instances.
Hypothesis Hruntimes : Forall (RuntimeOK getHash) runtimes.
Implicit Types (t : W) (c : Contract).

Definition unseen t t' : Prop := kept t t' /\ same_view (t_state t) (t_state t').

#[global] Instance unseen_preorder : PreOrder unseen.
Proof.
  split; [by intros t|]. intros t1 t2 t3 [] []. split; by etrans.
Qed.

(** Static frames leave the view. *)
Definition static_frames : policy W := mkPolicy true unseen.
#[local] Instance static_allowed : Allowed static_frames.
Proof. done. Qed.
#[local] Instance static_preorder : PreOrder (rel static_frames).
Proof. apply unseen_preorder. Qed.

Lemma unseen_revert t t3 :
  kept t t3 -> unseen t (set_state (Txn.with_txn (tx_txn (t_state t)) (t_state t3)) t3).
Proof.
  intros [[[Hs Hp] Hr] H1 H2 H3 H4]. split; [constructor; try done|by apply view_tree].
  split; [done|]. intros Hx. destruct (Hr Hx) as [_ H]. split; [apply Hx|done].
Qed.

Lemma unseen_touch t a :
  is_address a ->
  unseen t (set_state (Txn.TouchAccount a (snd (Txn.Snapshot (t_state t)))) t).
Proof.
  intros Ha. split.
  - apply kept_set_state. etrans; [apply later_Snapshot|apply tree_later, tree_upsert].
  - simpl. etrans; [|by apply view_Touch]. by apply view_tree.
Qed.

Section one_level.
Context (callx : CallxT W) `{!CallxGas callx, !CallxKeeps frames callx}.

(** A call that fails leaves no trace, at any depth and whatever it did. *)
Lemma applyCall_failed c typ t r t' :
  is_address (c_Address c) ->
  applyCall config runtimes callx c typ t = (Ok r, t') -> Failed r = true -> unseen t t'.
Proof.
  intros Ha. rewrite (applyCall_run getHash) by done. cbv zeta.
  destruct (1024 + 1 <? c_Depth c); [by intros [= <- <-]|].
  set (t1 := set_state (Txn.TouchAccount _ _) t).
  assert (H1 : unseen t t1) by by apply unseen_touch.
  pose proof (keeps_transferFor typ c t1) as Hk.
  destruct (transferFor typ c t1) as [[[e|]|] t2] eqn:Et; [| |done].
  - intros [= <- <-] _. etrans; [exact H1|]. clear -Et. clearbody t1. revert Et. unfold transferFor, transfer.
    destruct (bool_decide _); [|done]. destruct (c_Value c) as [v|]; [|done].
    unfold mbind, GoM_bind. rewrite call_state_run. unfold Txn.SubBalance.
    destruct (v =? 0); [done|]. destruct (_ <? v); [|done]. simpl. intros [= _ <-]. by destruct t1.
  - pose proof (keeps_run getHash config runtimes Hruntimes callx c t2) as Hr.
    destruct (run config runtimes callx c t2) as [[r'|] t3]; [|done]. intros [= <- <-] ->.
    apply unseen_revert. destruct H1 as [H1 _]. simpl in *. etrans; [exact H1|]. by etrans.
Qed.

Lemma static_transfer typ c t :
  (typ = Call -> default 0 (c_Value c) = 0) -> is_address (c_Address c) ->
  fst (transferFor typ c t) = Ok None /\ unseen t (snd (transferFor typ c t)).
Proof.
  intros Hv Ha. unfold transferFor. case_bool_decide as Ht; [|done].
  specialize (Hv Ht). unfold transfer. destruct (c_Value c) as [v|]; [|done]. simpl in Hv. subst v.
  unfold mbind, GoM_bind. rewrite call_state_run. simpl. split; [done|]. split.
  - apply (kept_set_state t), tree_later, tree_upsert.
  - by apply view_AddBalance_0.
Qed.

Lemma applyCall_static c typ t :
  CallxKeeps static_frames callx -> read_only c -> (typ = Call -> default 0 (c_Value c) = 0) ->
  unseen t (snd (applyCall config runtimes callx c typ t)).
Proof.
  intros HC Hro Hv. rewrite (applyCall_run getHash) by done. cbv zeta.
  destruct (1024 + 1 <? c_Depth c); [done|].
  set (t1 := set_state (Txn.TouchAccount _ _) t).
  assert (H1 : unseen t t1) by (apply unseen_touch; apply Hro).
  destruct (static_transfer typ c t1 Hv (proj2 Hro)) as [E H2].
  destruct (transferFor typ c t1) as [o t2]. simpl in *. subst o.
  pose proof (run_keeps getHash config runtimes Hruntimes callx static_frames c t2) as H3.
  assert (H3' : unseen t2 (snd (run config runtimes callx c t2))).
  { apply H3; [|by intros _]. intros t' n. split; [apply kept_set_acquired|done]. }
  clear H3. destruct (run config runtimes callx c t2) as [[r|] t3]; simpl in *.
  - assert (H : unseen t t3) by (etrans; [exact H1|by etrans]).
    destruct (Failed r); [|done]. apply unseen_revert, H.
  - etrans; [exact H1|by etrans].
Qed.
End one_level.

Lemma Callx_at_static n :
  EIP150 config = true -> CallxKeeps static_frames (Callx_at config runtimes n).
Proof.
  intros HE. induction n as [|n IH]; intros c t Hc; [done|]. simpl.
  destruct (Callx_at_ok getHash config runtimes Hruntimes HE n) as [HG HK].
  destruct (Hc eq_refl) as (Hro & Hty & Hv). rewrite bool_decide_eq_false_2 by done.
  by apply applyCall_static.
Qed.

(** *** Creations *)

Lemma GetBalance_IncrNonce a x a' : Txn.GetBalance (Txn.IncrNonce a x) a' = Txn.GetBalance x a'.
Proof.
  unfold Txn.GetBalance at 1, Txn.IncrNonce.
  rewrite get_upsert by apply live_set_Nonce, default_live. case_bool_decide; [|done].
  subst a'. simpl. by rewrite GetBalance_default.
Qed.

Lemma GetBalance_Snapshot x a : Txn.GetBalance (snd (Txn.Snapshot x)) a = Txn.GetBalance x a.
Proof. done. Qed.

Lemma GetBalance_openAccount a x a' :
  Txn.GetBalance (openAccount config a x) a' = Txn.GetBalance x a'.
Proof.
  unfold openAccount. destruct (EIP158 config); [|done].
  rewrite GetBalance_IncrNonce. unfold Txn.GetBalance at 1. destruct (get_CreateAccount x a a') as [-> _].
  case_decide; [subst a'|]; done.
Qed.

(** A funded transfer goes through. *)
Lemma transfer_funded a b v t :
  0 <= default 0 v <= Txn.GetBalance (t_state t) a ->
  exists t', transfer a b v t = (Ok None, t').
Proof.
  intros Hv. destruct v as [v|]; [|by eexists]. simpl in *.
  destruct (SubBalance_spec (t_state t) a v ltac:(lia)) as [(_ & E & _)|[? _]]; [|lia].
  unfold mbind, GoM_bind. rewrite call_state_run, E. by eexists.
Qed.

Section creations.
Context (callx : CallxT W) `{!CallxGas callx, !CallxKeeps frames callx}.

(** How a funded creation can end. *)
Lemma applyCreate_cases c t r t' :
  0 <= default 0 (c_Value c) <= Txn.GetBalance (t_state t) (c_Caller c) ->
  c_Depth c <= 1025 -> applyCreate config runtimes callx c t = (Ok r, t') ->
  let t0 := set_state (Txn.IncrNonce (c_Caller c) (t_state t)) t in
  (Failed r = true /\ (Homestead config = true -> unseen t0 t')) \/
  (Failed r = false /\ hasCodeOrNonce (c_Address c) t0 = false /\
   exists r3 t3, kept t0 t3 /\ ReturnValue r = ReturnValue r3 /\
     t' = set_state (Txn.SetCode (c_Address c) (ReturnValue r3) (t_state t3)) t3 /\
     (EIP158 config = true -> zlen (ReturnValue r3) <= spuriousDragonMaxCodeSize)).
Proof.
  intros Hv Hd. cbv zeta. rewrite (applyCreate_run getHash) by done. cbv zeta.
  set (t0 := set_state (Txn.IncrNonce _ _) t).
  destruct (Z.ltb_spec (1024 + 1) (c_Depth c)); [lia|].
  destruct (hasCodeOrNonce (c_Address c) t0) eqn:Hcol; [intros [= <- <-]; by left|].
  set (t1 := set_state (openAccount _ _ _) t0).
  pose proof (openAccount_kept config (c_Address c) t0) as H1. fold t1 in H1.
  pose proof (keeps_transfer (c_Caller c) (c_Address c) (c_Value c) t1) as H2.
  destruct (transfer_funded (c_Caller c) (c_Address c) (c_Value c) t1) as [t2 E2].
  { cbn [t1 t_state set_state]. rewrite GetBalance_openAccount, GetBalance_Snapshot.
    cbn [t0 t_state set_state]. by rewrite GetBalance_IncrNonce. }
  rewrite E2 in H2 |- *. simpl in H2.
  pose proof (keeps_run getHash config runtimes Hruntimes callx c t2) as H3.
  destruct (run config runtimes callx c t2) as [[r3|] t3]; [|done]. simpl in H3.
  assert (H0 : kept t0 t3).
  { etrans; [|exact H3]. etrans; [|exact H2]. etrans; [|exact H1].
    apply kept_set_state, later_Snapshot. }
  destruct (Failed r3) eqn:Hf; [intros [= <- <-]; left; split; [done|]; intros _; by apply unseen_revert|].
  destruct (storeCode_run config (c_Address c) r3 t0 t2 t3 ltac:(by etrans) H3 Hf)
    as (r' & t'' & -> & _ & [(Hs & -> & HR & Hsz)|(Hs & Hend)]); intros [= <- <-].
  - right. split; [done|]. split; [done|]. by exists r3, t3.
  - left. split; [done|]. intros HH. destruct Hend as [->|[? _]]; [by apply unseen_revert|congruence].
Qed.
End creations.
End views.
