(* ===== verification/ApplyFacts.v ===== *)
(** Transactions: intrinsic gas, the path of [apply] to a result, and what the
    topmost frame is given. *)

From S2P Require Import Prelude Types Chain Runtime Crypto Slice EvmState Instructions Calls Evm.
From S2P Require Import EvmFacts CallFacts Progress Locality.
From S2P Require Import TxTypes StateTxn TxnFacts Bridge Executor ExecFacts.

(** ** Intrinsic gas *)

Definition zeroBytes (b : bytes) : Z := zlen (List.filter (Z.eqb 0) b).

(** The intrinsic gas as a number. *)
Definition intrinsicGas (msg : Transaction) (isHomestead isIstanbul : bool) : Z :=
  (if IsContractCreation msg && isHomestead then TxGasContractCreation else TxGas) +
  (if isIstanbul then 16 else 68) * (zlen (tr_Input msg) - zeroBytes (tr_Input msg)) +
  4 * zeroBytes (tr_Input msg).

Lemma zeroBytes_bound b : 0 <= zeroBytes b <= zlen b.
Proof.
  unfold zeroBytes, zlen. pose proof (List.filter_length_le (Z.eqb 0) b). lia.
Qed.

(** The division test of the source is an overflow test. *)
Lemma overflow_test cost price n :
  0 <= cost < two64 -> 0 < price -> 0 <= n < two64 ->
  (u64 (MaxUint64 - cost) / price <? n) = (two64 <=? cost + price * n).
Proof.
  intros Hc Hp Hn. unfold MaxUint64. rewrite u64_small by (unfold is_u64; lia).
  apply Bool.eq_iff_eq_true. rewrite Z.ltb_lt, Z.leb_le. split; intros H.
  - assert (price * ((two64 - 1 - cost) / price + 1) <= price * n) by nia.
    pose proof (Z.mul_succ_div_gt (two64 - 1 - cost) price Hp). lia.
  - apply Z.div_lt_upper_bound; lia.
Qed.

Lemma TransactionGasCost_spec msg hs ist :
  zlen (tr_Input msg) < two64 ->
  TransactionGasCost msg hs ist =
    if two64 <=? intrinsicGas msg hs ist then None else Some (intrinsicGas msg hs ist).
Proof.
  intros Hl. unfold TransactionGasCost, intrinsicGas.
  pose proof (zeroBytes_bound (tr_Input msg)) as Hz. fold (zeroBytes (tr_Input msg)).
  set (z := zeroBytes (tr_Input msg)) in *. set (n := zlen (tr_Input msg)) in *.
  set (base := if IsContractCreation msg && hs then _ else _).
  assert (Hb : base = 53000 \/ base = 21000) by (subst base; destruct (_ && hs); auto).
  set (p := if ist then 16 else 68). assert (Hp : p = 16 \/ p = 68) by (subst p; destruct ist; auto).
  clearbody base p z n. unfold two64 in *.
  destruct (Z.ltb_spec 0 n) as [Hn|Hn].
  2:{ assert (n = 0) as -> by lia. assert (z = 0) as -> by lia.
      destruct (Z.leb_spec (2 ^ 64) (base + p * (0 - 0) + 4 * 0)); [lia|]. f_equal. lia. }
  rewrite (u64_small (n - z)) by (unfold is_u64, two64; lia).
  rewrite overflow_test by (unfold two64; lia). unfold two64.
  destruct (Z.leb_spec (2 ^ 64) (base + p * (n - z))) as [H1|H1].
  { by destruct (Z.leb_spec (2 ^ 64) (base + p * (n - z) + 4 * z)); [|lia]. }
  assert (Hm : (n - z) * p = p * (n - z)) by lia. rewrite Hm.
  assert (0 <= p * (n - z)) by (apply Z.mul_nonneg_nonneg; lia).
  rewrite (u64_small (p * (n - z))) by (unfold is_u64, two64; lia).
  rewrite (u64_small (base + _)) by (unfold is_u64, two64; lia).
  rewrite overflow_test by (unfold two64; lia). unfold two64.
  destruct (Z.leb_spec (2 ^ 64) (base + p * (n - z) + 4 * z)); [done|].
  rewrite (u64_small (z * 4)), u64_small by (unfold is_u64, two64; lia). f_equal. lia.
Qed.

(** ** The way to the topmost frame *)

Section transactions.
Context {T : Type -> Type} {Snap : Type}.
Context `{IR : !Iradix T, KK : !Keccak, RL : !FastRlp, ST : !State Snap, BA : !BridgeABI}.
#[local] Abbreviation W := (transition T Snap).
Context (getHash : Z -> Hash) (config : ForksInTime) (runtimes : list (RuntimeT W)).
Hypothesis Hruntimes : Forall (RuntimeOK getHash) runtimes.
Hypothesis HEIP150 : EIP150 config = true.
Implicit Types (t : W) (msg : Transaction).

Lemma keeps_execute msg g : keeps kept (execute config runtimes msg g).
Proof.
  destruct (Callx_at_ok getHash config runtimes Hruntimes HEIP150 maxLevels) as [HG HK].
  unfold execute, Create2_, Call2. destruct (tr_To msg).
  - apply keeps_bind; [apply _|by apply keeps_upserts|]. intros _.
    apply keeps_bind; [apply _|apply keeps_get; apply _|]. intros t. by eapply keeps_applyCall.
  - apply keeps_bind; [apply _|apply keeps_get; apply _|]. intros t. by eapply keeps_applyCreate.
Qed.

Lemma execute_gas msg g t r :
  is_u64 g -> fst (execute config runtimes msg g t) = Ok r -> 0 <= GasLeft r <= g.
Proof.
  intros Hg. destruct (Callx_at_ok getHash config runtimes Hruntimes HEIP150 maxLevels) as [HG HK].
  unfold execute, Create2_, Call2. destruct (tr_To msg); unfold get, modify_state, modify, mbind, GoM_bind.
  - intros E. by eapply (applyCall_gas getHash) in E.
  - intros E. by eapply (applyCreate_gas getHash) in E.
Qed.

(** The state in which the topmost frame starts. *)
Definition charged msg t : W :=
  set_ctx (mkTxContext (BytesToHash (big_bytes (msg_GasPrice msg))) (tr_From msg) (Coinbase (t_ctx t))
             (Number (t_ctx t)) (Timestamp (t_ctx t)) (GasLimit (t_ctx t)) (ChainID (t_ctx t))
             (Difficulty (t_ctx t)))
    (set_gasPool (t_gasPool t - tr_Gas msg)
       (set_state (snd (Txn.SubBalance (tr_From msg) (msg_GasPrice msg * tr_Gas msg) (t_state t))) t)).

(** The state [settle] leaves. *)
Definition settled msg (r : ExecutionResult) t : W :=
  set_gasPool (u64 (t_gasPool t + GasLeft r))
    (set_state
       (Txn.AddBalance (Coinbase (t_ctx t)) (GasUsed r * msg_GasPrice msg)
          (Txn.AddBalance (tr_From msg) (GasLeft r * msg_GasPrice msg) (t_state t))) t).

(** A transaction is applied exactly when its checks pass and its frame returns. *)
Lemma apply_inr msg t r t' :
  apply config runtimes msg t = (Ok (inr r), t') ->
  exists cost r0 t1,
    TxGas <= t_gasPool t /\ Txn.GetNonce (t_state t) (tr_From msg) = tr_Nonce msg /\
    fst (Txn.SubBalance (tr_From msg) (msg_GasPrice msg * tr_Gas msg) (t_state t)) = None /\
    tr_Gas msg <= t_gasPool t /\
    TransactionGasCost msg (Homestead config) (Istanbul config) = Some cost /\
    u64 (tr_Gas msg - cost) <= tr_Gas msg /\
    msg_Value msg <= Txn.GetBalance (t_state (charged msg t)) (tr_From msg) /\
    execute config runtimes msg (u64 (tr_Gas msg - cost)) (charged msg t) = (Ok r0, t1) /\
    r = UpdateGasUsed (tr_Gas msg) (Txn.GetRefund (t_state t1)) r0 /\ t' = settled msg r t1.
Proof.
  unfold apply. rewrite (bind_ok get _ t t t) by done.
  destruct (Z.ltb_spec (t_gasPool t) TxGas) as [|H0]; [done|].
  unfold nonceCheck. destruct (Z.ltb_spec (tr_Nonce msg) (Txn.GetNonce (t_state t) (tr_From msg)));
    [done|].
  destruct (Z.ltb_spec (Txn.GetNonce (t_state t) (tr_From msg)) (tr_Nonce msg)) as [|H1]; [done|].
  unfold subGasLimitPrice. rewrite bind_assoc. erewrite bind_ok by apply call_state_run.
  destruct (fst (Txn.SubBalance _ _ _)) as [e|] eqn:HS; [done|]. erewrite bind_ok by done.
  unfold subGasPool. rewrite bind_assoc. erewrite bind_ok by done. cbn [t_gasPool set_state].
  destruct (Z.ltb_spec (t_gasPool t) (tr_Gas msg)) as [|H2]; [done|].
  erewrite (bind_ok (_;; mret true)) by done. cbn [negb].
  destruct (TransactionGasCost _ _ _) as [cost|]; [|done]. cbv zeta.
  destruct (Z.ltb_spec (tr_Gas msg) (u64 (tr_Gas msg - cost))) as [|H3]; [done|].
  erewrite bind_ok by done.
  destruct (Z.ltb_spec (Txn.GetBalance (t_state (set_gasPool (t_gasPool t - tr_Gas msg)
    (set_state (snd (Txn.SubBalance (tr_From msg) (msg_GasPrice msg * tr_Gas msg) (t_state t))) t)))
    (tr_From msg)) (msg_Value msg)) as [|H4]; [done|].
  rewrite (bind_ok _ _ _ tt (charged msg t)) by done.
  destruct (execute config runtimes msg (u64 (tr_Gas msg - cost)) (charged msg t)) as [[r0|] t1] eqn:HE.
  2:{ by rewrite (bind_panic _ _ _ _ HE). }
  rewrite (bind_ok _ _ _ _ _ HE). intros [= <- <-].
  exists cost, r0, t1. repeat split; try done; lia.
Qed.

(** The fields outside the state and the gas pool. *)
Definition same_block t t' : Prop :=
  t_receipts t' = t_receipts t /\ t_totalGas t' = t_totalGas t.

(** A rejected transaction has at most been charged. *)
Lemma apply_inl msg t e t' :
  apply config runtimes msg t = (Ok (inl e), t') ->
  later (t_state t) (t_state t') /\ t_ctx t' = t_ctx t /\ same_block t t' /\
  (t_gasPool t' = t_gasPool t \/
   t_gasPool t' = t_gasPool t - tr_Gas msg /\ tr_Gas msg <= t_gasPool t).
Proof.
  unfold apply. rewrite (bind_ok get _ t t t) by done.
  assert (Hid : forall P, later (t_state t) (t_state t) /\ t_ctx t = t_ctx t /\ same_block t t /\
    (t_gasPool t = t_gasPool t \/ P)) by (split; [reflexivity|]; split; [done|]; split; [done|by left]).
  destruct (t_gasPool t <? TxGas); [intros [= _ <-]; apply Hid|].
  destruct (nonceCheck msg t); [intros [= _ <-]; apply Hid|].
  unfold subGasLimitPrice. rewrite bind_assoc. erewrite bind_ok by apply call_state_run.
  pose proof (tree_later _ _ (tree_SubBalance (tr_From msg) (msg_GasPrice msg * tr_Gas msg) (t_state t)))
    as Hl.
  destruct (fst (Txn.SubBalance _ _ _)) as [e0|] eqn:HS.
  { intros [= _ <-]. split; [exact Hl|]. split; [done|]. split; [done|by left]. }
  erewrite bind_ok by done. unfold subGasPool. rewrite bind_assoc. erewrite bind_ok by done.
  cbn [t_gasPool set_state].
  destruct (Z.ltb_spec (t_gasPool t) (tr_Gas msg)) as [|H2].
  { intros [= _ <-]. split; [exact Hl|]. split; [done|]. split; [done|by left]. }
  erewrite (bind_ok (_;; mret true)) by done. cbn [negb].
  set (t1 := set_gasPool _ _).
  assert (Hend : later (t_state t) (t_state t1) /\ t_ctx t1 = t_ctx t /\ same_block t t1 /\
    (t_gasPool t1 = t_gasPool t \/
     t_gasPool t1 = t_gasPool t - tr_Gas msg /\ tr_Gas msg <= t_gasPool t)).
  { split; [exact Hl|]. split; [done|]. split; [done|by right]. }
  destruct (TransactionGasCost _ _ _) as [cost|]; [|by intros [= _ <-]]. cbv zeta.
  destruct (tr_Gas msg <? u64 (tr_Gas msg - cost)); [by intros [= _ <-]|].
  erewrite bind_ok by done. destruct (_ <? msg_Value msg); [by intros [= _ <-]|].
  rewrite (bind_ok _ _ _ tt (charged msg t)) by done.
  destruct (execute config runtimes msg (u64 (tr_Gas msg - cost)) (charged msg t)) as [[r0|] t2] eqn:HE.
  - by rewrite (bind_ok _ _ _ _ _ HE).
  - by rewrite (bind_panic _ _ _ _ HE).
Qed.

(** [Apply] without a hook. *)
Lemma Apply_cases msg t r t' :
  Apply config runtimes None msg t = (Ok r, t') ->
  let t0 := set_state (snd (Txn.Snapshot (t_state t))) t in
  match r with
  | inr _ => apply config runtimes msg t0 = (Ok r, t')
  | inl _ => exists t1, apply config runtimes msg t0 = (Ok r, t1) /\
      t' = set_state (Txn.with_txn (tx_txn (t_state t)) (t_state t1)) t1
  end.
Proof.
  unfold Apply. erewrite bind_ok by apply call_state_run. cbv zeta. set (t0 := set_state _ t).
  destruct (apply config runtimes msg t0) as [[[e|x]|] t1] eqn:E.
  - rewrite (bind_ok _ _ _ _ _ E). apply apply_inl in E as (Hl & _).
    assert (HR : on_state (Txn.RevertToSnapshot (fst (Txn.Snapshot (t_state t)))) t1 =
      (Ok tt, set_state (Txn.with_txn (tx_txn (t_state t)) (t_state t1)) t1)).
    { unfold on_state. rewrite RevertToSnapshot_run by apply Hl. done. }
    rewrite (bind_ok _ _ _ _ _ HR). erewrite bind_ok by done. intros [= <- <-]. by exists t1.
  - rewrite (bind_ok _ _ _ _ _ E). erewrite bind_ok by done. erewrite bind_ok by done.
    by intros [= <- <-].
  - by rewrite (bind_panic _ _ _ _ E).
Qed.

(** Gas of an applied transaction. *)
Lemma apply_gas msg t r t' :
  is_u64 (tr_Gas msg) -> zlen (tr_Input msg) < two64 -> is_u64 (t_gasPool t) ->
  refunds_ok (t_state t) -> apply config runtimes msg t = (Ok (inr r), t') ->
  let cost := intrinsicGas msg (Homestead config) (Istanbul config) in
  cost <= tr_Gas msg /\ cost <= 2 * GasUsed r /\ GasLeft r + GasUsed r = tr_Gas msg /\
  0 <= GasLeft r /\ t_gasPool t' = t_gasPool t - GasUsed r /\ 0 <= t_gasPool t' /\
  refunds_ok (t_state t') /\ same_block t t'.
Proof.
  intros Hg Hl Hp Hr E. cbv zeta. apply apply_inr in E
    as (cost & r0 & t1 & _ & _ & _ & Hpool & HC & Hle & _ & HE & -> & ->).
  rewrite TransactionGasCost_spec in HC by done.
  pose proof (zeroBytes_bound (tr_Input msg)).
  assert (Hpos : 0 <= intrinsicGas msg (Homestead config) (Istanbul config)).
  { unfold intrinsicGas, TxGas, TxGasContractCreation. repeat case_match; lia. }
  set (ig := intrinsicGas msg (Homestead config) (Istanbul config)) in *.
  destruct (Z.leb_spec two64 ig); [done|]. injection HC as <-.
  assert (Hig : ig <= tr_Gas msg).
  { destruct (Z.le_gt_cases ig (tr_Gas msg)); [done|]. exfalso. unfold is_u64 in *.
    unfold u64 in Hle. rewrite <- (Z.mod_unique (tr_Gas msg - ig) two64 (-1) (tr_Gas msg - ig + two64))
      in Hle; lia. }
  assert (Hgl : is_u64 (tr_Gas msg - ig)) by (unfold is_u64 in *; lia).
  rewrite (u64_small _ Hgl) in HE.
  pose proof (execute_gas msg _ (charged msg t) r0 Hgl) as Hr0. rewrite HE in Hr0.
  specialize (Hr0 eq_refl).
  pose proof (keeps_execute msg (tr_Gas msg - ig) (charged msg t)) as Hk. rewrite HE in Hk.
  destruct Hk as [[_ Hk] _ Hk2 Hk3 Hk4]. simpl in Hk2, Hk3, Hk4.
  assert (Hr1 : refunds_ok (t_state t1)).
  { apply Hk. apply (tree_refunds (t_state t)); [apply tree_SubBalance|done]. }
  destruct (UpdateGasUsed_spec (tr_Gas msg) (Txn.GetRefund (t_state t1)) r0 Hg
              (GetRefund_u64 _ Hr1) ltac:(lia)) as (Hu & Hgl' & Hsum & Hhalf & Hused).
  set (r := UpdateGasUsed _ _ _) in *. cbn [settled t_gasPool set_gasPool]. rewrite Hk2.
  simpl t_gasPool. unfold is_u64 in *.
  rewrite (u64_small (_ + _)) by (unfold is_u64; lia).
  assert (refunds_ok (t_state (settled msg r t1))).
  { apply (tree_refunds (t_state t1)); [|done]. etrans; apply tree_upsert. }
  do 6 (split; [lia|]). split; [done|]. by split.
Qed.
End transactions.

(** ** After the transaction *)

Section block.
Context {T : Type -> Type} {Snap : Type}.
Context `{IR : !Iradix T, KK : !Keccak, RL : !FastRlp, ST : !State Snap, BA : !BridgeABI}.
#[local] Abbreviation W := (transition T Snap).
Implicit Types (t : W) (x : txn T Snap).

(** Steps that only touch the state, and leave the refund counter a number. *)
Definition steady t t' : Prop :=
  t_gasPool t' = t_gasPool t /\ t_receipts t' = t_receipts t /\ t_totalGas t' = t_totalGas t /\
  (refunds_ok (t_state t) -> refunds_ok (t_state t')).

#[global] Instance steady_preorder : PreOrder steady.
Proof.
  split; [by intros t|]. intros t1 t2 t3 (A1 & A2 & A3 & A4) (B1 & B2 & B3 & B4).
  split; [congruence|]. split; [congruence|]. split; [congruence|auto].
Qed.

Lemma steady_set_state t x : (refunds_ok (t_state t) -> refunds_ok x) -> steady t (set_state x t).
Proof. by intros H. Qed.
Lemma steady_modify_state f : (forall x, tree_step x (f x)) -> keeps steady (modify_state f).
Proof. intros H t. apply steady_set_state, tree_refunds, H. Qed.
Lemma steady_call_state {A} (f : txn T Snap -> A * txn T Snap) :
  (forall x, tree_step x (snd (f x))) -> keeps steady (call_state f).
Proof. intros H t. rewrite call_state_run. apply steady_set_state, tree_refunds, H. Qed.

Lemma tree_Logs x : tree_step x (snd (Txn.Logs x)).
Proof.
  unfold Txn.Logs. destruct (Txn.getLogs x); [|reflexivity]. eexists. split; [done|].
  intros H g. rewrite ir_Get_Delete. case_bool_decide; [done|]. apply H.
Qed.

Lemma tree_markAll ks : keeps tree_step (Txn.markAll (T := T) (Snap := Snap) ks).
Proof.
  induction ks as [|k ks IH]; simpl; [keeps_auto|].
  apply keeps_bind; [apply _| |done]. unfold Txn.markDeleted. keeps_auto.
  apply keeps_modify. intros x. apply tree_insertObject.
Qed.

Lemma tree_CleanDeleteObjects del : keeps tree_step (Txn.CleanDeleteObjects (T := T) (Snap := Snap) del).
Proof.
  unfold Txn.CleanDeleteObjects. apply keeps_bind; [apply _|keeps_auto|]. intros x. cbv zeta.
  apply keeps_bind; [apply _|apply tree_markAll|]. intros []. apply keeps_modify. intros y.
  eexists. split; [done|]. intros H g. rewrite ir_Get_Delete. case_bool_decide; [done|]. apply H.
Qed.

Lemma tree_Commit del : keeps tree_step (Txn.Commit (T := T) (Snap := Snap) del).
Proof.
  unfold Txn.Commit. apply keeps_bind; [apply _|apply tree_CleanDeleteObjects|]. intros [].
  apply keeps_bind; [apply _|keeps_auto|]. intros ?. keeps_auto.
Qed.

Lemma steady_on_state {A} (m : GoM (txn T Snap) A) : keeps tree_step m -> keeps steady (on_state m).
Proof.
  intros H t. unfold on_state. specialize (H (t_state t)). destruct (m (t_state t)).
  by apply steady_set_state, tree_refunds.
Qed.

Lemma refunds_ok_newTxn (s : Snap) : refunds_ok (Txn.newTxn s : txn T Snap).
Proof. split; [|by apply Forall_nil_2]. intros g. simpl. by rewrite ir_Get_New. Qed.

Lemma steady_finishTransaction config r : keeps steady (finishTransaction (T := T) config r).
Proof.
  unfold finishTransaction. destruct (Byzantium config).
  - apply keeps_bind; [apply _|apply steady_on_state, tree_CleanDeleteObjects|]. intros []. keeps_auto.
  - apply keeps_bind; [apply _|apply steady_on_state, tree_Commit|]. intros objs.
    apply keeps_bind; [apply _|keeps_auto|]. intros t.
    apply keeps_bind; [apply _|apply keeps_lift, _|]. intros [ss aux].
    apply keeps_bind; [apply _| |keeps_auto]. apply keeps_modify. intros t'.
    apply steady_set_state. intros _. apply refunds_ok_newTxn.
Qed.

Lemma steady_handleBridgeLog log : keeps steady (handleBridgeLog (T := T) (Snap := Snap) log).
Proof.
  unfold handleBridgeLog. destruct (l_Topics log); [keeps_auto|].
  repeat case_match; try keeps_auto.
  - apply steady_modify_state. intros x. apply tree_upsert.
  - apply steady_call_state. intros x. apply tree_SubBalance.
  - apply steady_modify_state. intros x. apply tree_upsert.
  - apply steady_call_state. intros x. apply tree_SubBalance.
Qed.

Lemma steady_handleBridgeLogs msg logs : keeps steady (handleBridgeLogs (T := T) (Snap := Snap) msg logs).
Proof.
  unfold handleBridgeLogs. destruct (_ || _); [keeps_auto|].
  induction logs as [|log logs IH]; simpl; [keeps_auto|].
  apply keeps_bind; [apply _|apply steady_handleBridgeLog|]. intros [e|]; [keeps_auto|done].
Qed.

Context (getHash : Z -> Hash) (config : ForksInTime) (runtimes : list (RuntimeT W)).
Hypothesis Hruntimes : Forall (RuntimeOK getHash) runtimes.
Hypothesis HEIP150 : EIP150 config = true.
Context (Sender : Transaction -> result (option Address)).

(** The transactions of a decoded block. *)
Definition tx_ok (tx : Transaction) : Prop := is_u64 (tr_Gas tx) /\ zlen (tr_Input tx) < two64.

(** Gas accounts of a block: what is left in the pool and what was used add up. *)
Record accounts (limit : Z) t : Prop := mkAccounts {
  ac_sum : t_gasPool t + t_totalGas t = limit;
  ac_pool : 0 <= t_gasPool t;
  ac_total : 0 <= t_totalGas t;
  ac_refunds : refunds_ok (t_state t);
}.

(** One more receipt: its gas is added to the total, which it records. *)
Definition receipted t (used : Z) t' : Prop :=
  exists rc, t_receipts t' = t_receipts t ++ [rc] /\ r_GasUsed rc = used /\
    r_CumulativeGasUsed rc = t_totalGas t' /\ t_totalGas t' = t_totalGas t + used.

Lemma withSender_fields tx tx' :
  withSender Sender tx = Ok (Some tx') -> tr_Gas tx' = tr_Gas tx /\ tr_Input tx' = tr_Input tx.
Proof.
  unfold withSender. destruct (bool_decide _); [|by intros [= ->]].
  destruct (Sender tx) as [[a|]|]; [|done..]. by intros [= <-].
Qed.

Lemma Write_accounts limit tx t t' :
  is_u64 limit -> tx_ok tx -> accounts limit t ->
  Write config runtimes None Sender tx t = (Ok None, t') ->
  accounts limit t' /\ exists used, receipted t used t' /\ 10500 <= used <= tr_Gas tx.
Proof.
  intros Hl [Hg Hi] [Hs Hp Ht Hr]. unfold Write.
  destruct (withSender Sender tx) as [[tx'|]|] eqn:Hw; [|done..]. rewrite lift_ok.
  apply withSender_fields in Hw as [Hg' Hi'].
  intros E. apply bind_inv in E as (r & t1 & EA & E).
  apply Apply_cases in EA. destruct r as [e|r]; [done|].
  assert (Hr0 : refunds_ok (snd (Txn.Snapshot (t_state t)))) by by apply later_Snapshot.
  apply (apply_gas getHash) in EA;
    [|done|done|by rewrite <- Hg' in Hg|by rewrite <- Hi' in Hi|unfold is_u64 in *; cbn; lia|done].
  destruct EA as (Hcost & Hhalf & Hsum & Hleft & Hpool' & Hpos & Hr1 & Hrec1 & Htot1).
  cbn in Hcost, Hsum, Hpool', Hrec1, Htot1. rewrite Hg' in *.
  assert (Hused : 10500 <= GasUsed r).
  { pose proof (zeroBytes_bound (tr_Input tx')). revert Hhalf. unfold intrinsicGas. cbn.
    unfold TxGas, TxGasContractCreation. repeat case_match; lia. }
  rewrite (bind_ok _ _ _ tt (set_totalGas (u64 (t_totalGas t1 + GasUsed r)) t1)) in E by done.
  rewrite u64_small, Htot1 in E by (unfold is_u64 in *; lia).
  apply bind_inv in E as (logs & t2 & E2 & E).
  pose proof (steady_call_state Txn.Logs tree_Logs (set_totalGas (t_totalGas t + GasUsed r) t1)) as S2.
  rewrite E2 in S2. apply bind_inv in E as (total & t2' & E3 & E). apply gets_inv in E3 as [-> ->].
  apply bind_inv in E as (rs & t3 & E3 & E). pose proof (steady_finishTransaction config r t2) as S3.
  rewrite E3 in S3. apply bind_inv in E as ([e|] & t4 & E4 & E); [done|].
  pose proof (steady_handleBridgeLogs (Transaction_Copy tx') logs t3) as S4. rewrite E4 in S4.
  injection E as <-.
  destruct (steady_preorder.(PreOrder_Transitive) _ _ _ S2
              (steady_preorder.(PreOrder_Transitive) _ _ _ S3 S4)) as (P1 & P2 & P3 & P4).
  destruct S2 as (_ & _ & Q3 & _). cbn in P1, P2, P3, P4, Q3.
  split; [constructor; cbn; [lia..|auto]|]. exists (GasUsed r). split; [|lia].
  eexists. split; [cbn; by rewrite P2, Hrec1|]. cbn. repeat split; lia.
Qed.

Lemma WriteFailedReceipt_accounts limit tx t t' :
  accounts limit t -> WriteFailedReceipt Sender tx t = (Ok None, t') ->
  accounts limit t' /\ receipted t 0 t'.
Proof.
  intros [Hs Hp Ht Hr]. unfold WriteFailedReceipt.
  destruct (withSender Sender tx) as [[tx'|]|]; [|done..]. rewrite lift_ok.
  rewrite (bind_ok _ _ _ _ _ (call_state_run Txn.Logs t)).
  erewrite bind_ok by done. erewrite bind_ok by done. intros [= <-].
  assert (Hr' : refunds_ok (snd (Txn.Logs (t_state t)))) by apply (tree_refunds _ _ (tree_Logs _) Hr).
  split; [by constructor|]. eexists. split; [done|]. cbn. repeat split; lia.
Qed.

(** Receipts in order, starting at a total of [start]. *)
Fixpoint cumulative (start : Z) (rs : list Receipt) : Prop :=
  match rs with
  | [] => True
  | r :: rs => 0 <= r_GasUsed r /\ r_CumulativeGasUsed r = start + r_GasUsed r /\
      cumulative (start + r_GasUsed r) rs
  end.

Definition totalUsed (rs : list Receipt) : Z := fold_right (fun r n => r_GasUsed r + n) 0 rs.

Lemma process_accounts limit stopped i gasLimit txs t t' :
  is_u64 limit -> Forall tx_ok txs -> accounts limit t ->
  process config runtimes None Sender stopped i gasLimit txs t = (Ok None, t') ->
  accounts limit t' /\
  exists rs, t_receipts t' = t_receipts t ++ rs /\ length rs = length txs /\
    cumulative (t_totalGas t) rs /\ t_totalGas t' = t_totalGas t + totalUsed rs.
Proof.
  intros Hl Htx. revert i t. induction Htx as [|tx txs Hok _ IH]; intros i t Hac; simpl.
  { intros [= <-]. split; [done|]. exists []. rewrite app_nil_r. cbn. repeat split; lia. }
  destruct (stopped i); [done|]. intros E. apply bind_inv in E as ([e|] & t1 & E1 & E); [done|].
  assert (H1 : accounts limit t1 /\ exists used, receipted t used t1 /\ 0 <= used).
  { destruct (ExceedsBlockGasLimit tx gasLimit).
    - destruct (WriteFailedReceipt_accounts limit tx t t1 Hac E1). split; [done|]. by exists 0.
    - destruct (Write_accounts limit tx t t1 Hl Hok Hac E1) as (? & u & ? & ?).
      split; [done|]. exists u. split; [done|lia]. }
  destruct H1 as (Hac1 & used & (rc & Hrc & Hu & Hc & Ht) & Hpos).
  destruct (IH _ _ Hac1 E) as (Hac' & rs & Hrs & Hlen & Hcum & Htot). split; [done|].
  exists (rc :: rs). rewrite Hrs, Hrc, <- app_assoc. split; [done|]. cbn. rewrite Hlen.
  split; [done|]. rewrite Hu, <- Ht. repeat split; [lia..|done|unfold totalUsed in *; lia].
Qed.
End block.
