(* ===== verification/ExecCorrect.v ===== *)
(** What the state transition promises of frames: the recursion with the
    interpreter is well founded, no frame creates gas, failed frames leave no
    trace, static frames change nothing, and created code is stored. *)

From S2P Require Import Prelude Types Chain Runtime Crypto Slice Instances EvmState.
From S2P Require Import Instructions Calls Evm EvmFacts CallFacts Progress Locality EvmCorrect.
From S2P Require Import TxTypes StateTxn TxnFacts TxnCorrect Bridge Executor ExecFacts ApplyFacts.

(** ** A concrete chain *)

Module DemoChain.
Import Demo DemoState.
#[local] Abbreviation T := (gmap bytes).
#[local] Abbreviation Snap := (gmap bytes bytes).
#[local] Abbreviation W := (transition T Snap).

Definition getHash (n : Z) : Hash := ZeroHash.
Definition runtimes : list (RuntimeT W) := [EVM_runtime getHash (fun _ => mkPooled nil_slice nil_slice)].

(** SSTORE, then REVERT. *)
Definition reverting : bytes := [0x60; 1; 0x60; 0; 0x55; 0x60; 0; 0x60; 0; 0xfd].
(** Return one byte, 0x60, of memory: init code for a contract. *)
Definition initcode : bytes := [0x60; 0x60; 0x60; 0; 0x53; 0x60; 1; 0x60; 0; 0xf3].

Definition ctx : TxContext :=
  mkTxContext ZeroHash ZeroAddress (addr 9) 1 1 10000000 1 ZeroHash.

(** Address 1 has money, address 7 the reverting code. *)
Definition state0 : txn T Snap :=
  Txn.SetCode (addr 7) reverting (Txn.AddBalance (addr 1) 1000000000 (Txn.newTxn ∅)).
Definition start : W := mkTransition state0 ctx 10000000 [] 0 0.

Definition callFrame (to : Z) (value gas : Z) (code : bytes) : Contract :=
  NewContractCall 1 (addr 1) (addr 1) (addr to) (Some value) gas code [].
Definition createFrame (value gas : Z) (code : bytes) : Contract :=
  set_c_Type Create (NewContractCreation 1 (addr 1) (addr 1) (addr 8) (Some value) gas code).

Lemma runtimes_ok : Forall (RuntimeOK getHash) runtimes.
Proof. apply Forall_singleton. apply EVM_runtime_ok. Qed.
Lemma refunds_ok_start : refunds_ok state0.
Proof.
  eapply tree_refunds; [apply tree_upsert|]. eapply tree_refunds; [apply tree_upsert|].
  apply refunds_ok_newTxn.
Qed.

(** How a run ended. *)
Definition failed (o : result ExecutionResult) : bool :=
  match o with Ok r => Failed r | Panic => false end.
Definition succeeded (o : result ExecutionResult) : bool :=
  match o with Ok r => negb (Failed r) | Panic => false end.
End DemoChain.

Import Demo DemoState.
#[local] Abbreviation demo_call := (Callx Demo.forks DemoChain.runtimes).

(** * Properties *)

(** C1: from EIP-150 on the mutual recursion between the interpreter and the executor is
    well founded: frames deeper than 1025 return at once and every frame starts frames
    one level deeper only, so that the bounded recursion of the model satisfies the
    equation of [Transition.Callx] with no bound, for every frame. *)
Theorem Callx_recursive {T Snap}
    `{IR : !Iradix T, KK : !Keccak, RL : !FastRlp, ST : !State Snap}
    (getHash : Z -> Hash) (config : ForksInTime) (runtimes : list (RuntimeT (transition T Snap)))
    (c : Contract) (t : transition T Snap) :
  Forall (RuntimeOK getHash) runtimes -> EIP150 config = true -> 0 <= c_Depth c ->
  Callx config runtimes c t =
    if bool_decide (c_Type c = Create) then applyCreate config runtimes (Callx config runtimes) c t
    else applyCall config runtimes (Callx config runtimes) c (c_Type c) t.
Proof. intros HR HE Hd. exact (Callx_eq getHash config runtimes HR HE c t Hd). Qed.

Lemma Callx_recursive_witness :
  demo_call (DemoChain.callFrame 7 5 100000 DemoChain.reverting) DemoChain.start =
  applyCall Demo.forks DemoChain.runtimes demo_call
    (DemoChain.callFrame 7 5 100000 DemoChain.reverting) Call DemoChain.start.
Proof.
  refine (Callx_recursive DemoChain.getHash Demo.forks DemoChain.runtimes
            (DemoChain.callFrame 7 5 100000 DemoChain.reverting) DemoChain.start
            DemoChain.runtimes_ok eq_refl _).
  vm_compute. discriminate.
Defined.

(** C34: from EIP-150 on, and with runtimes that create no gas themselves ([RuntimeOK], the
    EVM is one), no frame creates gas, at any depth of calls and creations: the gas left is
    between zero and the gas of the frame. And no frame touches the gas pool, the
    receipts, the totals or the context of the block. *)
Theorem Callx_gas {T Snap}
    `{IR : !Iradix T, KK : !Keccak, RL : !FastRlp, ST : !State Snap}
    (getHash : Z -> Hash) (config : ForksInTime) (runtimes : list (RuntimeT (transition T Snap)))
    (c : Contract) (t t' : transition T Snap) (r : ExecutionResult) :
  Forall (RuntimeOK getHash) runtimes -> EIP150 config = true -> is_u64 (c_Gas c) ->
  Callx config runtimes c t = (Ok r, t') ->
  0 <= GasLeft r <= c_Gas c /\ t_gasPool t' = t_gasPool t /\ t_receipts t' = t_receipts t /\
  t_totalGas t' = t_totalGas t /\ t_ctx t' = t_ctx t.
Proof.
  intros HR HE HU E.
  destruct (Callx_at_ok getHash config runtimes HR HE maxLevels) as [HG HK].
  pose proof (HG c t r HU) as Hg. pose proof (HK c t) as Hk. unfold Callx in E. rewrite E in Hg, Hk.
  specialize (Hk ltac:(done)). destruct Hk as [_ ? ? ? ?]. auto.
Qed.

Lemma Callx_gas_witness :
  exists r t', demo_call (DemoChain.callFrame 7 5 100000 DemoChain.reverting) DemoChain.start = (Ok r, t') /\
    0 <= GasLeft r <= 100000 /\ t_gasPool t' = 10000000.
Proof.
  assert (H : DemoChain.failed (fst (demo_call (DemoChain.callFrame 7 5 100000 DemoChain.reverting)
                                       DemoChain.start)) = true) by (vm_compute; reflexivity).
  destruct (demo_call (DemoChain.callFrame 7 5 100000 DemoChain.reverting) DemoChain.start)
    as [[r|] t'] eqn:E; [|discriminate H].
  destruct (Callx_gas DemoChain.getHash Demo.forks DemoChain.runtimes
              (DemoChain.callFrame 7 5 100000 DemoChain.reverting) DemoChain.start t' r
              DemoChain.runtimes_ok eq_refl ltac:(vm_compute; split; [discriminate|reflexivity]) E)
    as (Hg & Hp & _).
  exists r, t'. split; [reflexivity|]. split; [exact Hg|exact Hp].
Defined.

(** C5: from EIP-150 on a message call that fails, by a revert, an error, a panic of the
    interpreter, a lack of funds or the depth limit, leaves no trace: every account
    (balance, nonce, code, storage), the refund counter and the logs are as before,
    whatever the call and the frames it started did in between. *)
Theorem Callx_failed_call {T Snap}
    `{IR : !Iradix T, KK : !Keccak, RL : !FastRlp, ST : !State Snap}
    (getHash : Z -> Hash) (config : ForksInTime) (runtimes : list (RuntimeT (transition T Snap)))
    (c : Contract) (t t' : transition T Snap) (r : ExecutionResult) :
  Forall (RuntimeOK getHash) runtimes -> EIP150 config = true -> 0 <= c_Depth c ->
  c_Type c <> Create -> is_address (c_Address c) ->
  Callx config runtimes c t = (Ok r, t') -> Failed r = true ->
  (forall a, object (t_state t') a = object (t_state t) a) /\
  Txn.GetRefund (t_state t') = Txn.GetRefund (t_state t) /\
  Txn.getLogs (t_state t') = Txn.getLogs (t_state t).
Proof.
  intros HR HE Hd Hty Ha E Hf.
  destruct (Callx_at_ok getHash config runtimes HR HE maxLevels) as [HG HK].
  rewrite (Callx_eq getHash) in E by done. rewrite bool_decide_eq_false_2 in E by done.
  eapply (applyCall_failed getHash) in E as [_ [? ? ?]]; auto.
Qed.

Lemma Callx_failed_call_witness :
  exists r t', demo_call (DemoChain.callFrame 7 5 100000 DemoChain.reverting) DemoChain.start = (Ok r, t') /\
    Failed r = true /\ Txn.GetBalance (t_state t') (DemoState.addr 7) = 0.
Proof.
  assert (H : DemoChain.failed (fst (demo_call (DemoChain.callFrame 7 5 100000 DemoChain.reverting)
                                       DemoChain.start)) = true) by (vm_compute; reflexivity).
  destruct (demo_call (DemoChain.callFrame 7 5 100000 DemoChain.reverting) DemoChain.start)
    as [[r|] t'] eqn:E; [|discriminate H].
  destruct (Callx_failed_call DemoChain.getHash Demo.forks DemoChain.runtimes
              (DemoChain.callFrame 7 5 100000 DemoChain.reverting) DemoChain.start t' r
              DemoChain.runtimes_ok eq_refl ltac:(vm_compute; discriminate)
              ltac:(vm_compute; discriminate) (DemoState.addr_ok 7 ltac:(split; [discriminate|reflexivity])) E H)
    as (Hg & _).
  exists r, t'. split; [reflexivity|]. split; [exact H|].
  rewrite GetBalance_default. fold (object (t_state t') (DemoState.addr 7)). rewrite Hg.
  vm_compute. reflexivity.
Defined.

(** C10: from EIP-150 on a static call cannot be noticed, whatever it returns: every account, the
    refund counter and the logs are as before, also when it panics. *)
Theorem Callx_static {T Snap}
    `{IR : !Iradix T, KK : !Keccak, RL : !FastRlp, ST : !State Snap}
    (getHash : Z -> Hash) (config : ForksInTime) (runtimes : list (RuntimeT (transition T Snap)))
    (c : Contract) (t : transition T Snap) :
  Forall (RuntimeOK getHash) runtimes -> EIP150 config = true ->
  read_only c -> c_Type c <> Create -> (c_Type c = Call -> default 0 (c_Value c) = 0) ->
  let t' := snd (Callx config runtimes c t) in
  (forall a, object (t_state t') a = object (t_state t) a) /\
  Txn.GetRefund (t_state t') = Txn.GetRefund (t_state t) /\
  Txn.getLogs (t_state t') = Txn.getLogs (t_state t).
Proof.
  intros HR HE Hro Hty Hv.
  destruct (Callx_at_static getHash config runtimes HR maxLevels HE c t) as [_ [? ? ?]];
    [by intros _|auto].
Qed.

Lemma Callx_static_witness :
  let c := set_c_Static true (set_c_Type StaticCall
             (DemoChain.callFrame 7 0 100000 DemoChain.reverting)) in
  Txn.GetBalance (t_state (snd (demo_call c DemoChain.start))) (DemoState.addr 1) = 1000000000.
Proof.
  intros c.
  destruct (Callx_static DemoChain.getHash Demo.forks DemoChain.runtimes c DemoChain.start
              DemoChain.runtimes_ok eq_refl
              (conj eq_refl (DemoState.addr_ok 7 ltac:(split; [discriminate|reflexivity])))
              ltac:(vm_compute; discriminate) ltac:(vm_compute; discriminate)) as (Hg & _).
  rewrite GetBalance_default. fold (object (t_state (snd (demo_call c DemoChain.start))) (DemoState.addr 1)).
  rewrite Hg. vm_compute. reflexivity.
Defined.

(** C20: from EIP-150 on a funded contract creation either fails, leaving behind (from Homestead on)
    nothing but the new nonce of the creator; or it succeeds, on an address that had
    neither code nor nonce, and then the code of the new account is what the init
    code returned, within the size limit of EIP-158. *)
Theorem Callx_create {T Snap}
    `{IR : !Iradix T, KK : !Keccak, RL : !FastRlp, ST : !State Snap}
    (getHash : Z -> Hash) (config : ForksInTime) (runtimes : list (RuntimeT (transition T Snap)))
    (c : Contract) (t t' : transition T Snap) (r : ExecutionResult) :
  Forall (RuntimeOK getHash) runtimes -> EIP150 config = true -> 0 <= c_Depth c <= 1025 ->
  c_Type c = Create -> 0 <= default 0 (c_Value c) <= Txn.GetBalance (t_state t) (c_Caller c) ->
  Callx config runtimes c t = (Ok r, t') ->
  let x0 := Txn.IncrNonce (c_Caller c) (t_state t) in
  (Failed r = true /\ (Homestead config = true ->
     (forall a, object (t_state t') a = object x0 a) /\
     Txn.GetRefund (t_state t') = Txn.GetRefund x0 /\ Txn.getLogs (t_state t') = Txn.getLogs x0)) \/
  (Failed r = false /\ hasCodeOrNonce (c_Address c) (set_state x0 t) = false /\
     Txn.GetCode (t_state t') (c_Address c) = ReturnValue r /\
     (EIP158 config = true -> zlen (ReturnValue r) <= spuriousDragonMaxCodeSize)).
Proof.
  intros HR HE Hd Hty Hv E.
  destruct (Callx_at_ok getHash config runtimes HR HE maxLevels) as [HG HK].
  rewrite (Callx_eq getHash) in E by (done || lia). rewrite bool_decide_eq_true_2 in E by done.
  cbv zeta. eapply (applyCreate_cases getHash) in E; [|done..|lia].
  destruct E as [[Hf Hu]|(Hf & Hcol & r3 & t3 & _ & HR3 & -> & Hsz)]; [left|right].
  - split; [done|]. intros HH. destruct (Hu HH) as [_ [? ? ?]]. auto.
  - split; [done|]. split; [done|]. rewrite HR3. split; [|done]. simpl.
    unfold Txn.GetCode, Txn.SetCode. rewrite get_upsert by apply live_set_Code, default_live.
    by rewrite bool_decide_eq_true_2.
Qed.

Lemma Callx_create_witness :
  exists r t', demo_call (DemoChain.createFrame 5 100000 DemoChain.initcode) DemoChain.start = (Ok r, t') /\
    Txn.GetCode (t_state t') (DemoState.addr 8) = [0x60].
Proof.
  assert (H : bool_decide (DemoChain.succeeded (fst (demo_call
      (DemoChain.createFrame 5 100000 DemoChain.initcode) DemoChain.start)) = true /\
      match fst (demo_call (DemoChain.createFrame 5 100000 DemoChain.initcode) DemoChain.start) with
      | Ok r => ReturnValue r | Panic => [] end = [0x60]) = true) by (vm_compute; reflexivity).
  apply bool_decide_eq_true_1 in H.
  destruct (demo_call (DemoChain.createFrame 5 100000 DemoChain.initcode) DemoChain.start)
    as [[r|] t'] eqn:E; [|destruct H as [H _]; discriminate H].
  destruct H as [H HR]. cbn in H, HR.
  destruct (Callx_create DemoChain.getHash Demo.forks DemoChain.runtimes
              (DemoChain.createFrame 5 100000 DemoChain.initcode) DemoChain.start t' r
              DemoChain.runtimes_ok eq_refl ltac:(vm_compute; split; discriminate) eq_refl
              ltac:(vm_compute; split; discriminate) E) as [[Hf _]|(_ & _ & Hc & _)].
  - rewrite Hf in H. discriminate H.
  - exists r, t'. split; [reflexivity|]. etrans; [exact Hc|exact HR].
Defined.
