(* ===== verification/ApplyCorrect.v ===== *)
(** What the executor promises of transactions and blocks: intrinsic gas, fees,
    rejected transactions, plain transfers, the gas accounts of a block, and the
    logs of the bridge. *)

From S2P Require Import Prelude Types Chain Runtime Crypto Slice Instances EvmState.
From S2P Require Import Instructions Calls Evm EvmFacts CallFacts Progress Locality EvmCorrect.
From S2P Require Import TxTypes BlockTypes Signer StateTxn TxnFacts TxnCorrect Bridge Executor ExecFacts ApplyFacts.
From S2P Require Import ExecCorrect.

(** ** Balances along a transaction *)

Section balances.
Context {T : Type -> Type} {Snap : Type}.
Context `{IR : !Iradix T, KK : !Keccak, RL : !FastRlp, ST : !State Snap}.
Implicit Types (x : txn T Snap) (a : Address).

(** [v] at [a], nothing elsewhere. *)
Definition at_addr (a : Address) (v : Z) (a' : Address) : Z := if bool_decide (a = a') then v else 0.

Lemma balance_credit x a v a' :
  0 <= v -> Txn.GetBalance (Txn.AddBalance a v x) a' = Txn.GetBalance x a' + at_addr a v a'.
Proof.
  intros Hv. pose proof (GetBalance_nonneg x a). rewrite GetBalance_AddBalance by lia.
  unfold at_addr. case_bool_decide; subst; lia.
Qed.

Lemma balance_debit x a v :
  0 <= v -> fst (Txn.SubBalance a v x) = None ->
  v <= Txn.GetBalance x a /\
  forall a', Txn.GetBalance (snd (Txn.SubBalance a v x)) a' = Txn.GetBalance x a' - at_addr a v a'.
Proof.
  intros Hv Hs. destruct (SubBalance_spec x a v Hv) as [(H & _ & Hb)|[_ E]]; [|by rewrite E in Hs].
  split; [done|]. intros a'. rewrite Hb. unfold at_addr. case_bool_decide; subst; lia.
Qed.

Lemma debit_ok x a v : 0 <= v <= Txn.GetBalance x a -> fst (Txn.SubBalance a v x) = None.
Proof. intros Hv. destruct (SubBalance_spec x a v ltac:(lia)) as [(_ & ? & _)|[? _]]; [done|lia]. Qed.
End balances.

(** * Properties *)

(** The intrinsic gas of a transaction is 21000 (53000 for a creation from
    Homestead on) plus 4 per zero byte and 68 (16 from Istanbul on) per other byte of
    its input; the error is returned exactly when this number does not fit in 64
    bits, and no intermediate product wraps. *)
Theorem TransactionGasCost_correct (msg : Transaction) (isHomestead isIstanbul : bool) :
  zlen (tr_Input msg) < two64 ->
  let cost := intrinsicGas msg isHomestead isIstanbul in
  TransactionGasCost msg isHomestead isIstanbul = if two64 <=? cost then None else Some cost.
Proof. apply TransactionGasCost_spec. Qed.

Lemma TransactionGasCost_correct_witness :
  TransactionGasCost (mkTransaction 0 (Some 1) 100000 None (Some 0) [0; 7; 0] None None None ZeroAddress)
    true true = Some 53024.
Proof.
  refine (TransactionGasCost_correct
            (mkTransaction 0 (Some 1) 100000 None (Some 0) [0; 7; 0] None None None ZeroAddress)
            true true _). vm_compute. reflexivity.
Defined.

(** C13: gas and fees of an applied transaction add up, from EIP-150 on and with runtimes
    that create no gas ([RuntimeOK]), while the refund counter has not wrapped ([refunds_ok]).
    Its nonce is the sender's; the
    gas used and the gas left add up to its gas limit; what is used is at least half
    of the intrinsic gas (refunds are capped); the pool of the block goes down by
    exactly the gas used; the sender is charged for all its gas before the topmost
    frame and gets the gas left back after it, the coinbase gets the gas used, all at
    the price of the transaction, and no other balance is touched outside that
    frame. *)
Theorem apply_accounting {T Snap}
    `{IR : !Iradix T, KK : !Keccak, RL : !FastRlp, ST : !State Snap}
    (getHash : Z -> Hash) (config : ForksInTime) (runtimes : list (RuntimeT (transition T Snap)))
    (msg : Transaction) (t t' : transition T Snap) (r : ExecutionResult) :
  Forall (RuntimeOK getHash) runtimes -> EIP150 config = true -> tx_ok msg ->
  0 <= msg_GasPrice msg -> is_u64 (t_gasPool t) -> refunds_ok (t_state t) ->
  apply config runtimes msg t = (Ok (inr r), t') ->
  let cost := intrinsicGas msg (Homestead config) (Istanbul config) in
  let price := msg_GasPrice msg in
  Txn.GetNonce (t_state t) (tr_From msg) = tr_Nonce msg /\
  GasLeft r + GasUsed r = tr_Gas msg /\ cost <= tr_Gas msg /\ cost <= 2 * GasUsed r /\
  0 <= GasLeft r /\ t_gasPool t' = t_gasPool t - GasUsed r /\ 0 <= t_gasPool t' /\
  exists t0 t1 r0,
    (forall a, Txn.GetBalance (t_state t0) a =
       Txn.GetBalance (t_state t) a - at_addr (tr_From msg) (price * tr_Gas msg) a) /\
    execute config runtimes msg (tr_Gas msg - cost) t0 = (Ok r0, t1) /\
    Err r = Err r0 /\ ReturnValue r = ReturnValue r0 /\
    forall a, Txn.GetBalance (t_state t') a =
       Txn.GetBalance (t_state t1) a + at_addr (tr_From msg) (price * GasLeft r) a +
       at_addr (Coinbase (t_ctx t)) (price * GasUsed r) a.
Proof.
  intros HR HE [Hg Hi] Hpr Hp Hrf E. cbv zeta.
  destruct (apply_gas getHash config runtimes HR HE msg t r t' Hg Hi Hp Hrf E)
    as (H1 & H2 & H3 & H4 & H5 & H6 & _). apply apply_inr in E
    as (cost & r0 & t1 & _ & Hn & Hsub & _ & HC & _ & _ & Hex & -> & ->).
  rewrite TransactionGasCost_spec in HC by done.
  set (ig := intrinsicGas msg (Homestead config) (Istanbul config)) in *.
  destruct (two64 <=? ig); [done|]. injection HC as <-.
  assert (Hig : 0 <= ig).
  { subst ig. pose proof (zeroBytes_bound (tr_Input msg)).
    unfold intrinsicGas, TxGas, TxGasContractCreation. repeat case_match; lia. }
  rewrite u64_small in Hex by (unfold is_u64 in *; lia).
  do 7 (split; [done|]). exists (charged msg t), t1, r0.
  apply balance_debit in Hsub as [_ Hsub]; [|apply Z.mul_nonneg_nonneg; unfold is_u64 in *; lia].
  split; [exact Hsub|]. split; [done|]. split; [done|]. split; [done|]. intros a.
  pose proof (keeps_execute getHash config runtimes HR HE msg (tr_Gas msg - ig) (charged msg t)) as Hk.
  rewrite Hex in Hk. destruct Hk as [_ Hctx _ _ _]. cbn in Hctx.
  cbn [t_state settled set_gasPool set_state]. rewrite Hctx. cbn [Coinbase].
  set (r := UpdateGasUsed _ _ _) in *.
  rewrite !balance_credit, !(Z.mul_comm (msg_GasPrice msg)); [done|apply Z.mul_nonneg_nonneg; lia..].
Qed.

Import Demo DemoState.

(** A call of the reverting contract, with a value of 5. *)
Definition demo_msg : Transaction :=
  mkTransaction 0 (Some 2) 100000 (Some (addr 7)) (Some 5) [1; 2] None None None (addr 1).

Lemma demo_msg_ok : tx_ok demo_msg.
Proof. vm_compute. split; [split; [discriminate|reflexivity]|reflexivity]. Qed.

(** How an application ended. *)
Definition applied {E A} (o : result (E + A)) : bool :=
  match o with Ok (inr _) => true | _ => false end.

Lemma apply_accounting_witness :
  exists r t', apply forks DemoChain.runtimes demo_msg DemoChain.start = (Ok (inr r), t') /\
    GasLeft r + GasUsed r = 100000 /\ t_gasPool t' = 10000000 - GasUsed r.
Proof.
  assert (H : applied (fst (apply forks DemoChain.runtimes demo_msg DemoChain.start)) = true)
    by (vm_compute; reflexivity).
  destruct (apply forks DemoChain.runtimes demo_msg DemoChain.start) as [[[e|r]|] t'] eqn:E;
    [discriminate H| |discriminate H].
  destruct (apply_accounting DemoChain.getHash forks DemoChain.runtimes demo_msg DemoChain.start t' r
              DemoChain.runtimes_ok eq_refl demo_msg_ok ltac:(vm_compute; discriminate)
              ltac:(vm_compute; split; [discriminate|reflexivity]) DemoChain.refunds_ok_start E)
    as (_ & Hg & _ & _ & _ & Hp & _).
  exists r, t'. split; [reflexivity|]. split; [exact Hg|exact Hp].
Defined.

(** C21: a rejected transaction leaves the state of the block as it was: every
    account, the refund counter and the logs, the context, the receipts and the
    total of the gas used. *)
Theorem Apply_rejected {T Snap}
    `{IR : !Iradix T, KK : !Keccak, RL : !FastRlp, ST : !State Snap}
    (config : ForksInTime) (runtimes : list (RuntimeT (transition T Snap)))
    (msg : Transaction) (t t' : transition T Snap) (e : apply_error) :
  Apply config runtimes None msg t = (Ok (inl e), t') ->
  (forall a, object (t_state t') a = object (t_state t) a) /\
  Txn.GetRefund (t_state t') = Txn.GetRefund (t_state t) /\
  Txn.getLogs (t_state t') = Txn.getLogs (t_state t) /\
  t_ctx t' = t_ctx t /\ t_receipts t' = t_receipts t /\ t_totalGas t' = t_totalGas t.
Proof.
  intros E. apply Apply_cases in E as (t1 & E & ->).
  apply apply_inl in E as ([[Hs _] _] & Hc & [Hr Ht] & _). cbn in Hs, Hc, Hr, Ht.
  assert (HV : same_view (t_state t) (Txn.with_txn (tx_txn (t_state t)) (t_state t1)))
    by by apply view_tree.
  destruct HV. split_and!; auto.
Qed.

Lemma Apply_rejected_witness :
  let msg := mkTransaction 0 (Some 2) 20999 (Some (addr 7)) (Some 5) [] None None None (addr 1) in
  exists e t', Apply forks DemoChain.runtimes None msg DemoChain.start = (Ok (inl e), t') /\
    Txn.GetBalance (t_state t') (addr 1) = 1000000000.
Proof.
  intros msg.
  assert (H : match fst (Apply forks DemoChain.runtimes None msg DemoChain.start) with
              | Ok (inl _) => true | _ => false end = true) by (vm_compute; reflexivity).
  destruct (Apply forks DemoChain.runtimes None msg DemoChain.start) as [[[e|r]|] t'] eqn:E;
    [|discriminate H|discriminate H].
  destruct (Apply_rejected forks DemoChain.runtimes msg DemoChain.start t' e E) as (Hg & _).
  exists e, t'. split; [reflexivity|].
  rewrite GetBalance_default. fold (object (t_state t') (addr 1)). rewrite Hg. vm_compute. reflexivity.
Defined.

Lemma u64_i64 x : is_u64 x -> u64 (i64 x) = x.
Proof.
  intros Hx. unfold i64. unfold is_u64 in Hx. rewrite (Z.mod_small x) by lia.
  destruct (x <? 2 ^ 63); [by apply u64_small|].
  unfold u64. rewrite <- (Z.mod_unique (x - two64) two64 (-1) x); lia.
Qed.

(** C11: the gas accounts of a processed block from EIP-150 on, with runtimes that neither
    create gas nor touch the block ([RuntimeOK]). There is one receipt per transaction, in order; each records the total of the gas used up to and including its
    transaction; the total is the sum of the gas of the receipts and never exceeds
    the gas limit of the block, and the pool holds exactly the rest. *)
Theorem ProcessBlock_gas {T Snap}
    `{IR : !Iradix T, KK : !Keccak, RL : !FastRlp, ST : !State Snap, BA : !BridgeABI,
      EC : !Btcec}
    (getHash : Z -> Hash) (forks : Forks) (chainID : Z)
    (runtimes : list (RuntimeT (transition T Snap))) (state : Snap) (stopped : nat -> bool)
    (parentRoot : Hash) (header : Header) (txs : list Transaction) (blockCreator : Address)
    (t : transition T Snap) :
  Forall (RuntimeOK getHash) runtimes -> EIP150 (At forks (h_Number header)) = true ->
  Forall tx_ok txs -> is_u64 (h_GasLimit header) ->
  ProcessBlock forks chainID runtimes None state stopped parentRoot header txs blockCreator =
    Ok (inr t) ->
  length (t_receipts t) = length txs /\ cumulative 0 (t_receipts t) /\
  t_totalGas t = totalUsed (t_receipts t) /\ t_totalGas t <= h_GasLimit header /\
  t_gasPool t = h_GasLimit header - t_totalGas t.
Proof.
  intros HR HE Htx Hl. unfold ProcessBlock, BeginTxn.
  destruct (NewSnapshotAt state parentRoot) as [s|]; [|done]. cbn [mbind option_bind].
  set (t0 := mkTransition _ _ _ _ _ _).
  destruct (process _ _ _ _ _ _ _ _ t0) as [[[e|]|] t'] eqn:E; [done| |done]. intros [= ->].
  assert (Hac : accounts (h_GasLimit header) t0).
  { constructor; cbn; rewrite ?u64_i64 by done; unfold is_u64 in Hl; try lia. apply refunds_ok_newTxn. }
  apply (process_accounts getHash _ _ HR HE _ _ _ _ _ _ _ _ Hl Htx Hac) in E
    as ([Hs Hp Ht _] & rs & Hrs & Hlen & Hcum & Htot). cbn in Hrs, Hcum, Htot. rewrite Hrs.
  split; [done|]. split; [done|]. split; [lia|]. lia.
Qed.

Import (hints) DemoBtcec.

(** An ABI in which no event decodes. *)
#[local] Instance demo_abi : BridgeABI := {
  BridgeDepositedEventID := hash 1;
  BridgeWithdrawnEventID := hash 2;
  BridgeBurnedEventID := hash 3;
  Deposited_ParseLog _ := None;
  Withdrawn_ParseLog _ := None;
  Burned_ParseLog _ := None;
}.

(** A block of the latest fork with a gas limit of a million. *)
Definition demo_header : Header :=
  mkHeader ZeroHash ZeroHash ZeroAddress ZeroHash ZeroHash ZeroHash (replicate 256 0) 1 50000 1000000 0 1 []
    ZeroHash (replicate 8 0) ZeroHash.

Lemma ProcessBlock_gas_witness :
  let tx n := mkTransaction n (Some 0) 100000 (Some (addr 7)) (Some 0) [1; 2] None None None (addr 1) in
  exists t, ProcessBlock AllForksEnabled 1 DemoChain.runtimes None NewSnapshot (fun _ => false)
      ZeroHash demo_header [tx 0; tx 1] (addr 9) = Ok (inr t) /\
    length (t_receipts t) = 2%nat /\ t_totalGas t <= 1000000.
Proof.
  intros tx.
  assert (H : applied (ProcessBlock AllForksEnabled 1 DemoChain.runtimes None
      NewSnapshot (fun _ => false) ZeroHash demo_header [tx 0; tx 1] (addr 9)) = true)
    by (vm_compute; reflexivity).
  destruct (ProcessBlock _ _ _ _ _ _ _ _ _ _) as [[e|t]|] eqn:E; [discriminate H| |discriminate H].
  destruct (ProcessBlock_gas DemoChain.getHash AllForksEnabled 1 DemoChain.runtimes
              NewSnapshot (fun _ => false) ZeroHash demo_header [tx 0; tx 1]
              (addr 9) t DemoChain.runtimes_ok eq_refl
              ltac:(repeat constructor; vm_compute; (discriminate || reflexivity))
              ltac:(vm_compute; split; [discriminate|reflexivity]) E) as (Hn & _ & _ & Hg & _).
  exists t. split; [reflexivity|]. split; [exact Hn|exact Hg].
Defined.
