(* ===== verification/Trie.v ===== *)
(** The Merkle trie of the state (state/immutable-trie): nibble keys and their
    compact form (encoding.go), nodes and the operations on them (trie.go), and the
    nodes in storage (storage.go). *)

From S2P Require Import Prelude Types Crypto.


(** ** Keys (encoding.go) *)

(** The nibble that ends a key. *)
Definition terminator : Z := 16.

Definition hasTerminator (hex : list Z) : bool :=
  match rev hex with x :: _ => x =? terminator | [] => false end.

(** [result[i] = hex[2*i]<<4 | hex[2*i+1]], on bytes. *)
Fixpoint packNibbles (hex : list Z) : bytes :=
  match hex with
  | a :: b :: hex => Z.lor (Z.shiftl a 4 mod 256) b :: packNibbles hex
  | _ => []
  end.

Definition encodeCompact (hex : list Z) : bytes :=
  let term := hasTerminator hex in
  let hex := if term then removelast hex else hex in
  let oddLen := Z.of_nat (length hex) mod 2 in
  let flag := 2 * (if term then 1 else 0) + oddLen in
  packNibbles (if oddLen =? 1 then flag :: hex else flag :: 0 :: hex).

Definition bytesToHexNibbles (b : bytes) : list Z :=
  flat_map (fun x => [x / 16; x mod 16]) b ++ [terminator].

(** An empty string has no flag to read: the slice expression panics. *)
Definition decodeCompact (compact : bytes) : option (list Z) :=
  match bytesToHexNibbles compact with
  | [] => None
  | (flag :: _) as base =>
      let base := if flag <? 2 then removelast base else base in
      if Z.land flag 1 =? 1 then Some (drop 1 base)
      else if (length base <? 2)%nat then None
      else Some (drop 2 base)
  end.

(** ** Nodes (trie.go) *)

(** [Nil] is the nil interface. A value node with [hash] set is a reference to a
    stored node; the first field of the other nodes caches their own hash, empty
    when it is not known. *)
Inductive Node :=
| Nil
| ValueNode (hash : bool) (buf : bytes)
| ShortNode (hash : bytes) (key : list Z) (child : Node)
| FullNode (hash : bytes) (epoch : Z) (value : Node) (children : list Node).

Definition emptyChildren : list Node := replicate 16 Nil.

(** The edges of a full node: 16 is its value; a larger index panics. *)
Definition getEdge (value : Node) (children : list Node) (idx : Z) : result Node :=
  if idx =? 16 then Ok value
  else match children !! Z.to_nat idx with Some n => Ok n | None => Panic end.

Definition setEdge (h : bytes) (epoch : Z) (value : Node) (children : list Node) (idx : Z) (e : Node)
    : result Node :=
  if idx =? 16 then Ok (FullNode h epoch e children)
  else match children !! Z.to_nat idx with
       | Some _ => Ok (FullNode h epoch value (<[Z.to_nat idx := e]> children))
       | None => Panic
       end.

Fixpoint prefixLen (k1 k2 : list Z) : nat :=
  match k1, k2 with
  | a :: k1, b :: k2 => if a =? b then S (prefixLen k1 k2) else 0
  | _, _ => 0
  end.

Section txn.
(** [GetNode] on the storage of the trie: [None] is an error, [Some None] a missing
    node. *)
Context (GetNode : bytes -> option (option Node)).

(** A reference followed: a missing node is [None], an error panics. *)
Definition resolve (buf : bytes) : result (option Node) :=
  match GetNode buf with Some o => Ok o | None => Panic end.

(** What a lookup leaves in the place of the node, whether that is a node to put
    there (the node a reference stands for) rather than the node itself, updated in
    place, and the value. *)
Fixpoint lookup (fuel : nat) (node : Node) (key : list Z) : result (Node * bool * option bytes) :=
  match fuel with
  | O => Panic
  | S fuel =>
      match node with
      | Nil => Ok (Nil, false, None)
      | ValueNode true buf =>
          o ← resolve buf;
          match o with
          | None => Ok (node, false, None)
          | Some nc => '(n, put, v) ← lookup fuel nc key; Ok (if (put : bool) then nc else n, true, v)
          end
      | ValueNode false buf =>
          Ok (node, false, match key with [] => Some buf | _ => None end)
      | ShortNode h nkey child =>
          if bool_decide (take (length nkey) key = nkey) then
            '(c, _, v) ← lookup fuel child (drop (length nkey) key);
            Ok (ShortNode h nkey c, false, v)
          else Ok (node, false, None)
      | FullNode h e value children =>
          match key with
          | [] =>
              '(c, put, v) ← lookup fuel value [];
              Ok (if (put : bool) then c else FullNode h e c children, put, v)
          | k :: key =>
              child ← getEdge value children k;
              '(c, put, v) ← lookup fuel child key;
              if (k =? 16) && put then Panic
              else n ← setEdge h e value children k c; Ok (n, false, v)
          end
      end
  end.

(** [writeNode]: a node of this transaction is updated in place and keeps its
    cached hash, any other is copied. *)
Definition writeNode (epoch : Z) (h : bytes) (nepoch : Z) : bytes * Z :=
  if epoch =? nepoch then (h, nepoch) else ([], epoch).

Fixpoint insert (epoch : Z) (fuel : nat) (node : Node) (search : list Z) (value : bytes)
    : result Node :=
  match fuel with
  | O => Panic
  | S fuel =>
      match node with
      | Nil =>
          match search with
          | [] => Ok (ValueNode false value)
          | _ => c ← insert epoch fuel Nil [] value; Ok (ShortNode [] search c)
          end
      | ValueNode true buf =>
          o ← resolve buf;
          match o with
          | None => Ok Nil
          | Some nc => insert epoch fuel nc search value
          end
      | ValueNode false buf =>
          match search with
          | [] => Ok (ValueNode false value)
          | _ => insert epoch fuel (FullNode [] epoch node emptyChildren) search value
          end
      | ShortNode _ nkey child =>
          let plen := prefixLen search nkey in
          match drop plen nkey with
          | [] =>
              c ← insert epoch fuel child (drop plen search) value;
              Ok (ShortNode [] nkey c)
          | k :: rest =>
              b ← setEdge [] epoch Nil emptyChildren k
                    (match rest with [] => child | _ => ShortNode [] rest child end);
              c ← insert epoch fuel b (drop plen search) value;
              Ok (if (plen =? 0)%nat then c else ShortNode [] (take plen search) c)
          end
      | FullNode h e v children =>
          let '(h, e) := writeNode epoch h e in
          match search with
          | [] => v' ← insert epoch fuel v [] value; Ok (FullNode h e v' children)
          | k :: search =>
              child ← getEdge v children k;
              c ← insert epoch fuel child search value;
              setEdge h e v children k c
          end
      end
  end.

Definition isNil (n : Node) : bool := match n with Nil => true | _ => false end.

(** The children of a full node that are there, by their index. *)
Definition present (children : list Node) : list (nat * Node) :=
  filter (fun ic => isNil ic.2 = false) (imap pair children).

(** What remains of a full node after an edge was removed: [None] when a reference
    to its only child is missing. *)
Definition collapse (value : Node) (children : list Node) : result (option Node) :=
  match present children, value with
  | [], Nil => Ok (Some Nil)
  | [], _ => Ok (Some (ShortNode [] [terminator] value))
  | [(indx, nc)], Nil =>
      o ← (match nc with ValueNode true buf => resolve buf | _ => Ok (Some nc) end);
      match o with
      | None => Ok None
      | Some (ShortNode _ key child) => Ok (Some (ShortNode [] (Z.of_nat indx :: key) child))
      | Some nc => Ok (Some (ShortNode [] [Z.of_nat indx] nc))
      end
  | _, _ => Ok (Some (FullNode [] 0 value children))
  end.

(** The node without the key, or [None] when it is not there. The source also clears the
    cached hashes of the short nodes on the path in place, in nodes that the committed
    trie shares: a cache that is empty is filled again when the node is hashed. *)
Fixpoint delete (fuel : nat) (node : Node) (search : list Z) : result (option Node) :=
  match fuel with
  | O => Panic
  | S fuel =>
      match node with
      | Nil => Ok None
      | ShortNode _ nkey child =>
          let plen := prefixLen search nkey in
          if (plen =? length search)%nat then Ok (Some Nil)
          else if (plen =? 0)%nat then Ok None
          else
            o ← delete fuel child (drop plen search);
            match o with
            | None => Ok None
            | Some Nil => Ok (Some Nil)
            | Some (ShortNode _ key c) => Ok (Some (ShortNode [] (nkey ++ key) c))
            | Some c => Ok (Some (ShortNode [] nkey c))
            end
      | ValueNode true buf =>
          o ← resolve buf;
          match o with None => Ok None | Some nc => delete fuel nc search end
      | ValueNode false _ => Ok (match search with [] => Some Nil | _ => None end)
      | FullNode _ _ value children =>
          match search with
          | [] => Panic
          | key :: search =>
              edge ← getEdge value children key;
              o ← delete fuel edge search;
              match o with
              | None => Ok None
              | Some c =>
                  n ← setEdge [] 0 value children key c;
                  match n with
                  | FullNode _ _ value children => collapse value children
                  | _ => Ok None
                  end
              end
          end
      end
  end.

(** Enough for every nibble to be met by a reference, a new branch and its node. *)
Definition keyFuel (key : list Z) : nat := 4 * length key + 8.
End txn.

(** A trie and a transaction on it; the storage is an argument. *)
Record Trie := mkTrie { t_root : Node; t_epoch : Z }.

Section ops.
Context (GetNode : bytes -> option (option Node)).

Definition NewTrie : Trie := mkTrie Nil 0.

(** [Trie.Txn] and [Txn.Commit] keep the root; the transaction has the next epoch. *)
Definition Trie_Txn (t : Trie) : Trie := mkTrie (t_root t) ((t_epoch t + 1) mod 2 ^ 32).
Definition Txn_Commit (t : Trie) : Trie := t.

Definition Lookup (t : Trie) (k : bytes) : result (Trie * option bytes) :=
  let key := bytesToHexNibbles k in
  '(n, put, v) ← lookup GetNode (keyFuel key) (t_root t) key;
  Ok (mkTrie (if (put : bool) then t_root t else n) (t_epoch t), v).

Definition Trie_Get (t : Trie) (k : bytes) : result (Trie * option bytes) :=
  '(txn, v) ← Lookup (Trie_Txn t) k;
  Ok (mkTrie (t_root txn) (t_epoch t), v).

Definition Insert (t : Trie) (k value : bytes) : result Trie :=
  let key := bytesToHexNibbles k in
  root ← insert GetNode (t_epoch t) (keyFuel key) (t_root t) key value;
  Ok (match root with Nil => t | _ => mkTrie root (t_epoch t) end).

Definition Delete (t : Trie) (k : bytes) : result Trie :=
  let key := bytesToHexNibbles k in
  o ← delete GetNode (keyFuel key) (t_root t) key;
  Ok (match o with None => t | Some root => mkTrie root (t_epoch t) end).

(** [TryUpdate]: [false] is the error. An empty value deletes. *)
Definition TryUpdate (t : Trie) (k value : bytes) : result (bool * Trie) :=
  let key := bytesToHexNibbles k in
  match value with
  | [] =>
      o ← delete GetNode (keyFuel key) (t_root t) key;
      Ok (match o with None => (false, t) | Some root => (true, mkTrie root (t_epoch t)) end)
  | _ =>
      root ← insert GetNode (t_epoch (Trie_Txn t)) (keyFuel key) (t_root t) key value;
      Ok (true, mkTrie root (t_epoch t))
  end.
End ops.
