(* ===== verification/TrieFacts.v ===== *)
(** The trie as a map: well-formed nodes, the keys they hold, and what lookups and
    insertions do to them. *)

From S2P Require Import Prelude Types Crypto Trie.

(** ** Keys *)

Definition nibble (x : Z) : Prop := 0 <= x < 16.

(** Nibbles up to the terminator. *)
Fixpoint tkey (k : list Z) : Prop :=
  match k with
  | [] => False
  | x :: k' => (x = terminator /\ k' = []) \/ (nibble x /\ tkey k')
  end.

(** What is left of a key: nothing at the [fin]al position. *)
Definition keyAt (fin : bool) (k : list Z) : Prop := if fin then k = [] else tkey k.

Lemma tkey_cons x k : tkey (x :: k) -> x = terminator /\ k = [] \/ nibble x /\ tkey k.
Proof. done. Qed.

Lemma tkey_app p k : Forall nibble p -> tkey k -> tkey (p ++ k).
Proof. intros Hp Hk. induction Hp; [done|]. right. by split. Qed.

Lemma tkey_app_inv p k : Forall nibble p -> tkey (p ++ k) -> tkey k.
Proof.
  intros Hp. induction Hp as [|x p Hx Hp IH]; [done|].
  intros [[-> _]|[_ H]]; [unfold nibble, terminator in Hx; lia|auto].
Qed.

(** Only a whole key ends with the terminator. *)
Lemma tkey_prefix_eq k p : tkey k -> tkey p -> p `prefix_of` k -> p = k.
Proof.
  revert p. induction k as [|x k IH]; intros p Hk Hp [r Hr]; [done|].
  destruct p as [|y p]; [done|]. injection Hr as -> Hr.
  destruct Hk as [[-> ->]|[Hx Hk]], Hp as [[Hy ->]|[Hy Hp]].
  - done.
  - unfold nibble, terminator in Hy. lia.
  - unfold nibble in Hx. subst. unfold terminator in Hx. lia.
  - f_equal. apply IH; [done..|]. by exists r.
Qed.

Lemma tkey_drop k n : tkey k -> (n < length k)%nat -> tkey (drop n k).
Proof.
  revert n. induction k as [|x k IH]; intros n Hk Hn; [done|].
  destruct n as [|n]; [done|]. simpl in *. apply IH; [|lia].
  destruct Hk as [[_ ->]|[_ Hk]]; [simpl in Hn; lia|done].
Qed.

Lemma tkey_app_nibbles p k : tkey (p ++ k) -> k <> [] -> Forall nibble p.
Proof.
  induction p as [|x p IH]; intros Hk Hne; [apply Forall_nil_2|].
  destruct Hk as [[_ E]|[Hx Hk]]; [by destruct p, k|]. constructor; auto.
Qed.

Lemma tkey_not_nibbles k : tkey k -> ~ Forall nibble k.
Proof.
  induction k as [|x k IH]; [done|]. intros [[-> ->]|[_ Hk]] HF; inversion HF; subst.
  - unfold nibble, terminator in *. lia.
  - by apply IH.
Qed.

Lemma tkey_bytes b : Forall is_byte b -> tkey (bytesToHexNibbles b).
Proof.
  intros Hb. unfold bytesToHexNibbles. induction Hb as [|x b Hx Hb IH]; [by left|].
  unfold is_byte in Hx. simpl. right. split.
  - unfold nibble. split; [apply Z.div_pos; lia|apply Z.div_lt_upper_bound; lia].
  - right. split; [|done]. unfold nibble. apply Z.mod_pos_bound. lia.
Qed.

Lemma bytesToHexNibbles_inj b b' :
  Forall is_byte b -> Forall is_byte b' -> bytesToHexNibbles b = bytesToHexNibbles b' -> b = b'.
Proof.
  intros Hb. revert b'. unfold bytesToHexNibbles.
  induction Hb as [|x b Hx Hb IH]; intros b' Hb' E.
  - destruct Hb' as [|y b' Hy Hb']; [done|]. exfalso. destruct b'; simpl in E; congruence.
  - destruct Hb' as [|y b' Hy Hb']; [destruct b; simpl in E; congruence|]. simpl in E.
    injection E as E1 E2 E. f_equal; [|by apply IH].
    rewrite (Z.div_mod x 16), (Z.div_mod y 16) by lia. congruence.
Qed.

(** ** Prefixes *)

Lemma prefixLen_take k1 k2 : take (prefixLen k1 k2) k1 = take (prefixLen k1 k2) k2.
Proof.
  revert k2. induction k1 as [|a k1 IH]; intros [|b k2]; simpl; try done.
  destruct (Z.eqb_spec a b) as [->|]; simpl; [by rewrite IH|done].
Qed.

Lemma prefixLen_le k1 k2 : (prefixLen k1 k2 <= length k1)%nat /\ (prefixLen k1 k2 <= length k2)%nat.
Proof.
  revert k2. induction k1 as [|a k1 IH]; intros [|b k2]; simpl; try lia.
  destruct (a =? b); simpl; [specialize (IH k2)|]; lia.
Qed.

(** Where two strings part. *)
Lemma prefixLen_split k1 k2 :
  exists p r1 r2, k1 = p ++ r1 /\ k2 = p ++ r2 /\ length p = prefixLen k1 k2 /\
    match r1, r2 with a :: _, b :: _ => a <> b | _, _ => True end.
Proof.
  revert k2. induction k1 as [|a k1 IH]; intros [|b k2]; simpl.
  1-3: by eexists [], _, _.
  destruct (Z.eqb_spec a b) as [->|Hne].
  - destruct (IH k2) as (p & r1 & r2 & -> & -> & Hl & Hd). exists (b :: p), r1, r2.
    simpl. by rewrite Hl.
  - by exists [], (a :: k1), (b :: k2).
Qed.

Lemma prefixLen_diff p a b k1 k2 : a <> b -> prefixLen (p ++ a :: k1) (p ++ b :: k2) = length p.
Proof.
  intros Hab. induction p as [|x p IH]; simpl; [by destruct (Z.eqb_spec a b)|].
  by rewrite Z.eqb_refl, IH.
Qed.

Lemma prefixLen_app p k : prefixLen (p ++ k) p = length p.
Proof. induction p as [|a p IH]; simpl; [by destruct k|]. by rewrite Z.eqb_refl, IH. Qed.

(** ** Well-formed nodes and their keys *)

Definition inner (n : Node) : Prop :=
  match n with ShortNode _ _ _ | FullNode _ _ _ _ => True | _ => False end.
Definition isRef (n : Node) : bool := match n with ValueNode true _ => true | _ => false end.
Definition isFull (n : Node) : Prop := match n with FullNode _ _ _ _ => True | _ => False end.

Section wf.
Context (GetNode : bytes -> option (option Node)).

(** [maps n k v]: node [n] holds [v] under what is left of its key, [k]. *)
Inductive maps : Node -> list Z -> bytes -> Prop :=
| maps_value v : maps (ValueNode false v) [] v
| maps_ref buf n k v : GetNode buf = Some (Some n) -> maps n k v -> maps (ValueNode true buf) k v
| maps_short h key c k v : maps c k v -> maps (ShortNode h key c) (key ++ k) v
| maps_full h e value ch x c k v :
    0 <= x -> getEdge value ch x = Ok c -> maps c k v -> maps (FullNode h e value ch) (x :: k) v.

(** A full node, or a reference to one. *)
Inductive branch : Node -> Prop :=
| branch_full h e value ch : branch (FullNode h e value ch)
| branch_ref buf n : GetNode buf = Some (Some n) -> isFull n -> branch (ValueNode true buf).

(** Two different edges are taken. *)
Definition forks (value : Node) (ch : list Node) : Prop :=
  exists x y cx cy, x <> y /\ 0 <= x /\ 0 <= y /\ getEdge value ch x = Ok cx /\
    getEdge value ch y = Ok cy /\ cx <> Nil /\ cy <> Nil.

(** Nodes at the position [fin]: values at the final one; before it references
    resolve, leaves end with the terminator, extensions lead to full nodes, and full
    nodes fork. *)
Inductive wf : bool -> Node -> Prop :=
| wf_Nil fin : wf fin Nil
| wf_Value v : wf true (ValueNode false v)
| wf_Ref buf n : GetNode buf = Some (Some n) -> inner n -> wf false n -> wf false (ValueNode true buf)
| wf_Leaf h key v : tkey key -> wf false (ShortNode h key (ValueNode false v))
| wf_Ext h key c : key <> [] -> Forall nibble key -> branch c -> wf false c ->
    wf false (ShortNode h key c)
| wf_Full h e value ch : length ch = 16%nat -> wf true value ->
    (forall i c, ch !! i = Some c -> wf false c) -> forks value ch ->
    wf false (FullNode h e value ch).

Definition slots (value : Node) (ch : list Node) : Prop :=
  length ch = 16%nat /\ wf true value /\ forall i c, ch !! i = Some c -> wf false c.

Lemma maps_Nil k v : ~ maps Nil k v.
Proof. intros H. inversion H. Qed.

Lemma maps_short_inv h key c k v : maps (ShortNode h key c) k v <-> exists k', k = key ++ k' /\ maps c k' v.
Proof.
  split; [intros H; inversion H; subst; eauto|]. intros (k' & -> & H). by constructor.
Qed.

Lemma maps_full_inv h e value ch k v :
  maps (FullNode h e value ch) k v <->
  exists x c k', k = x :: k' /\ 0 <= x /\ getEdge value ch x = Ok c /\ maps c k' v.
Proof.
  split; [intros H; inversion H; subst; by eexists _, _, _|].
  intros (x & c & k' & -> & H0 & HE & H). by econstructor.
Qed.

Lemma maps_ref_inv buf n k v :
  GetNode buf = Some (Some n) -> maps (ValueNode true buf) k v <-> maps n k v.
Proof.
  intros HG. split; [|by econstructor]. intros H. inversion H; subst. by simplify_eq.
Qed.

Lemma maps_value_inv buf k v : maps (ValueNode false buf) k v <-> k = [] /\ v = buf.
Proof. split; [intros H; by inversion H|]. intros [-> ->]. constructor. Qed.

(** Every edge of a key leads to a slot. *)
Lemma edge_ok value ch x k :
  slots value ch -> tkey (x :: k) ->
  0 <= x /\ exists c, getEdge value ch x = Ok c /\ wf (x =? 16) c /\ keyAt (x =? 16) k.
Proof.
  intros (Hl & Hv & Hc) [[-> ->]|[Hx Hk]]; unfold getEdge.
  - split; [done|]. eexists. simpl. by split.
  - unfold nibble in Hx. split; [lia|].
    destruct (Z.eqb_spec x 16) as [|_]; [lia|].
    destruct (lookup_lt_is_Some_2 ch (Z.to_nat x)) as [c Hch]; [lia|].
    rewrite Hch. exists c. split; [done|]. split; [by eapply Hc|done].
Qed.

Lemma setEdge_get h e value ch x c0 c :
  0 <= x -> getEdge value ch x = Ok c0 ->
  exists value' ch', setEdge h e value ch x c = Ok (FullNode h e value' ch') /\
    length ch' = length ch /\
    forall y, 0 <= y -> getEdge value' ch' y = if y =? x then Ok c else getEdge value ch y.
Proof.
  intros Hx. unfold getEdge, setEdge. destruct (Z.eqb_spec x 16) as [->|Hx16].
  - intros _. exists c, ch. split; [done|]. split; [done|]. intros y Hy.
    destruct (Z.eqb_spec y 16); done.
  - destruct (ch !! Z.to_nat x) eqn:Hc; [|done]. intros _.
    exists value, (<[Z.to_nat x:=c]> ch). split; [done|]. split; [apply length_insert|].
    intros y Hy. destruct (Z.eqb_spec y 16) as [->|Hy16].
    + destruct (Z.eqb_spec 16 x); [lia|done].
    + destruct (Z.eqb_spec y x) as [->|Hne].
      * rewrite list_lookup_insert_eq; [done|]. by eapply lookup_lt_Some.
      * rewrite list_lookup_insert_ne; [done|]. intros E. apply Hne. lia.
Qed.

(** The slots of an updated node. *)
Lemma slots_set value ch value' ch' x c :
  slots value ch -> wf (x =? 16) c -> 0 <= x -> length ch' = length ch ->
  (forall y, 0 <= y -> getEdge value' ch' y = if y =? x then Ok c else getEdge value ch y) ->
  slots value' ch'.
Proof.
  intros (Hl & Hv & Hc) Hw Hx Hl' Hg. split; [congruence|]. split.
  - specialize (Hg 16 ltac:(lia)). unfold getEdge in Hg. rewrite Z.eqb_refl in Hg.
    destruct (Z.eqb_spec 16 x) as [<-|]; by injection Hg as ->.
  - intros i d Hi. pose proof (lookup_lt_Some _ _ _ Hi) as Hlt.
    specialize (Hg (Z.of_nat i) ltac:(lia)). unfold getEdge in Hg at 1 2. rewrite Nat2Z.id, Hi in Hg.
    destruct (Z.eqb_spec (Z.of_nat i) 16); [lia|].
    destruct (Z.eqb_spec (Z.of_nat i) x) as [Hix|].
    + injection Hg as <-. destruct (Z.eqb_spec x 16); [lia|done].
    + destruct (ch !! i) eqn:Hci; [|done]. injection Hg as <-. by eapply Hc.
Qed.

(** A full node with one edge replaced, key by key. *)
Lemma maps_set h e value ch h' e' value' ch' x c0 c k v :
  0 <= x -> getEdge value ch x = Ok c0 ->
  (forall y, 0 <= y -> getEdge value' ch' y = if y =? x then Ok c else getEdge value ch y) ->
  maps (FullNode h' e' value' ch') k v <->
  match k with
  | [] => False
  | y :: k' => if decide (y = x) then maps c k' v else maps (FullNode h e value ch) k v
  end.
Proof.
  intros Hx Hc0 Hg. rewrite maps_full_inv. destruct k as [|y k'].
  { split; [by intros (? & ? & ? & ? & _)|done]. }
  case_decide as Hyx.
  - subst y. specialize (Hg x Hx). rewrite Z.eqb_refl in Hg. split.
    + intros (x' & c' & k'' & [= <- <-] & _ & HE & H). congruence.
    + intros H. by exists x, c, k'.
  - rewrite maps_full_inv. split; intros (x' & c' & k'' & [= <- <-] & H0 & HE & H);
      exists y, c', k'; (split; [done|]; split; [done|]; split; [|done]);
      specialize (Hg y H0); destruct (Z.eqb_spec y x); congruence.
Qed.

Lemma forks_set value ch value' ch' x c0 c :
  forks value ch -> 0 <= x -> getEdge value ch x = Ok c0 -> (c0 <> Nil -> c <> Nil) ->
  (forall y, 0 <= y -> getEdge value' ch' y = if y =? x then Ok c else getEdge value ch y) ->
  forks value' ch'.
Proof.
  intros (y & z & cy & cz & Hne & Hy & Hz & Ey & Ez & Ny & Nz) Hx Ex Hc Hg.
  exists y, z, (if y =? x then c else cy), (if z =? x then c else cz).
  split; [done|]. split; [done|]. split; [done|]. rewrite !Hg by done.
  split; [by destruct (y =? x)|]. split; [by destruct (z =? x)|].
  split; [destruct (Z.eqb_spec y x)|destruct (Z.eqb_spec z x)]; try done; subst;
    apply Hc; congruence.
Qed.

(** ** Lookups *)

(** The node is as good as [n]: it holds the same keys, and is a branch if [n] is. *)
Definition alike (fin : bool) (n n' : Node) : Prop :=
  wf fin n' /\ (forall k v, maps n' k v <-> maps n k v) /\ (n <> Nil -> n' <> Nil) /\
  (branch n -> branch n').

(** The rounds an operation takes: at most two per nibble. *)
Definition cost (n : Node) (k : list Z) : nat :=
  2 * length k + match n with ValueNode true _ => 4 | _ => 3 end.

Lemma cost_le n k : (cost n k <= 2 * length k + 4)%nat.
Proof. unfold cost. destruct n as [|[]| |]; lia. Qed.

Lemma cost_inner n k : inner n -> (cost n k = 2 * length k + 3)%nat.
Proof. by destruct n as [|[]| |]. Qed.

Lemma alike_refl fin n : wf fin n -> alike fin n n.
Proof. intros H. by repeat split. Qed.

Lemma wf_slots h e value ch : wf false (FullNode h e value ch) -> slots value ch /\ forks value ch.
Proof. intros H. inversion H; subst. by repeat split. Qed.

(** The key of a short node: a whole key for a leaf, nibbles for an extension. *)
Definition shortKey (fin : bool) (key : list Z) (c : Node) : Prop :=
  key <> [] /\ c <> Nil /\ if fin then tkey key else Forall nibble key /\ branch c.

Lemma branch_not_Nil c : branch c -> c <> Nil.
Proof. by inversion 1. Qed.

Lemma short_inv h key c :
  wf false (ShortNode h key c) -> exists fin, wf fin c /\ shortKey fin key c.
Proof.
  inversion 1; subst; [exists true; split; [apply wf_Value|]|exists false; split; [done|]]; split_and!;
    try done.
  - by destruct key.
  - by apply branch_not_Nil.
Qed.

Lemma short_intro h fin key c : wf fin c -> shortKey fin key c -> wf false (ShortNode h key c).
Proof.
  intros Hw (Hne & Hc & Hs). destruct fin.
  - inversion Hw; subst; [done|]. by constructor.
  - destruct Hs. by constructor.
Qed.

Lemma shortKey_rest fin key c k : shortKey fin key c -> tkey (key ++ k) -> keyAt fin k.
Proof.
  intros (_ & _ & Hs) Hk. destruct fin; simpl.
  - assert (E : key = key ++ k) by (apply tkey_prefix_eq; [done..|by exists k]).
    apply (f_equal length) in E. rewrite length_app in E. apply nil_length_inv. lia.
  - destruct Hs as [Hs _]. by apply tkey_app_inv in Hk.
Qed.

Lemma shortKey_alike fin key c c' : shortKey fin key c -> alike fin c c' -> shortKey fin key c'.
Proof.
  intros (Hne & Hc & Hs) (_ & _ & A3 & A4). split; [done|]. split; [auto|].
  destruct fin; [done|]. destruct Hs. auto.
Qed.

Lemma take_drop_eq {A} (key k : list A) : take (length key) k = key -> k = key ++ drop (length key) k.
Proof. intros H. rewrite <- H at 1. by rewrite take_drop. Qed.

Lemma lookup_spec fuel fin n k :
  wf fin n -> keyAt fin k -> (cost n k <= fuel)%nat ->
  exists n' o, lookup GetNode fuel n k = Ok (n', isRef n, o) /\
    (forall v, o = Some v <-> maps n k v) /\ alike fin n n'.
Proof.
  revert fin n k. induction fuel as [|fuel IH]; intros fin n k Hwf Hk Hf.
  { unfold cost in Hf. destruct n as [|[]| |]; lia. }
  destruct n as [|[] buf|h key c|h e value ch].
  - exists Nil, None. split; [done|]. split; [|by apply alike_refl].
    intros v. split; [done|]. by intros ?%maps_Nil.
  - inversion Hwf as [| |? n HG Hi Hw| | |]; subst.
    destruct (IH false n k Hw Hk) as (n' & o & E & Ho & A1 & A2 & A3 & A4).
    { rewrite cost_inner by done. unfold cost in Hf. lia. }
    exists n', o. simpl. unfold resolve. rewrite HG. simpl. rewrite E. split; [by destruct n|].
    split; [intros w; rewrite Ho; by rewrite maps_ref_inv|]. split; [done|].
    split; [intros k' w; rewrite A2; by rewrite maps_ref_inv|].
    split; [intros _; apply A3; by destruct n|]. intros HB. apply A4. inversion HB; subst.
    simplify_eq. destruct n; try done. constructor.
  - inversion Hwf; subst. simpl in Hk. subst k. do 2 eexists. split; [done|].
    split; [|by apply alike_refl]. intros w. rewrite maps_value_inv. naive_solver.
  - assert (fin = false) as -> by by inversion Hwf. simpl. simpl in Hk.
    case_bool_decide as Hp; [|exists (ShortNode h key c), None; split; [done|];
      split; [|by apply alike_refl]].
    2:{ intros v. split; [done|]. intros (k' & -> & _)%maps_short_inv.
        by rewrite take_app_length in Hp. }
    apply take_drop_eq in Hp. set (r := drop (length key) k) in *. clearbody r. subst k.
    destruct (short_inv _ _ _ Hwf) as (fin & Hw & Hs).
    destruct (IH fin c r Hw (shortKey_rest _ _ _ _ Hs Hk)) as (c' & o & E & Ho & Ha).
    { pose proof (cost_le c r). unfold cost in Hf. rewrite length_app in Hf.
      assert (length key <> 0)%nat by (destruct Hs as [? _]; by destruct key). lia. }
    rewrite E. exists (ShortNode h key c'), o. split; [done|]. split.
    { intros v. rewrite Ho, maps_short_inv. split; [eauto|]. intros (k' & ->%app_inv_head & ?). done. }
    split; [eapply short_intro; [apply Ha|by eapply shortKey_alike]|].
    split; [|split; [done|by inversion 1]]. intros k' v. rewrite !maps_short_inv.
    destruct Ha as (_ & A2 & _). by setoid_rewrite A2.
  - assert (fin = false) as -> by by inversion Hwf. simpl. destruct k as [|x k]; [done|].
    destruct (wf_slots _ _ _ _ Hwf) as [Hsl Hfk].
    destruct (edge_ok _ _ _ _ Hsl Hk) as (Hx & c & Ec & Hw & Hk').
    destruct (IH _ c k Hw Hk') as (c' & o & E & Ho & A1 & A2 & A3 & A4).
    { pose proof (cost_le c k). unfold cost in Hf. simpl in Hf. lia. }
    destruct (setEdge_get h e value ch x c c' Hx Ec) as (value' & ch' & Es & Hl' & Hg).
    rewrite Ec. simpl. rewrite E. simpl.
    assert ((x =? 16) && isRef c = false) as ->
      by (destruct (x =? 16); [by inversion Hw|done]).
    rewrite Es. simpl. do 2 eexists. split; [done|]. split.
    { intros v. rewrite Ho, maps_full_inv. split; [by intros; exists x, c, k|].
      intros (x' & d & k' & [= <- <-] & _ & Ed & H). congruence. }
    split.
    { destruct (slots_set _ _ _ _ _ _ Hsl A1 Hx Hl' Hg) as (S1 & S2 & S3). constructor; try done.
      by eapply forks_set. }
    split; [|split; [done|intros _; constructor]]. intros k' v.
    rewrite (maps_set h e value ch _ _ _ _ _ _ _ _ _ Hx Ec Hg). destruct k' as [|y k'].
    { split; [done|]. intros H. inversion H. }
    case_decide as Hy; [|done]. subst y. rewrite A2, maps_full_inv.
    split; [by intros; exists x, c, k'|]. intros (x' & d & k'' & [= <- <-] & _ & Ed & H). congruence.
Qed.

(** ** Insertions *)

(** [n'] is [n] with [v] under [s]. *)
Definition put (s : list Z) (v : bytes) (n n' : Node) : Prop :=
  forall k w, maps n' k w <-> k = s /\ w = v \/ k <> s /\ maps n k w.

Context (epoch : Z).

Lemma insert_Nil fuel fin s v :
  keyAt fin s -> (2 <= fuel)%nat ->
  exists n', insert GetNode epoch fuel Nil s v = Ok n' /\ n' <> Nil /\ wf fin n' /\ put s v Nil n'.
Proof.
  intros Hk Hf. destruct fuel as [|[|fuel]]; [lia..|]. destruct s as [|x s]; simpl.
  - destruct fin; [|done]. eexists. split; [done|]. split; [done|]. split; [apply wf_Value|].
    intros k w. rewrite maps_value_inv. split; [by left|]. intros [?|[_ []%maps_Nil]]. done.
  - destruct fin; [done|]. eexists. split; [done|]. split; [done|]. split; [by constructor|].
    intros k w. rewrite maps_short_inv. setoid_rewrite maps_value_inv. split.
    + intros (k' & -> & -> & ->). left. by rewrite app_nil_r.
    + intros [[-> ->]|[_ []%maps_Nil]]. exists []. by rewrite app_nil_r.
Qed.

(** One step through a full node, which need not fork yet. *)
Lemma insert_Full fuel h e value ch x s v c c' :
  slots value ch -> tkey (x :: s) -> getEdge value ch x = Ok c ->
  insert GetNode epoch fuel c s v = Ok c' -> wf (x =? 16) c' -> put s v c c' ->
  exists h' e' value' ch',
    insert GetNode epoch (S fuel) (FullNode h e value ch) (x :: s) v = Ok (FullNode h' e' value' ch') /\
    slots value' ch' /\
    (forall y, 0 <= y -> getEdge value' ch' y = if y =? x then Ok c' else getEdge value ch y) /\
    put (x :: s) v (FullNode h e value ch) (FullNode h' e' value' ch').
Proof.
  intros Hsl Hk Ec Ei Hw Hp. destruct (edge_ok _ _ _ _ Hsl Hk) as (Hx & _).
  destruct (writeNode epoch h e) as [h' e'] eqn:Ew.
  destruct (setEdge_get h' e' value ch x c c' Hx Ec) as (value' & ch' & Es & Hl' & Hg).
  exists h', e', value', ch'. split.
  { cbn [insert]. rewrite Ew, Ec. cbn. rewrite Ei. cbn. done. }
  split; [by eapply slots_set|]. split; [done|]. intros k w.
  rewrite (maps_set h e value ch _ _ _ _ _ _ _ _ _ Hx Ec Hg). destruct k as [|y k].
  { split; [done|]. intros [[? _]|[_ H]]; [done|inversion H]. }
  case_decide as Hy.
  - subst y. rewrite (Hp k w). rewrite maps_full_inv. split.
    + intros [[-> ->]|[Hne H]]; [by left|right]. split; [congruence|]. by exists x, c, k.
    + intros [[[= ->] ->]|[Hne (x' & d & k' & [= <- <-] & _ & Ed & H)]]; [by left|right].
      split; [congruence|]. congruence.
  - split; [right; split; [congruence|done]|]. intros [[[= ? _] _]|[_ H]]; [done|exact H].
Qed.

(** The part of a short node below the nibble [b] of its key. *)
Definition below (rest : list Z) (c : Node) : Node :=
  match rest with [] => c | _ => ShortNode [] rest c end.

Lemma maps_below rest c k w : maps (below rest c) k w <-> exists k', k = rest ++ k' /\ maps c k' w.
Proof.
  destruct rest as [|x rest]; [|apply maps_short_inv]. simpl. split; [eauto|].
  by intros (k' & -> & ?).
Qed.

Lemma below_wf fin p b rest c :
  wf fin c -> shortKey fin (p ++ b :: rest) c ->
  Forall nibble p /\ 0 <= b <= 16 /\ wf (b =? 16) (below rest c) /\ below rest c <> Nil.
Proof.
  intros Hw (_ & Hc & Hs). assert (Hb0 : below rest c <> Nil) by by destruct rest.
  destruct fin.
  - assert (Hp : Forall nibble p) by by eapply tkey_app_nibbles.
    apply tkey_app_inv in Hs; [|done]. destruct Hs as [[-> ->]|[Hb Hr]].
    + split; [done|]. unfold terminator. simpl. split; [lia|]. by split.
    + unfold nibble in Hb. split; [done|]. split; [lia|]. split; [|done].
      destruct (Z.eqb_spec b 16); [lia|]. destruct rest; [done|].
      eapply short_intro; [exact Hw|]. by split_and!.
  - destruct Hs as [Hs HB]. apply Forall_app in Hs as [Hp Hs]. inversion Hs as [|? ? Hb Hr]; subst.
    unfold nibble in Hb. split; [done|]. split; [lia|]. split; [|done].
    destruct (Z.eqb_spec b 16); [lia|]. destruct rest as [|x rest]; [done|].
    eapply short_intro; [exact Hw|]. by split_and!.
Qed.

Lemma getEdge_empty x : 0 <= x <= 16 -> getEdge Nil emptyChildren x = Ok Nil.
Proof.
  intros Hx. unfold getEdge. destruct (Z.eqb_spec x 16); [done|].
  unfold emptyChildren. rewrite lookup_replicate_2 by lia. done.
Qed.

Lemma edge_empty x d : getEdge Nil emptyChildren x = Ok d -> d = Nil.
Proof.
  unfold getEdge, emptyChildren. destruct (x =? 16); [by intros [= <-]|].
  destruct (replicate 16 Nil !! Z.to_nat x) eqn:E; [|done]. intros [= <-].
  by apply lookup_replicate_1 in E as [-> _].
Qed.

Lemma slots_empty : slots Nil emptyChildren.
Proof.
  split; [done|]. split; [apply wf_Nil|]. intros i c [-> _]%lookup_replicate_1. apply wf_Nil.
Qed.

(** A short node that parts from the key: a new full node with two edges. *)
Lemma insert_split fuel h fin p a s b rest c v :
  wf fin c -> shortKey fin (p ++ b :: rest) c -> tkey (p ++ a :: s) -> a <> b -> (3 <= fuel)%nat ->
  exists n', insert GetNode epoch (S fuel) (ShortNode h (p ++ b :: rest) c) (p ++ a :: s) v = Ok n' /\
    wf false n' /\ n' <> Nil /\ put (p ++ a :: s) v (ShortNode h (p ++ b :: rest) c) n'.
Proof.
  intros Hw Hs Hk Hab Hf. destruct (below_wf _ _ _ _ _ Hw Hs) as (Hp & Hb & Hbw & Hb0).
  assert (Hka : tkey (a :: s)) by by eapply tkey_app_inv.
  destruct (edge_ok _ _ _ _ slots_empty Hka) as (Ha & ca & Eca & Hca & Hks).
  assert (Ha16 : a <= 16).
  { destruct Hka as [[-> _]|[[? ?] _]]; unfold terminator; lia. }
  destruct (setEdge_get [] epoch Nil emptyChildren b Nil (below rest c) ltac:(lia)
              (getEdge_empty b ltac:(lia))) as (v1 & ch1 & Es1 & Hl1 & Hg1).
  pose proof (slots_set Nil emptyChildren v1 ch1 b (below rest c) slots_empty Hbw ltac:(lia) Hl1 Hg1)
    as Hsl1.
  destruct (insert_Nil (fuel - 1) (a =? 16) s v Hks ltac:(lia)) as (c' & Ei & Hc' & Hwc' & Hp').
  assert (Ea : getEdge v1 ch1 a = Ok Nil).
  { rewrite Hg1 by lia. destruct (Z.eqb_spec a b); [done|]. by apply getEdge_empty. }
  destruct (insert_Full (fuel - 1) [] epoch v1 ch1 a s v Nil c' Hsl1 Hka Ea Ei Hwc' Hp')
    as (h2 & e2 & v2 & ch2 & E2 & Hsl2 & Hg2 & Hput).
  replace (S (fuel - 1)) with fuel in E2 by lia.
  assert (Hwf2 : wf false (FullNode h2 e2 v2 ch2)).
  { destruct Hsl2 as (S1 & S2 & S3). constructor; try done.
    exists a, b, c', (below rest c). rewrite !Hg2 by lia. rewrite Z.eqb_refl.
    destruct (Z.eqb_spec b a) as [->|]; [done|]. rewrite Hg1, Z.eqb_refl by lia. split_and!; (done || lia). }
  exists (match p with [] => FullNode h2 e2 v2 ch2 | _ => ShortNode [] p (FullNode h2 e2 v2 ch2) end).
  split.
  { cbn [insert]. rewrite prefixLen_diff, !drop_app_length by done. cbv zeta.
    fold (below rest c). rewrite Es1. cbn [mbind result_bind]. rewrite E2. cbn [mbind result_bind].
    rewrite take_app_length. by destruct p. }
  split; [destruct p; [done|]; eapply short_intro; [exact Hwf2|]; split_and!; try done; constructor|].
  split; [by destruct p|].
  assert (Hput' : put (p ++ a :: s) v (ShortNode h (p ++ b :: rest) c)
                    (ShortNode [] p (FullNode h2 e2 v2 ch2))).
  { intros k w. rewrite !maps_short_inv. unfold put in Hput. setoid_rewrite Hput. split.
    - intros (k' & -> & [[-> ->]|[Hne H]]); [by left|right]. split; [by intros ?%app_inv_head|].
      apply maps_full_inv in H as (y & d & k'' & -> & Hy & Ed & H).
      rewrite Hg1 in Ed by done. destruct (Z.eqb_spec y b) as [->|].
      + injection Ed as <-. apply maps_below in H as (k3 & -> & H). exists k3.
        by rewrite <- app_assoc.
      + apply edge_empty in Ed as ->. by apply maps_Nil in H.
    - intros [[-> ->]|[Hne (k' & -> & H)]]; [exists (a :: s); auto|].
      exists (b :: rest ++ k'). rewrite <- app_assoc. split; [done|]. right.
      split; [congruence|]. apply maps_full_inv. exists b, (below rest c), (rest ++ k').
      rewrite Hg1, Z.eqb_refl by lia. split_and!; [done|lia|done|]. apply maps_below. eauto. }
  destruct p; [|done]. intros k w. specialize (Hput' k w). rewrite maps_short_inv in Hput'.
  rewrite <- Hput'. split; [eauto|]. by intros (k' & -> & ?).
Qed.

Lemma insert_spec fuel fin n s v :
  wf fin n -> keyAt fin s -> (cost n s <= fuel)%nat ->
  exists n', insert GetNode epoch fuel n s v = Ok n' /\ n' <> Nil /\ wf fin n' /\
    (branch n -> branch n') /\ put s v n n'.
Proof.
  revert fin n s. induction fuel as [|fuel IH]; intros fin n s Hwf Hk Hf.
  { unfold cost in Hf. destruct n as [|[]| |]; lia. }
  destruct n as [|[] buf|h key c|h e value ch].
  - destruct (insert_Nil (S fuel) fin s v Hk) as (n' & E & Hn & Hw & Hp); [unfold cost in Hf; lia|].
    exists n'. split_and!; try done. by inversion 1.
  - inversion Hwf as [| |? n HG Hi Hw| | |]; subst.
    destruct (IH false n s Hw Hk) as (n' & E & Hn & Hw' & Hb & Hp).
    { rewrite cost_inner by done. unfold cost in Hf. lia. }
    exists n'. cbn [insert]. unfold resolve. rewrite HG. split; [done|]. split; [done|].
    split; [done|]. split.
    + inversion 1; subst. simplify_eq. apply Hb. destruct n; try done. constructor.
    + intros k w. rewrite (Hp k w). by rewrite maps_ref_inv.
  - inversion Hwf; subst. simpl in Hk. subst s. eexists. split; [done|]. split; [done|].
    split; [apply wf_Value|]. split; [by inversion 1|]. intros k w. rewrite !maps_value_inv.
    split; [by left|]. intros [?|[? [? _]]]; done.
  - assert (fin = false) as -> by by inversion Hwf.
    destruct (short_inv _ _ _ Hwf) as (fin & Hw & Hs).
    destruct (prefixLen_split s key) as (p & r1 & r2 & -> & -> & Hl & Hd).
    destruct r2 as [|b rest].
    + rewrite app_nil_r in *. pose proof (shortKey_rest _ _ _ _ Hs Hk) as Hr.
      destruct (IH fin c r1 Hw Hr) as (c' & E & Hn & Hw' & Hb & Hp).
      { pose proof (cost_le c r1). unfold cost in Hf. rewrite length_app in Hf.
        assert (length p <> 0)%nat by (destruct Hs as [? _]; by destruct p). lia. }
      exists (ShortNode [] p c'). split.
      { cbn [insert]. rewrite prefixLen_app, drop_ge, drop_app_length by done. cbv zeta. by rewrite E. }
      split; [done|]. split.
      { eapply short_intro; [exact Hw'|]. destruct Hs as (? & ? & Hs). split_and!; try done.
        destruct fin; [done|]. destruct Hs. auto. }
      split; [by inversion 1|]. intros k w. unfold put in Hp. rewrite !maps_short_inv.
      setoid_rewrite Hp. split.
      * intros (k' & -> & [[-> ->]|[? ?]]); [by left|right]. split; [by intros ?%app_inv_head|eauto].
      * intros [[-> ->]|[Hne (k' & -> & ?)]]; [exists r1; auto|]. exists k'. split; [done|].
        right. split; [congruence|done].
    + destruct r1 as [|a r1].
      { exfalso. rewrite app_nil_r in Hk. destruct Hs as (_ & _ & Hs). destruct fin.
        - pose proof (tkey_prefix_eq _ _ Hs Hk ltac:(by eexists)) as E.
          apply (f_equal length) in E. rewrite length_app in E. simpl in E. lia.
        - destruct Hs as [Hs _]. apply Forall_app in Hs as [Hs _]. by apply (tkey_not_nibbles p). }
      destruct (insert_split fuel h fin p a r1 b rest c v Hw Hs Hk Hd) as (n' & E & Hw' & Hn & Hp).
      { unfold cost in Hf. rewrite length_app in Hf. simpl in Hf. lia. }
      exists n'. split_and!; try done. by inversion 1.
  - assert (fin = false) as -> by by inversion Hwf. destruct s as [|x s]; [done|].
    destruct (wf_slots _ _ _ _ Hwf) as [Hsl Hfk].
    destruct (edge_ok _ _ _ _ Hsl Hk) as (Hx & c & Ec & Hw & Hk').
    destruct (IH _ c s Hw Hk') as (c' & E & Hn & Hw' & _ & Hp).
    { pose proof (cost_le c s). unfold cost in Hf. simpl in Hf. lia. }
    destruct (insert_Full fuel h e value ch x s v c c' Hsl Hk Ec E Hw' Hp)
      as (h' & e' & value' & ch' & Ei & Hsl' & Hg & Hput).
    eexists. split; [exact Ei|]. split; [done|]. split; [|split; [intros _; constructor|done]].
    destruct Hsl' as (S1 & S2 & S3). constructor; try done. eapply (forks_set value ch); [exact Hfk|exact Hx|exact Ec|exact (fun _ => Hn)|exact Hg].
Qed.

(** ** Deletions *)

Lemma present_elem ch i c : (i, c) ∈ present ch <-> ch !! i = Some c /\ c <> Nil.
Proof.
  unfold present. rewrite list_elem_of_filter, elem_of_lookup_imap. simpl.
  assert (Hc : isNil c = false <-> c <> Nil) by by destruct c.
  rewrite Hc. split; [intros (? & ? & ? & [= <- <-] & ?)|intros [? ?]]; eauto 10.
Qed.

Lemma present_NoDup ch : NoDup (present ch).
Proof.
  apply list.NoDup_filter, NoDup_alt. intros i j [k c]. rewrite !list_lookup_imap.
  destruct (ch !! i), (ch !! j); intros [= <- _] [= <- _]. done.
Qed.

Lemma present_two ch i ci j cj r :
  present ch = (i, ci) :: (j, cj) :: r ->
  i <> j /\ ch !! i = Some ci /\ ch !! j = Some cj /\ ci <> Nil /\ cj <> Nil.
Proof.
  intros E. pose proof (present_NoDup ch) as Hd. rewrite E in Hd.
  destruct (proj1 (present_elem ch i ci)) as [Hi Ni]; [rewrite E; left|].
  destruct (proj1 (present_elem ch j cj)) as [Hj Nj]; [rewrite E; right; left|].
  split_and!; try done. intros <-. assert (ci = cj) as <- by congruence.
  inversion Hd as [|? ? H _]. apply H. left.
Qed.

Definition same (n n' : Node) : Prop := forall k v, maps n' k v <-> maps n k v.

Lemma same_full h e h' e' value ch : same (FullNode h e value ch) (FullNode h' e' value ch).
Proof. intros k v. by rewrite !maps_full_inv. Qed.

Lemma edge_nth value ch i c :
  length ch = 16%nat -> ch !! i = Some c -> getEdge value ch (Z.of_nat i) = Ok c.
Proof.
  intros Hl Hi. pose proof (lookup_lt_Some _ _ _ Hi). unfold getEdge.
  destruct (Z.eqb_spec (Z.of_nat i) 16); [lia|]. by rewrite Nat2Z.id, Hi.
Qed.

(** A taken edge is the value or one of the children that are there. *)
Lemma edge_present value ch x c :
  0 <= x -> getEdge value ch x = Ok c -> c <> Nil ->
  x = 16 /\ value = c \/ exists i, x = Z.of_nat i /\ (i, c) ∈ present ch.
Proof.
  unfold getEdge. intros Hx. destruct (Z.eqb_spec x 16); [intros [= ->]; by left|].
  destruct (ch !! Z.to_nat x) eqn:Hc; [|done]. intros [= ->] Hn. right.
  exists (Z.to_nat x). split; [lia|]. by apply present_elem.
Qed.

Lemma maps_not_Nil n k v : maps n k v -> n <> Nil.
Proof. by inversion 1. Qed.

(** A full node with one taken edge. *)
Lemma maps_single h e value ch x c :
  0 <= x -> getEdge value ch x = Ok c ->
  (forall y d, 0 <= y -> getEdge value ch y = Ok d -> d <> Nil -> y = x) ->
  forall k v, maps (FullNode h e value ch) k v <-> exists k', k = x :: k' /\ maps c k' v.
Proof.
  intros Hx Ec Hu k v. rewrite maps_full_inv. split.
  - intros (y & d & k' & -> & Hy & Ed & H).
    assert (y = x) as -> by (eapply Hu; eauto using maps_not_Nil).
    exists k'. split; [done|]. congruence.
  - intros (k' & -> & H). eauto 8.
Qed.

(** Putting a nibble before a node other than a value. *)
Lemma cons_short h i nc :
  nibble i -> inner nc -> wf false nc ->
  exists n', (match nc with
              | ShortNode _ key child => ShortNode h (i :: key) child
              | _ => ShortNode h [i] nc
              end = n') /\ wf false n' /\
    forall k v, maps n' k v <-> exists k', k = i :: k' /\ maps nc k' v.
Proof.
  intros Hi Hin Hw. eexists. split; [done|]. destruct nc as [| |h' key c|h' e value ch]; try done.
  - destruct (short_inv _ _ _ Hw) as (fin & Hc & Hne & Hn & Hs). split.
    + eapply short_intro; [exact Hc|]. split; [done|]. split; [done|].
      destruct fin; [by right|]. destruct Hs. split; [by constructor|done].
    + intros k v. rewrite maps_short_inv. setoid_rewrite maps_short_inv. naive_solver.
  - split.
    + eapply (short_intro _ false); [exact Hw|]. split_and!; try done; [by apply Forall_cons_2; [|apply Forall_nil_2]|constructor].
    + intros k v. rewrite maps_short_inv. naive_solver.
Qed.

Lemma collapse_spec value ch x c :
  slots value ch -> 0 <= x -> getEdge value ch x = Ok c -> c <> Nil ->
  exists n', collapse GetNode value ch = Ok (Some n') /\ wf false n' /\ inner n' /\
    forall h e, same (FullNode h e value ch) n'.
Proof.
  intros Hsl Hx Ec Hn. pose proof Hsl as (Hl & Hv & Hc).
  unfold collapse. destruct (present ch) as [|[i nc] [|[j cj] r]] eqn:Ep.
  - destruct (edge_present _ _ _ _ Hx Ec Hn) as [[-> ->]|(i & _ & H)];
      [|rewrite Ep in H; by apply elem_of_nil in H].
    inversion Hv; subst; [done|]. eexists. split; [done|]. split; [by apply wf_Leaf; left|].
    split; [done|]. intros h e k w. rewrite maps_short_inv, (maps_single _ _ _ _ 16); [done..|].
    intros y d Hy Ed Hd. destruct (edge_present _ _ _ _ Hy Ed Hd) as [[-> _]|(i & _ & H)]; [done|].
    rewrite Ep in H. by apply elem_of_nil in H.
  - destruct (proj1 (present_elem ch i nc)) as [Hi Ni]; [rewrite Ep; left|].
    pose proof (lookup_lt_Some _ _ _ Hi) as Hlt.
    destruct (decide (isNil value = true)) as [Hnil|Hval].
    + destruct value; try done. clear Hnil.
      assert (exists n, (match nc with ValueNode true buf => resolve GetNode buf | _ => Ok (Some nc) end)
        = Ok (Some n) /\ inner n /\ wf false n /\ forall k v, maps nc k v <-> maps n k v)
        as (n & En & Hin & Hw & Hm).
      { pose proof (Hc _ _ Hi) as Hw. destruct nc as [|[] buf| |].
        - done.
        - inversion Hw as [| |? n HG Hin Hn'| | |]; subst. exists n. unfold resolve. rewrite HG.
          split; [done|]. split; [done|]. split; [done|]. intros. by apply maps_ref_inv.
        - inversion Hw.
        - by eexists.
        - by eexists. }
      rewrite En. simpl.
      destruct (cons_short [] (Z.of_nat i) n) as (n' & En' & Hw' & Hm'); [unfold nibble; lia|done..|].
      exists n'. split; [by destruct n; subst|]. split; [done|]. split; [by destruct n; subst|].
      intros h e k w. rewrite Hm', (maps_single _ _ _ _ (Z.of_nat i) nc).
      * by setoid_rewrite Hm.
      * lia.
      * by apply edge_nth.
      * intros y d Hy Ed Hd. destruct (edge_present _ _ _ _ Hy Ed Hd) as [[_ <-]|(i' & -> & H)]; [done|].
        rewrite Ep in H. apply list_elem_of_singleton in H. congruence.
    + exists (FullNode [] 0 value ch). split; [by destruct value|].
    split; [|split; [done|intros; apply same_full]].
      constructor; try done. exists (Z.of_nat i), 16, nc, value. unfold getEdge at 2.
      split_and!; try done; [lia..| |by destruct value]. by apply edge_nth.
  - destruct (present_two _ _ _ _ _ _ Ep) as (Hij & Hi & Hj & Ni & Nj).
    exists (FullNode [] 0 value ch). split; [by destruct value|].
    split; [|split; [done|intros; apply same_full]].
    constructor; try done. exists (Z.of_nat i), (Z.of_nat j), nc, cj.
    split_and!; try done; [lia..| |]; by apply edge_nth.
Qed.

(** A key longer than every key of the node is not found. *)
Lemma delete_absent fuel fin n s :
  wf fin n -> (fin = false -> tkey s) -> (forall k v, maps n k v -> (length k < length s)%nat) ->
  (cost n s <= fuel)%nat -> delete GetNode fuel n s = Ok None.
Proof.
  revert fin n s. induction fuel as [|fuel IH]; intros fin n s Hwf Hk Hlt Hf.
  { unfold cost in Hf. destruct n as [|[]| |]; lia. }
  destruct n as [|[] buf|h key c|h e value ch]; cbn [delete].
  - done.
  - inversion Hwf as [| |? n HG Hi Hw| | |]; subst. unfold resolve. rewrite HG.
    apply (IH false); [done|done| |rewrite cost_inner by done; unfold cost in Hf; lia].
    intros k v H. apply (Hlt k v). by econstructor.
  - destruct s; [|done]. specialize (Hlt [] buf (maps_value _)). simpl in Hlt. lia.
  - assert (fin = false) as -> by by inversion Hwf. specialize (Hk eq_refl).
    destruct (short_inv _ _ _ Hwf) as (fin & Hw & Hne & Hn & Hs).
    destruct (prefixLen_split s key) as (p & r1 & r2 & E1 & E2 & Hl & Hd). rewrite <- Hl.
    destruct (Nat.eqb_spec (length p) (length s)) as [E|Hr1].
    { assert (r1 = []) as -> by (apply nil_length_inv; subst s; rewrite length_app in E; lia).
      rewrite app_nil_r in E1. subst p. destruct fin.
      - assert (s = key) as <- by (apply tkey_prefix_eq; [done..|by exists r2]).
        inversion Hw; subst; [done|].
        specialize (Hlt s v ltac:(rewrite <- (app_nil_r s) at 2; repeat constructor)). lia.
      - destruct Hs as [Hs _]. subst key. apply Forall_app in Hs as [Hs _].
        by destruct (tkey_not_nibbles s). }
    destruct (Nat.eqb_spec (length p) 0) as [|Hp]; [done|].
    subst s key. rewrite drop_app_length.
    rewrite (IH fin c r1); [done|done| | |].
    + intros ->. destruct Hs as [Hs _]. apply Forall_app in Hs as [Hs _]. by apply tkey_app_inv in Hk.
    + intros k v H. specialize (Hlt _ _ (maps_short h (p ++ r2) c k v H)).
      rewrite !length_app in Hlt. lia.
    + pose proof (cost_le c r1). unfold cost in Hf. rewrite length_app in Hf. lia.
  - assert (fin = false) as -> by by inversion Hwf. destruct s as [|x s]; [by destruct (Hk eq_refl)|].
    destruct (wf_slots _ _ _ _ Hwf) as [Hsl _].
    destruct (edge_ok _ _ _ _ Hsl (Hk eq_refl)) as (Hx & c & Ec & Hw & Hk').
    rewrite Ec. simpl. rewrite (IH _ c s Hw); [done| | |].
    + intros E. by rewrite E in Hk'.
    + intros k v H. specialize (Hlt (x :: k) v (maps_full _ _ _ _ _ _ _ _ Hx Ec H)). simpl in Hlt. lia.
    + pose proof (cost_le c s). unfold cost in Hf. simpl in Hf. lia.
Qed.

(** [o] is [n] without [s], when it is there. *)
Definition removed (fin : bool) (s : list Z) (n : Node) (o : option Node) : Prop :=
  match o with
  | None => forall v, ~ maps n s v
  | Some n' => (exists v, maps n s v) /\ wf fin n' /\ (branch n -> inner n') /\
      forall k v, maps n' k v <-> k <> s /\ maps n k v
  end.

(** The short node after its child was replaced. *)
Lemma extend_short key c' h :
  key <> [] -> Forall nibble key -> wf false c' -> inner c' ->
  exists n', (match c' with
              | ShortNode _ k d => ShortNode h (key ++ k) d
              | _ => ShortNode h key c'
              end = n') /\ wf false n' /\ inner n' /\
    forall k v, maps n' k v <-> exists k', k = key ++ k' /\ maps c' k' v.
Proof.
  intros Hne Hk Hw Hin. eexists. split; [done|]. destruct c' as [| |h' k' d|h' e value ch]; try done.
  - destruct (short_inv _ _ _ Hw) as (fin & Hc & Hne' & Hn & Hs). split; [|split; [done|]].
    + eapply short_intro; [exact Hc|]. split; [by destruct key|]. split; [done|].
      destruct fin; [by apply tkey_app|]. destruct Hs. split; [by apply Forall_app|done].
    + intros k v. rewrite maps_short_inv. setoid_rewrite maps_short_inv. split.
      * intros (k2 & -> & H). exists (k' ++ k2). rewrite app_assoc. eauto.
      * intros (? & -> & k2 & -> & H). exists k2. by rewrite app_assoc.
  - split; [|split; [done|]].
    + eapply (short_intro _ false); [exact Hw|]. split_and!; try done. constructor.
    + intros k v. by rewrite maps_short_inv.
Qed.

Lemma forks_other value ch x :
  forks value ch -> exists y c, y <> x /\ 0 <= y /\ getEdge value ch y = Ok c /\ c <> Nil.
Proof.
  intros (y & z & cy & cz & Hne & Hy & Hz & Ey & Ez & Ny & Nz).
  destruct (decide (y = x)) as [->|]; [exists z, cz|exists y, cy]; by split_and!.
Qed.

Lemma delete_Full fuel h e value ch x s c o :
  slots value ch -> forks value ch -> tkey (x :: s) -> getEdge value ch x = Ok c ->
  delete GetNode fuel c s = Ok o -> removed (x =? 16) s c o ->
  exists o', delete GetNode (S fuel) (FullNode h e value ch) (x :: s) = Ok o' /\
    removed false (x :: s) (FullNode h e value ch) o'.
Proof.
  intros Hsl Hfk Hk Ec Ed Hr. destruct (edge_ok _ _ _ _ Hsl Hk) as (Hx & _).
  cbn [delete]. rewrite Ec. simpl. rewrite Ed. simpl.
  assert (Hm : forall k v, maps (FullNode h e value ch) (x :: k) v <-> maps c k v).
  { intros k v. rewrite maps_full_inv. split; [|by exists x, c, k].
    intros (? & ? & ? & [= <- <-] & _ & ? & ?). congruence. }
  destruct o as [c'|]; simpl in Hr.
  - destruct Hr as ((v0 & Hv0) & Hw & _ & Hm').
    destruct (setEdge_get [] 0 value ch x c c' Hx Ec) as (value' & ch' & Es & Hl' & Hg).
    rewrite Es. simpl. pose proof (slots_set _ _ _ _ _ _ Hsl Hw Hx Hl' Hg) as Hsl'.
    destruct (forks_other _ _ x Hfk) as (y & d & Hyx & Hy & Ed' & Nd).
    destruct (collapse_spec value' ch' y d) as (n' & En & Hw' & Hin & Hs); [done|done| |done|].
    { rewrite Hg by done. by destruct (Z.eqb_spec y x). }
    exists (Some n'). split; [done|]. split; [exists v0; by apply Hm|]. split; [done|]. split; [done|].
    intros k v. rewrite (Hs [] 0 k v), (maps_set h e value ch [] 0 _ _ x c c' k v Hx Ec Hg).
    destruct k as [|z k]; [split; [done|]; intros [_ H]; inversion H|].
    case_decide as Hz; [subst z; rewrite Hm', Hm|]; naive_solver.
  - exists None. split; [done|]. intros v H. by apply (Hr v), Hm.
Qed.

(** Deletion through a short node, whose child is handled by [del]. *)
Lemma delete_Short fuel h key c s :
  (forall fin s, wf fin c -> keyAt fin s -> (forall k v, maps c k v -> length k = length s) ->
     (cost c s <= fuel)%nat -> exists o, delete GetNode fuel c s = Ok o /\ removed fin s c o) ->
  wf false (ShortNode h key c) -> tkey s ->
  (forall k v, maps (ShortNode h key c) k v -> length k = length s) ->
  (cost (ShortNode h key c) s <= S fuel)%nat ->
  exists o, delete GetNode (S fuel) (ShortNode h key c) s = Ok o /\ removed false s (ShortNode h key c) o.
Proof.
  intros IH Hwf Hk Hlen Hf. destruct (short_inv _ _ _ Hwf) as (fin & Hw & Hs).
  pose proof Hs as (Hne & Hn & Hs'). cbn [delete].
  destruct (prefixLen_split s key) as (p & r1 & r2 & E1 & E2 & Hl & Hd). rewrite <- Hl.
  destruct (Nat.eqb_spec (length p) (length s)) as [E|Hr1].
  { assert (r1 = []) as -> by (apply nil_length_inv; subst s; rewrite length_app in E; lia).
    rewrite app_nil_r in E1. subst p. destruct fin.
    - assert (s = key) as <- by (apply tkey_prefix_eq; [done..|by exists r2]).
      inversion Hw; subst; [done|]. exists (Some Nil). split; [done|].
      assert (Hm : forall k w, maps (ShortNode h s (ValueNode false v)) k w <-> k = s /\ w = v).
      { intros k w. rewrite maps_short_inv. setoid_rewrite maps_value_inv. split.
        - intros (? & -> & -> & ->). by rewrite app_nil_r.
        - intros [-> ->]. exists []. by rewrite app_nil_r. }
      split; [exists v; by apply Hm|]. split; [constructor|]. split; [by inversion 1|].
      intros k w. rewrite Hm. split; [by intros ?%maps_Nil|]. by intros [? [? _]].
    - destruct Hs' as [Hs' _]. subst key. apply Forall_app in Hs' as [Hs' _].
      by destruct (tkey_not_nibbles s). }
  assert (Hrest : r2 <> [] -> forall v, ~ maps (ShortNode h key c) s v).
  { intros Hr2 v (k' & E & _)%maps_short_inv. destruct r2 as [|b r2]; [done|].
    destruct r1 as [|a r1]; [subst s; rewrite app_nil_r in Hr1; done|].
    subst s key. rewrite <- app_assoc in E. apply app_inv_head in E. by injection E. }
  destruct (Nat.eqb_spec (length p) 0) as [Ep|Hp].
  { exists None. split; [done|]. apply nil_length_inv in Ep. subst p. refine (Hrest _). by subst. }
  subst s key. rewrite drop_app_length.
  assert (Hc : (cost c r1 <= fuel)%nat).
  { pose proof (cost_le c r1). unfold cost in Hf. rewrite length_app in Hf. lia. }
  assert (Hlc : forall k v, maps c k v -> (length r2 + length k = length r1)%nat).
  { intros k v H. specialize (Hlen _ _ (maps_short h (p ++ r2) c k v H)).
    rewrite !length_app in Hlen. lia. }
  destruct r2 as [|b r2].
  2:{ exists None. split; [|by refine (Hrest _)]. rewrite (delete_absent fuel fin c r1); try done.
      - intros ->. destruct Hs' as [Hs' _]. apply Forall_app in Hs' as [Hs' _].
        by apply tkey_app_inv in Hk.
      - intros k v H. specialize (Hlc k v H). simpl in Hlc. lia. }
  rewrite app_nil_r in *. pose proof (shortKey_rest _ _ _ _ Hs Hk) as Hr.
  destruct fin; [exfalso; simpl in Hr; subst r1; rewrite app_nil_r in Hr1; lia|].
  destruct (IH false r1 Hw Hr Hlc Hc) as (o & E & Ho). rewrite E. simpl.
  assert (Hm : forall k v, maps (ShortNode h p c) (p ++ k) v <-> maps c k v).
  { intros k v. rewrite maps_short_inv. split; [|eauto]. by intros (k' & ->%app_inv_head & H). }
  destruct o as [c'|].
  - destruct Ho as ((v & Hv) & Hw' & Hin & Hm'). destruct Hs' as [Hnib Hb].
    destruct (extend_short p c' [] Hne Hnib Hw' (Hin Hb)) as (n' & En & Hwn & Hinn & Hmn).
    exists (Some n'). split; [specialize (Hin Hb); by destruct c'; subst|].
    split; [exists v; by apply Hm|]. split; [done|]. split; [by inversion 1|].
    intros k w. rewrite Hmn. split.
    + intros (k' & -> & [? ?]%Hm'). split; [by intros ?%app_inv_head|by apply Hm].
    + intros [Hne' (k' & -> & H)%maps_short_inv]. exists k'. split; [done|]. apply Hm'. split; [congruence|done].
  - exists None. split; [done|]. intros v H. apply (Ho v). by apply Hm.
Qed.

(** Among keys of one length, a deletion removes exactly its key. *)
Lemma delete_spec fuel fin n s :
  wf fin n -> keyAt fin s -> (forall k v, maps n k v -> length k = length s) ->
  (cost n s <= fuel)%nat ->
  exists o, delete GetNode fuel n s = Ok o /\ removed fin s n o.
Proof.
  revert fin n s. induction fuel as [|fuel IH]; intros fin n s Hwf Hk Hlen Hf.
  { unfold cost in Hf. destruct n as [|[]| |]; lia. }
  destruct n as [|[] buf|h key c|h e value ch].
  - exists None. split; [done|]. intros v. apply maps_Nil.
  - inversion Hwf as [| |? n HG Hi Hw| | |]; subst.
    destruct (IH false n s Hw Hk) as (o & E & Hr).
    + intros k v H. apply (Hlen k v). by econstructor.
    + rewrite cost_inner by done. unfold cost in Hf. lia.
    + exists o. cbn [delete]. unfold resolve. rewrite HG. split; [done|].
      assert (Hm : forall k v, maps (ValueNode true buf) k v <-> maps n k v)
        by (intros; by apply maps_ref_inv).
      unfold removed in *. destruct o as [n'|].
      * setoid_rewrite Hm. destruct Hr as (? & ? & Hb & ?). split_and!; try done.
        intros HB. apply Hb. inversion HB; subst. simplify_eq. destruct n; try done. constructor.
      * setoid_rewrite Hm. done.
  - inversion Hwf; subst. simpl in Hk. subst s. exists (Some Nil). split; [done|].
    split; [by exists buf; constructor|]. split; [constructor|]. split; [by inversion 1|].
    intros k v. rewrite maps_value_inv. split; [by intros ?%maps_Nil|]. by intros [? [-> _]].
  - assert (fin = false) as -> by by inversion Hwf.
    apply delete_Short; [intros f s'; apply IH|done..].
  - assert (fin = false) as -> by by inversion Hwf. destruct s as [|x s]; [done|].
    destruct (wf_slots _ _ _ _ Hwf) as [Hsl Hfk].
    destruct (edge_ok _ _ _ _ Hsl Hk) as (Hx & c & Ec & Hw & Hk').
    destruct (IH _ c s Hw Hk') as (o & E & Hr).
    + intros k v H. specialize (Hlen (x :: k) v (maps_full _ _ _ _ _ _ _ _ Hx Ec H)). simpl in Hlen. lia.
    + pose proof (cost_le c s). unfold cost in Hf. simpl in Hf. lia.
    + by eapply delete_Full.
Qed.
End wf.
