(* ===== verification/TrieHash.v ===== *)
(** Hashing the trie and its nodes in storage (state/immutable-trie: hasher.go,
    storage.go): a node of at least 32 bytes stands in its parent as its Keccak-256
    digest and is written to the batch under it, a smaller one is embedded. *)

From S2P Require Import Prelude Types Crypto Trie.

Section hasher.
Context `{KK : !Keccak, RL : !FastRlp}.

(** ** hasher.go *)

Definition emptyRoot : bytes :=
  be_bytes 32 0x56e81f171bcc55a6ff8345e692c0f86e5b48e01b996cadc001622fb5e363b421.

(** What goes to the batch, in order. *)
Definition writes : Type := list (bytes * bytes).

(** The end of [Txn.hash]: [mk] puts the hash into the node. *)
Definition seal (val : Value) (mk : bytes -> Node) (w : writes) : Value * Node * writes :=
  if Len val <? 32 then (val, mk [], w)
  else
    let buf := MarshalTo val in
    let tmp := keccak256 buf in
    (NewBytes tmp, mk tmp, w ++ [(tmp, buf)]).

(** The loop over the edges of a full node, with [h] for each that is there. *)
Definition hashEdge (h : Node -> result (Value * Node * writes)) (c : Node)
    : result (Value * Node * writes) :=
  match c with Nil => Ok (NewNull, Nil, []) | _ => h c end.

Definition hashEdges (h : Node -> result (Value * Node * writes)) :=
  fix loop (l : list Node) : result (list Value * list Node * writes) :=
    match l with
    | [] => Ok ([], [], [])
    | c :: l =>
        '(v, c', w) ← hashEdge h c;
        '(vs, l', w') ← loop l;
        Ok (v :: vs, c' :: l', w ++ w')
    end.

(** [Txn.hash]: the value, the node with the hashes that were computed, and the
    writes. A short node without a child panics. *)
Fixpoint hash (node : Node) : result (Value * Node * writes) :=
  match node with
  | Nil => Panic
  | ValueNode _ buf => Ok (NewBytes buf, node, [])
  | ShortNode ((_ :: _) as h) _ _ => Ok (NewBytes h, node, [])
  | ShortNode [] key child =>
      '(v, child', w) ← hash child;
      Ok (seal (NewArray [NewBytes (encodeCompact key); v]) (fun h => ShortNode h key child') w)
  | FullNode ((_ :: _) as h) _ _ _ => Ok (NewBytes h, node, [])
  | FullNode [] e value children =>
      '(vs, children', w) ← hashEdges hash children;
      '(v, value', w') ← hashEdge hash value;
      Ok (seal (NewArray (vs ++ [v])) (fun h => FullNode h e value' children') (w ++ w'))
  end.

(** The root digest: a root of 32 bytes or more was hashed already. *)
Definition digest (val : Value) (w : writes) : bytes * writes :=
  match GetBytes val with
  | Some raw =>
      if Len val =? 32 then (raw, w) else (keccak256 raw, w ++ [(keccak256 raw, raw)])
  | None => let tmp := MarshalTo val in (keccak256 tmp, w ++ [(keccak256 tmp, tmp)])
  end.

(** [Txn.Hash] of the root: the digest, the root with its hashes, and the writes. *)
Definition Txn_Hash (root : Node) : result (bytes * Node * writes) :=
  match root with
  | Nil => Ok (emptyRoot, Nil, [])
  | _ =>
      '(val, root, w) ← hash root;
      let '(d, w) := digest val w in
      Ok (d, root, w)
  end.

(** [Trie.Hash] reads the hash the root node caches, which may be none. *)
Definition Trie_Hash (t : Trie) : Hash :=
  match t_root t with
  | Nil => EmptyRootHash
  | ValueNode _ buf => BytesToHash buf
  | ShortNode h _ _ | FullNode h _ _ _ => BytesToHash h
  end.

(** ** storage.go *)

(** The trie table and the code table of the database. *)
Record Storage := mkStorage { st_trie : gmap (list Z) bytes; st_code : gmap (list Z) bytes }.

Definition NewMemoryStorage : Storage := mkStorage ∅ ∅.

Definition Storage_Get (s : Storage) (k : bytes) : option bytes := st_trie s !! k.
Definition Storage_Set (k v : bytes) (s : Storage) : Storage := mkStorage (<[k := v]> (st_trie s)) (st_code s).
Definition Storage_SetCode (h : Hash) (code : bytes) (s : Storage) : Storage :=
  mkStorage (st_trie s) (<[h := code]> (st_code s)).
Definition Storage_GetCode (s : Storage) (h : Hash) : option bytes := st_code s !! h.

(** [batch.Write]: the writes, in order. *)
Definition batch_Write (w : writes) (s : Storage) : Storage :=
  fold_left (fun s kv => Storage_Set kv.1 kv.2 s) w s.

(** The first sixteen elements of a full node, with [d] for each that is not empty. *)
Definition decodeEdges (d : Value -> result (option Node)) :=
  fix loop (l : list Value) : result (option (list Node)) :=
    match l with
    | [] => Ok (Some [])
    | e :: l =>
        c ← (match GetBytes e with Some [] => Ok (Some Nil) | _ => d e end);
        match c with
        | None => Ok None
        | Some c => cs ← loop l; Ok (option_map (cons c) cs)
        end
    end.

(** [decodeNode]: [None] is the error; an empty key panics. The fuel bounds the
    nesting of the value. *)
Fixpoint decodeNode (fuel : nat) (v : Value) : result (option Node) :=
  match GetBytes v, fuel with
  | Some raw, _ => Ok (Some (ValueNode true raw))
  | None, O => Panic
  | None, S fuel =>
      match GetElems v with
      | Some [key; val] =>
          match GetBytes key with
          | None => Ok None
          | Some raw =>
              match decodeCompact raw with
              | None => Panic
              | Some k =>
                  if hasTerminator k then
                    Ok (match GetBytes val with
                        | Some b => Some (ShortNode [] k (ValueNode false b))
                        | None => None
                        end)
                  else child ← decodeNode fuel val; Ok (option_map (ShortNode [] k) child)
              end
          end
      | Some elems =>
          if (length elems =? 17)%nat then
            children ← decodeEdges (decodeNode fuel) (take 16 elems);
            Ok (match children, GetBytes (nth 16 elems NewNull) with
                | Some children, Some [] => Some (FullNode [] 0 Nil children)
                | Some children, Some b => Some (FullNode [] 0 (ValueNode false b) children)
                | _, _ => None
                end)
          else Ok None
      | None => Ok None
      end
  end.

(** [GetNode]: no error and no node when the key is missing; the parser's error and
    an item that is not an array are errors. *)
Definition GetNode (s : Storage) (root : bytes) : result (option (option Node)) :=
  match Storage_Get s root with
  | None => Ok (Some None)
  | Some data =>
      match Parse data with
      | None => Ok None
      | Some v =>
          match GetElems v with
          | None => Ok None
          | Some _ => n ← decodeNode (length data) v; Ok (option_map Some n)
          end
      end
  end.

(** What a transaction does with it: an error panics. *)
Definition fetch (s : Storage) (root : bytes) : option (option Node) :=
  match GetNode s root with Ok o => o | Panic => None end.
End hasher.
