(* ===== verification/RawDB.v ===== *)
(** The tables of the chain database (rawdb/access_chain.go, rawdb/access_index.go,
    rawdb/utils.go) and the variable-length integers they hold (helper/varint.go). *)

From S2P Require Import Prelude Types Chain Runtime Crypto Rlp Slice Instances TxTypes BlockTypes BlockCorrect.
From S2P Require Import Trie TrieHash.

(** ** Variable-length integers (helper/varint.go) *)

(** The loop fills an array of eight bytes; one more index is out of range. *)
Fixpoint varintLoop (room : nat) (x : Z) : result bytes :=
  match room with
  | O => Panic
  | S room =>
      if 127 <? x then
        match varintLoop room (Z.shiftr x 7) with
        | Ok rest => Ok (Z.lor 0x80 (Z.land x 0x7F) :: rest)
        | Panic => Panic
        end
      else Ok [x mod 256]
  end.
Definition EncodeVarint (x : Z) : result bytes := varintLoop 8 x.

(** Ten rounds, of a shift below 64. *)
Fixpoint unvarintLoop (rounds : nat) (shift x n : Z) (buf : bytes) : Z * Z :=
  match rounds, buf with
  | S rounds, b :: buf =>
      let x := Z.lor x (u64 (Z.shiftl (Z.land b 0x7F) shift)) in
      if Z.land b 0x80 =? 0 then (x, n + 1) else unvarintLoop rounds (shift + 7) x (n + 1) buf
  | _, _ => (0, 0)
  end.
Definition DecodeVarint (buf : bytes) : Z * Z := unvarintLoop 10 0 0 0 buf.

(** ** Tables (ethdb/database.go) *)

(** The tables of the database but those of the state; a database that does not fail. *)
Record ChainDB := mkChainDB {
  db_Body : gmap (list Z) bytes;      (** BodyDBI *)
  db_Head : gmap (list Z) bytes;      (** HeadDBI *)
  db_HeadHash : option bytes;         (** AssistDBI, latest_hash *)
  db_HeadNumber : option bytes;       (** AssistDBI, latest_number *)
  db_NumHash : gmap (list Z) bytes;   (** NumHashDBI *)
  db_Txes : gmap (list Z) bytes;      (** TxesDBI *)
  db_TxLookUp : gmap (list Z) bytes;  (** TxLookUpDBI *)
  db_Receipts : gmap (list Z) bytes;  (** ReceiptsDBI *)
  db_TD : gmap (list Z) bytes;        (** TODBI *)
}.

Definition emptyDB : ChainDB := mkChainDB ∅ ∅ None None ∅ ∅ ∅ ∅ ∅.

Definition set_Body f d := mkChainDB (f (db_Body d)) (db_Head d) (db_HeadHash d) (db_HeadNumber d)
  (db_NumHash d) (db_Txes d) (db_TxLookUp d) (db_Receipts d) (db_TD d).
Definition set_Head f d := mkChainDB (db_Body d) (f (db_Head d)) (db_HeadHash d) (db_HeadNumber d)
  (db_NumHash d) (db_Txes d) (db_TxLookUp d) (db_Receipts d) (db_TD d).
Definition set_HeadHash v d := mkChainDB (db_Body d) (db_Head d) v (db_HeadNumber d)
  (db_NumHash d) (db_Txes d) (db_TxLookUp d) (db_Receipts d) (db_TD d).
Definition set_HeadNumber v d := mkChainDB (db_Body d) (db_Head d) (db_HeadHash d) v
  (db_NumHash d) (db_Txes d) (db_TxLookUp d) (db_Receipts d) (db_TD d).
Definition set_NumHash f d := mkChainDB (db_Body d) (db_Head d) (db_HeadHash d) (db_HeadNumber d)
  (f (db_NumHash d)) (db_Txes d) (db_TxLookUp d) (db_Receipts d) (db_TD d).
Definition set_Txes f d := mkChainDB (db_Body d) (db_Head d) (db_HeadHash d) (db_HeadNumber d)
  (db_NumHash d) (f (db_Txes d)) (db_TxLookUp d) (db_Receipts d) (db_TD d).
Definition set_TxLookUp f d := mkChainDB (db_Body d) (db_Head d) (db_HeadHash d) (db_HeadNumber d)
  (db_NumHash d) (db_Txes d) (f (db_TxLookUp d)) (db_Receipts d) (db_TD d).
Definition set_Receipts f d := mkChainDB (db_Body d) (db_Head d) (db_HeadHash d) (db_HeadNumber d)
  (db_NumHash d) (db_Txes d) (db_TxLookUp d) (f (db_Receipts d)) (db_TD d).
Definition set_TD f d := mkChainDB (db_Body d) (db_Head d) (db_HeadHash d) (db_HeadNumber d)
  (db_NumHash d) (db_Txes d) (db_TxLookUp d) (db_Receipts d) (f (db_TD d)).

Section rawdb.
Context `{KK : !Keccak, RL : !FastRlp}.

(** ** Difficulty, head and canonical hashes *)

(** [big.NewInt(int64(x))] *)
Definition ReadTD (d : ChainDB) (hash : Hash) : option Z :=
  v ← db_TD d !! hash; Some (i64 (fst (DecodeVarint v))).

Definition WriteTD (hash : Hash) (number : Z) (d : ChainDB) : result ChainDB :=
  v ← EncodeVarint number; Ok (set_TD <[hash := v]> d).

Definition ReadHeadNumber (d : ChainDB) : option Z :=
  v ← db_HeadNumber d; Some (fst (DecodeVarint v)).

Definition WriteHeadNumber (number : Z) (d : ChainDB) : result ChainDB :=
  v ← EncodeVarint number; Ok (set_HeadNumber (Some v) d).

Definition ReadHeadHash (d : ChainDB) : option Hash := BytesToHash <$> db_HeadHash d.

Definition WriteHeadHash (hash : Hash) (d : ChainDB) : ChainDB := set_HeadHash (Some hash) d.

Definition ReadCanonicalHash (d : ChainDB) (number : Z) : result (option Hash) :=
  k ← EncodeVarint number; Ok (BytesToHash <$> db_NumHash d !! k).

Definition WriteCanonicalHash (number : Z) (hash : Hash) (d : ChainDB) : result ChainDB :=
  k ← EncodeVarint number; Ok (set_NumHash <[k := hash]> d).

(** ** Headers, bodies, transactions and receipts *)

Definition WriteHeader (header : Header) (d : ChainDB) : ChainDB :=
  set_Head <[h_Hash header := Header_MarshalRLPTo header]> d.

(** [None] is an error; a header that is not there is the empty one. *)
Definition ReadHeader (d : ChainDB) (hash : Hash) : option Header :=
  match db_Head d !! hash with
  | Some v => Header_UnmarshalRLP v
  | None => Some emptyHeader
  end.

Definition WriteTxLookUp (number : Z) (txes : list Transaction) (d : ChainDB) : result ChainDB :=
  match txes with
  | [] => Ok d
  | _ =>
      blockNumber ← EncodeVarint number;
      Ok (fold_left (fun d tx => set_TxLookUp <[Transaction_Hash tx := blockNumber]> d) txes d)
  end.

Definition ReadTxLookUp (d : ChainDB) (txhash : Hash) : option Z :=
  nums ← db_TxLookUp d !! txhash; Some (fst (DecodeVarint nums)).

Definition WriteBody (hash : Hash) (txes : list Transaction) (d : ChainDB) : ChainDB :=
  match txes with
  | [] => d
  | _ => set_Body <[hash := concat (map Transaction_Hash txes)]> d
  end.

(** [ScanHash] cuts the next 32 bytes; the table only holds multiples of 32. *)
Fixpoint scanHashes (n : nat) (data : bytes) : list Hash :=
  match n with
  | O => []
  | S n =>
      if (length data <? 32)%nat then []
      else BytesToHash (take 32 data) :: scanHashes n (drop 32 data)
  end.

(** [None] is the error that there is none. *)
Definition ReadBody (d : ChainDB) (hash : Hash) : option (list Hash) :=
  v ← db_Body d !! hash; Some (scanHashes (length v) v).

Definition Transaction_MarshalRLPTo (tx : Transaction) : bytes := MarshalTo (Transaction_MarshalRLPWith tx).

Definition WriteTransaction (tx : Transaction) (d : ChainDB) : ChainDB :=
  set_Txes <[Transaction_Hash tx := Transaction_MarshalRLPTo tx]> d.

(** The batch is written at once. *)
Definition WriteTransactions (txes : list Transaction) (d : ChainDB) : ChainDB :=
  fold_left (fun d tx => WriteTransaction tx d) txes d.

Definition ReadTransaction (d : ChainDB) (hash : Hash) : option Transaction :=
  v ← db_Txes d !! hash; UnmarshalRlp (Transaction_UnmarshalRLPFrom emptyTransaction) v.

Definition emptyReceipt : Receipt := mkReceipt ZeroHash 0 (replicate 256 0) [] None 0 None ZeroHash.

Definition WrteReceipt (receipt : Receipt) (d : ChainDB) : ChainDB :=
  set_Receipts <[r_TxHash receipt := MarshalTo (Receipt_MarshalStoreRLPWith receipt)]> d.
Definition WrteReceipts (receipts : list Receipt) (d : ChainDB) : ChainDB :=
  fold_left (fun d rx => WrteReceipt rx d) receipts d.

(** A receipt that is not there is the empty one. *)
Definition ReadReceipt (d : ChainDB) (hash : Hash) : option Receipt :=
  match db_Receipts d !! hash with
  | Some v => UnmarshalRlp Receipt_UnmarshalStoreRLPFrom v
  | None => Some emptyReceipt
  end.

(** rawdb/access_index.go: the root node in the trie table. *)
Definition ReadState (s : Storage) (root : Hash) : option bytes := Storage_Get s root.
End rawdb.

(** ** Lemmas *)

Lemma land_7f x : Z.land x 0x7F = x mod 128.
Proof. change 0x7F with (Z.ones 7). by rewrite Z.land_ones. Qed.

Lemma lor_low x y n : 0 <= n -> 0 <= x < 2 ^ n -> Z.lor x (y * 2 ^ n) = x + y * 2 ^ n.
Proof.
  intros Hn Hx. rewrite <- Z.shiftl_mul_pow2 by done. symmetry. apply Z.add_nocarry_lor.
  apply Z.bits_inj'. intros i Hi. rewrite Z.land_spec, Z.bits_0. destruct (decide (i < n)).
  - by rewrite (Z.shiftl_spec_low y n i), andb_false_r.
  - destruct (decide (x = 0)) as [->|]; [by rewrite Z.bits_0|].
    rewrite (Z.bits_above_log2 x i); [done|lia|]. apply Z.log2_lt_pow2; [lia|]. pose proof (Z.pow_le_mono_r 2 n i). lia.
Qed.

Lemma varint_byte x :
  let b := Z.lor 0x80 (Z.land x 0x7F) in Z.land b 0x80 <> 0 /\ Z.land b 0x7F = x mod 128.
Proof.
  intros b. unfold b. rewrite land_7f. pose proof (Z.mod_pos_bound x 128 ltac:(lia)) as Hr.
  assert (E : Z.lor 0x80 (x mod 128) = x mod 128 + 1 * 2 ^ 7).
  { rewrite Z.lor_comm. change 0x80 with (1 * 2 ^ 7). by apply lor_low. }
  split.
  - intros H. assert (Z.testbit (Z.land (Z.lor 128 (x mod 128)) 128) 7 = true); [|by rewrite H in *].
    by rewrite Z.land_spec, Z.lor_spec.
  - rewrite land_7f, E. replace (1 * 2 ^ 7) with (1 * 128) by done. rewrite Z.mod_add by lia. by apply Z.mod_small.
Qed.

Lemma unvarint_last x rounds shift acc n :
  0 <= x <= 127 -> (0 < rounds)%nat -> 0 <= shift -> shift + 7 <= 63 -> 0 <= acc < 2 ^ shift ->
  unvarintLoop rounds shift acc n [x mod 256] = (acc + x * 2 ^ shift, n + zlen [x mod 256]).
Proof.
  intros Hx Hr Hs Hb Ha. destruct rounds as [|rounds]; [lia|]. cbn [unvarintLoop].
  rewrite (Z.mod_small x 256) by lia.
  assert (E : Z.land x 0x80 = 0).
  { apply Z.bits_inj'. intros i Hi. rewrite Z.land_spec, Z.bits_0. change 0x80 with (2 ^ 7).
    rewrite Z.pow2_bits_eqb by lia. destruct (Z.eqb_spec 7 i) as [<-|]; [|by rewrite andb_false_r].
    rewrite andb_true_r. destruct (decide (x = 0)) as [->|]; [done|]. apply Z.bits_above_log2; [lia|].
    apply Z.log2_lt_pow2; lia. }
  rewrite E. simpl. rewrite land_7f, (Z.mod_small x 128) by lia.
  assert (2 ^ (shift + 7) = 128 * 2 ^ shift) by (rewrite Z.pow_add_r by lia; change (2 ^ 7) with 128; lia).
  rewrite Z.shiftl_mul_pow2, u64_small, lor_low; try done.
  unfold is_u64, two64. pose proof (Z.pow_le_mono_r 2 (shift + 7) 64). nia.
Qed.

(** What the decoder makes of what the encoder wrote, from any point of its loop. *)
Lemma varintLoop_spec room x :
  0 <= x < 2 ^ (7 * Z.of_nat (S room)) ->
  exists b, varintLoop (S room) x = Ok b /\
    forall rounds shift acc n, (room < rounds)%nat -> 0 <= shift -> shift + 7 * Z.of_nat (S room) <= 63 ->
      0 <= acc < 2 ^ shift ->
      unvarintLoop rounds shift acc n b = (acc + x * 2 ^ shift, n + zlen b).
Proof.
  revert x. induction room as [|room IH]; intros x Hx; cbn [varintLoop]; destruct (Z.ltb_spec 127 x) as [Hb|Hb].
  - change (2 ^ (7 * Z.of_nat 1)) with 128 in Hx. lia.
  - eexists. split; [done|]. intros rounds shift acc n ? ? ? ?. apply unvarint_last; lia.
  - destruct (IH (Z.shiftr x 7)) as (b & Eb & Hd).
    + rewrite Z.shiftr_div_pow2 by lia. change (2 ^ 7) with 128. split; [apply Z.div_pos; lia|].
      apply Z.div_lt_upper_bound; [lia|]. change 128 with (2 ^ 7). rewrite <- Z.pow_add_r by lia.
      replace (7 + 7 * Z.of_nat (S room)) with (7 * Z.of_nat (S (S room))) by lia. lia.
    + cbn [varintLoop] in Eb. rewrite Eb. eexists. split; [done|]. intros rounds shift acc n Hr Hs Hb' Ha.
      destruct rounds as [|rounds]; [lia|]. cbn [unvarintLoop].
      destruct (varint_byte x) as [Hc Hl]. rewrite (proj2 (Z.eqb_neq _ _) Hc), Hl.
      pose proof (Z.mod_pos_bound x 128 ltac:(lia)).
      assert (Hp : 2 ^ (shift + 7) = 128 * 2 ^ shift) by (rewrite Z.pow_add_r by lia; change (2 ^ 7) with 128; lia).
      assert (Hu : is_u64 (x mod 128 * 2 ^ shift)).
      { unfold is_u64, two64. pose proof (Z.pow_le_mono_r 2 (shift + 7) 64). split; nia. }
      rewrite Z.shiftl_mul_pow2, u64_small, lor_low by done.
      rewrite Hd; [|lia..|rewrite Hp; nia]. rewrite Z.shiftr_div_pow2 by lia. change (2 ^ 7) with 128.
      f_equal; [rewrite Hp; pose proof (Z.div_mod x 128); nia|unfold zlen; simpl; lia].
  - eexists. split; [done|]. intros rounds shift acc n ? ? ? ?. apply unvarint_last; lia.
Qed.

Lemma varintLoop_panic room x : 2 ^ (7 * Z.of_nat room) <= x -> varintLoop room x = Panic.
Proof.
  revert x. induction room as [|room IH]; intros x Hx; [done|]. cbn [varintLoop].
  assert (Hp : 2 ^ (7 * Z.of_nat (S room)) = 128 * 2 ^ (7 * Z.of_nat room)).
  { replace (7 * Z.of_nat (S room)) with (7 + 7 * Z.of_nat room) by lia. by rewrite Z.pow_add_r by lia. }
  pose proof (Z.pow_pos_nonneg 2 (7 * Z.of_nat room)).
  destruct (Z.ltb_spec 127 x); [|lia]. rewrite IH; [done|]. rewrite Z.shiftr_div_pow2 by lia.
  change (2 ^ 7) with 128. apply Z.div_le_lower_bound; lia.
Qed.

(** Numbers below 2^56 are read back; larger ones panic. *)
Lemma varint_spec x :
  0 <= x < 2 ^ 56 -> exists b, EncodeVarint x = Ok b /\ DecodeVarint b = (x, zlen b).
Proof.
  intros Hx. destruct (varintLoop_spec 7 x Hx) as (b & E & H). exists b. split; [done|].
  unfold DecodeVarint. rewrite H by lia. f_equal; lia.
Qed.

Lemma EncodeVarint_panic x : 2 ^ 56 <= x -> EncodeVarint x = Panic.
Proof. intros H. apply (varintLoop_panic 8). exact H. Qed.

Lemma EncodeVarint_inj x y b :
  0 <= x < 2 ^ 56 -> 0 <= y < 2 ^ 56 -> EncodeVarint x = Ok b -> EncodeVarint y = Ok b -> x = y.
Proof.
  intros Hx Hy Ex Ey. destruct (varint_spec x Hx) as (bx & Ex' & Dx), (varint_spec y Hy) as (by_ & Ey' & Dy).
  rewrite Ex in Ex'. rewrite Ey in Ey'. injection Ex' as <-. injection Ey' as <-. rewrite Dx in Dy. by injection Dy.
Qed.

Section tables.
Context `{KK : !Keccak, RL : !FastRlp}.

Lemma Transaction_Hash_hash (tx : Transaction) : is_hash (Transaction_Hash tx).
Proof. apply keccak256_hash. Qed.

(** Cutting the concatenated hashes gives them back. *)
Lemma scanHashes_concat l n :
  Forall is_hash l -> (length l <= n)%nat -> scanHashes n (concat l) = l.
Proof.
  intros Hl. revert n. induction Hl as [|h l [Hh Hb] _ IH]; intros n Hn.
  - destruct n; [done|]. done.
  - destruct n as [|n]; simpl in Hn; [lia|]. cbn [concat scanHashes]. rewrite length_app, Hh.
    destruct (Nat.ltb_spec (HashLength + length (concat l)) 32); [unfold HashLength in *; lia|].
    change 32%nat with HashLength. rewrite <- Hh, take_app_length, drop_app_length.
    rewrite IH by lia. by rewrite BytesToHash_hash.
Qed.

Lemma length_concat_hashes l : Forall is_hash l -> length (concat l) = (32 * length l)%nat.
Proof.
  induction 1 as [|h l [Hh _] _ IH]; [done|]. simpl. rewrite length_app, IH, Hh. unfold HashLength. lia.
Qed.

Lemma ReadBody_WriteBody hash txes d :
  txes <> [] -> ReadBody (WriteBody hash txes d) hash = Some (map Transaction_Hash txes).
Proof.
  intros Hne. unfold WriteBody, ReadBody. destruct txes as [|tx txes]; [done|].
  set (l := tx :: txes). simpl. rewrite lookup_insert_eq. simpl. f_equal.
  assert (Hl : Forall is_hash (map Transaction_Hash l)).
  { apply Forall_map, Forall_true. apply Transaction_Hash_hash. }
  apply (scanHashes_concat (map Transaction_Hash l)); [done|].
  change (length _) with (length (concat (map Transaction_Hash l))) at 2.
  rewrite length_concat_hashes by done. lia.
Qed.

(** No two of the transactions have one hash. *)
Definition distinctTxs (txes : list Transaction) : Prop :=
  forall t1 t2, t1 ∈ txes -> t2 ∈ txes -> Transaction_Hash t1 = Transaction_Hash t2 ->
    Transaction_MarshalRLPWith t1 = Transaction_MarshalRLPWith t2.

(** A fold of insertions: the value of a key that some element writes. *)
Lemma fold_insert_lookup {A} (key val : A -> bytes) (l : list A) (m : gmap (list Z) bytes) (x : A) :
  (forall y, y ∈ l -> key y = key x -> val y = val x) -> x ∈ l ->
  fold_left (fun m y => <[key y := val y]> m) l m !! key x = Some (val x).
Proof.
  intros Hd Hx. assert (H : forall (l : list A) (m : gmap (list Z) bytes), (forall y, y ∈ l -> key y = key x -> val y = val x) ->
    m !! key x = Some (val x) -> fold_left (fun m y => <[key y := val y]> m) l m !! key x = Some (val x)).
  { clear. induction l as [|y l IH]; intros m Hd Hm; [done|]. simpl. apply IH; [intros z Hz; apply Hd; by right|].
    destruct (decide (key y = key x)) as [E|E]; [rewrite E, lookup_insert_eq; f_equal; apply Hd; [left|done]|].
    by rewrite lookup_insert_ne. }
  revert m. induction Hx as [x l|x y l Hx IH]; intros m; simpl.
  - apply H; [intros z Hz; apply Hd; by right|]. by rewrite lookup_insert_eq.
  - apply IH; [intros z Hz; apply Hd; by right|done].
Qed.

Lemma WriteTransactions_eq txes d :
  WriteTransactions txes d =
    set_Txes (fun m => fold_left (fun m y => <[Transaction_Hash y := Transaction_MarshalRLPTo y]> m) txes m) d.
Proof.
  unfold WriteTransactions. revert d. induction txes as [|tx txes IH]; intros d; [by destruct d|].
  simpl. rewrite IH. by destruct d.
Qed.

Lemma ReadTransaction_WriteTransactions txes d tx :
  distinctTxs txes -> tx ∈ txes -> tx_wf tx ->
  ReadTransaction (WriteTransactions txes d) (Transaction_Hash tx) = Some (set_From ZeroAddress tx).
Proof.
  intros Hd Hx Hw. unfold ReadTransaction. rewrite WriteTransactions_eq. simpl.
  rewrite (fold_insert_lookup Transaction_Hash Transaction_MarshalRLPTo); [|intros y Hy E|done].
  - simpl. unfold UnmarshalRlp, Transaction_MarshalRLPTo. rewrite Parse_MarshalTo.
    by apply (Transaction_decode tx emptyTransaction).
  - unfold Transaction_MarshalRLPTo. by rewrite (Hd y tx Hy Hx E).
Qed.

Lemma ReadHeader_WriteHeader h d :
  header_wf h -> ReadHeader (WriteHeader h d) (h_Hash h) = Some (ComputeHash h).
Proof. intros Hh. unfold ReadHeader, WriteHeader. simpl. rewrite lookup_insert_eq. by apply Header_roundtrip. Qed.

Lemma ReadHeader_other h d k : k <> h_Hash h -> ReadHeader (WriteHeader h d) k = ReadHeader d k.
Proof. intros Hk. unfold ReadHeader, WriteHeader. simpl. by rewrite lookup_insert_ne. Qed.

Lemma ReadCanonicalHash_Write n h d :
  0 <= n < 2 ^ 56 -> is_hash h ->
  exists d', WriteCanonicalHash n h d = Ok d' /\ d' = set_NumHash (fun _ => db_NumHash d') d /\
    ReadCanonicalHash d' n = Ok (Some h) /\
    forall n', 0 <= n' < 2 ^ 56 -> n' <> n -> ReadCanonicalHash d' n' = ReadCanonicalHash d n'.
Proof.
  intros Hn Hh. destruct (varint_spec n Hn) as (b & E & _). unfold WriteCanonicalHash, ReadCanonicalHash.
  rewrite E. cbn [mbind result_bind]. eexists. split; [done|]. split; [done|]. split.
  - simpl. by rewrite lookup_insert_eq; simpl; rewrite BytesToHash_hash.
  - intros n' Hn' Hne. destruct (varint_spec n' Hn') as (b' & E' & _). rewrite E'.
    cbn [mbind result_bind db_NumHash set_NumHash]. rewrite lookup_insert_ne; [done|]. intros ->. apply Hne. symmetry. by eapply EncodeVarint_inj.
Qed.
End tables.
