(* ===== verification/TrieSpec.v ===== *)
(** The root of a trie as a function of its contents: the Merkle Patricia tree
    function of the Ethereum Yellow Paper (appendix D), and that [Txn.Hash] computes
    it, whatever the operations and the cached hashes that led to the trie. *)

From S2P Require Import Prelude Types Crypto Trie TrieFacts TrieHash.

(** ** The specification *)

Section spec.
Context `{KK : !Keccak, RL : !FastRlp}.

(** Keys with their terminator, and values. *)
Definition items : Type := list (list Z * bytes).

(** A node as its parent has it: embedded below 32 bytes, a digest otherwise. *)
Definition close (v : Value) : Value :=
  if Len v <? 32 then v else NewBytes (keccak256 (MarshalTo v)).

(** The longest prefix of all keys. *)
Definition commonPrefix (J : items) : list Z :=
  match J with
  | [] => []
  | (k, _) :: J => fold_left (fun p kv => take (prefixLen p kv.1) p) J k
  end.

(** The items under the edge [x]. *)
Definition under (x : Z) (J : items) : items :=
  omap (fun kv => match kv.1 with
                  | y :: k => if y =? x then Some (k, kv.2) else None
                  | [] => None
                  end) J.

Definition edges : list Z := seqZ 0 17.

(** A leaf, an extension or a branch; [c] gives what stands for smaller tries. *)
Definition patriciaNode (c : items -> Value) (J : items) : Value :=
  match J with
  | [(k, v)] => NewArray [NewBytes (encodeCompact k); NewBytes v]
  | _ =>
      match commonPrefix J with
      | [] => NewArray (map (fun x => c (under x J)) edges)
      | p => NewArray [NewBytes (encodeCompact p); c (map (fun kv => (drop (length p) kv.1, kv.2)) J)]
      end
  end.

Fixpoint patricia (fuel : nat) (J : items) : Value :=
  match fuel, J with
  | _, [] => NewNull
  | _, [([], v)] => NewBytes v
  | O, _ => NewNull
  | S fuel, _ => close (patriciaNode (patricia fuel) J)
  end.

(** Every level takes a nibble. *)
Definition depth (J : items) : nat := list_max (map (fun kv => length kv.1) J).

Definition TRIE (J : items) : bytes :=
  match J with
  | [] => emptyRoot
  | _ => keccak256 (MarshalTo (patriciaNode (patricia (depth J)) J))
  end.

Lemma BytesToHash_keccak b : BytesToHash (keccak256 b) = keccak256 b.
Proof.
  destruct (keccak256_hash b) as [Hl _]. unfold BytesToHash. rewrite <- Hl. apply fixed_of_bytes_id.
Qed.

Lemma BytesToHash_TRIE J : BytesToHash (TRIE J) = TRIE J.
Proof. destruct J; [reflexivity|apply BytesToHash_keccak]. Qed.

(** ** Nodes without their caches *)

Fixpoint bare (n : Node) : Value :=
  match n with
  | Nil => NewNull
  | ValueNode _ buf => NewBytes buf
  | ShortNode _ key c => close (NewArray [NewBytes (encodeCompact key); bare c])
  | FullNode _ _ value ch => close (NewArray (map bare ch ++ [bare value]))
  end.

(** The node itself, as it is stored. *)
Definition bareNode (n : Node) : Value :=
  match n with
  | ShortNode _ key c => NewArray [NewBytes (encodeCompact key); bare c]
  | FullNode _ _ value ch => NewArray (map bare ch ++ [bare value])
  | _ => bare n
  end.

(** The hashes a node caches, and the references it follows, are right; the full
    nodes are of the epochs up to [ep], and those of [ep] cache none. *)
Section valid.
Context (GetNode : bytes -> option (option Node)) (ep : Z).

Inductive valid : Node -> Prop :=
| valid_Nil : valid Nil
| valid_Value v : valid (ValueNode false v)
| valid_Ref buf n : GetNode buf = Some (Some n) -> bare n = NewBytes buf -> valid n ->
    valid (ValueNode true buf)
| valid_Short h key c : valid c -> (h <> [] -> bare (ShortNode h key c) = NewBytes h) ->
    valid (ShortNode h key c)
| valid_Full h e value ch : e <= ep -> valid value -> (forall i c, ch !! i = Some c -> valid c) ->
    (h <> [] -> e < ep /\ bare (FullNode h e value ch) = NewBytes h) ->
    valid (FullNode h e value ch).
End valid.
End spec.

(** ** Prefixes of all keys *)

Section prefixes.
Lemma prefixLen_ge q a b : (length q <= prefixLen (q ++ a) (q ++ b))%nat.
Proof. induction q as [|x q IH]; simpl; [lia|]. rewrite Z.eqb_refl. lia. Qed.

Lemma lcp_prefix p k :
  take (prefixLen p k) p `prefix_of` p /\ take (prefixLen p k) p `prefix_of` k /\
  forall q, q `prefix_of` p -> q `prefix_of` k -> q `prefix_of` take (prefixLen p k) p.
Proof.
  split; [apply prefix_take|]. split; [rewrite prefixLen_take; apply prefix_take|].
  intros q [a ->] [b ->]. pose proof (prefixLen_ge q a b).
  rewrite take_app_ge by lia. by eexists.
Qed.

Lemma fold_prefix (J : items) p :
  let r := fold_left (fun p kv => take (prefixLen p kv.1) p) J p in
  r `prefix_of` p /\ (forall k v, (k, v) ∈ J -> r `prefix_of` k) /\
  forall q, q `prefix_of` p -> (forall k v, (k, v) ∈ J -> q `prefix_of` k) -> q `prefix_of` r.
Proof.
  revert p. induction J as [|[k v] J IH]; intros p; simpl.
  - split; [done|]. split; [by intros ? ? ?%elem_of_nil|done].
  - destruct (lcp_prefix p k) as (L1 & L2 & L3).
    destruct (IH (take (prefixLen p k) p)) as (I1 & I2 & I3). split; [by etrans|]. split.
    + intros k' v' [[= -> ->]|H]%elem_of_cons; [by etrans|eauto].
    + intros q Hp HJ. apply I3; [apply L3; [done|]|]; [eapply HJ; by left|].
      intros k' v' H. eapply HJ. by right.
Qed.

Lemma commonPrefix_spec J :
  (forall k v, (k, v) ∈ J -> commonPrefix J `prefix_of` k) /\
  (J <> [] -> forall q, (forall k v, (k, v) ∈ J -> q `prefix_of` k) -> q `prefix_of` commonPrefix J).
Proof.
  destruct J as [|[k v] J]; [split; [by intros ? ? ?%elem_of_nil|done]|].
  destruct (fold_prefix J k) as (F1 & F2 & F3). split.
  - intros k' v' [[= -> ->]|H]%elem_of_cons; [done|by eapply F2].
  - intros _ q Hq. apply F3; [eapply Hq; by left|]. intros k' v' H. eapply Hq. by right.
Qed.

(** Keys that go on differently after [p]. *)
Lemma commonPrefix_fork J p a k1 v1 b k2 v2 :
  (forall k v, (k, v) ∈ J -> p `prefix_of` k) ->
  (p ++ a :: k1, v1) ∈ J -> (p ++ b :: k2, v2) ∈ J -> a <> b -> commonPrefix J = p.
Proof.
  intros Hp H1 H2 Hab. destruct (commonPrefix_spec J) as [Hc Hg].
  destruct (Hg ltac:(by intros ->; apply elem_of_nil in H1) p Hp) as [r E].
  destruct (Hc _ _ H1) as [r1 E1], (Hc _ _ H2) as [r2 E2]. rewrite E in *.
  rewrite <- app_assoc in E1, E2. apply app_inv_head in E1, E2.
  destruct r as [|x r]; [by rewrite app_nil_r|]. simpl in *. congruence.
Qed.
End prefixes.

(** ** Contents as a list *)

Section contents.
Context (GetNode : bytes -> option (option Node)).

Definition represents (n : Node) (J : items) : Prop :=
  NoDup J /\ forall k v, (k, v) ∈ J <-> maps GetNode n k v.

Lemma wf_inhabited fin n : wf GetNode fin n -> n <> Nil -> exists k v, maps GetNode n k v.
Proof.
  induction 1 as [|v|buf n HG Hi _ IH|h key v Hk|h key c Hne Hk Hb _ IH|h e value ch Hl _ IHv _ IHc Hf];
    intros Hn.
  - done.
  - exists [], v. constructor.
  - destruct IH as (k & v & H); [by destruct n|]. exists k, v. by econstructor.
  - exists (key ++ []), v. repeat constructor.
  - destruct IH as (k & v & H); [by apply branch_not_Nil in Hb|]. exists (key ++ k), v. by constructor.
  - destruct Hf as (x & _ & c & _ & _ & Hx & _ & Ec & _ & Nc & _).
    assert (exists k v, maps GetNode c k v) as (k & v & H).
    { unfold getEdge in Ec. destruct (x =? 16); [injection Ec as <-; auto|].
      destruct (ch !! Z.to_nat x) eqn:Hi; [|done]. injection Ec as ->. eauto. }
    exists (x :: k), v. by econstructor.
Qed.

Lemma inner_key n k v fin : inner n -> wf GetNode fin n -> maps GetNode n k v -> k <> [].
Proof.
  destruct n as [| |h key c|]; try done; intros _ Hw H; inversion H; subst; [|done].
  assert (fin = false) as -> by by inversion Hw. apply short_inv in Hw as (fin & _ & Hs & _). by destruct key.
Qed.

(** Two keys that start differently. *)
Lemma full_fork h e value ch :
  wf GetNode false (FullNode h e value ch) ->
  exists x kx vx y ky vy, x <> y /\ maps GetNode (FullNode h e value ch) (x :: kx) vx /\
    maps GetNode (FullNode h e value ch) (y :: ky) vy.
Proof.
  intros Hw. destruct (wf_slots _ _ _ _ _ Hw) as [(Hl & Hv & Hc) (x & y & cx & cy & Hne & Hx & Hy & Ex & Ey & Nx & Ny)].
  assert (Hs : forall z c, getEdge value ch z = Ok c -> exists fin, wf GetNode fin c).
  { unfold getEdge. intros z c. destruct (z =? 16); [intros [= <-]; eauto|].
    destruct (ch !! Z.to_nat z) eqn:Hi; [intros [= ->]; eauto|done]. }
  destruct (Hs _ _ Ex) as [fx Wx], (Hs _ _ Ey) as [fy Wy].
  destruct (wf_inhabited _ _ Wx Nx) as (kx & vx & Mx), (wf_inhabited _ _ Wy Ny) as (ky & vy & My).
  exists x, kx, vx, y, ky, vy. split; [done|]. split; by econstructor.
Qed.

Lemma branch_fork c :
  wf GetNode false c -> branch GetNode c ->
  exists x kx vx y ky vy, x <> y /\ maps GetNode c (x :: kx) vx /\ maps GetNode c (y :: ky) vy.
Proof.
  intros Hw Hb. destruct Hb as [h e value ch|buf n HG Hf]; [by apply full_fork in Hw|].
  inversion Hw as [| |? n' HG' Hi Hw'| | |]; subst. simplify_eq.
  destruct n; try done. destruct (full_fork _ _ _ _ Hw') as (x & kx & vx & y & ky & vy & H & H1 & H2).
  exists x, kx, vx, y, ky, vy. split; [done|]. split; by econstructor.
Qed.

Lemma NoDup_singleton_eq {A} (l : list A) a : NoDup l -> (forall x, x ∈ l <-> x = a) -> l = [a].
Proof.
  intros Hd Hl. destruct l as [|x l]; [exfalso; by eapply elem_of_nil, (proj2 (Hl a) eq_refl)|].
  assert (x = a) as -> by (apply Hl; by left). destruct l as [|y l]; [done|]. exfalso.
  assert (y = a) as -> by (apply Hl; right; by left). inversion Hd as [|? ? H _]. apply H. by left.
Qed.

Lemma elem_of_under x J k v : (k, v) ∈ under x J <-> (x :: k, v) ∈ J.
Proof.
  unfold under. rewrite list_elem_of_omap. split.
  - intros ([[|y k'] v'] & H & E); simpl in E; [done|].
    destruct (Z.eqb_spec y x) as [->|]; [|done]. by injection E as -> ->.
  - intros H. exists (x :: k, v). simpl. by rewrite Z.eqb_refl.
Qed.

Lemma NoDup_under x J : NoDup J -> NoDup (under x J).
Proof.
  induction 1 as [|[k v] J Hn _ IH]; [constructor|]. unfold under in *. simpl.
  destruct k as [|y k]; simpl; [done|]. destruct (Z.eqb_spec y x) as [->|]; [|done].
  constructor; [|done]. intros H. by apply Hn, elem_of_under.
Qed.

Lemma depth_le J n : (depth J <= n)%nat <-> forall k v, (k, v) ∈ J -> (length k <= n)%nat.
Proof.
  unfold depth. rewrite list_max_le, Forall_map, Forall_forall. split.
  - intros H k v Hk. apply (H (k, v)). by apply list_elem_of_In.
  - intros H [k v] Hk. eapply H. by apply list_elem_of_In.
Qed.
End contents.

(** ** The trie computes the specification *)

Section canonical.
Context `{KK : !Keccak, RL : !FastRlp}.
Context (GetNode : bytes -> option (option Node)).

Abbreviation strip p J := (map (fun kv : list Z * bytes => (drop (length p) kv.1, kv.2)) J).

Lemma represents_short h key c J :
  represents GetNode (ShortNode h key c) J -> represents GetNode c (strip key J).
Proof.
  intros [Hd HJ].
  assert (Hk : forall k v, (k, v) ∈ J -> exists k', k = key ++ k' /\ maps GetNode c k' v).
  { intros k v H. by apply HJ, maps_short_inv in H. }
  split.
  - apply (NoDup_fmap_2_strong (fun kv : list Z * bytes => (drop (length key) kv.1, kv.2))); [|done].
    intros [k1 v1] [k2 v2] H1 H2 E. apply Hk in H1 as (? & -> & _). apply Hk in H2 as (? & -> & _).
    simpl in E. rewrite !drop_app_length in E. congruence.
  - intros k v. rewrite (list_elem_of_fmap (fun kv : list Z * bytes => (drop (length key) kv.1, kv.2))).
    split.
    + intros ([k1 v1] & [= -> ->] & H). apply Hk in H as (k' & -> & H). by rewrite drop_app_length.
    + intros H. exists (key ++ k, v). simpl. rewrite drop_app_length. split; [done|].
      apply HJ. by constructor.
Qed.

Lemma represents_full h e value ch x c J :
  0 <= x -> getEdge value ch x = Ok c ->
  represents GetNode (FullNode h e value ch) J -> represents GetNode c (under x J).
Proof.
  intros Hx Ec [Hd HJ]. split; [by apply NoDup_under|]. intros k v.
  rewrite elem_of_under, HJ, maps_full_inv. split; [|by exists x, c, k].
  intros (? & ? & ? & [= <- <-] & _ & ? & ?). congruence.
Qed.

(** More than one item, which need not be a value. *)
Lemma patriciaNode_many f J p a k1 v1 b k2 v2 :
  (forall k v, (k, v) ∈ J -> p `prefix_of` k) ->
  (p ++ a :: k1, v1) ∈ J -> (p ++ b :: k2, v2) ∈ J -> a <> b ->
  patriciaNode f J =
    match p with
    | [] => NewArray (map (fun x => f (under x J)) edges)
    | _ => NewArray [NewBytes (encodeCompact p); f (strip p J)]
    end.
Proof.
  intros Hp H1 H2 Hab. pose proof (commonPrefix_fork _ _ _ _ _ _ _ _ Hp H1 H2 Hab) as Hc.
  unfold patriciaNode. rewrite Hc. destruct J as [|[k v] [|? J]]; [by apply elem_of_nil in H1| |by destruct p].
  apply list_elem_of_singleton in H1, H2. rewrite <- H2 in H1. injection H1 as H1 _.
  apply app_inv_head in H1. congruence.
Qed.

Lemma patricia_S f J :
  J <> [] -> (forall k v, (k, v) ∈ J -> k <> []) ->
  patricia (S f) J = close (patriciaNode (patricia f) J).
Proof.
  intros HJ Hk. destruct J as [|[k v] J]; [done|]. simpl.
  destruct k; [|done]. destruct J; [|done]. by destruct (Hk [] v ltac:(by left)).
Qed.

Lemma bare_inner n : inner n -> bare n = close (bareNode n).
Proof. by destruct n. Qed.

(** The claim about a node; for short and full nodes also about what is stored. *)
Definition canonical (n : Node) : Prop :=
  forall J fuel, represents GetNode n J -> (depth J <= fuel)%nat -> bare n = patricia fuel J.
Definition canonicalNode (n : Node) : Prop :=
  forall J fuel, represents GetNode n J -> (depth J <= S fuel)%nat ->
    bareNode n = patriciaNode (patricia fuel) J.

Lemma canonical_inner fin n :
  inner n -> wf GetNode fin n -> canonicalNode n -> canonical n.
Proof.
  intros Hi Hw Hn J fuel HJ Hf. rewrite bare_inner by done.
  destruct (wf_inhabited _ _ _ Hw) as (k & v & Hk); [by destruct n|].
  pose proof HJ as [_ HJ']. pose proof (proj2 (HJ' k v) Hk) as Hin.
  assert (Hne : forall k v, (k, v) ∈ J -> k <> []).
  { intros k' v' H. apply HJ' in H. by eapply inner_key. }
  destruct fuel as [|fuel].
  { pose proof (proj1 (depth_le J 0) Hf _ _ Hin). specialize (Hne _ _ Hin). by destruct k; simpl in *; [|lia]. }
  rewrite patricia_S, (Hn J fuel) by (done || by intros ->; apply elem_of_nil in Hin). done.
Qed.

Lemma canonical_leaf h key v :
  tkey key -> canonicalNode (ShortNode h key (ValueNode false v)).
Proof.
  intros Hk J fuel [Hd HJ] _. assert (J = [(key, v)]) as ->; [|done].
  apply NoDup_singleton_eq; [done|]. intros [k w]. rewrite HJ, maps_short_inv.
  setoid_rewrite maps_value_inv. split.
  - intros (? & -> & -> & ->). by rewrite app_nil_r.
  - intros [= -> ->]. exists []. by rewrite app_nil_r.
Qed.

Lemma canonical_ext h key c :
  key <> [] -> wf GetNode false c -> branch GetNode c -> canonical c -> canonicalNode (ShortNode h key c).
Proof.
  intros Hne Hw Hb Hc J fuel HJ Hf. pose proof HJ as [_ HJ'].
  destruct (branch_fork _ _ Hw Hb) as (x & kx & vx & y & ky & vy & Hxy & Hx & Hy).
  rewrite (patriciaNode_many _ J key x kx vx y ky vy); [|..|done]; cycle 1.
  - intros k v H. apply HJ', maps_short_inv in H as (k' & -> & _). by eexists.
  - apply HJ'. by constructor.
  - apply HJ'. by constructor.
  - simpl. rewrite (Hc (strip key J) fuel); [by destruct key|by eapply represents_short|].
    apply depth_le. intros k v Hk.
    apply (list_elem_of_fmap (fun kv : list Z * bytes => (drop (length key) kv.1, kv.2))) in Hk as ([k' v'] & [= -> ->] & H).
    pose proof (proj1 (depth_le J (S fuel)) Hf _ _ H). rewrite length_drop. destruct key; [done|]. simpl. lia.
Qed.

Lemma canonical_full h e value ch :
  wf GetNode false (FullNode h e value ch) -> canonical value ->
  (forall i c, ch !! i = Some c -> canonical c) -> canonicalNode (FullNode h e value ch).
Proof.
  intros Hw Hv Hc J fuel HJ Hf. pose proof HJ as [_ HJ'].
  destruct (full_fork _ _ _ _ _ Hw) as (x & kx & vx & y & ky & vy & Hxy & Hx & Hy).
  destruct (wf_slots _ _ _ _ _ Hw) as [(Hl & _) _].
  rewrite (patriciaNode_many _ J [] x kx vx y ky vy); [|by intros; apply prefix_nil|by apply HJ'|by apply HJ'|done].
  assert (He : forall z c, 0 <= z -> getEdge value ch z = Ok c -> canonical c ->
    bare c = patricia fuel (under z J)).
  { intros z c Hz Ez Hcan. apply Hcan; [by eapply represents_full|]. apply depth_le. intros k v Hk%elem_of_under.
    pose proof (proj1 (depth_le J (S fuel)) Hf _ _ Hk) as H. simpl in H. lia. }
  unfold bareNode. f_equal. apply list_eq. intros i.
  rewrite (list_lookup_fmap (fun x => patricia fuel (under x J)) edges).
  destruct (decide (i < 16)%nat) as [Hi|Hi].
  - rewrite lookup_app_l by (rewrite length_map; lia). rewrite (list_lookup_fmap bare).
    destruct (lookup_lt_is_Some_2 ch i) as [c Hch]; [lia|]. rewrite Hch. unfold edges.
    rewrite lookup_seqZ_lt by lia. simpl. f_equal. apply He; [lia| |by eapply Hc].
    by apply edge_nth.
  - rewrite lookup_app_r by (rewrite length_map; lia). rewrite length_map, Hl.
    destruct (decide (i = 16%nat)) as [->|].
    + simpl. f_equal. apply He; [done|done|done].
    + rewrite lookup_ge_None_2 by (simpl; lia). unfold edges.
      by rewrite lookup_seqZ_ge by lia.
Qed.

Lemma canonical_Nil : canonical Nil.
Proof.
  intros J fuel [_ HJ] _. destruct J as [|[k v] J]; [by destruct fuel|].
  destruct (maps_Nil GetNode k v). apply HJ. by left.
Qed.

Lemma canonical_value v : canonical (ValueNode false v).
Proof.
  intros J fuel [Hd HJ] _. assert (J = [([], v)]) as ->; [|by destruct fuel].
  apply NoDup_singleton_eq; [done|]. intros [k w]. rewrite HJ, maps_value_inv.
  split; [intros [-> ->]|intros [= -> ->]]; done.
Qed.

Lemma canonical_ref buf n :
  GetNode buf = Some (Some n) -> bare n = NewBytes buf -> canonical n -> canonical (ValueNode true buf).
Proof.
  intros HG Hb Hn J fuel [Hd HJ] Hf. rewrite <- (Hn J fuel); [done| |done]. split; [done|].
  intros k v. rewrite HJ. by apply maps_ref_inv.
Qed.

(** A well-formed node with right caches is the specification of its contents. *)
Lemma wf_canonical ep fin n :
  wf GetNode fin n -> valid GetNode ep n -> canonical n /\ (inner n -> canonicalNode n).
Proof.
  induction 1 as [|v|buf n HG Hi Hw IH|h key v Hk|h key c Hne Hk Hb Hw IH|h e value ch Hl Hv IHv Hc IHc Hf];
    intros Hval.
  - split; [apply canonical_Nil|done].
  - split; [apply canonical_value|done].
  - split; [|done]. inversion Hval as [| |? n' HG' Hb Hn| |]; subst. simplify_eq.
    eapply canonical_ref; [done..|]. by apply IH.
  - pose proof (canonical_leaf h key v Hk) as Hn. split; [|done].
    eapply (canonical_inner false); [done|by constructor|done].
  - inversion Hval; subst.
    assert (canonicalNode (ShortNode h key c)) by (apply canonical_ext; [done..|by apply IH]).
    split; [|done]. eapply (canonical_inner false); [done|by constructor|done].
  - inversion Hval; subst.
    assert (canonicalNode (FullNode h e value ch)).
    { apply canonical_full; [by constructor|by apply IHv|]. intros i c Hi. eapply IHc; eauto. }
    split; [|done]. eapply (canonical_inner false); [done|by constructor|done].
Qed.
End canonical.

(** ** Hashing *)

Section hashing.
Context `{KK : !Keccak, RL : !FastRlp}.
Context (GetNode : bytes -> option (option Node)) (ep : Z).

(** A node without the hashes it caches. *)
Fixpoint plain (n : Node) : Node :=
  match n with
  | Nil | ValueNode _ _ => n
  | ShortNode _ key c => ShortNode [] key (plain c)
  | FullNode _ e value ch => FullNode [] e (plain value) (map plain ch)
  end.

Lemma valid_mono ep' n : ep <= ep' -> valid GetNode ep n -> valid GetNode ep' n.
Proof.
  intros He. induction 1 as [| | | |h e value ch Hle _ IHv _ IHc Hh]; econstructor; eauto; [lia|].
  intros H. destruct (Hh H). split; [lia|done].
Qed.

(** What hashing does to a node. *)
Definition rehash (n n' : Node) : Prop :=
  plain n' = plain n /\ bare n' = bare n /\ valid GetNode (ep + 1) n'.

Lemma seal_spec val mk w :
  exists h w', seal val mk w = (close val, mk h, w') /\ (h <> [] -> close val = NewBytes h) /\
    (Len val < 32 /\ h = [] /\ w' = w \/
     32 <= Len val /\ h = keccak256 (MarshalTo val) /\ w' = w ++ [(h, MarshalTo val)]).
Proof. unfold seal, close. destruct (Z.ltb_spec (Len val) 32); do 2 eexists; split_and!; auto; done. Qed.

(** The node was hashed, or is a missing edge. *)
Definition hashes (r : result (Value * Node * writes)) (n : Node) : Prop :=
  exists n' w, r = Ok (bare n, n', w) /\ rehash n n'.

Lemma hashEdges_spec ch :
  Forall (fun c => hashes (hashEdge hash c) c) ch ->
  exists ch' w, hashEdges hash ch = Ok (map bare ch, ch', w) /\ Forall2 rehash ch ch'.
Proof.
  induction 1 as [|c ch (c' & w & E & Hc) _ (ch' & w' & E' & Hch)].
  - by exists [], [].
  - exists (c' :: ch'), (w ++ w'). simpl. rewrite E. simpl. simpl in E'. rewrite E'. by split; [|constructor].
Qed.

Lemma rehash_short h key c c' :
  rehash c c' ->
  let val := NewArray [NewBytes (encodeCompact key); bare c] in
  (h <> [] -> close val = NewBytes h) -> rehash (ShortNode [] key c) (ShortNode h key c').
Proof.
  intros (Hp & Hb & Hv) val Hh. unfold rehash. simpl. rewrite Hp, Hb. split_and!; try done.
  constructor; [done|]. simpl. by rewrite Hb.
Qed.

Lemma rehash_full h e value value' ch ch' :
  e <= ep -> rehash value value' -> Forall2 rehash ch ch' ->
  let val := NewArray (map bare ch ++ [bare value]) in
  (h <> [] -> close val = NewBytes h) -> rehash (FullNode [] e value ch) (FullNode h e value' ch').
Proof.
  intros He (Hp & Hb & Hv) Hch val Hh.
  assert (Ep : map plain ch' = map plain ch).
  { clear -Hch. induction Hch as [|c c' ch ch' (Hp & _) _ IH]; [done|]. simpl. by rewrite Hp, IH. }
  assert (Eb : map bare ch' = map bare ch).
  { clear -Hch. induction Hch as [|c c' ch ch' (_ & Hb & _) _ IH]; [done|]. simpl. by rewrite Hb, IH. }
  unfold rehash. simpl. rewrite Hp, Hb, Ep, Eb. split_and!; try done.
  constructor; [lia|done| |].
  - intros i c Hi. destruct (Forall2_lookup_r _ _ _ _ _ Hch Hi) as (? & _ & _ & _ & ?). done.
  - simpl. rewrite Hb, Eb. intros H. split; [lia|auto].
Qed.

Lemma rehash_refl n : valid GetNode ep n -> rehash n n.
Proof. intros H. split; [done|]. split; [done|]. eapply valid_mono; [|done]. lia. Qed.

Lemma hash_cached_short x h key c :
  valid GetNode ep (ShortNode (x :: h) key c) ->
  hash (ShortNode (x :: h) key c) = Ok (bare (ShortNode (x :: h) key c), ShortNode (x :: h) key c, []).
Proof. intros H. inversion H as [| | |? ? ? _ Hh|]; subst. rewrite Hh by done. done. Qed.

Lemma hash_cached_full x h e value ch :
  valid GetNode ep (FullNode (x :: h) e value ch) ->
  hash (FullNode (x :: h) e value ch) =
    Ok (bare (FullNode (x :: h) e value ch), FullNode (x :: h) e value ch, []).
Proof. inversion 1 as [| | | |? ? ? ? _ _ _ Hh]; subst. destruct Hh as [_ ->]; done. Qed.

Lemma hash_spec fin n :
  wf GetNode fin n -> valid GetNode ep n -> n <> Nil -> hashes (hash n) n.
Proof.
  assert (Hedge : forall c, (c <> Nil -> hashes (hash c) c) -> hashes (hashEdge hash c) c).
  { intros c H. destruct c; try (by apply H). exists Nil, []. split; [done|].
    apply rehash_refl. constructor. }
  induction 1 as [|v|buf n HG Hi Hw IH|h key v Hk|h key c Hne Hk Hb Hw IH|h e value ch Hl Hv IHv Hc IHc Hf];
    intros Hval Hn; try done.
  - exists (ValueNode false v), []. split; [done|]. by apply rehash_refl.
  - exists (ValueNode true buf), []. split; [done|]. by apply rehash_refl.
  - destruct h as [|x h].
    + simpl. destruct (seal_spec (NewArray [NewBytes (encodeCompact key); NewBytes v])
        (fun h => ShortNode h key (ValueNode false v)) []) as (h & w & E & Hh & _).
      rewrite E. do 2 eexists. split; [done|]. apply rehash_short; [|done].
      apply rehash_refl. constructor.
    + exists (ShortNode (x :: h) key (ValueNode false v)), []. split; [by apply hash_cached_short|by apply rehash_refl].
  - destruct h as [|x h].
    + inversion Hval; subst. destruct IH as (c' & w & E & Hr); [done|by apply branch_not_Nil in Hb|].
      simpl. rewrite E. simpl.
      destruct (seal_spec (NewArray [NewBytes (encodeCompact key); bare c])
        (fun h => ShortNode h key c') w) as (h & w' & E' & Hh & _).
      rewrite E'. do 2 eexists. split; [done|]. by apply rehash_short.
    + exists (ShortNode (x :: h) key c), []. split; [by apply hash_cached_short|by apply rehash_refl].
  - destruct h as [|x h].
    + inversion Hval; subst. simpl.
      destruct (hashEdges_spec ch) as (ch' & w & E & Hch).
      { apply Forall_lookup_2. intros i c Hi. apply Hedge. eapply IHc; eauto. }
      destruct (Hedge value) as (value' & w' & E' & Hr); [by apply IHv|].
      rewrite E. simpl. rewrite E'. simpl.
      destruct (seal_spec (NewArray (map bare ch ++ [bare value]))
        (fun h => FullNode h e value' ch') (w ++ w')) as (h & w'' & E'' & Hh & _).
      rewrite E''. do 2 eexists. split; [done|]. by apply rehash_full.
    + exists (FullNode (x :: h) e value ch), []. split; [by apply hash_cached_full|by apply rehash_refl].
Qed.
End hashing.

(** *** Hashing changes nothing but the caches *)

Section plain.
Context (GetNode : bytes -> option (option Node)).

Lemma plain_Nil n : plain n = Nil <-> n = Nil.
Proof. by destruct n. Qed.

Lemma getEdge_plain value ch x c :
  getEdge value ch x = Ok c -> getEdge (plain value) (map plain ch) x = Ok (plain c).
Proof.
  unfold getEdge. destruct (x =? 16); [by intros [= ->]|].
  rewrite (list_lookup_fmap plain). destruct (ch !! Z.to_nat x); [by intros [= ->]|done].
Qed.

Lemma getEdge_plain_inv value ch x d :
  getEdge (plain value) (map plain ch) x = Ok d -> exists c, getEdge value ch x = Ok c /\ d = plain c.
Proof.
  unfold getEdge. destruct (x =? 16); [intros [= <-]; eauto|].
  rewrite (list_lookup_fmap plain). destruct (ch !! Z.to_nat x); [intros [= <-]; eauto|done].
Qed.

Lemma maps_plain n k v : maps GetNode (plain n) k v <-> maps GetNode n k v.
Proof.
  split.
  - remember (plain n) as m eqn:Em. intros H. revert n Em.
    induction H as [w|buf m k w HG H _|h key c k w H IH|h e value ch x c k w Hx Ec H IH];
      intros n Em; destruct n; simpl in Em; try done; simplify_eq; try by econstructor.
    + constructor. by apply IH.
    + destruct (getEdge_plain_inv _ _ _ _ Ec) as (c' & Ec' & ->). econstructor; [done..|]. by apply IH.
  - induction 1; simpl; econstructor; eauto. by apply getEdge_plain.
Qed.

Lemma branch_plain n : branch GetNode (plain n) <-> branch GetNode n.
Proof.
  destruct n; simpl; split; intros H; inversion H; subst; try done; econstructor; eauto.
Qed.

Lemma forks_plain value ch : forks (plain value) (map plain ch) <-> forks value ch.
Proof.
  split; intros (x & y & cx & cy & Hne & Hx & Hy & Ex & Ey & Nx & Ny).
  - apply getEdge_plain_inv in Ex as (cx' & Ex & ->). apply getEdge_plain_inv in Ey as (cy' & Ey & ->).
    rewrite plain_Nil in Nx, Ny. by exists x, y, cx', cy'.
  - exists x, y, (plain cx), (plain cy). rewrite !plain_Nil. split_and!; try done; by apply getEdge_plain.
Qed.

Lemma wf_plain fin n : wf GetNode fin (plain n) <-> wf GetNode fin n.
Proof.
  split.
  - remember (plain n) as m eqn:Em. intros H. revert n Em.
    induction H as [|v|buf m HG Hi Hw _|h key v Hk|h key c Hne Hk Hb _ IH|h e value ch Hl _ IHv _ IHc Hf];
      intros n Em; destruct n as [| |h' key' c'|h' e' value' ch']; simpl in Em; try done; simplify_eq; try by econstructor.
    + destruct c' as [|[]| |]; simplify_eq. by constructor.
    + constructor; [done..| |by apply IH]. by apply branch_plain.
    + rewrite length_map in Hl. constructor; [done|by apply IHv| |by apply forks_plain].
      intros i c Hi. apply (IHc i (plain c)); [|done]. by rewrite (list_lookup_fmap plain), Hi.
  - induction 1 as [| | | | |h e value ch Hl _ IHv _ IHc Hf]; simpl; try by econstructor.
    + constructor; [done..| |done]. by apply branch_plain.
    + constructor; [by rewrite length_map|done| |by apply forks_plain].
      intros i c. rewrite (list_lookup_fmap plain). destruct (ch !! i) eqn:Hi; [|done].
      intros [= <-]. eauto.
Qed.
End plain.
