(* ===== verification/TrieCorrect.v ===== *)
(** The trie as a component: a transaction on it is a map, its root is the function
    of the contents the Yellow Paper gives, and the trie read back from storage has
    the same contents. *)

From S2P Require Import Prelude Types Crypto Rlp Trie TrieFacts TrieHash TrieSpec.

(** ** What operations keep *)

(** A property of nodes that goes to the children, and back to nodes without a
    cached hash. *)
Record closed (GetNode : bytes -> option (option Node)) (ep : Z) (P : Node -> Prop) : Prop := {
  closed_Nil : P Nil;
  closed_Value v : P (ValueNode false v);
  closed_Ref buf n : P (ValueNode true buf) -> GetNode buf = Some (Some n) -> P n;
  closed_child h key c : P (ShortNode h key c) -> P c;
  closed_Short key c : P c -> P (ShortNode [] key c);
  closed_value h e value ch : P (FullNode h e value ch) -> P value;
  closed_edge h e value ch i c : P (FullNode h e value ch) -> ch !! i = Some c -> P c;
  closed_epoch h e value ch : P (FullNode h e value ch) -> e <= ep /\ (e = ep -> h = []);
  closed_Full e value ch :
    e <= ep -> P value -> (forall i c, ch !! i = Some c -> P c) -> P (FullNode [] e value ch);
}.

Section closed.
Context (GetNode : bytes -> option (option Node)) (ep : Z) (P : Node -> Prop).
Context (HP : closed GetNode ep P) (Hep : 0 <= ep).

Lemma closed_getEdge h e value ch x c :
  P (FullNode h e value ch) -> getEdge value ch x = Ok c -> P c.
Proof.
  unfold getEdge. intros H. destruct (x =? 16); [intros [= <-]; by eapply closed_value|].
  destruct (ch !! Z.to_nat x) eqn:Hi; [intros [= <-]; by eapply closed_edge|done].
Qed.

Lemma closed_setEdge e value ch x c n :
  e <= ep -> P value -> (forall i c, ch !! i = Some c -> P c) -> P c ->
  setEdge [] e value ch x c = Ok n -> P n.
Proof.
  intros He Hv Hch Hc. unfold setEdge. destruct (x =? 16); [intros [= <-]; by apply (closed_Full _ _ _ HP)|].
  destruct (ch !! Z.to_nat x); [|done]. intros [= <-]. apply (closed_Full _ _ _ HP); [done..|].
  intros i d [(_ & -> & _)|[_ Hd]]%list_lookup_insert_Some; eauto.
Qed.

Lemma closed_emptyChildren i c : emptyChildren !! i = Some c -> P c.
Proof. intros [-> _]%lookup_replicate. apply HP. Qed.

Lemma closed_writeNode h e value ch :
  P (FullNode h e value ch) -> exists e', writeNode ep h e = ([], e') /\ e' <= ep.
Proof.
  intros H. destruct (closed_epoch _ _ _ HP _ _ _ _ H) as [He Hh]. unfold writeNode.
  destruct (Z.eqb_spec ep e) as [->|]; [|by exists ep]. rewrite Hh by done. by exists e.
Qed.

Lemma insert_closed fuel n s v n' : P n -> insert GetNode ep fuel n s v = Ok n' -> P n'.
Proof.
  pose proof HP as [HN HV HR Hsc HS Hfv Hfe He HF].
  revert n s n'. induction fuel as [|fuel IH]; [done|]. intros n s n' Hn.
  destruct n as [|[] buf|h key c|h e value ch]; cbn [insert].
  - destruct s as [|x s]; [intros [= <-]; apply HV|].
    destruct (insert GetNode ep fuel Nil [] v) eqn:E; [|done]. intros [= <-].
    apply HS. by apply (IH Nil []).
  - unfold resolve. destruct (GetNode buf) as [[m|]|] eqn:HG; [|by intros [= <-]|done].
    apply IH. by eapply HR.
  - destruct s as [|x s]; [intros [= <-]; apply HV|]. apply IH.
    apply HF; [lia|done|apply closed_emptyChildren].
  - pose proof (Hsc _ _ _ Hn) as Hc. destruct (drop _ key) as [|x rest].
    + destruct (insert GetNode ep fuel c _ v) as [c'|] eqn:E; [|done]. intros [= <-].
      apply HS. by eapply IH.
    + destruct (setEdge [] ep Nil emptyChildren x _) as [b|] eqn:Es; [|done]. simpl.
      assert (Hb : P b).
      { eapply (closed_setEdge _ Nil); [reflexivity|exact HN|apply closed_emptyChildren| |exact Es].
        destruct rest; auto. }
      destruct (insert GetNode ep fuel b _ v) as [c'|] eqn:E; [|done]. intros [= <-].
      apply IH in E; [|done]. destruct (_ =? 0)%nat; auto.
  - destruct (closed_writeNode _ _ _ _ Hn) as (e' & -> & He').
    pose proof (fun i c => Hfe _ _ _ _ i c Hn) as Hch. destruct s as [|x s].
    + destruct (insert GetNode ep fuel value [] v) as [c'|] eqn:E; [|done]. intros [= <-].
      apply IH in E; [|by eapply Hfv]. by apply HF.
    + destruct (getEdge value ch x) as [c|] eqn:Ec; [|done]. simpl.
      destruct (insert GetNode ep fuel c s v) as [c'|] eqn:E; [|done]. simpl.
      apply IH in E; [|by eapply closed_getEdge]. apply closed_setEdge; try done. by eapply Hfv.
Qed.

Lemma collapse_closed value ch n' :
  P value -> (forall i c, ch !! i = Some c -> P c) ->
  collapse GetNode value ch = Ok (Some n') -> P n'.
Proof.
  pose proof HP as [HN HV HR Hsc HS Hfv Hfe He HF]. intros Hv Hch. unfold collapse.
  assert (HFv : P (FullNode [] 0 value ch)) by by apply HF.
  destruct (present ch) as [|[i nc] [|? ?]] eqn:Ep.
  - destruct value; intros [= <-]; auto.
  - destruct value; try by intros [= <-].
    destruct (proj1 (present_elem ch i nc)) as [Hi _]; [rewrite Ep; left|]. pose proof (Hch _ _ Hi) as Hnc.
    assert (Hr : forall o m, (match nc with ValueNode true buf => resolve GetNode buf | _ => Ok (Some nc) end)
      = Ok o -> o = Some m -> P m).
    { intros o m E ->. destruct nc as [|[] buf| |]; try by injection E as <-.
      unfold resolve in E. destruct (GetNode buf) as [[m'|]|] eqn:HG; [|done..].
      injection E as <-. by eapply HR. }
    destruct (match nc with ValueNode true buf => _ | _ => _ end) as [[m|]|]; [|done..]. simpl.
    specialize (Hr _ m eq_refl eq_refl). destruct m; intros [= <-]; apply HS; try done. by eapply Hsc.
  - destruct value; by intros [= <-].
Qed.

Lemma delete_closed fuel n s n' : P n -> delete GetNode fuel n s = Ok (Some n') -> P n'.
Proof.
  pose proof HP as [HN HV HR Hsc HS Hfv Hfe He HF].
  revert n s n'. induction fuel as [|fuel IH]; [done|]. intros n s n' Hn.
  destruct n as [|[] buf|h key c|h e value ch]; cbn [delete].
  - done.
  - unfold resolve. destruct (GetNode buf) as [[m|]|] eqn:HG; [|done..]. apply IH. by eapply HR.
  - destruct s; [|done]. by intros [= <-].
  - pose proof (Hsc _ _ _ Hn) as Hc.
    destruct (_ =? length s)%nat; [by intros [= <-]|]. destruct (_ =? 0)%nat; [done|].
    destruct (delete GetNode fuel c _) as [[c'|]|] eqn:E; [|done..]. simpl.
    apply IH in E; [|done]. destruct c'; intros [= <-]; try done; apply HS; try done. by eapply Hsc.
  - destruct s as [|x s]; [done|]. destruct (getEdge value ch x) as [c|] eqn:Ec; [|done]. simpl.
    destruct (delete GetNode fuel c s) as [[c'|]|] eqn:E; [|done..]. simpl.
    apply IH in E; [|by eapply closed_getEdge].
    destruct (setEdge [] 0 value ch x c') as [m|] eqn:Es; [|done]. simpl.
    apply closed_setEdge in Es; [|done|by eapply Hfv|by intros; eapply Hfe|done].
    destruct m; [done..|]. apply collapse_closed; [by eapply Hfv|by intros; eapply Hfe].
Qed.
End closed.

Section valid.
Context `{KK : !Keccak, RL : !FastRlp}.
Context (GetNode : bytes -> option (option Node)) (ep : Z).

Abbreviation valid := (valid GetNode ep).

Lemma valid_closed : closed GetNode ep valid.
Proof.
  split; try (intros; by constructor).
  - intros buf n H HG. inversion H; subst. by simplify_eq.
  - intros h key c H. by inversion H.
  - intros h e value ch H. by inversion H.
  - intros h e value ch i c H. inversion H; subst. eauto.
  - intros h e value ch H. inversion H as [| | | |? ? ? ? He _ _ Hh]; subst. split; [done|].
    intros ->. destruct h; [done|]. destruct Hh; [done|]. lia.
Qed.

Lemma bare_setEdge h e value ch x c c' n :
  0 <= x -> getEdge value ch x = Ok c -> bare c' = bare c -> setEdge h e value ch x c' = Ok n ->
  bare n = bare (FullNode h e value ch).
Proof.
  unfold getEdge, setEdge. intros Hx. destruct (x =? 16).
  - intros [= ->] Hb [= <-]. simpl. by rewrite Hb.
  - destruct (ch !! Z.to_nat x) eqn:Hi; [|done]. intros [= ->] Hb [= <-]. simpl. do 3 f_equal.
    change (bare <$> <[Z.to_nat x:=c']> ch = bare <$> ch).
    rewrite list_fmap_insert, Hb. apply list_insert_id. by rewrite list_lookup_fmap, Hi.
Qed.

Lemma lookup_valid fuel fin n k n' p o :
  wf GetNode fin n -> keyAt fin k -> valid n -> lookup GetNode fuel n k = Ok (n', p, o) ->
  valid n' /\ bare n' = bare n.
Proof.
  revert fin n k n' p o. induction fuel as [|fuel IH]; [done|]. intros fin n k n' p o Hw Hk Hn.
  destruct n as [|[] buf|h key c|h e value ch]; cbn [lookup].
  - by intros [= <- <- <-].
  - inversion Hn as [| |? m HG Hb Hm| |]; subst. unfold resolve. rewrite HG. simpl.
    inversion Hw as [| |? m' HG' Hi Hw'| | |]; subst. simplify_eq.
    destruct (lookup GetNode fuel m k) as [[[m1 p1] o1]|] eqn:E; [|done]. simpl. intros [= <- <- <-].
    destruct (IH _ _ _ _ _ _ Hw' Hk Hm E) as [H1 H2]. destruct p1; by rewrite ?H2.
  - by intros [= <- <- <-].
  - assert (fin = false) as -> by by inversion Hw. destruct (short_inv _ _ _ _ Hw) as (fin & Hwc & Hs).
    case_bool_decide as Hp; [|by intros [= <- <- <-]].
    destruct (lookup GetNode fuel c _) as [[[c1 p1] o1]|] eqn:E; [|done]. simpl. intros [= <- <- <-].
    inversion Hn as [| | |? ? ? Hc Hh|]; subst. apply take_drop_eq in Hp. rewrite Hp in Hk.
    destruct (IH _ _ _ _ _ _ Hwc (shortKey_rest _ _ _ _ _ Hs Hk) Hc E) as [H1 H2]. simpl. rewrite H2.
    split; [|done]. constructor; [done|]. simpl. by rewrite H2.
  - assert (fin = false) as -> by by inversion Hw. destruct k as [|x k]; [done|].
    destruct (wf_slots _ _ _ _ _ Hw) as [Hsl _].
    destruct (edge_ok _ _ _ _ _ Hsl Hk) as (Hx & c & Ec & Hwc & Hk'). rewrite Ec. simpl.
    destruct (lookup GetNode fuel c k) as [[[c1 p1] o1]|] eqn:E; [|done]. simpl.
    destruct (IH _ _ _ _ _ _ Hwc Hk' (closed_getEdge _ _ _ valid_closed _ _ _ _ _ _ Hn Ec) E) as [H1 H2].
    destruct (_ && _); [done|]. destruct (setEdge h e value ch x c1) as [m|] eqn:Es; [|done].
    simpl. intros [= <- <- <-]. pose proof (bare_setEdge _ _ _ _ _ _ _ _ Hx Ec H2 Es) as Hb.
    split; [|done]. inversion Hn as [| | | |? ? ? ? He Hv Hch Hh]; subst. rewrite <- Hb in Hh.
    clear Hb Ec. unfold setEdge in Es.
    destruct (x =? 16); [injection Es as <-; by constructor|].
    destruct (ch !! Z.to_nat x); [|done]. injection Es as <-. constructor; [done..| |done].
    intros i d [(_ & -> & _)|[_ Hd]]%list_lookup_insert_Some; eauto.
Qed.
End valid.

(** ** A transaction is a map *)

Section holds.
Context `{KK : !Keccak, RL : !FastRlp}.
Context (GetNode : bytes -> option (option Node)).

(** The trie or transaction holds the map [m]. *)
Record holds (t : Trie) (m : gmap (list Z) bytes) : Prop := {
  holds_ref : isRef (t_root t) = false;
  holds_wf : wf GetNode false (t_root t);
  holds_valid : valid GetNode (t_epoch t) (t_root t);
  holds_epoch : 0 <= t_epoch t;
  holds_bytes b v : m !! b = Some v -> Forall is_byte b;
  holds_maps k v : maps GetNode (t_root t) k v <-> exists b, k = bytesToHexNibbles b /\ m !! b = Some v;
}.

Lemma holds_get t m b v :
  holds t m -> Forall is_byte b -> maps GetNode (t_root t) (bytesToHexNibbles b) v <-> m !! b = Some v.
Proof.
  intros H Hb. rewrite (holds_maps _ _ H). split; [|eauto]. intros (b' & E & Hv).
  apply bytesToHexNibbles_inj in E as ->; [done..|]. by eapply holds_bytes.
Qed.

(** The root is never a reference. *)
Lemma setEdge_ref h e value ch x c n : setEdge h e value ch x c = Ok n -> isRef n = false.
Proof. unfold setEdge. destruct (x =? 16), (ch !! Z.to_nat x); by intros [= <-]. Qed.

Lemma lookup_ref fuel n k n' o :
  isRef n = false -> lookup GetNode fuel n k = Ok (n', false, o) -> isRef n' = false.
Proof.
  destruct fuel as [|fuel]; [done|]. destruct n as [|[]|h key c|h e value ch]; cbn [lookup]; try done.
  - by intros _ [= <- _].
  - by intros _ [= <- _].
  - intros _. case_bool_decide; [|by intros [= <- _]].
    destruct (lookup _ _ _ _) as [[[]]|]; [by intros [= <- _]|done].
  - intros _. destruct k as [|x k].
    + destruct (lookup _ _ _ _) as [[[? []]]|]; [done|by intros [= <- _]|done].
    + destruct (getEdge value ch x); [|done]. simpl. destruct (lookup _ _ _ _) as [[[]]|]; [|done].
      simpl. destruct (_ && _); [done|]. destruct (setEdge _ _ _ _ _ _) eqn:E; [|done].
      intros [= <- _]. by eapply setEdge_ref.
Qed.

Lemma insert_ref ep fuel n s v n' : insert GetNode ep fuel n s v = Ok n' -> isRef n' = false.
Proof.
  revert n s n'. induction fuel as [|fuel IH]; [done|]. intros n s n'.
  destruct n as [|[] buf|h key c|h e value ch]; cbn [insert].
  - destruct s; [by intros [= <-]|]. destruct (insert _ _ _ _ _ _); by intros [= <-].
  - destruct (resolve GetNode buf) as [[m|]|]; [apply IH|by intros [= <-]|done].
  - destruct s; [by intros [= <-]|apply IH].
  - destruct (drop _ key); [destruct (insert _ _ _ _ _ _); by intros [= <-]|].
    destruct (setEdge _ _ _ _ _ _); [|done]. simpl.
    destruct (insert _ _ _ _ _ _) eqn:E; [|done]. intros [= <-]. destruct (_ =? 0)%nat; [by eapply IH|done].
  - destruct (writeNode ep h e). destruct s as [|x s].
    + destruct (insert _ _ _ _ _ _); by intros [= <-].
    + destruct (getEdge value ch x); [|done]. simpl. destruct (insert _ _ _ _ _ _); [|done]. apply setEdge_ref.
Qed.

Lemma collapse_ref value ch n' : collapse GetNode value ch = Ok (Some n') -> isRef n' = false.
Proof.
  unfold collapse. destruct (present ch) as [|[i nc] [|]], value; try by intros [= <-].
  destruct (match nc with ValueNode true buf => _ | _ => _ end) as [[[]|]|]; by intros [= <-].
Qed.

Lemma delete_ref fuel n s n' : delete GetNode fuel n s = Ok (Some n') -> isRef n' = false.
Proof.
  revert n s n'. induction fuel as [|fuel IH]; [done|]. intros n s n'.
  destruct n as [|[] buf|h key c|h e value ch]; cbn [delete].
  - done.
  - destruct (resolve GetNode buf) as [[m|]|]; [apply IH|done..].
  - destruct s; by intros [= <-].
  - destruct (_ =? length s)%nat; [by intros [= <-]|]. destruct (_ =? 0)%nat; [done|].
    destruct (delete _ _ _ _) as [[[]|]|]; by intros [= <-].
  - destruct s as [|x s]; [done|]. destruct (getEdge value ch x); [|done]. simpl.
    destruct (delete _ _ _ _) as [[c|]|]; [|done..]. simpl.
    destruct (setEdge _ _ _ _ _ _) as [[]|]; try done. apply collapse_ref.
Qed.

Lemma keyFuel_cost n k : (cost n k <= keyFuel k)%nat.
Proof. pose proof (cost_le n k). unfold keyFuel. lia. Qed.

Lemma holds_New ep : 0 <= ep -> holds (mkTrie Nil ep) ∅.
Proof.
  intros He. split; simpl; [done|constructor|constructor|done|done|]. intros k v.
  split; [by intros ?%maps_Nil|]. intros (b & _ & H). by rewrite lookup_empty in H.
Qed.

Lemma Lookup_holds t m b :
  holds t m -> Forall is_byte b -> exists t', Lookup GetNode t b = Ok (t', m !! b) /\ holds t' m.
Proof.
  intros H Hb. pose proof (tkey_bytes b Hb) as Hk. unfold Lookup.
  destruct (lookup_spec GetNode (keyFuel (bytesToHexNibbles b)) false (t_root t) (bytesToHexNibbles b)
    (holds_wf _ _ H) Hk (keyFuel_cost _ _)) as (n' & o & E & Ho & Ha & Hm & _).
  destruct (lookup_valid _ _ _ _ _ _ _ _ _ (holds_wf _ _ H) Hk (holds_valid _ _ H) E) as [Hv _].
  rewrite E. simpl. eexists. split.
  - do 3 f_equal. apply option_eq. intros v. rewrite Ho. by apply holds_get.
  - destruct H as [H0 H1 H2 H3 H4 H5]. rewrite H0 in *. split; simpl; try done.
    + by eapply lookup_ref.
    + intros k v. rewrite Hm. apply H5.
Qed.

Lemma Insert_holds t m b v :
  holds t m -> Forall is_byte b -> exists t', Insert GetNode t b v = Ok t' /\ holds t' (<[b := v]> m).
Proof.
  intros H Hb. pose proof (tkey_bytes b Hb) as Hk. unfold Insert.
  destruct (insert_spec GetNode (t_epoch t) (keyFuel (bytesToHexNibbles b)) false (t_root t) (bytesToHexNibbles b) v
    (holds_wf _ _ H) Hk (keyFuel_cost _ _)) as (n' & E & Hn & Hw & _ & Hp).
  pose proof (insert_closed _ _ _ (valid_closed _ _) (holds_epoch _ _ H) _ _ _ _ _ (holds_valid _ _ H) E) as Hv.
  rewrite E. simpl. exists (mkTrie n' (t_epoch t)). split; [by destruct n'|].
  destruct H as [H0 H1 H2 H3 H4 H5]. split; simpl; try done.
  - by eapply insert_ref.
  - intros b' w [[<- _]|[_ ?]]%lookup_insert_Some; eauto.
  - intros k w. rewrite (Hp k w), H5. setoid_rewrite lookup_insert_Some. split.
    + intros [[-> ->]|[Hne (b' & -> & Hb')]]; [exists b; auto|]. exists b'. split; [done|].
      right. split; [congruence|done].
    + intros (b' & -> & [[<- <-]|[Hne Hb']]); [by left|]. right. split; [|eauto].
      intros E'. apply Hne. apply bytesToHexNibbles_inj in E'; eauto.
Qed.

Lemma length_hex b : length (bytesToHexNibbles b) = (2 * length b + 1)%nat.
Proof.
  unfold bytesToHexNibbles. rewrite length_app. f_equal.
  induction b as [|x b IH]; [done|]. simpl in *. lia.
Qed.

Lemma Delete_holds t m b :
  holds t m -> Forall is_byte b -> (forall b' v, m !! b' = Some v -> length b' = length b) ->
  exists t', Delete GetNode t b = Ok t' /\ holds t' (base.delete b m).
Proof.
  intros H Hb Hlen. pose proof (tkey_bytes b Hb) as Hk. unfold Delete.
  destruct (delete_spec GetNode (keyFuel (bytesToHexNibbles b)) false (t_root t) (bytesToHexNibbles b)
    (holds_wf _ _ H) Hk) as (o & E & Hr).
  { intros k v (b' & -> & Hb')%(holds_maps _ _ H). rewrite !length_hex. by rewrite (Hlen b' v). }
  { apply keyFuel_cost. }
  rewrite E. simpl. pose proof (holds_get t m b) as Hget. destruct o as [n'|].
  - pose proof (delete_closed _ _ _ (valid_closed _ _) (holds_epoch _ _ H) _ _ _ _ (holds_valid _ _ H) E) as Hv.
    exists (mkTrie n' (t_epoch t)). split; [done|]. destruct Hr as (_ & Hw & _ & Hm).
    destruct H as [H0 H1 H2 H3 H4 H5]. split; simpl; try done.
    + by eapply delete_ref.
    + intros b' w [_ ?]%lookup_delete_Some. eauto.
    + intros k w. rewrite Hm, H5. setoid_rewrite lookup_delete_Some. split.
      * intros [Hne (b' & -> & Hb')]. exists b'. split; [done|]. split; [congruence|done].
      * intros (b' & -> & Hne & Hb'). split; [|eauto]. intros E'. apply Hne.
        apply bytesToHexNibbles_inj in E'; eauto.
  - exists t. split; [done|]. rewrite delete_id; [done|].
    destruct (m !! b) as [w|] eqn:Eb; [|done]. destruct (Hr w). by apply Hget.
Qed.

(** What is closed is kept by the operations. *)
Lemma Insert_closed P t b v t' :
  closed GetNode (t_epoch t) P -> 0 <= t_epoch t -> P (t_root t) -> Insert GetNode t b v = Ok t' ->
  P (t_root t') /\ t_epoch t' = t_epoch t.
Proof.
  intros HP He Ht. unfold Insert. destruct (insert _ _ _ _ _ _) as [n'|] eqn:E; [|done]. simpl.
  apply (insert_closed _ _ _ HP He) in E; [|done]. destruct n'; by intros [= <-].
Qed.

Lemma Delete_closed P t b t' :
  closed GetNode (t_epoch t) P -> 0 <= t_epoch t -> P (t_root t) -> Delete GetNode t b = Ok t' ->
  P (t_root t') /\ t_epoch t' = t_epoch t.
Proof.
  intros HP He Ht. unfold Delete. destruct (delete _ _ _ _) as [[n'|]|] eqn:E; [| |done]; simpl.
  - apply (delete_closed _ _ _ HP He) in E; [|done]. by intros [= <-].
  - by intros [= <-].
Qed.

(** The contents, as the specification of the root reads them. *)
Definition itemsOf (m : gmap (list Z) bytes) : items :=
  (fun kv => (bytesToHexNibbles kv.1, kv.2)) <$> map_to_list m.

Lemma elem_of_itemsOf m k v : (k, v) ∈ itemsOf m <-> exists b, k = bytesToHexNibbles b /\ m !! b = Some v.
Proof.
  unfold itemsOf. rewrite list_elem_of_fmap. split.
  - intros ([b w] & [= -> ->] & H%elem_of_map_to_list). eauto.
  - intros (b & -> & H). exists (b, v). split; [done|]. by apply elem_of_map_to_list.
Qed.

Lemma holds_represents t m : holds t m -> represents GetNode (t_root t) (itemsOf m).
Proof.
  intros H. split.
  - apply NoDup_fmap_2_strong; [|apply NoDup_map_to_list].
    intros [b1 v1] [b2 v2] H1 H2 E. apply elem_of_map_to_list in H1, H2.
    simpl in E. injection E as E ->. apply bytesToHexNibbles_inj in E as ->; [done|..];
      by eapply holds_bytes.
  - intros k v. rewrite elem_of_itemsOf. symmetry. apply holds_maps, H.
Qed.

Lemma holds_root t m : holds t m -> t_root t = Nil \/ inner (t_root t).
Proof. intros [Hr H _ _ _ _]. destruct (t_root t) as [|[]| |]; try done; [by left|inversion H|by right..]. Qed.

Lemma digest_writes v w :
  GetBytes v = None ->
  exists w', digest (close v) w = (keccak256 (MarshalTo v), w') /\
    (forall x, x ∈ w -> x ∈ w') /\ (Len v < 32 -> (keccak256 (MarshalTo v), MarshalTo v) ∈ w').
Proof.
  intros Hv. unfold digest, close. destruct (Z.ltb_spec (Len v) 32).
  - rewrite Hv. eexists. split; [done|]. split; intros; apply elem_of_app; [by left|right; left].
  - rewrite GetBytes_NewBytes, Len_NewBytes. destruct (keccak256_hash (MarshalTo v)) as [Hl _].
    unfold zlen. rewrite Hl. eexists. split; [done|]. split; [done|lia].
Qed.

Lemma Txn_Hash_eq n n' w :
  inner n -> hash n = Ok (bare n, n', w) ->
  Txn_Hash n = let '(d, w') := digest (close (bareNode n)) w in Ok (d, n', w').
Proof. intros Hi E. rewrite bare_inner in E by done. destruct n; try done; unfold Txn_Hash; by rewrite E. Qed.

(** The stored node of a trie is the specification of its contents. *)
Lemma represents_TRIE ep n J :
  wf GetNode false n -> valid GetNode ep n -> inner n -> represents GetNode n J ->
  keccak256 (MarshalTo (bareNode n)) = TRIE J.
Proof.
  intros Hw Hv Hi HJ. destruct (wf_canonical _ _ _ _ Hw Hv) as [_ Hc].
  rewrite (Hc Hi J (depth J) HJ) by lia. unfold TRIE. destruct J; [|done]. exfalso.
  destruct (wf_inhabited _ _ _ Hw) as (k & v & Hk); [by destruct n|].
  apply (proj2 HJ) in Hk. by apply elem_of_nil in Hk.
Qed.

Lemma holds_TRIE t m :
  holds t m -> inner (t_root t) -> keccak256 (MarshalTo (bareNode (t_root t))) = TRIE (itemsOf m).
Proof.
  intros H Hi. eapply represents_TRIE; [apply H..|done|]. by apply holds_represents.
Qed.

(** Any list of the contents will do. *)
Lemma holds_items t m J : holds t m -> represents GetNode (t_root t) J -> TRIE (itemsOf m) = TRIE J.
Proof.
  intros H HJ. destruct (holds_root _ _ H) as [Hn|Hi].
  - assert (J = []) as ->.
    { destruct J as [|[k v] J]; [done|]. destruct (maps_Nil GetNode k v). rewrite <- Hn. apply HJ. left. }
    destruct (itemsOf m) as [|[k v] J] eqn:E; [done|]. exfalso. apply (maps_Nil GetNode k v).
    rewrite <- Hn. apply (holds_represents _ _ H). rewrite E. left.
  - rewrite <- (holds_TRIE _ _ H Hi). eapply represents_TRIE; [apply H..|done|done].
Qed.

Lemma holds_plain t m n' ep :
  holds t m -> plain n' = plain (t_root t) -> valid GetNode ep n' -> 0 <= ep -> holds (mkTrie n' ep) m.
Proof.
  intros [H0 H1 H2 H3 H4 H5] Hp Hv He. split; simpl; try done.
  - by destruct n' as [|[]| |], (t_root t) as [|[]| |].
  - apply wf_plain. rewrite Hp. by apply wf_plain.
  - intros k v. rewrite <- H5, <- maps_plain, Hp, maps_plain. done.
Qed.

Lemma Txn_Hash_holds t m :
  holds t m ->
  exists root' w, Txn_Hash (t_root t) = Ok (TRIE (itemsOf m), root', w) /\
    holds (mkTrie root' (t_epoch t + 1)) m.
Proof.
  intros H. pose proof (holds_epoch _ _ H).
  destruct (holds_root _ _ H) as [Hn|Hi].
  - assert (m = ∅) as ->.
    { apply map_eq. intros b. rewrite lookup_empty. destruct (m !! b) eqn:E; [|done].
      exfalso. eapply (maps_Nil GetNode). rewrite <- Hn. apply (holds_maps _ _ H). eauto. }
    rewrite Hn. exists Nil, []. split; [done|]. apply holds_New. lia.
  - destruct (hash_spec GetNode _ _ _ (holds_wf _ _ H) (holds_valid _ _ H)) as (n' & w & E & Hp & Hb & Hv);
      [by destruct (t_root t)|].
    destruct (digest_writes (bareNode (t_root t)) w) as (w' & Ed & _);
      [by destruct (t_root t); try done; apply GetBytes_NewArray|].
    rewrite (Txn_Hash_eq _ _ _ Hi E), Ed.
    rewrite (holds_TRIE _ _ H Hi). do 2 eexists. split; [done|]. eapply holds_plain; [done..|lia].
Qed.
End holds.
