(* ===== verification/TrieStore.v ===== *)
(** The trie in storage: what [GetNode] reads is what [Txn.Hash] wrote, so a trie
    opened at a root holds the map that was committed under it. *)

From S2P Require Import Prelude Types Chain Runtime Crypto Rlp Slice Instances Trie TrieFacts TrieHash TrieSpec TrieCorrect.

(** ** Keys in compact form *)

Lemma pack_unpack n hex :
  length hex = (2 * n)%nat -> Forall nibble hex ->
  bytesToHexNibbles (packNibbles hex) = hex ++ [terminator].
Proof.
  unfold bytesToHexNibbles. intros Hl Hx. f_equal. revert hex Hl Hx.
  induction n as [|n IH]; intros [|a [|b hex]] Hl Hx; simpl in Hl; try lia; [done|].
  inversion Hx as [|? ? Ha Hx']; subst. inversion Hx' as [|? ? Hb Hx'']; subst.
  cbn [packNibbles flat_map]. rewrite (IH hex) by (done || lia). simpl. unfold nibble in *.
  rewrite Z.shiftl_mul_pow2, (Z.mod_small (a * 2 ^ 4)) by lia.
  assert (E : Z.lor (a * 2 ^ 4) b = 16 * a + b).
  { assert (Z.land (a * 2 ^ 4) b = 0); [|pose proof (Z.add_lor_land (a * 2 ^ 4) b); lia].
    apply Z.bits_inj'. intros i Hi. rewrite Z.land_spec, Z.bits_0.
    destruct (Z.ltb_spec i 4); [by rewrite Z.mul_pow2_bits_low|].
    destruct (decide (b = 0)) as [->|]; [by rewrite Z.bits_0, andb_false_r|].
    rewrite (Z.bits_above_log2 b), andb_false_r; [done|lia|].
    apply Z.log2_lt_pow2; [lia|]. apply Z.lt_le_trans with (2 ^ 4); [lia|apply Z.pow_le_mono_r; lia]. }
  rewrite E. f_equal; [|f_equal].
  - symmetry. apply (Z.div_unique_pos _ _ _ b); lia.
  - symmetry. apply (Z.mod_unique_pos _ _ a); lia.
Qed.

(** The key before its terminator. *)
Lemma tkey_split k : tkey k -> exists p, k = p ++ [terminator] /\ Forall nibble p.
Proof.
  induction k as [|x k IH]; [done|]. intros [[-> ->]|[Hx Hk]]; [by exists []|].
  destruct (IH Hk) as (p & -> & Hp). exists (x :: p). split; [done|by constructor].
Qed.

Lemma hasTerminator_tkey k : tkey k -> hasTerminator k = true.
Proof. intros (p & -> & _)%tkey_split. unfold hasTerminator. by rewrite rev_app_distr. Qed.

Lemma hasTerminator_nibbles k : Forall nibble k -> hasTerminator k = false.
Proof.
  unfold hasTerminator. intros H%Forall_rev. destruct H as [|x r Hx _]; [done|].
  unfold nibble, terminator in *. lia.
Qed.

Lemma compact_flag (term : bool) p :
  Forall nibble p ->
  let odd := Z.of_nat (length p) mod 2 in
  let flag := 2 * (if term then 1 else 0) + odd in
  decodeCompact (packNibbles (if odd =? 1 then flag :: p else flag :: 0 :: p)) =
    Some (p ++ if term then [terminator] else []).
Proof.
  intros Hp odd flag. pose proof (Z.mod_pos_bound (Z.of_nat (length p)) 2 ltac:(lia)) as Ho.
  pose proof (Z.div_mod (Z.of_nat (length p)) 2 ltac:(lia)) as Hd. fold odd in Ho, Hd.
  assert (Hn : nibble flag) by (unfold nibble, flag; destruct term; lia).
  set (n := Z.to_nat (Z.of_nat (length p) / 2)).
  assert (0 <= Z.of_nat (length p) / 2) by (apply Z.div_pos; lia).
  assert (Hhex : exists r, bytesToHexNibbles (packNibbles (if odd =? 1 then flag :: p else flag :: 0 :: p))
    = flag :: r ++ [terminator] /\ r = (if odd =? 1 then p else 0 :: p)).
  { eexists. split; [|done]. destruct (Z.eqb_spec odd 1).
    - rewrite (pack_unpack (S n)); [done|simpl; lia|by constructor].
    - rewrite (pack_unpack (S n)); [done|simpl; lia|]. do 2 (constructor; [done|]). done. }
  destruct Hhex as (r & E & Er). unfold decodeCompact. rewrite E.
  assert (Hland : Z.land flag 1 = odd).
  { change 1 with (Z.ones 1). rewrite Z.land_ones by lia. unfold flag.
    destruct term; [replace (2 * 1 + odd) with (odd + 1 * 2 ^ 1) by lia; rewrite Z.mod_add by lia|];
    apply Z.mod_small; lia. }
  rewrite Hland.
  assert (Hb : (if flag <? 2 then removelast (flag :: r ++ [terminator]) else flag :: r ++ [terminator])
    = flag :: r ++ if term then [terminator] else []).
  { change (flag :: r ++ [terminator]) with ((flag :: r) ++ [terminator]). rewrite removelast_last.
    destruct (Z.ltb_spec flag 2), term; subst flag; try lia; by rewrite ?app_nil_r. }
  rewrite Hb. subst r. destruct (Z.eqb_spec odd 1); [done|]. by destruct term.
Qed.

(** Decoding a compact key gives the key back, with or without a terminator. *)
Lemma decodeCompact_encodeCompact k :
  tkey k \/ Forall nibble k -> decodeCompact (encodeCompact k) = Some k.
Proof.
  unfold encodeCompact. intros [Hk|Hk].
  - rewrite (hasTerminator_tkey _ Hk). destruct (tkey_split _ Hk) as (p & -> & Hp).
    rewrite removelast_last. exact (compact_flag true p Hp).
  - rewrite (hasTerminator_nibbles _ Hk). etrans; [exact (compact_flag false k Hk)|]. by rewrite app_nil_r.
Qed.

(** ** Reading a node back *)

Section reload.
Context `{KK : !Keccak, RL : !FastRlp, RF : !RlpFormat}.

(** What is read for a child: itself when it is embedded, a reference otherwise. *)
Definition slotWith (r : Node -> Node) (c : Node) : Node :=
  match c with
  | Nil | ValueNode _ _ => c
  | _ => if Len (bareNode c) <? 32 then r c else ValueNode true (keccak256 (MarshalTo (bareNode c)))
  end.

Fixpoint reload (n : Node) : Node :=
  match n with
  | Nil | ValueNode _ _ => n
  | ShortNode _ key c => ShortNode [] key (slotWith reload c)
  | FullNode _ _ value ch => FullNode [] 0 value (map (slotWith reload) ch)
  end.
Abbreviation slot := (slotWith reload).

Lemma slot_inner c :
  inner c ->
  slot c = if Len (bareNode c) <? 32 then reload c else ValueNode true (keccak256 (MarshalTo (bareNode c))).
Proof. by destruct c. Qed.

Lemma slot_Nil c : slot c = Nil <-> c = Nil.
Proof. destruct c; simpl; try done; by destruct (_ <? _). Qed.

Lemma inner_reload n : inner n -> inner (reload n).
Proof. by destruct n. Qed.

Lemma keccak_nonempty b : keccak256 b <> [].
Proof. destruct (keccak256_hash b) as [H _]. by destruct (keccak256 b). Qed.

Lemma close_bytes v buf :
  GetBytes v = None -> close v = NewBytes buf -> 32 <= Len v /\ buf = keccak256 (MarshalTo v).
Proof.
  unfold close. intros Hv. destruct (Z.ltb_spec (Len v) 32); intros E.
  - rewrite E, GetBytes_NewBytes in Hv. done.
  - apply (f_equal GetBytes) in E. rewrite !GetBytes_NewBytes in E. by injection E as <-.
Qed.

Lemma bareNode_array n : inner n -> GetBytes (bareNode n) = None.
Proof. destruct n; try done; intros _; apply GetBytes_NewArray. Qed.

Lemma bare_small n : inner n -> Len (bareNode n) < 32 -> bare n = bareNode n.
Proof.
  intros Hi Hl. rewrite bare_inner by done. unfold close. by rewrite (proj2 (Z.ltb_lt _ _) Hl).
Qed.

Context (GetNode : bytes -> option (option Node)) (ep : Z).

Lemma valid_ref_hash buf n :
  GetNode buf = Some (Some n) -> inner n -> bare n = NewBytes buf ->
  buf = keccak256 (MarshalTo (bareNode n)) /\ 32 <= Len (bareNode n).
Proof.
  intros HG Hi Hb. rewrite bare_inner in Hb by done.
  apply close_bytes in Hb as [? ?]; [done|by apply bareNode_array].
Qed.

(** What [decodeNode] makes of a child that is not a value. *)
Lemma decode_slot fuel c :
  (inner c -> Len (bareNode c) < 32 -> decodeNode fuel (norm (bareNode c)) = Ok (Some (reload c))) ->
  inner c \/ isRef c = true ->
  decodeNode fuel (norm (bare c)) = Ok (Some (slot c)).
Proof.
  intros Hd Hc. destruct (decide (isRef c = true)) as [Hr|Hr].
  - destruct c as [|[] buf| |]; try done. simpl. rewrite norm_NewBytes. destruct fuel; simpl; by rewrite GetBytes_NewBytes.
  - assert (Hi : inner c) by (destruct Hc; done). rewrite bare_inner, slot_inner by done. unfold close.
    destruct (Z.ltb_spec (Len (bareNode c)) 32); [by apply Hd|].
    rewrite norm_NewBytes. destruct fuel; simpl; by rewrite GetBytes_NewBytes.
Qed.

(** The child of a full node is not read as empty. *)
Lemma bare_nonempty c :
  wf GetNode false c -> valid GetNode ep c -> c <> Nil -> GetBytes (norm (bare c)) <> Some [].
Proof.
  intros Hw Hv Hn. destruct c as [|[] buf| |]; try done.
  - inversion Hw as [| |? n HG Hi _| | |]; inversion Hv as [| |? n' HG' Hb _| |]; subst. simplify_eq.
    simpl. rewrite norm_NewBytes, GetBytes_NewBytes. destruct (valid_ref_hash _ _ HG Hi Hb) as [-> _].
    intros [= E]. by apply keccak_nonempty in E.
  - inversion Hw.
  - rewrite bare_inner by done. unfold close. destruct (_ <? _).
    + unfold bareNode. by rewrite norm_NewArray, GetBytes_NewArray.
    + rewrite norm_NewBytes, GetBytes_NewBytes. intros [= E]. by apply keccak_nonempty in E.
  - rewrite bare_inner by done. unfold close. destruct (_ <? _).
    + unfold bareNode. by rewrite norm_NewArray, GetBytes_NewArray.
    + rewrite norm_NewBytes, GetBytes_NewBytes. intros [= E]. by apply keccak_nonempty in E.
Qed.

Lemma decodeEdges_spec fuel ch :
  (forall i c, ch !! i = Some c -> wf GetNode false c /\ valid GetNode ep c /\
     (inner c -> Len (bareNode c) < 32 -> decodeNode fuel (norm (bareNode c)) = Ok (Some (reload c)))) ->
  decodeEdges (decodeNode fuel) (map norm (map bare ch)) = Ok (Some (map slot ch)).
Proof.
  induction ch as [|c ch IH]; intros H; [done|]. cbn [map decodeEdges].
  destruct (H 0%nat c eq_refl) as (Hw & Hv & Hd).
  assert (E : (match GetBytes (norm (bare c)) with Some [] => Ok (Some Nil) | _ => decodeNode fuel (norm (bare c)) end)
    = Ok (Some (slot c))).
  { destruct (decide (isNil c = true)) as [Hn|Hn].
    - destruct c; try done. simpl. by rewrite norm_NewNull, GetBytes_NewBytes.
    - rewrite (decode_slot fuel c Hd); [|destruct c as [|[]| |]; try done; [by right|inversion Hw|by left..]].
      pose proof (bare_nonempty c Hw Hv ltac:(by intros ->)). by destruct (GetBytes _) as [[|]|]. }
  rewrite E. simpl. rewrite IH; [done|]. intros i d Hi. by apply (H (S i)).
Qed.

Lemma decodeNode_full fuel v elems :
  GetBytes v = None -> GetElems v = Some elems -> length elems = 17%nat ->
  decodeNode (S fuel) v =
    (children ← decodeEdges (decodeNode fuel) (take 16 elems);
     Ok (match children, GetBytes (nth 16 elems NewNull) with
         | Some children, Some [] => Some (FullNode [] 0 Nil children)
         | Some children, Some b => Some (FullNode [] 0 (ValueNode false b) children)
         | _, _ => None
         end)).
Proof.
  intros Hb He Hl. cbn [decodeNode]. rewrite Hb, He.
  pose proof (proj2 (Nat.eqb_eq _ _) Hl) as E.
  destruct elems as [|a [|b [|c elems]]]; try (simpl in Hl; lia). by rewrite E.
Qed.

Lemma decodeNode_short fuel key val :
  tkey key \/ Forall nibble key ->
  decodeNode (S fuel) (norm (NewArray [NewBytes (encodeCompact key); val])) =
    if hasTerminator key then
      Ok (match GetBytes (norm val) with
          | Some b => Some (ShortNode [] key (ValueNode false b))
          | None => None
          end)
    else child ← decodeNode fuel (norm val); Ok (option_map (ShortNode [] key) child).
Proof.
  intros Hk. cbn [decodeNode]. rewrite norm_NewArray, GetBytes_NewArray, GetElems_NewArray. cbn [map].
  by rewrite norm_NewBytes, GetBytes_NewBytes, decodeCompact_encodeCompact.
Qed.

Lemma decode_reload fin n :
  wf GetNode fin n -> valid GetNode ep n -> (forall k v, maps GetNode n k v -> v <> []) -> inner n ->
  forall fuel, (length (MarshalTo (bareNode n)) <= fuel)%nat ->
  decodeNode fuel (norm (bareNode n)) = Ok (Some (reload n)).
Proof.
  induction 1 as [|v|buf n HG Hi Hw IH|h key v Hk|h key c Hne Hk Hb Hw IH|h e value ch Hl Hv IHv Hc IHc Hf];
    intros Hval Hvals Hin fuel Hfuel; try done.
  - cbn [bareNode bare] in *. pose proof (MarshalTo_elem [NewBytes (encodeCompact key); NewBytes v] (NewBytes v)
      ltac:(right; left)). destruct fuel as [|fuel]; [lia|].
    rewrite decodeNode_short by by left. by rewrite hasTerminator_tkey, norm_NewBytes, GetBytes_NewBytes.
  - cbn [bareNode bare] in *. pose proof (MarshalTo_elem [NewBytes (encodeCompact key); bare c] (bare c)
      ltac:(right; left)) as Hlt. destruct fuel as [|fuel]; [lia|].
    rewrite decodeNode_short by by right. rewrite hasTerminator_nibbles by done.
    rewrite (decode_slot fuel c); [done| |].
    + intros Hi Hlen. inversion Hval; subst. apply IH; [done| |done|].
      * intros k v H. apply (Hvals (key ++ k) v). by constructor.
      * rewrite bare_small in * by done. lia.
    + inversion Hb; subst; [by left|by right].
  - cbn [bareNode] in *. set (l := map bare ch ++ [bare value]) in *.
    assert (Hlt : forall v, v ∈ l -> (length (MarshalTo v) < length (MarshalTo (NewArray l)))%nat)
      by (intros v; apply MarshalTo_elem).
    destruct fuel as [|fuel]; [specialize (Hlt (bare value) ltac:(apply elem_of_app; right; left)); lia|].
    assert (Hll : length l = 17%nat) by (unfold l; rewrite length_app, length_map, Hl; done).
    rewrite (decodeNode_full _ _ (map norm l));
      [|by rewrite norm_NewArray, GetBytes_NewArray|by rewrite norm_NewArray, GetElems_NewArray|by rewrite length_map].
    inversion Hval as [| | | |? ? ? ? He Hvv Hvc Hh]; subst.
    assert (Ht : take 16 (map norm l) = map norm (map bare ch)).
    { unfold l. rewrite map_app. apply take_app_length'. by rewrite !length_map. }
    assert (Hn16 : nth 16 (map norm l) NewNull = norm (bare value)).
    { unfold l. rewrite map_app, app_nth2; rewrite !length_map, Hl; [done|lia]. }
    rewrite Ht, Hn16, decodeEdges_spec.
    + simpl. inversion Hv; subst; simpl; rewrite ?norm_NewNull, ?norm_NewBytes, GetBytes_NewBytes; [done|].
      destruct v; [|done]. exfalso. apply (Hvals [16] []); [|done].
      eapply (maps_full _ _ _ _ _ 16 (ValueNode false [])); [done|done|constructor].
    + intros i c Hi. split; [by eapply Hc|]. split; [by eapply Hvc|]. intros Hic Hlen.
      eapply IHc; [done|by eapply Hvc| |done|].
      * intros k v H. apply (Hvals (Z.of_nat i :: k) v). econstructor; [lia|by apply edge_nth|done].
      * assert (Hcl : bareNode c ∈ l); [|specialize (Hlt _ Hcl); lia].
        unfold l. apply elem_of_app. left. rewrite (list_elem_of_fmap bare). exists c.
        rewrite bare_small by done. split; [done|]. by eapply list_elem_of_lookup_2.
Qed.
End reload.

(** Induction on a node and its children. *)
Lemma Node_nested_ind (P : Node -> Prop) :
  P Nil -> (forall b buf, P (ValueNode b buf)) -> (forall h key c, P c -> P (ShortNode h key c)) ->
  (forall h e value ch, P value -> Forall P ch -> P (FullNode h e value ch)) -> forall n, P n.
Proof.
  intros HN HV HS HF. fix IH 1. intros [| |h key c|h e value ch]; [done|apply HV|by apply HS|].
  apply HF; [apply IH|]. induction ch as [|c ch IHch]; constructor; [apply IH|apply IHch].
Qed.

(** ** A storage that grows *)

Definition extends (G G' : bytes -> option (option Node)) : Prop :=
  forall b n, G b = Some (Some n) -> G' b = Some (Some n).

Section grows.
Context (G G' : bytes -> option (option Node)) (Hext : extends G G').

Lemma branch_grows n : branch G n -> branch G' n.
Proof. intros H. destruct H; econstructor; eauto. Qed.

Lemma wf_grows fin n : wf G fin n -> wf G' fin n.
Proof. induction 1; econstructor; eauto using branch_grows. Qed.

Lemma valid_grows `{KK : !Keccak, RL : !FastRlp} ep n : valid G ep n -> valid G' ep n.
Proof. induction 1; econstructor; eauto. Qed.

Lemma maps_grows fin n k v : wf G fin n -> maps G' n k v <-> maps G n k v.
Proof.
  intros Hw. split.
  - intros H. revert fin Hw. induction H as [|buf n k v HG H IH|h key c k v H IH|h e value ch x c k v Hx Ec H IH];
      intros fin Hw; [constructor|..].
    + inversion Hw as [| |? m HG' Hi Hm| | |]; subst. assert (m = n) as ->.
      { apply Hext in HG'. congruence. }
      econstructor; eauto.
    + constructor. assert (fin = false) as -> by by inversion Hw.
      apply short_inv in Hw as (fin & Hw & _). eauto.
    + assert (fin = false) as -> by by inversion Hw. apply wf_slots in Hw as [(_ & Hv & Hc) _].
      econstructor; [done..|]. unfold getEdge in Ec. destruct (x =? 16); [injection Ec as <-; eauto|].
      destruct (ch !! Z.to_nat x) eqn:Hi; [injection Ec as <-; eauto|done].
  - intros H. clear Hw. induction H; econstructor; eauto.
Qed.
End grows.

Section store.
Context `{KK : !Keccak, RL : !FastRlp, RF : !RlpFormat}.

Lemma bareNode_reload n : bareNode (reload n) = bareNode n /\ bare (slotWith reload n) = bare n.
Proof.
  induction n as [| |h key c IH|h e value ch _ IH] using Node_nested_ind; try done.
  - assert (Hb : bareNode (reload (ShortNode h key c)) = bareNode (ShortNode h key c)).
    { simpl. by destruct IH as [_ ->]. }
    split; [done|]. rewrite slot_inner, (bare_inner (ShortNode _ _ _)) by done. unfold close.
    destruct (Z.ltb_spec (Len (bareNode (ShortNode h key c))) 32); [|done].
    rewrite bare_small; [done|done|by rewrite Hb].
  - assert (Hb : bareNode (reload (FullNode h e value ch)) = bareNode (FullNode h e value ch)).
    { simpl. do 2 f_equal. rewrite map_map. apply map_ext_in. intros c Hc.
      rewrite Stdlib.Lists.List.Forall_forall in IH. by apply IH. }
    split; [done|]. rewrite slot_inner, (bare_inner (FullNode _ _ _ _)) by done. unfold close.
    destruct (Z.ltb_spec (Len (bareNode (FullNode h e value ch))) 32); [|done].
    rewrite bare_small; [done|done|by rewrite Hb].
Qed.

(** [h] is in storage and stands for [n]: what is read there holds the same keys. *)
Definition stand (G : bytes -> option (option Node)) (h : bytes) (n : Node) : Prop :=
  exists m, G h = Some (Some m) /\ inner m /\ wf G false m /\ valid G 0 m /\ bare m = NewBytes h /\
    (isFull n -> isFull m) /\ forall k v, maps G m k v <-> maps G n k v.

(** The nodes that cache a hash are in storage under it. *)
Inductive backed (G : bytes -> option (option Node)) : Node -> Prop :=
| backed_Nil : backed G Nil
| backed_Value b buf : backed G (ValueNode b buf)
| backed_Short h key c : backed G c -> (h <> [] -> stand G h (ShortNode h key c)) ->
    backed G (ShortNode h key c)
| backed_Full h e value ch : backed G value -> (forall i c, ch !! i = Some c -> backed G c) ->
    (h <> [] -> stand G h (FullNode h e value ch)) -> backed G (FullNode h e value ch).

Lemma stand_same G h n n' :
  (isFull n' -> isFull n) -> (forall k v, maps G n' k v <-> maps G n k v) -> stand G h n -> stand G h n'.
Proof.
  intros Hf Hm (m & H1 & H2 & H3 & H4 & H5 & H6 & H7). exists m. split_and!; auto.
  intros k v. by rewrite H7, Hm.
Qed.

Lemma stand_grows G G' h fin n : extends G G' -> wf G fin n -> stand G h n -> stand G' h n.
Proof.
  intros Hext Hw (m & H1 & H2 & H3 & H4 & H5 & H6 & H7). exists m. split_and!; auto.
  - by eapply wf_grows.
  - by eapply valid_grows.
  - intros k v. rewrite !(maps_grows G G') by done. apply H7.
Qed.

Lemma backed_grows G G' fin n : extends G G' -> wf G fin n -> backed G n -> backed G' n.
Proof.
  intros Hext Hw Hb. revert fin Hw.
  induction Hb as [| |h key c _ IH Hh|h e value ch _ IHv _ IHc Hh]; intros fin Hw; try constructor.
  - assert (fin = false) as -> by by inversion Hw. destruct (short_inv _ _ _ _ Hw) as (fin & Hw' & _). eauto.
  - intros H. eapply stand_grows; eauto.
  - inversion Hw; subst; eauto.
  - inversion Hw; subst. eauto.
  - intros H. eapply stand_grows; eauto.
Qed.

(** What is read has no hashes, and no epoch. *)
Inductive fresh : Node -> Prop :=
| fresh_Nil : fresh Nil
| fresh_Value b buf : fresh (ValueNode b buf)
| fresh_Short key c : fresh c -> fresh (ShortNode [] key c)
| fresh_Full value ch : fresh value -> (forall i c, ch !! i = Some c -> fresh c) ->
    fresh (FullNode [] 0 value ch).

Lemma decodeEdges_fresh d l cs :
  (forall v n, d v = Ok (Some n) -> fresh n) -> decodeEdges d l = Ok (Some cs) ->
  forall i c, cs !! i = Some c -> fresh c.
Proof.
  intros Hd. revert cs. induction l as [|v l IH]; simpl; intros cs; [by intros [= <-]|].
  assert (Hv : forall c, (match GetBytes v with Some [] => Ok (Some Nil) | _ => d v end) = Ok (Some c) -> fresh c).
  { intros c. destruct (GetBytes v) as [[|]|]; [intros [= <-]; constructor|apply Hd..]. }
  destruct (match GetBytes v with Some [] => _ | _ => _ end) as [[c|]|]; [|done..]. simpl.
  destruct (decodeEdges d l) as [[cs'|]|] eqn:E; [|done..]. simpl. intros [= <-] [|i] d' Hi; [|eauto].
  injection Hi as <-. by apply Hv.
Qed.

Lemma decodeNode_fresh fuel v n : decodeNode fuel v = Ok (Some n) -> fresh n.
Proof.
  revert v n. induction fuel as [|fuel IH]; intros v n; cbn [decodeNode];
    (destruct (GetBytes v); [intros [= <-]; constructor|]); [done|].
  destruct (GetElems v) as [elems|]; [|done].
  assert (HF : (if (length elems =? 17)%nat then
      children ← decodeEdges (decodeNode fuel) (take 16 elems);
      Ok (match children, GetBytes (nth 16 elems NewNull) with
          | Some children, Some [] => Some (FullNode [] 0 Nil children)
          | Some children, Some b => Some (FullNode [] 0 (ValueNode false b) children)
          | _, _ => None
          end)
    else Ok None) = Ok (Some n) -> fresh n).
  { destruct (_ =? 17)%nat; [|done].
    destruct (decodeEdges _ _) as [[cs|]|] eqn:E; [|done..]. simpl.
    destruct (GetBytes _) as [[|]|]; intros [= <-]; (constructor; [constructor|]);
      eapply decodeEdges_fresh; eauto. }
  destruct elems as [|key [|val [|? ?]]]; try exact HF. clear HF.
  destruct (GetBytes key) as [raw|]; [|done]. destruct (decodeCompact raw) as [k|]; [|done].
  destruct (hasTerminator k).
  - destruct (GetBytes val); intros [= <-]. by repeat constructor.
  - destruct (decodeNode fuel val) as [[c|]|] eqn:E; simpl; intros [= <-]. constructor. by eapply IH.
Qed.

Lemma fresh_backed G n : fresh n -> backed G n.
Proof. induction 1; by constructor. Qed.

Lemma fetch_fresh st b n : fetch st b = Some (Some n) -> fresh n.
Proof.
  unfold fetch, GetNode. destruct (Storage_Get st b) as [data|]; [|done].
  destruct (Parse data) as [v|]; [|done]. destruct (GetElems v); [|done].
  destruct (decodeNode _ v) as [[m|]|] eqn:E; simpl; intros [= <-]. by eapply decodeNode_fresh.
Qed.

(** The epoch does not matter for what was read. *)
Lemma valid_fresh st ep ep' n :
  0 <= ep' -> fresh n -> valid (fetch st) ep n -> valid (fetch st) ep' n.
Proof.
  intros He Hf Hv. revert Hf.
  induction Hv as [| |buf n HG Hb _ IH|h key c _ IH Hh|h e value ch Hle _ IHv _ IHc Hh]; intros Hf;
    inversion Hf; subst; econstructor; eauto using fetch_fresh. done.
Qed.

(** ** What is stored *)

Abbreviation slot := (slotWith reload).

(** What is read for the child is as good as the child. *)
Definition slotOK (G : bytes -> option (option Node)) (fin : bool) (c : Node) : Prop :=
  wf G fin (slot c) /\ valid G 0 (slot c) /\ (branch G c -> branch G (slot c)) /\
  forall k v, maps G (slot c) k v <-> maps G c k v.

Definition reloadOK (G : bytes -> option (option Node)) (n : Node) : Prop :=
  wf G false (reload n) /\ valid G 0 (reload n) /\ forall k v, maps G (reload n) k v <-> maps G n k v.

Lemma slotOK_value G fin c : inner c \/ wf G fin c -> valid G 0 c -> ~ inner c -> slotOK G fin c.
Proof. intros [Hi|Hw] Hv Hn; [done|]. destruct c; try done; by split_and!. Qed.

Lemma reload_short G fin h key c :
  shortKey G fin key c -> slotOK G fin c -> reloadOK G (ShortNode h key c).
Proof.
  intros (Hne & Hn & Hs) (Hw & Hv & Hb & Hm). split; [|split].
  - eapply short_intro; [exact Hw|]. split; [done|]. split; [by rewrite slot_Nil|].
    destruct fin; [done|]. destruct Hs. auto.
  - by constructor.
  - intros k v. simpl. rewrite !maps_short_inv. by setoid_rewrite Hm.
Qed.

Lemma getEdge_slot value ch x :
  ~ inner value ->
  getEdge value (map slot ch) x = match getEdge value ch x with Ok c => Ok (slot c) | Panic => Panic end.
Proof.
  intros Hv. unfold getEdge. destruct (x =? 16); [by destruct value|].
  rewrite (list_lookup_fmap slot). by destruct (ch !! Z.to_nat x).
Qed.

Lemma wf_value_inner G c : wf G true c -> ~ inner c.
Proof. intros H. destruct c; inversion H; tauto. Qed.

Lemma reload_full G h e value ch :
  wf G false (FullNode h e value ch) -> valid G 0 value ->
  (forall i c, ch !! i = Some c -> slotOK G false c) -> reloadOK G (FullNode h e value ch).
Proof.
  intros Hw Hv Hc. destruct (wf_slots _ _ _ _ _ Hw) as [(Hl & Hwv & _) Hf].
  pose proof (wf_value_inner _ _ Hwv) as Hni.
  assert (Hch : forall i c, map slot ch !! i = Some c -> exists d, ch !! i = Some d /\ c = slot d /\ slotOK G false d).
  { intros i c. rewrite (list_lookup_fmap slot). destruct (ch !! i) as [d|] eqn:Hi; [|done].
    intros [= <-]. eauto. }
  split; [|split].
  - constructor; [by rewrite length_map|done| |].
    + intros i c Hi. destruct (Hch _ _ Hi) as (d & _ & -> & Hs). apply Hs.
    + destruct Hf as (x & y & cx & cy & Hne & Hx & Hy & Ex & Ey & Nx & Ny).
      exists x, y, (slot cx), (slot cy). rewrite !slot_Nil, !getEdge_slot, Ex, Ey by done. by split_and!.
  - constructor; [lia|done| |done]. intros i c Hi. destruct (Hch _ _ Hi) as (d & _ & -> & Hs). apply Hs.
  - intros k v. simpl. rewrite !maps_full_inv.
    assert (Hm : forall x c, 0 <= x -> getEdge value ch x = Ok c -> forall k v, maps G (slot c) k v <-> maps G c k v).
    { intros x c Hx. unfold getEdge. destruct (x =? 16); [intros [= <-]; by destruct value|].
      destruct (ch !! Z.to_nat x) eqn:Hi; [|done]. intros [= <-]. by apply (Hc _ _ Hi). }
    split.
    + intros (x & c & k' & -> & Hx & Ec & H). rewrite getEdge_slot in Ec by done.
      destruct (getEdge value ch x) as [d|] eqn:Ed; [|done]. injection Ec as <-.
      exists x, d, k'. split_and!; try done. by apply (Hm x d Hx Ed).
    + intros (x & c & k' & -> & Hx & Ec & H). exists x, (slot c), k'.
      rewrite getEdge_slot, Ec by done. split_and!; try done. by apply (Hm x c Hx Ec).
Qed.

(** A large node is read through its hash. *)
Lemma stand_slot G h n :
  inner n -> bare n = NewBytes h -> stand G h n -> slotOK G false n.
Proof.
  intros Hi Hb (m & HG & Hm & Hw & Hv & Hbm & Hf & Hmaps).
  rewrite bare_inner in Hb by done. apply close_bytes in Hb as [Hlen ->]; [|by apply bareNode_array].
  assert (E : slot n = ValueNode true (keccak256 (MarshalTo (bareNode n)))).
  { rewrite slot_inner by done. by rewrite (proj2 (Z.ltb_ge _ _) Hlen). }
  unfold slotOK. rewrite E. split_and!.
  - by eapply wf_Ref.
  - by eapply valid_Ref.
  - intros HB. econstructor; [done|]. apply Hf. inversion HB; subst; done.
  - intros k v. rewrite maps_ref_inv by done. apply Hmaps.
Qed.

Lemma reload_stand G n :
  inner n -> reloadOK G n -> 32 <= Len (bareNode n) ->
  G (keccak256 (MarshalTo (bareNode n))) = Some (Some (reload n)) ->
  stand G (keccak256 (MarshalTo (bareNode n))) n.
Proof.
  intros Hi (Hw & Hv & Hm) Hl HG. exists (reload n). split_and!; try done.
  - by apply inner_reload.
  - rewrite bare_inner by by apply inner_reload. rewrite (proj1 (bareNode_reload n)).
    unfold close. by rewrite (proj2 (Z.ltb_ge _ _) Hl).
  - by destruct n.
Qed.

Lemma reload_slot G n :
  inner n -> reloadOK G n -> Len (bareNode n) < 32 -> slotOK G false n.
Proof.
  intros Hi (Hw & Hv & Hm) Hl. unfold slotOK. rewrite slot_inner by done.
  rewrite (proj2 (Z.ltb_lt _ _) Hl). split_and!; try done.
  intros HB. inversion HB; subst; done || constructor.
Qed.

Definition nonempty (G : bytes -> option (option Node)) (n : Node) : Prop :=
  forall k v, maps G n k v -> v <> [].

Lemma fetch_reload st G ep n h :
  wf G false n -> valid G ep n -> nonempty G n -> inner n ->
  st_trie st !! h = Some (MarshalTo (bareNode n)) -> fetch st h = Some (Some (reload n)).
Proof.
  intros Hw Hv Hne Hi Hh. unfold fetch, GetNode, Storage_Get. rewrite Hh, Parse_MarshalTo.
  rewrite (decode_reload G ep false n Hw Hv Hne Hi) by done.
  destruct n; try done; simpl; by rewrite norm_NewArray, GetElems_NewArray.
Qed.

Section write.
Context (st st' : Storage) (ep : Z).

Let G := fetch st.
Let G' := fetch st'.
Context (Hext : extends G G').

(** Everything in [w] was written. *)
Definition written (w : writes) : Prop := forall k d, (k, d) ∈ w -> st_trie st' !! k = Some d.

Definition persisted (fin : bool) (n n' : Node) : Prop := rehash G ep n n' /\ backed G' n' /\ slotOK G' fin n'.

Lemma rehash_wf fin n n' : wf G fin n -> rehash G ep n n' -> wf G' fin n' /\ valid G' (ep + 1) n'.
Proof.
  intros Hw (Hp & _ & Hv). split; [|by eapply valid_grows]. eapply wf_grows; [done|].
  apply wf_plain. rewrite Hp. by apply wf_plain.
Qed.

Lemma rehash_maps fin n n' k v : wf G fin n -> rehash G ep n n' -> maps G' n' k v <-> maps G n k v.
Proof.
  intros Hw Hr. pose proof Hr as (Hp & _). rewrite (maps_grows G G' Hext fin).
  - by rewrite <- maps_plain, Hp, maps_plain.
  - apply wf_plain. rewrite Hp. by apply wf_plain.
Qed.

(** The hash a node got, and that it was written under it. *)
Definition sealed (n : Node) (h : bytes) : Prop :=
  Len (bareNode n) < 32 /\ h = [] \/
  32 <= Len (bareNode n) /\ h = keccak256 (MarshalTo (bareNode n)) /\
    st_trie st' !! h = Some (MarshalTo (bareNode n)).

(** A node that was hashed anew, from what is read for its children. *)
Lemma persist_node n h ep' :
  inner n -> wf G' false n -> valid G' ep' n -> nonempty G' n -> reloadOK G' n -> sealed n h ->
  slotOK G' false n /\ (h <> [] -> stand G' h n).
Proof.
  intros Hi Hw Hv Hne HR [[Hl ->]|(Hl & -> & Hs)]; [split; [by apply reload_slot|done]|].
  assert (Hst : stand G' (keccak256 (MarshalTo (bareNode n))) n).
  { apply reload_stand; [done..|]. by eapply fetch_reload. }
  split; [|done]. eapply stand_slot; [done| |exact Hst].
  rewrite bare_inner by done. unfold close. by rewrite (proj2 (Z.ltb_ge _ _) Hl).
Qed.

(** A node that had its hash. *)
Lemma persist_cached n h :
  inner n -> h <> [] -> (h <> [] -> bare n = NewBytes h) -> wf G false n -> (h <> [] -> stand G h n) ->
  slotOK G' false n.
Proof.
  intros Hi Hh Hb Hw Hs. eapply stand_slot; [done|by apply Hb|]. eapply stand_grows; [done..|auto].
Qed.

Lemma persisted_value fin c :
  ~ inner c -> wf G fin c -> valid G ep c -> persisted fin c c.
Proof.
  intros Hn Hw Hv. assert (Hr : rehash G ep c c) by by apply rehash_refl.
  destruct (rehash_wf _ _ _ Hw Hr) as [Hw' Hv']. split; [done|].
  split; [destruct c; try done; constructor|].
  assert (valid G' 0 c) by (eapply valid_fresh; [done| |done]; destruct c; try done; constructor).
  by destruct c.
Qed.

Definition persists (r : result (Value * Node * writes)) (fin : bool) (n : Node) : Prop :=
  forall v n' w, r = Ok (v, n', w) -> written w -> persisted fin n n'.

Lemma written_app w w' : written (w ++ w') <-> written w /\ written w'.
Proof. unfold written. setoid_rewrite elem_of_app. naive_solver. Qed.

Lemma persist_edges ch :
  (forall i c, ch !! i = Some c -> persists (hashEdge hash c) false c) ->
  forall vs ch' w, hashEdges hash ch = Ok (vs, ch', w) -> written w ->
  Forall2 (persisted false) ch ch'.
Proof.
  induction ch as [|c ch IH]; simpl; intros H vs ch' w; [by intros [= _ <- _]|].
  destruct (hashEdge hash c) as [[[v c'] w1]|] eqn:E; [|done]. simpl.
  destruct (hashEdges hash ch) as [[[vs' ch''] w2]|] eqn:E'; [|done]. intros [= <- <- <-] [Hw1 Hw2]%written_app.
  constructor; [exact (H 0%nat c eq_refl v c' w1 E Hw1)|]. eapply IH; [|done|done].
  intros i d Hi. by apply (H (S i)).
Qed.

Lemma rehash_nonempty fin n n' : wf G fin n -> rehash G ep n n' -> nonempty G n -> nonempty G' n'.
Proof. intros Hw Hr Hne k v H. eapply Hne. by eapply rehash_maps. Qed.

Lemma sealed_seal val w h w' n :
  bareNode n = val -> written w' ->
  (Len val < 32 /\ h = [] /\ w' = w \/
   32 <= Len val /\ h = keccak256 (MarshalTo val) /\ w' = w ++ [(h, MarshalTo val)]) ->
  written w /\ sealed n h.
Proof.
  intros <- Hw [(Hl & -> & ->)|(Hl & -> & ->)]; [split; [done|by left]|].
  apply written_app in Hw as [Hw Hw']. split; [done|]. right. split_and!; try done.
  apply Hw'. left.
Qed.

(** A short node, once its child is persisted. *)
Lemma persist_short fin key c :
  wf G false (ShortNode [] key c) -> wf G fin c -> shortKey G fin key c ->
  valid G ep (ShortNode [] key c) -> nonempty G (ShortNode [] key c) ->
  persists (hash c) fin c -> persists (hash (ShortNode [] key c)) false (ShortNode [] key c).
Proof.
  intros Hw Hwc Hs Hv Hne Hc v n' w Hh Hwr.
  destruct (hash_spec G ep _ _ Hw Hv) as (n'' & w'' & E & Hr); [done|].
  rewrite E in Hh. injection Hh as <- <- <-. cbn [hash] in E.
  destruct (hash c) as [[[cv c'] cw]|] eqn:Ec; [|done]. simpl in E.
  destruct (seal_spec (NewArray [NewBytes (encodeCompact key); cv]) (fun h => ShortNode h key c') cw)
    as (h & w' & Es & Hb & Hd).
  rewrite Es in E. injection E as Ev <- <-.
  destruct (rehash_wf _ _ _ Hw Hr) as [Hw' Hv']. pose proof (rehash_nonempty _ _ _ Hw Hr Hne) as Hne'.
  assert (Hbc : cv = bare c' /\ written cw).
  { assert (Hcv : exists c2 w2, hash c = Ok (bare c, c2, w2) /\ rehash G ep c c2).
    { inversion Hv; subst. apply (hash_spec G ep fin c); [done..|]. by destruct Hs as (_ & ? & _). }
    destruct Hcv as (c2 & w2 & E2 & _ & Hb2 & _). rewrite Ec in E2. injection E2 as -> -> ->. split; [done|].
    destruct Hd as [(_ & _ & ->)|(_ & _ & ->)]; [done|]. by apply written_app in Hwr as [? _]. }
  destruct Hbc as [-> Hcw]. destruct (Hc _ _ _ eq_refl Hcw) as (Hrc & Hbc & Hsc).
  destruct (sealed_seal _ _ _ _ (ShortNode h key c') eq_refl Hwr Hd) as [_ Hsl].
  assert (HR : reloadOK G' (ShortNode h key c')).
  { destruct (short_inv _ _ _ _ Hw') as (fin' & Hwc' & Hs'). eapply reload_short; [|exact Hsc].
    destruct Hs as (H1 & H2 & H3). destruct Hs' as (_ & H2' & H3'). split_and!; try done.
    destruct fin; [done|]. destruct H3 as [H3 HB]. split; [done|]. pose proof Hrc as (Hp & _).
    apply (branch_grows G G' Hext). apply branch_plain. rewrite Hp. by apply branch_plain. }
  destruct (persist_node (ShortNode h key c') h (ep + 1)) as [Hslot Hst]; [done..|].
  split; [done|]. split; [by constructor|done].
Qed.

(** A full node, once its edges are persisted. *)
Lemma persist_full e value ch :
  wf G false (FullNode [] e value ch) -> valid G ep (FullNode [] e value ch) ->
  nonempty G (FullNode [] e value ch) ->
  (forall i c, ch !! i = Some c -> persists (hashEdge hash c) false c) ->
  persists (hash (FullNode [] e value ch)) false (FullNode [] e value ch).
Proof.
  intros Hw Hv Hne Hc v n' w Hh Hwr.
  destruct (hash_spec G ep _ _ Hw Hv) as (n'' & w'' & E & Hr); [done|].
  rewrite E in Hh. injection Hh as <- <- <-. cbn [hash] in E.
  destruct (hashEdges hash ch) as [[[vs ch'] cw]|] eqn:Ec; [|done]. simpl in E.
  assert (Hvv : hashEdge hash value = Ok (bare value, value, [])).
  { inversion Hw as [| | | | |? ? ? ? _ Hwv _ _]; subst. by inversion Hwv. }
  rewrite Hvv in E. simpl in E. rewrite app_nil_r in E.
  destruct (seal_spec (NewArray (vs ++ [bare value])) (fun h => FullNode h e value ch') cw)
    as (h & w' & Es & Hb & Hd).
  rewrite Es in E. injection E as Ev <- <-.
  destruct (rehash_wf _ _ _ Hw Hr) as [Hw' Hv']. pose proof (rehash_nonempty _ _ _ Hw Hr Hne) as Hne'.
  assert (Hcw : written cw).
  { destruct Hd as [(_ & _ & ->)|(_ & _ & ->)]; [done|]. by apply written_app in Hwr as [? _]. }
  pose proof (persist_edges ch Hc _ _ _ Ec Hcw) as Hch.
  assert (vs = map bare ch') as ->.
  { assert (HF : Forall (fun c => hashes G ep (hashEdge hash c) c) ch).
    { apply Forall_lookup_2. intros i c Hi. inversion Hw as [| | | | |? ? ? ? _ _ Hwc _]; subst.
      inversion Hv as [| | | |? ? ? ? _ _ Hvc _]; subst.
      destruct c; [by exists Nil, []; split; [|apply rehash_refl; constructor]|..];
        apply (hash_spec G ep false); eauto; done. }
    destruct (hashEdges_spec G ep ch HF) as (ch2 & w2 & E2 & _). rewrite Ec in E2. injection E2 as -> -> ->.
    clear -Hch. induction Hch as [|c c' ch ch' ((_ & Hb & _) & _) _ IH]; [done|]. simpl. by rewrite IH, Hb. }
  destruct (sealed_seal _ _ _ _ (FullNode h e value ch') eq_refl Hwr Hd) as [_ Hsl].
  assert (HR : reloadOK G' (FullNode h e value ch')).
  { apply reload_full; [done| |].
    - eapply (valid_fresh st' (ep + 1)); [done| |by inversion Hv'].
      inversion Hw as [| | | | |? ? ? ? _ Hwv _ _]; subst. inversion Hwv; constructor.
    - intros i c' Hi. destruct (Forall2_lookup_r _ _ _ _ _ Hch Hi) as (c & _ & _ & _ & Hs). done. }
  destruct (persist_node (FullNode h e value ch') h (ep + 1)) as [Hslot Hst]; [done..|].
  split; [done|]. split; [|done]. constructor; [| |done].
  - inversion Hw as [| | | | |? ? ? ? _ Hwv _ _]; subst. inversion Hwv; constructor.
  - intros i c' Hi. destruct (Forall2_lookup_r _ _ _ _ _ Hch Hi) as (c & _ & _ & Hbk & _). done.
Qed.

Lemma hash_persist fin n :
  wf G fin n -> valid G ep n -> backed G n -> nonempty G n -> persists (hashEdge hash n) fin n.
Proof.
  assert (Hcached : forall n h, inner n -> h <> [] -> hash n = Ok (bare n, n, []) ->
    (h <> [] -> bare n = NewBytes h) -> wf G false n -> valid G ep n -> backed G n -> (h <> [] -> stand G h n) ->
    persists (hash n) false n).
  { intros m h Hi Hh E Hb Hw Hv Hbk Hst v n' w Hm _. rewrite E in Hm. injection Hm as <- <- <-.
    split; [by apply rehash_refl|]. split; [by eapply backed_grows|]. by eapply persist_cached. }
  assert (Hval : forall fin c, ~ inner c -> c <> Nil -> wf G fin c -> valid G ep c -> persists (hash c) fin c).
  { intros f c Hn HN Hw Hv v n' w E _. assert (n' = c) as -> by (destruct c; [done|by injection E as <- <- <-|by destruct Hn..]).
    by apply persisted_value. }
  induction 1 as [|v|buf n HG Hi Hw IH|h key v Hk|h key c Hne Hk Hb Hw IH|h e value ch Hl Hv IHv Hc IHc Hf];
    intros Hvalid Hbk Hnonempty.
  - intros v n' w [= <- <- <-] _. apply persisted_value; [tauto|constructor|constructor].
  - apply Hval; [tauto|done|constructor|done].
  - apply Hval; [tauto|done|by econstructor|done].
  - destruct h as [|x h].
    + apply (persist_short true); [by constructor|constructor|split; [by destruct key|done]|done|done|].
      apply Hval; [tauto|done|constructor|constructor].
    + inversion Hbk; subst. inversion Hvalid; subst.
      apply (Hcached _ (x :: h)); try done; [by eapply hash_cached_short|by constructor].
  - destruct h as [|x h].
    + inversion Hbk; subst. inversion Hvalid; subst.
      apply (persist_short false); [by constructor|done| |done|done|].
      * split; [done|]. split; [by apply branch_not_Nil in Hb|done].
      * assert (Hp : persists (hashEdge hash c) false c).
        { apply IH; [done..|]. intros k v H. apply (Hnonempty (key ++ k) v). by constructor. }
        apply branch_not_Nil in Hb. by destruct c.
    + inversion Hbk; subst. inversion Hvalid; subst.
      apply (Hcached _ (x :: h)); try done; [by eapply hash_cached_short|by constructor].
  - destruct h as [|x h].
    + inversion Hbk; subst. inversion Hvalid; subst.
      apply persist_full; [by constructor|done|done|]. intros i c Hi.
      eapply IHc; eauto. intros k v H. apply (Hnonempty (Z.of_nat i :: k) v).
      econstructor; [lia|by apply edge_nth|done].
    + inversion Hbk as [| | |? ? ? ? _ _ Hst]; subst. inversion Hvalid as [| | | |? ? ? ? _ _ _ Hh]; subst.
      apply (Hcached _ (x :: h)); try done; [by eapply hash_cached_full| |by constructor].
      intros Hx. by destruct (Hh Hx).
Qed.
End write.

(** ** Committing and opening a trie *)

(** The transaction holds [m], and the hashes it caches are in storage. *)
Definition kept (st : Storage) (t : Trie) (m : gmap (list Z) bytes) : Prop :=
  holds (fetch st) t m /\ backed (fetch st) (t_root t).

Lemma backed_closed st G (Q : Prop) ep :
  closed (fetch st) ep (fun n => valid (fetch st) ep n /\ (Q -> backed G n)).
Proof.
  destruct (valid_closed (fetch st) ep) as [HN HV HR Hsc HS Hfv Hfe He HF]. split.
  - split; [done|constructor].
  - intros v. split; [apply HV|constructor].
  - intros buf n [H _] HG. split; [by eapply HR|]. intros _. eapply fresh_backed, fetch_fresh. exact HG.
  - intros h key c [H Hb]. split; [by eapply Hsc|]. intros HQ. specialize (Hb HQ). by inversion Hb.
  - intros key c [H Hb]. split; [by apply HS|]. intros HQ. constructor; [auto|done].
  - intros h e value ch [H Hb]. split; [by eapply Hfv|]. intros HQ. specialize (Hb HQ). by inversion Hb.
  - intros h e value ch i c [H Hb] Hi. split; [by eapply Hfe|]. intros HQ. specialize (Hb HQ).
    inversion Hb; subst. eauto.
  - intros h e value ch [H _]. by eapply He.
  - intros e value ch Hle [Hv Hb] Hch. split; [apply HF; try done; intros i c Hi; by eapply Hch|].
    intros HQ. constructor; [auto| |done]. intros i c Hi. by eapply Hch.
Qed.

Lemma lookup_backed st fuel fin n k n' p o :
  wf (fetch st) fin n -> keyAt fin k -> (cost n k <= fuel)%nat -> backed (fetch st) n ->
  lookup (fetch st) fuel n k = Ok (n', p, o) -> backed (fetch st) n'.
Proof.
  revert fin n k n' p o. induction fuel as [|fuel IH]; [done|]. intros fin n k n' p o Hw Hk Hf Hb E.
  destruct (lookup_spec (fetch st) _ fin n k Hw Hk Hf) as (n2 & o2 & E2 & _ & _ & Hm & _).
  rewrite E in E2. injection E2 as <- -> ->. revert E.
  destruct n as [|[] buf|h key c|h e value ch]; cbn [lookup].
  - by intros [= <- _].
  - inversion Hw as [| |? m HG Hi Hwm| | |]; subst. unfold resolve. rewrite HG. simpl.
    destruct (lookup (fetch st) fuel m k) as [[[m1 p1] o1]|] eqn:E; [|done]. simpl. intros [= <- _].
    pose proof (fresh_backed (fetch st) _ (fetch_fresh _ _ _ HG)) as Hbm. destruct p1; [done|].
    eapply IH; [exact Hwm|done| |done|exact E]. rewrite cost_inner by done. unfold cost in Hf. lia.
  - by intros [= <- _].
  - assert (fin = false) as -> by by inversion Hw. destruct (short_inv _ _ _ _ Hw) as (fin & Hwc & Hs).
    case_bool_decide as Hp; [|by intros [= <- _]].
    destruct (lookup (fetch st) fuel c _) as [[[c1 p1] o1]|] eqn:E; [|done]. simpl. intros [= <- _].
    inversion Hb as [| |? ? ? Hc Hh|]; subst. apply take_drop_eq in Hp. rewrite Hp in Hk.
    constructor; [|intros H; eapply stand_same; [by intros []|exact Hm|auto]].
    eapply IH; [exact Hwc|by eapply shortKey_rest| |done|exact E].
    pose proof (cost_le c (drop (length key) k)). unfold cost in Hf. rewrite Hp, length_app in Hf.
    assert (length key <> 0)%nat by (destruct Hs as [? _]; by destruct key). lia.
  - assert (fin = false) as -> by by inversion Hw. destruct k as [|x k]; [done|].
    destruct (wf_slots _ _ _ _ _ Hw) as [Hsl _].
    destruct (edge_ok _ _ _ _ _ Hsl Hk) as (Hx & c & Ec & Hwc & Hk'). rewrite Ec. simpl.
    destruct (lookup (fetch st) fuel c k) as [[[c1 p1] o1]|] eqn:E; [|done]. simpl.
    destruct (_ && _); [done|]. destruct (setEdge h e value ch x c1) as [m|] eqn:Es; [|done].
    simpl. intros [= <- _]. inversion Hb as [| | |? ? ? ? Hv Hch Hh]; subst.
    assert (Hc : backed (fetch st) c).
    { unfold getEdge in Ec. destruct (x =? 16); [by injection Ec as <-|].
      destruct (ch !! Z.to_nat x) eqn:Hi; [injection Ec as <-; eauto|done]. }
    apply (IH _ _ _ _ _ _ Hwc Hk') in E; [|pose proof (cost_le c k); unfold cost in Hf; simpl in Hf; lia|done].
    assert (Hst : h <> [] -> stand (fetch st) h m).
    { intros H. by apply (stand_same _ _ (FullNode h e value ch)); [|exact Hm|auto]. }
    clear Hm Ec. unfold setEdge in Es.
    destruct (x =? 16); [injection Es as <-; by constructor|].
    destruct (ch !! Z.to_nat x); [|done]. injection Es as <-. constructor; [done| |done].
    intros i d [(_ & -> & _)|[_ Hd]]%list_lookup_insert_Some; eauto.
Qed.

Lemma Lookup_kept st t m b :
  kept st t m -> Forall is_byte b ->
  exists t', Lookup (fetch st) t b = Ok (t', m !! b) /\ kept st t' m /\ t_epoch t' = t_epoch t.
Proof.
  intros [H Hb] Hby. destruct (Lookup_holds _ t m b H Hby) as (t' & E & H'). exists t'. split; [done|].
  unfold Lookup in E. destruct (lookup _ _ _ _) as [[[n' p] o]|] eqn:El; [|done]. simpl in E. injection E as <- _.
  split; [|done]. split; [done|]. simpl. destruct p; [done|].
  eapply lookup_backed; [apply H|by apply (tkey_bytes b)|apply keyFuel_cost|done|exact El].
Qed.

Lemma Insert_kept st t m b v :
  kept st t m -> Forall is_byte b ->
  exists t', Insert (fetch st) t b v = Ok t' /\ kept st t' (<[b := v]> m) /\ t_epoch t' = t_epoch t.
Proof.
  intros [H Hb] Hby. destruct (Insert_holds _ t m b v H Hby) as (t' & E & H'). exists t'. split; [done|].
  destruct (Insert_closed _ _ t b v t' (backed_closed st (fetch st) True (t_epoch t)) (holds_epoch _ _ _ H)
    (conj (holds_valid _ _ _ H) (fun _ => Hb)) E) as [[_ Hb'] He]. split; [split; auto|done].
Qed.

Lemma Delete_kept st t m b :
  kept st t m -> Forall is_byte b -> (forall b' v, m !! b' = Some v -> length b' = length b) ->
  exists t', Delete (fetch st) t b = Ok t' /\ kept st t' (base.delete b m) /\ t_epoch t' = t_epoch t.
Proof.
  intros [H Hb] Hby Hl. destruct (Delete_holds _ t m b H Hby Hl) as (t' & E & H'). exists t'. split; [done|].
  destruct (Delete_closed _ _ t b t' (backed_closed st (fetch st) True (t_epoch t)) (holds_epoch _ _ _ H)
    (conj (holds_valid _ _ _ H) (fun _ => Hb)) E) as [[_ Hb'] He]. split; [split; auto|done].
Qed.

(** No two different nodes have one digest. *)
Definition noCollision (st : Storage) (w : writes) : Prop :=
  forall k d d', (k, d) ∈ w -> (k, d') ∈ w \/ st_trie st !! k = Some d' -> d' = d.

(** One node, written to an empty database. *)
Lemma noCollision_one st k d : st_trie st = ∅ -> noCollision st [(k, d)].
Proof.
  intros Hst k' d1 d2 H1 [H2|H2].
  - apply list_elem_of_singleton in H1, H2. congruence.
  - by rewrite Hst, lookup_empty in H2.
Qed.

Lemma batch_Write_spec w st :
  noCollision st w ->
  (forall k d, (k, d) ∈ w -> st_trie (batch_Write w st) !! k = Some d) /\
  (forall k d, st_trie st !! k = Some d -> st_trie (batch_Write w st) !! k = Some d).
Proof.
  unfold batch_Write. revert st. induction w as [|[k0 d0] w IH]; intros st Hn; simpl.
  { split; [by intros ? ? ?%elem_of_nil|done]. }
  destruct (IH (Storage_Set k0 d0 st)) as [I1 I2].
  { intros k d d' Hk Hd. simpl in Hd.
    destruct Hd as [Hd|[[<- <-]|[_ Hd]]%lookup_insert_Some].
    - apply (Hn k); [by right|left; by right].
    - apply (Hn k0); [by right|left; by left].
    - apply (Hn k); [by right|by right]. }
  split; [|intros k d Hk].
  - intros k d [[= -> ->]|Hk]%elem_of_cons; [|by apply I1]. apply I2. simpl. apply lookup_insert_Some. by left.
  - apply I2. simpl. apply lookup_insert_Some. destruct (decide (k0 = k)) as [<-|]; [|by right].
    left. split; [done|]. symmetry. apply (Hn k0 d0 d); [by left|by right].
Qed.

Lemma fetch_extends st st' :
  (forall k d, st_trie st !! k = Some d -> st_trie st' !! k = Some d) -> extends (fetch st) (fetch st').
Proof.
  intros H b n. unfold fetch, GetNode, Storage_Get. destruct (st_trie st !! b) eqn:E; [|done].
  by rewrite (H _ _ E).
Qed.

Lemma fetch_GetNode st b n : fetch st b = Some (Some n) -> GetNode st b = Ok (Some (Some n)).
Proof. unfold fetch. by destruct (GetNode st b) as [o|]; intros [= ->]. Qed.

Lemma bare_plain n : bare (plain n) = bare n.
Proof.
  induction n as [| |h key c IH|h e value ch IHv IH] using Node_nested_ind; try done; simpl.
  - by rewrite IH.
  - rewrite IHv, map_map. do 3 f_equal. apply map_ext_in. intros c Hc.
    rewrite Stdlib.Lists.List.Forall_forall in IH. by apply IH.
Qed.

Lemma bareNode_plain n : bareNode (plain n) = bareNode n.
Proof.
  destruct n; simpl; rewrite ?bare_plain; try done. rewrite map_map. do 2 f_equal.
  apply map_ext. apply bare_plain.
Qed.

Lemma holds_grows G G' t m : extends G G' -> holds G t m -> holds G' t m.
Proof.
  intros He [H0 H1 H2 H3 H4 H5]. split; try done; [by eapply wf_grows|by eapply valid_grows|].
  intros k v. rewrite (maps_grows G G' He _ _ _ _ H1). apply H5.
Qed.

(** A trie opened at what was read for its root. *)
Lemma kept_open st t m n d :
  holds (fetch st) t m -> fetch st d = Some (Some n) -> inner n -> wf (fetch st) false n ->
  valid (fetch st) 0 n -> (forall k v, maps (fetch st) n k v <-> maps (fetch st) (t_root t) k v) ->
  forall ep, 0 <= ep -> kept st (mkTrie n ep) m.
Proof.
  intros [H0 H1 H2 H3 H4 H5] HG Hi Hw Hv Hm ep Hep. split; [split; simpl; try done|].
  - by destruct n.
  - by eapply valid_mono.
  - intros k v. rewrite Hm. apply H5.
  - eapply fresh_backed, fetch_fresh, HG.
Qed.

(** What is read for the root: its node. *)
Lemma open_root st' n ep :
  inner n -> wf (fetch st') false n -> valid (fetch st') ep n -> nonempty (fetch st') n ->
  slotOK (fetch st') false n ->
  (Len (bareNode n) < 32 ->
    st_trie st' !! keccak256 (MarshalTo (bareNode n)) = Some (MarshalTo (bareNode n))) ->
  exists n2, fetch st' (keccak256 (MarshalTo (bareNode n))) = Some (Some n2) /\ inner n2 /\
    wf (fetch st') false n2 /\ valid (fetch st') 0 n2 /\
    forall k v, maps (fetch st') n2 k v <-> maps (fetch st') n k v.
Proof.
  intros Hi Hw Hv Hne (Hsw & Hsv & _ & Hsm) Hst. rewrite slot_inner in * by done.
  destruct (Z.ltb_spec (Len (bareNode n)) 32) as [Hl|Hl].
  - exists (reload n). split; [by eapply fetch_reload; eauto|]. split; [by apply inner_reload|done].
  - inversion Hsw as [| |? m HG Hm Hwm| | |]; subst. inversion Hsv as [| |? m' HG' Hb Hvm| |]; subst. simplify_eq.
    exists m. split_and!; try done. intros k v. rewrite <- Hsm. by rewrite maps_ref_inv.
Qed.

(** Hashing, when the storage has what was written. *)
Lemma hash_kept st t m d root' w :
  kept st t m -> (forall b v, m !! b = Some v -> v <> []) ->
  Txn_Hash (t_root t) = Ok (d, root', w) -> written st w ->
  kept st (mkTrie root' (t_epoch t + 1)) m /\
  (m <> ∅ -> exists n, GetNode st d = Ok (Some (Some n)) /\ forall ep, 0 <= ep -> kept st (mkTrie n ep) m).
Proof.
  intros [H Hb] Hvals E Hwr.
  destruct (Txn_Hash_holds _ t m H) as (r & w2 & E2 & H'). rewrite E in E2. injection E2 as -> <- <-.
  destruct (holds_root _ _ _ H) as [Hn|Hi].
  { rewrite Hn in E. injection E as _ <- _. split; [split; [done|constructor]|]. intros Hm. destruct Hm.
    apply map_eq. intros b. rewrite lookup_empty. destruct (m !! b) eqn:Eb; [|done].
    exfalso. eapply (maps_Nil (fetch st)). rewrite <- Hn. apply (holds_maps _ _ _ H). eauto. }
  destruct (hash_spec _ _ _ _ (holds_wf _ _ _ H) (holds_valid _ _ _ H)) as (n' & w0 & Eh & Hr);
    [by destruct (t_root t)|].
  assert (Hne : nonempty (fetch st) (t_root t)).
  { intros k v (b & -> & Hv)%(holds_maps _ _ _ H). by eapply Hvals. }
  destruct (digest_writes (bareNode (t_root t)) w0 (bareNode_array _ Hi)) as (w' & Ew & Hw1 & Hw2).
  rewrite (Txn_Hash_eq _ _ _ Hi Eh), Ew in E. injection E as _ -> ->.
  assert (Hext : extends (fetch st) (fetch st)) by by intros ? ?.
  destruct (hash_persist st st (t_epoch t) Hext _ _ (holds_wf _ _ _ H)
    (holds_valid _ _ _ H) Hb Hne (bare (t_root t)) root' w0) as (_ & Hbk & Hslot);
    [by destruct (t_root t)|intros k d Hk; by apply Hwr, Hw1|].
  split; [done|]. intros _. pose proof Hr as (Hp & _).
  assert (Hbn : bareNode root' = bareNode (t_root t)) by by rewrite <- bareNode_plain, Hp, bareNode_plain.
  destruct (open_root st root' (t_epoch t + 1)) as (n2 & HG & Hi2 & Hw2' & Hv2 & Hm2); try apply H'; try done.
  - by destruct (t_root t), root'.
  - eapply rehash_nonempty; [done|apply H|done..].
  - rewrite Hbn. intros Hl. by apply Hwr, Hw2.
  - rewrite Hbn, (holds_TRIE _ _ _ H Hi) in HG. exists n2. split; [by apply fetch_GetNode|].
    intros ep Hep. by eapply (kept_open st (mkTrie root' (t_epoch t + 1))).
Qed.

Lemma kept_grows st st' t m :
  (forall k d, st_trie st !! k = Some d -> st_trie st' !! k = Some d) -> kept st t m -> kept st' t m.
Proof.
  intros H%fetch_extends [H1 H2]. split; [by eapply holds_grows|]. eapply backed_grows; [done|apply H1|done].
Qed.
End store.

(** ** Main results *)

Section results.
Context `{KK : !Keccak, RL : !FastRlp, RF : !RlpFormat}.

Lemma kept_New st ep : 0 <= ep -> kept st (mkTrie Nil ep) ∅.
Proof. intros H. split; [by apply holds_New|constructor]. Qed.

(** C8: a transaction on the trie is a finite map: for byte strings of one length,
    a lookup finds what the map has, and an insertion and a deletion, which never
    panic, take a trie that holds the map to one that holds the updated map; holding
    includes that every cached hash is right and its node in storage. *)
Theorem Trie_refines_map (st : Storage) (t : Trie) (m : gmap (list Z) bytes) (b v : bytes) :
  kept st t m -> Forall is_byte b ->
  (forall b' v', m !! b' = Some v' -> length b' = length b) ->
  (exists t', Lookup (fetch st) t b = Ok (t', m !! b) /\ kept st t' m) /\
  (exists t', Insert (fetch st) t b v = Ok t' /\ kept st t' (<[b := v]> m)) /\
  (exists t', Delete (fetch st) t b = Ok t' /\ kept st t' (base.delete b m)).
Proof.
  intros H Hb Hl. split; [|split].
  - destruct (Lookup_kept st t m b H Hb) as (t' & E & H' & _). eauto.
  - destruct (Insert_kept st t m b v H Hb) as (t' & E & H' & _). eauto.
  - destruct (Delete_kept st t m b H Hb Hl) as (t' & E & H' & _). eauto.
Qed.

(** C15: the root that [Txn.Hash] returns is the Merkle Patricia root of the contents,
    whatever led to them and whichever hashes were cached; and when no two nodes
    collide and no value is empty, then after the batch is written the trie opened
    at that root, like the one in memory, holds the contents. *)
Theorem Trie_commit (st : Storage) (t : Trie) (m : gmap (list Z) bytes) :
  kept st t m -> (forall b v, m !! b = Some v -> v <> []) ->
  exists root' w, Txn_Hash (t_root t) = Ok (TRIE (itemsOf m), root', w) /\
    (noCollision st w ->
     let st' := batch_Write w st in
     kept st' (mkTrie root' (t_epoch t + 1)) m /\
     (m <> ∅ -> exists n, GetNode st' (TRIE (itemsOf m)) = Ok (Some (Some n)) /\
        forall ep, 0 <= ep -> kept st' (mkTrie n ep) m)).
Proof.
  intros H Hv. destruct (Txn_Hash_holds _ t m (proj1 H)) as (root' & w & E & _).
  exists root', w. split; [done|]. intros Hn. destruct (batch_Write_spec w st Hn) as [Hwr Hst].
  eapply hash_kept; [by eapply kept_grows|done|exact E|exact Hwr].
Qed.

(** Deleting a key that is not there can remove another one when the keys are of
    different lengths: a trie with the keys 0x1234 and 0x1235 loses the first when 0x14
    is deleted. *)
Theorem delete_removes_another_key (st : Storage) (v w : bytes) :
  exists t1 t2 t3 t4 t5,
    Insert (fetch st) (Trie_Txn NewTrie) [0x12; 0x34] v = Ok t1 /\
    Insert (fetch st) t1 [0x12; 0x35] w = Ok t2 /\
    Lookup (fetch st) t2 [0x12; 0x34] = Ok (t3, Some v) /\
    Delete (fetch st) t2 [0x14] = Ok t4 /\
    Lookup (fetch st) t4 [0x12; 0x34] = Ok (t5, None).
Proof. do 5 eexists. split_and!; reflexivity. Qed.
End results.

(** *** At a trie of one key *)

Import (hints) Demo.

Definition demo_store : Storage := NewMemoryStorage.
Definition demo_trie : Trie := mkTrie (ShortNode [] [0; 1; 0; 2; 16] (ValueNode false [9])) 1.
Definition demo_map : gmap (list Z) bytes := {[ [1; 2] := [9] ]}.

Lemma demo_kept : kept demo_store demo_trie demo_map.
Proof.
  destruct (Insert_kept demo_store (mkTrie Nil 1) ∅ [1; 2] [9]) as (t & E & H & _);
    [by apply kept_New|repeat constructor; unfold is_byte; lia|].
  injection E as <-. exact H.
Qed.

Lemma demo_map_length (b b' v : bytes) :
  length b = 2%nat -> demo_map !! b' = Some v -> length b' = length b.
Proof. unfold demo_map. intros Hb [<- _]%lookup_singleton_Some. by rewrite Hb. Qed.

Lemma Trie_refines_map_witness :
  (exists t', Lookup (fetch demo_store) demo_trie [1; 3] = Ok (t', None)) /\
  (exists t', Insert (fetch demo_store) demo_trie [1; 3] [7] = Ok t' /\
     kept demo_store t' (<[ [1; 3] := [7] ]> demo_map)) /\
  (exists t', Delete (fetch demo_store) demo_trie [1; 3] = Ok t').
Proof.
  destruct (Trie_refines_map demo_store demo_trie demo_map [1; 3] [7] demo_kept) as ((t1 & E1 & _) & H2 & t3 & E3 & _).
  - repeat constructor; unfold is_byte; lia.
  - intros b' v'. by apply demo_map_length.
  - split; [by exists t1|]. split; [done|by exists t3].
Defined.

Lemma Trie_commit_witness :
  exists root' w, Txn_Hash (t_root demo_trie) = Ok (TRIE (itemsOf demo_map), root', w) /\
    let st' := batch_Write w demo_store in
    exists n, GetNode st' (TRIE (itemsOf demo_map)) = Ok (Some (Some n)) /\ kept st' (mkTrie n 1) demo_map.
Proof.
  destruct (Trie_commit demo_store demo_trie demo_map demo_kept) as (root' & w & E & H).
  - unfold demo_map. intros b v [_ <-]%lookup_singleton_Some. done.
  - exists root', w. split; [done|]. destruct H as [_ H].
    + assert (exists k d, w = [(k, d)]) as (k & d & ->)
        by (vm_compute in E; injection E as _ <-; by do 2 eexists).
      by apply noCollision_one.
    + destruct H as (n & E' & Hn); [unfold demo_map; by intros ?%map_non_empty_singleton|].
      exists n. split; [done|]. by apply Hn.
Defined.
