(* ===== verification/Buildroot.v ===== *)
(** The roots of the lists in a block (types/buildroot): the fast hasher of at most 128
    values of at least 32 bytes (buildroot_fast.go), the trie it stands for otherwise
    (buildroot.go), and that both give the Merkle Patricia root of the list. *)

From S2P Require Import Prelude Types Chain Runtime Crypto Rlp Slice Instances TxTypes BlockTypes Trie TrieFacts TrieHash TrieSpec TrieCorrect TrieStore.

Section buildroot.
Context `{KK : !Keccak, RL : !FastRlp}.

(** ** buildroot_fast.go *)

Definition intsize (val : Z) : Z :=
  if val <? 2 ^ 8 then 1 else if val <? 2 ^ 16 then 2 else if val <? 2 ^ 24 then 3
  else if val <? 2 ^ 32 then 4 else if val <? 2 ^ 40 then 5 else if val <? 2 ^ 48 then 6
  else if val <? 2 ^ 56 then 7 else 8.

Definition getRlpSize (size : Z) : Z := if size <? 56 then 1 else intsize size + 1.

Definition marshalRlpSize (dst : bytes) (size short long : Z) : bytes :=
  if size <? 56 then dst ++ [(short + size) mod 256]
  else
    let intSize := intsize size in
    let buf := be_bytes 8 size in
    dst ++ [(long + intSize) mod 256] ++ drop (Z.to_nat (8 - intSize)) buf.

Definition marshalItemRlpSize (dst : bytes) (size : Z) : bytes := marshalRlpSize dst size 0x80 0xB7.
Definition marshalListRlpSize (dst : bytes) (size : Z) : bytes := marshalRlpSize dst size 0xC0 0xF7.

Definition leafVal : bytes := [0x20].
Definition rlpEmptyValue : bytes := [0x80].
Definition rlpHashPrefix : bytes := [0xa0].
Definition zeroKey : bytes := [0x30].
Definition oneKey : bytes := [0x31].
Definition singleKey : bytes := [0x82; 0x20; 0x80].

(** The digest is appended to [dst]. *)
Definition fast_hash (dst b : bytes) : bytes := dst ++ keccak256 b.

Section fast.
(** The number of values and the callback. *)
Context (num : Z) (cb : Z -> bytes).

Definition getCb (i : Z) : option bytes :=
  if num <? i then None
  else let val := cb i in if zlen val <? 32 then None else Some val.

Definition encodeOneItem : option bytes :=
  val ← getCb 0;
  let n := getRlpSize (zlen val) in
  let buf2 := marshalListRlpSize [] (n + zlen val + zlen singleKey) in
  let buf2 := buf2 ++ singleKey in
  let buf2 := marshalItemRlpSize buf2 (zlen val) in
  let buf2 := buf2 ++ val in
  Some (fast_hash [] buf2).

Definition encodeSingle (dst v : bytes) (b : bool) : bytes :=
  let num := zlen v in
  let n := getRlpSize num in
  let buf2 := marshalListRlpSize [] (n + num + 1) in
  let buf2 := if b then buf2 ++ oneKey else buf2 ++ zeroKey in
  let buf2 := marshalItemRlpSize buf2 num in
  let buf2 := buf2 ++ v in
  fast_hash dst buf2.

(** [n] empty values. *)
Definition appendEmpty (n : Z) (dst : bytes) : bytes := dst ++ replicate (Z.to_nat n) 0x80.

(** The loop of [deriveGroup] over [n] values from [i]. *)
Fixpoint groupLoop (n : nat) (i : Z) (buf : bytes) : option bytes :=
  match n with
  | O => Some buf
  | S n =>
      val ← getCb i;
      let buf := buf ++ rlpHashPrefix in
      let m := getRlpSize (zlen val) in
      let buf2 := marshalListRlpSize [] (m + 1 + zlen val) in
      let buf2 := buf2 ++ leafVal in
      let buf2 := marshalItemRlpSize buf2 (zlen val) in
      let buf2 := buf2 ++ val in
      groupLoop n (i + 1) (fast_hash buf buf2)
  end.

Definition deriveGroup (dst : bytes) (from to : Z) : option bytes :=
  let n := to - from in
  if n =? 1 then
    val ← getCb from;
    Some (if from =? 1 then encodeSingle dst val true else encodeSingle dst val false)
  else
    let buf := if from =? 1 then [] ++ rlpEmptyValue else [] in
    buf ← groupLoop (Z.to_nat n) from buf;
    let buf :=
      if n <? 16 then appendEmpty ((if from =? 1 then 15 else 16) - n) buf else buf in
    let buf := buf ++ rlpEmptyValue in
    let buf2 := marshalListRlpSize [] (zlen buf) ++ buf in
    Some (fast_hash dst buf2).

(** The groups of sixteen from [i] on; [n] bounds their number. *)
Fixpoint groups (n : nat) (i step1 : Z) (dst : bytes) : option bytes :=
  match n with
  | O => Some dst
  | S n =>
      if i <? step1 then
        let ini := if i =? 0 then 1 else i in
        dst ← deriveGroup (dst ++ rlpHashPrefix) ini (Z.min step1 (i + 16));
        groups n (i + 16) step1 dst
      else Some dst
  end.

(** [FastHasher.Hash], on an empty buffer. *)
Definition FastHasher_Hash : option bytes :=
  if num =? 1 then encodeOneItem
  else
    let step1 := Z.min num 128 in
    dst ← groups 8 0 step1 [];
    let dst := appendEmpty ((128 - step1) / 16) dst in
    let dst := dst ++ rlpHashPrefix in
    val ← getCb 0;
    let dst := encodeSingle dst val false in
    let dst := appendEmpty 8 dst in
    let buf2 := marshalListRlpSize [] (zlen dst) ++ dst in
    Some (fast_hash [] buf2).
End fast.

(** ** buildroot.go *)

(** The trie of [deriveSlow] has no storage. *)
Definition noStorage (_ : bytes) : option (option Node) := None.

(** The loop of [deriveSlow] over [n] values from [i]. *)
Fixpoint slowLoop (n : nat) (i : Z) (h : Z -> bytes) (txn : Trie) : result Trie :=
  match n with
  | O => Ok txn
  | S n =>
      txn ← Insert noStorage txn (MarshalTo (NewUint i)) (h i);
      slowLoop n (i + 1) h txn
  end.

Definition deriveSlow (num : Z) (h : Z -> bytes) : result bytes :=
  txn ← slowLoop (Z.to_nat num) 0 h (Trie_Txn NewTrie);
  '(x, _, _) ← Txn_Hash (t_root txn);
  Ok x.

Definition CalculateRoot (num : Z) (h : Z -> bytes) : result Hash :=
  if num =? 0 then Ok EmptyRootHash
  else
    match (if num <=? 128 then FastHasher_Hash num h else None) with
    | Some dst => Ok (BytesToHash dst)
    | None => x ← deriveSlow num h; Ok (BytesToHash x)
    end.

Definition calculateRootWithRlp (num : Z) (h : Z -> Value) : result Hash :=
  CalculateRoot num (fun indx => MarshalTo (h indx)).

(** The elements of a list by their index; no other index is asked for. *)
Definition elements {A} (f : A -> Value) (l : list A) (i : Z) : Value :=
  match l !! Z.to_nat i with Some x => f x | None => NewNull end.

Definition CalculateReceiptsRoot (receipts : list Receipt) : result Hash :=
  calculateRootWithRlp (zlen receipts) (elements Receipt_MarshalRLPWith receipts).

Definition CalculateTransactionsRoot (transactions : list Transaction) : result Hash :=
  calculateRootWithRlp (zlen transactions) (elements Transaction_MarshalRLPWith transactions).

Definition CalculateUncleRoot (uncles : list Header) : Hash :=
  match uncles with
  | [] => EmptyUncleHash
  | _ => BytesToHash (keccak256 (MarshalTo (NewArray (map Header_MarshalRLPWith uncles))))
  end.
End buildroot.

(** ** Headers *)

Lemma le_bytes_take n k x : (k <= n)%nat -> take k (le_bytes n x) = le_bytes k x.
Proof.
  revert k x. induction n as [|n IH]; intros [|k] x Hk; try done; [lia|]. simpl. by rewrite IH by lia.
Qed.

Lemma be_bytes_drop n k x : (k <= n)%nat -> drop (n - k) (be_bytes n x) = be_bytes k x.
Proof.
  intros Hk. unfold be_bytes. rewrite <- (le_bytes_take n k x Hk).
  rewrite skipn_rev, length_le_bytes. do 2 f_equal. lia.
Qed.

Lemma big_bytes_intsize x :
  0 < x < two64 -> length (big_bytes x) = Z.to_nat (intsize x) /\ 1 <= intsize x <= 8.
Proof.
  intros Hx.
  assert (H : forall k, 0 < k -> 256 ^ (k - 1) <= x < 256 ^ k -> length (big_bytes x) = Z.to_nat k).
  { intros k Hk Hr. apply Nat.le_antisymm.
    - apply length_big_bytes. rewrite Z2Nat.id; lia.
    - destruct (Nat.le_gt_cases (Z.to_nat k) (length (big_bytes x))) as [|Hlt]; [done|].
      pose proof (set_bytes_bound (big_bytes x) (big_bytes_is_byte x)) as Hb.
      rewrite set_bytes_big_bytes in Hb by lia.
      assert (256 ^ zlen (big_bytes x) <= 256 ^ (k - 1)) by (apply Z.pow_le_mono_r; unfold zlen; lia). lia. }
  unfold intsize, two64 in *.
  repeat match goal with |- context [if ?a <? ?b then _ else _] => destruct (Z.ltb_spec a b) end;
    (split; [apply H|]; lia).
Qed.

Lemma marshalRlpSize_header dst size short long :
  0 <= size < two64 -> 0 <= short <= 0xc0 -> 0 <= long <= 0xf7 ->
  marshalRlpSize dst size short long = dst ++ rlpHeader short long size.
Proof.
  intros Hs Hsh Hl. unfold marshalRlpSize, rlpHeader. destruct (Z.ltb_spec size 56).
  - by rewrite Z.mod_small by lia.
  - destruct (big_bytes_intsize size ltac:(lia)) as [Hlen Hi].
    rewrite Z.mod_small by lia.
    replace (zlen (big_bytes size)) with (intsize size) by (unfold zlen; lia). do 2 f_equal. simpl. f_equal.
    replace (Z.to_nat (8 - intsize size)) with (8 - Z.to_nat (intsize size))%nat by lia.
    rewrite be_bytes_drop by lia. rewrite <- Hlen.
    rewrite <- (set_bytes_big_bytes size) at 2 by lia. apply be_set_bytes, big_bytes_is_byte.
Qed.

(** ** The nodes the fast hasher writes *)

Section nodes.
Context `{KK : !Keccak, RL : !FastRlp, RF : !RlpFormat}.

Lemma zlen_header short long n : 0 <= n < two64 -> zlen (rlpHeader short long n) = getRlpSize n.
Proof.
  intros Hn. unfold rlpHeader, getRlpSize. destruct (Z.ltb_spec n 56); [done|].
  destruct (big_bytes_intsize n ltac:(lia)). unfold zlen in *. simpl. lia.
Qed.

Lemma getRlpSize_bound n : 1 <= getRlpSize n <= 9.
Proof.
  unfold getRlpSize, intsize.
  repeat match goal with |- context [if ?a <? ?b then _ else _] => destruct (a <? b) end; lia.
Qed.

Lemma zlen_app {A} (a b : list A) : zlen (a ++ b) = zlen a + zlen b.
Proof. unfold zlen. rewrite length_app. lia. Qed.

(** A value that the fast hasher takes. *)
Definition big_enough (v : bytes) : Prop := 32 <= zlen v < 2 ^ 60.

Lemma rlpBytes_long b : 32 <= zlen b -> rlpBytes b = rlpHeader 0x80 0xb7 (zlen b) ++ b.
Proof. unfold zlen. destruct b as [|x [|y b]]; simpl; [lia..|done]. Qed.

Lemma marshal_digest b : MarshalTo (NewBytes (keccak256 b)) = rlpHashPrefix ++ keccak256 b.
Proof.
  destruct (keccak256_hash b) as [Hl _].
  assert (zlen (keccak256 b) = 32) as Hz by (unfold zlen; rewrite Hl; done).
  rewrite MarshalTo_NewBytes, rlpBytes_long by (rewrite Hz; done). by rewrite Hz.
Qed.

Definition leafNode (key : list Z) (v : bytes) : Node := ShortNode [] key (ValueNode false v).

(** The encoding of a leaf, with the encoded key [kb]. *)
Definition leafBytes (kb v : bytes) : bytes :=
  marshalItemRlpSize (marshalListRlpSize [] (getRlpSize (zlen v) + zlen v + zlen kb) ++ kb) (zlen v) ++ v.

Lemma leaf_marshal key kb v :
  big_enough v -> rlpBytes (encodeCompact key) = kb -> zlen (encodeCompact key) <= 32 -> zlen kb <= 40 ->
  MarshalTo (bareNode (leafNode key v)) = leafBytes kb v.
Proof.
  intros Hv Hk Hc Hkb. unfold big_enough in Hv. pose proof (getRlpSize_bound (zlen v)).
  assert (two64 = 2 ^ 64) as H64 by done. assert (0 <= zlen kb) by (unfold zlen; lia).
  unfold leafBytes, marshalItemRlpSize, marshalListRlpSize.
  rewrite !marshalRlpSize_header by lia. cbn [bareNode bare leafNode].
  assert (Hp : concat (map MarshalTo [NewBytes (encodeCompact key); NewBytes v]) =
    kb ++ rlpHeader 0x80 0xb7 (zlen v) ++ v).
  { simpl. rewrite !MarshalTo_NewBytes, Hk, app_nil_r, rlpBytes_long by lia. done. }
  assert (Hl : zlen (kb ++ rlpHeader 0x80 0xb7 (zlen v) ++ v) = getRlpSize (zlen v) + zlen v + zlen kb).
  { rewrite !zlen_app, zlen_header by lia. lia. }
  rewrite MarshalTo_NewArray; rewrite Hp, Hl; [|lia]. by rewrite <- !app_assoc.
Qed.

(** A node with an element of 32 bytes or more is hashed. *)
Lemma close_large l v :
  v ∈ l -> (31 <= length (MarshalTo v))%nat ->
  close (NewArray l) = NewBytes (keccak256 (MarshalTo (NewArray l))).
Proof.
  intros Hin Hl. unfold close. pose proof (MarshalTo_elem l v Hin).
  destruct (Z.ltb_spec (Len (NewArray l)) 32) as [Hlt|]; [|done].
  apply Len_NewArray in Hlt. unfold zlen in Hlt. lia.
Qed.

Lemma bare_leaf key v :
  big_enough v -> bare (leafNode key v) = NewBytes (keccak256 (MarshalTo (bareNode (leafNode key v)))).
Proof.
  intros [Hv Hv']. apply (close_large _ (NewBytes v)); [right; left|].
  rewrite MarshalTo_NewBytes, rlpBytes_long by (unfold two64; lia). rewrite length_app. unfold zlen in Hv. lia.
Qed.

Lemma zlen_concat (ls : list bytes) c :
  0 <= c -> (forall l, l ∈ ls -> zlen l <= c) -> 0 <= zlen (concat ls) <= c * zlen ls.
Proof.
  intros Hc. induction ls as [|l ls IH]; intros H; [unfold zlen; simpl; lia|]. simpl concat. rewrite zlen_app.
  pose proof (H l ltac:(left)). specialize (IH ltac:(intros; apply H; by right)).
  unfold zlen in *. simpl length. lia.
Qed.

(** A branch of digests and empty edges. *)
Lemma branch_marshal (cells : list Node) (enc : list bytes) :
  Forall2 (fun c b => MarshalTo (bare c) = b /\ zlen b <= 33) cells enc -> zlen enc <= 16 ->
  let buf := concat enc ++ rlpEmptyValue in
  MarshalTo (bareNode (FullNode [] 0 Nil cells)) = marshalListRlpSize [] (zlen buf) ++ buf.
Proof.
  intros Hc Hl buf. cbn [bareNode bare].
  assert (Hp : concat (map MarshalTo (map bare cells ++ [NewNull])) = buf).
  { rewrite map_app, concat_app. simpl. rewrite MarshalTo_NewNull. unfold buf. f_equal.
    clear -Hc. induction Hc as [|c b cells enc [Hb _] _ IH]; [done|]. simpl. by rewrite Hb, IH. }
  assert (Hb : 0 <= zlen buf < two64).
  { unfold buf. rewrite zlen_app. pose proof (zlen_concat enc 33 ltac:(lia)) as H.
    assert (Hle : forall l, l ∈ enc -> zlen l <= 33).
    { intros l Hin. apply list_elem_of_lookup in Hin as [i Hi].
      by destruct (Forall2_lookup_r _ _ _ _ _ Hc Hi) as (c & _ & _ & ?). }
    specialize (H Hle). unfold two64. change (zlen rlpEmptyValue) with 1. lia. }
  unfold marshalListRlpSize. rewrite marshalRlpSize_header by lia.
  rewrite MarshalTo_NewArray; rewrite Hp; [done|lia].
Qed.

Lemma digest_cell b : zlen (rlpHashPrefix ++ keccak256 b) = 33.
Proof. destruct (keccak256_hash b) as [Hl _]. unfold zlen. rewrite length_app, Hl. done. Qed.
End nodes.

(** ** The fast hasher writes a trie *)

Section fast.
Context `{KK : !Keccak, RL : !FastRlp, RF : !RlpFormat}.
Context (num : Z) (cb : Z -> bytes).
Context (Hcb : forall i, 0 <= i < num -> big_enough (cb i)).

Lemma getCb_some i : 0 <= i < num -> getCb num cb i = Some (cb i).
Proof.
  intros Hi. unfold getCb. destruct (Hcb i Hi) as [H _].
  destruct (Z.ltb_spec num i), (Z.ltb_spec (zlen (cb i)) 32); try lia. done.
Qed.

(** A digest as a full node has it. *)
Definition cell (b : bytes) : bytes := rlpHashPrefix ++ keccak256 b.

Lemma groupLoop_spec n i buf :
  0 <= i -> i + Z.of_nat n <= num ->
  groupLoop num cb n i buf =
    Some (buf ++ concat (map (fun i => cell (leafBytes leafVal (cb i))) (seqZ i (Z.of_nat n)))).
Proof.
  revert i buf. induction n as [|n IH]; intros i buf Hi Hn; [simpl; by rewrite app_nil_r|].
  cbn [groupLoop]. rewrite getCb_some by lia. simpl mbind. rewrite IH by lia.
  rewrite (seqZ_cons i (Z.of_nat (S n))) by lia. cbn [map concat].
  replace (Z.succ i) with (i + 1) by lia. replace (Z.pred (Z.of_nat (S n))) with (Z.of_nat n) by lia.
  unfold fast_hash, cell, leafBytes. change (zlen leafVal) with 1.
  replace (getRlpSize (zlen (cb i)) + 1 + zlen (cb i)) with (getRlpSize (zlen (cb i)) + zlen (cb i) + 1) by lia.
  by rewrite !app_assoc.
Qed.

Lemma encodeSingle_spec dst v (b : bool) :
  encodeSingle dst v b = dst ++ keccak256 (leafBytes (if b then oneKey else zeroKey) v).
Proof. unfold encodeSingle, fast_hash, leafBytes. by destruct b. Qed.

(** The group [x] of sixteen values: from [lo] to [hi]. *)
Definition lo (x : Z) : Z := Z.max 1 (16 * x).
Definition hi (x : Z) : Z := Z.min num (16 * x + 16).

Definition groupCell (x j : Z) : Node :=
  if (lo x <=? 16 * x + j) && (16 * x + j <? hi x) then leafNode [16] (cb (16 * x + j)) else Nil.

Definition groupNode (x : Z) : Node :=
  if hi x - lo x =? 1 then leafNode [lo x - 16 * x; 16] (cb (lo x))
  else FullNode [] 0 Nil (map (groupCell x) (seqZ 0 16)).

Lemma leaf_cell key kb v :
  big_enough v -> rlpBytes (encodeCompact key) = kb -> zlen (encodeCompact key) <= 32 -> zlen kb <= 40 ->
  MarshalTo (bare (leafNode key v)) = cell (leafBytes kb v).
Proof.
  intros Hv Hk Hc Hkb. rewrite bare_leaf, (leaf_marshal key kb), marshal_digest by done. done.
Qed.

(** Sixteen edges of which those from [a] on, [n] of them, are digests. *)
Lemma cells_concat (f : Z -> Node) (g : Z -> bytes) a n :
  0 <= a -> 0 <= n -> a + n <= 16 ->
  (forall j, 0 <= j < 16 -> ~ (a <= j < a + n) -> f j = Nil) ->
  (forall j, a <= j < a + n -> MarshalTo (bare (f j)) = g j /\ zlen (g j) <= 33) ->
  let enc := map (fun j => if (a <=? j) && (j <? a + n) then g j else rlpEmptyValue) (seqZ 0 16) in
  Forall2 (fun c b => MarshalTo (bare c) = b /\ zlen b <= 33) (map f (seqZ 0 16)) enc /\
  concat enc = replicate (Z.to_nat a) 0x80 ++ concat (map g (seqZ a n)) ++
    replicate (Z.to_nat (16 - a - n)) 0x80.
Proof.
  intros Ha Hn Han Hnil Hg enc. split.
  - apply Forall2_fmap_2. apply Forall_Forall2_diag, Forall_seqZ. intros j Hj.
    destruct (Z.leb_spec a j), (Z.ltb_spec j (a + n)); simpl;
      try (rewrite Hnil by lia; simpl; rewrite MarshalTo_NewNull; done). apply Hg. lia.
  - assert (Hrep : forall lo len, 0 <= len -> (forall j, lo <= j < lo + len -> ~ (a <= j < a + n)) ->
      concat (map (fun j => if (a <=? j) && (j <? a + n) then g j else rlpEmptyValue) (seqZ lo len))
      = replicate (Z.to_nat len) 0x80).
    { intros l len Hlen. rewrite <- (Z2Nat.id len) by lia. rewrite Nat2Z.id. revert l.
      induction (Z.to_nat len) as [|m IH]; intros l H; [done|].
      rewrite seqZ_cons by lia. cbn [map concat replicate].
      replace (Z.pred (Z.of_nat (S m))) with (Z.of_nat m) by lia. rewrite IH by (intros; apply H; lia).
      specialize (H l ltac:(lia)). by destruct (Z.leb_spec a l), (Z.ltb_spec l (a + n)); try lia. }
    unfold enc. replace 16 with (a + (n + (16 - a - n))) at 1 by lia.
    rewrite seqZ_app, seqZ_app by lia. rewrite !map_app, !concat_app. f_equal; [|f_equal].
    + apply Hrep; lia.
    + f_equal. apply map_ext_in. intros j Hj. apply list_elem_of_In, elem_of_seqZ in Hj.
      destruct (Z.leb_spec a j), (Z.ltb_spec j (a + n)); (lia || done).
    + apply Hrep; lia.
Qed.

Lemma groupCell_at x j :
  0 <= x -> lo x <= 16 * x + j < hi x ->
  MarshalTo (bare (groupCell x j)) = cell (leafBytes leafVal (cb (16 * x + j))).
Proof.
  intros Hx Hj. unfold groupCell, hi, lo in *.
  destruct (Z.leb_spec (Z.max 1 (16 * x)) (16 * x + j)), (Z.ltb_spec (16 * x + j) (Z.min num (16 * x + 16)));
    try lia. simpl. apply leaf_cell; try done. apply Hcb. lia.
Qed.

Lemma group_full_marshal x :
  0 <= x -> lo x < hi x ->
  let buf := replicate (Z.to_nat (lo x - 16 * x)) 0x80 ++
    concat (map (fun i => cell (leafBytes leafVal (cb i))) (seqZ (lo x) (hi x - lo x))) ++
    replicate (Z.to_nat (16 - (hi x - 16 * x))) 0x80 ++ rlpEmptyValue in
  MarshalTo (bareNode (FullNode [] 0 Nil (map (groupCell x) (seqZ 0 16)))) =
    marshalListRlpSize [] (zlen buf) ++ buf.
Proof.
  intros Hx Hlt buf.
  destruct (cells_concat (groupCell x) (fun j => cell (leafBytes leafVal (cb (16 * x + j))))
    (lo x - 16 * x) (hi x - lo x)) as [HF Hc]; try (unfold lo, hi in *; lia).
  - intros j Hj Hout. unfold groupCell.
    destruct (Z.leb_spec (lo x) (16 * x + j)), (Z.ltb_spec (16 * x + j) (hi x)); try done. lia.
  - intros j Hj. split; [apply groupCell_at; [done|lia]|]. unfold cell. rewrite digest_cell. lia.
  - rewrite (branch_marshal _ _ HF) by done. rewrite Hc.
    assert (E : buf = (replicate (Z.to_nat (lo x - 16 * x)) 128 ++
      concat (map (fun j => cell (leafBytes leafVal (cb (16 * x + j)))) (seqZ (lo x - 16 * x) (hi x - lo x))) ++
      replicate (Z.to_nat (16 - (lo x - 16 * x) - (hi x - lo x))) 128) ++ rlpEmptyValue); [|by rewrite E].
    unfold buf. rewrite <- !app_assoc. f_equal. f_equal.
    + f_equal. replace (lo x) with (16 * x + (lo x - 16 * x)) at 1 by lia.
      rewrite <- fmap_add_seqZ. rewrite map_map. done.
    + do 2 f_equal. lia.
Qed.

Lemma deriveGroup_spec x dst :
  0 <= x < 8 -> lo x < hi x ->
  deriveGroup num cb dst (lo x) (hi x) = Some (dst ++ keccak256 (MarshalTo (bareNode (groupNode x)))).
Proof.
  intros Hx Hlt. unfold deriveGroup, groupNode.
  assert (Hlo : lo x = 1 /\ x = 0 \/ lo x = 16 * x /\ 16 <= lo x) by (unfold lo; lia).
  assert (Hhi : hi x <= num /\ hi x <= 16 * x + 16) by (unfold hi; lia).
  destruct (Z.eqb_spec (hi x - lo x) 1) as [Hn|Hn].
  - rewrite getCb_some by lia. simpl mbind. f_equal.
    destruct Hlo as [[-> ->]|[-> Hlo]].
    + change (1 - 16 * 0) with 1. change (1 =? 1) with true. cbv iota. rewrite encodeSingle_spec.
      by rewrite (leaf_marshal [1; 16] oneKey) by (try done; apply Hcb; unfold lo, hi in *; lia).
    + destruct (Z.eqb_spec (16 * x) 1); [lia|]. rewrite encodeSingle_spec, Z.sub_diag.
      by rewrite (leaf_marshal [0; 16] zeroKey) by (try done; apply Hcb; unfold lo, hi in *; lia).
  - rewrite (group_full_marshal x) by lia. rewrite groupLoop_spec by lia. simpl mbind.
    rewrite Z2Nat.id by lia. do 2 f_equal. unfold fast_hash. do 2 f_equal.
    assert (Hbuf : forall b1 b2 : bytes, b1 = b2 -> marshalListRlpSize [] (zlen b1) ++ b1 = marshalListRlpSize [] (zlen b2) ++ b2)
      by congruence.
    apply Hbuf. rewrite !app_assoc. f_equal. unfold appendEmpty.
    destruct Hlo as [[-> ->]|[-> Hlo]].
    + simpl. destruct (Z.ltb_spec (hi 0 - 1) 16); [|lia]. by replace (15 - (hi 0 - 1)) with (16 - (hi 0 - 0)) by lia.
    + destruct (Z.eqb_spec (16 * x) 1); [lia|]. rewrite Z.sub_diag. simpl.
      destruct (Z.ltb_spec (hi x - 16 * x) 16); [done|].
      replace (16 - (hi x - 16 * x)) with 0 by lia. by rewrite app_nil_r.
Qed.

Definition ngroups : Z := (num + 15) / 16.

Context (Hnum : 2 <= num <= 128).

Lemma ngroups_bound : 1 <= ngroups <= 8 /\ 16 * (ngroups - 1) < num <= 16 * ngroups.
Proof.
  unfold ngroups. pose proof (Z.div_mod (num + 15) 16 ltac:(lia)).
  pose proof (Z.mod_pos_bound (num + 15) 16 ltac:(lia)). lia.
Qed.

Lemma group_nonempty x : 0 <= x < ngroups -> lo x < hi x.
Proof. intros Hx. pose proof ngroups_bound. unfold lo, hi. lia. Qed.

Lemma groups_spec n x dst :
  0 <= x <= ngroups -> ngroups - x <= Z.of_nat n ->
  groups num cb n (16 * x) num dst =
    Some (dst ++ concat (map (fun x => cell (MarshalTo (bareNode (groupNode x)))) (seqZ x (ngroups - x)))).
Proof.
  pose proof ngroups_bound as Hb. revert x dst. induction n as [|n IH]; intros x dst Hx Hn.
  - rewrite seqZ_nil by lia. simpl. by rewrite app_nil_r.
  - cbn [groups]. destruct (Z.ltb_spec (16 * x) num) as [Hlt|Hge].
    + assert (Hini : (if 16 * x =? 0 then 1 else 16 * x) = lo x)
        by (unfold lo; destruct (Z.eqb_spec (16 * x) 0); lia).
      rewrite Hini. change (Z.min num (16 * x + 16)) with (hi x).
      rewrite deriveGroup_spec by (try apply group_nonempty; lia). simpl mbind.
      replace (16 * x + 16) with (16 * (x + 1)) by lia. rewrite IH by lia.
      rewrite (seqZ_cons x (ngroups - x)) by lia. cbn [map concat]. unfold cell at 2.
      replace (Z.succ x) with (x + 1) by lia. replace (Z.pred (ngroups - x)) with (ngroups - (x + 1)) by lia.
      by rewrite !app_assoc.
    + rewrite seqZ_nil by lia. simpl. by rewrite app_nil_r.
Qed.

Definition rootCell (x : Z) : Node :=
  if x <? ngroups then groupNode x else if x =? 8 then leafNode [0; 16] (cb 0) else Nil.

Definition rootNode : Node := FullNode [] 0 Nil (map rootCell (seqZ 0 16)).

Lemma bare_group x :
  0 <= x < ngroups -> MarshalTo (bare (groupNode x)) = cell (MarshalTo (bareNode (groupNode x))).
Proof.
  intros Hx. pose proof (group_nonempty x Hx) as Hlt. pose proof ngroups_bound.
  unfold cell. rewrite <- marshal_digest. f_equal. unfold groupNode.
  destruct (Z.eqb_spec (hi x - lo x) 1); [apply bare_leaf, Hcb; unfold lo, hi in *; lia|].
  rewrite bare_inner by done. cbn [bareNode].
  apply (close_large _ (bare (groupCell x (lo x - 16 * x)))).
  - apply elem_of_app. left. rewrite (list_elem_of_fmap bare). eexists. split; [done|].
    rewrite (list_elem_of_fmap (groupCell x)). eexists. split; [done|]. apply elem_of_seqZ. unfold lo, hi in *. lia.
  - rewrite groupCell_at by lia. unfold cell.
    pose proof (digest_cell (leafBytes leafVal (cb (16 * x + (lo x - 16 * x))))) as H'.
    unfold zlen in H'. lia.
Qed.

Lemma root_marshal :
  let dst := concat (map (fun x => cell (MarshalTo (bareNode (groupNode x)))) (seqZ 0 ngroups)) ++
    replicate (Z.to_nat (8 - ngroups)) 0x80 ++ cell (leafBytes zeroKey (cb 0)) ++ replicate 8 0x80 in
  MarshalTo (bareNode rootNode) = marshalListRlpSize [] (zlen dst) ++ dst.
Proof.
  pose proof ngroups_bound as Hb. intros dst. unfold rootNode.
  set (g x := if x <? ngroups then cell (MarshalTo (bareNode (groupNode x)))
              else if x =? 8 then cell (leafBytes zeroKey (cb 0)) else rlpEmptyValue).
  destruct (cells_concat rootCell g 0 16) as [HF Hc]; try lia.
  - intros j Hj. unfold rootCell, g. destruct (Z.ltb_spec j ngroups); [|destruct (Z.eqb_spec j 8)].
    + rewrite bare_group by lia. split; [done|]. unfold cell. rewrite digest_cell. lia.
    + rewrite (leaf_cell _ zeroKey) by (try done; apply Hcb; lia). split; [done|].
      unfold cell. rewrite digest_cell. lia.
    + simpl. rewrite MarshalTo_NewNull. done.
  - rewrite (branch_marshal _ _ HF) by done. rewrite Hc.
    assert (Hr : forall m l, (forall j, l <= j < l + Z.of_nat m -> g j = rlpEmptyValue) ->
      concat (map g (seqZ l (Z.of_nat m))) = replicate m 0x80).
    { induction m as [|m IH]; intros l Hj; [done|]. rewrite seqZ_cons by lia. cbn [map concat replicate].
      replace (Z.pred (Z.of_nat (S m))) with (Z.of_nat m) by lia. rewrite IH by (intros; apply Hj; lia).
      by rewrite Hj by lia. }
    assert (Hg : concat (map g (seqZ 0 16)) ++ rlpEmptyValue = dst).
    { replace 16 with (ngroups + (Z.of_nat (Z.to_nat (8 - ngroups)) + (1 + Z.of_nat 7))) by lia.
      rewrite !seqZ_app by lia. rewrite !map_app, !concat_app. unfold dst. rewrite <- !app_assoc.
      f_equal; [|f_equal; [|f_equal]].
      - f_equal. apply map_ext_in. intros j Hj. apply list_elem_of_In, elem_of_seqZ in Hj.
        unfold g. destruct (Z.ltb_spec j ngroups); [done|lia].
      - apply Hr. intros j Hj. unfold g. destruct (Z.ltb_spec j ngroups), (Z.eqb_spec j 8); (lia || done).
      - replace (0 + ngroups + Z.of_nat (Z.to_nat (8 - ngroups))) with 8 by lia.
        rewrite (seqZ_cons 8 1), seqZ_nil by lia. cbn [map concat]. unfold g.
        destruct (Z.ltb_spec 8 ngroups); [lia|]. by rewrite app_nil_r.
      - rewrite Hr; [done|]. intros j Hj. unfold g. destruct (Z.ltb_spec j ngroups), (Z.eqb_spec j 8); (lia || done). }
    change (Z.to_nat (16 - 0 - 16)) with 0%nat. change (Z.to_nat 0) with 0%nat.
    cbn [replicate app]. rewrite app_nil_r. by rewrite Hg.
Qed.

Lemma FastHasher_Hash_root : FastHasher_Hash num cb = Some (keccak256 (MarshalTo (bareNode rootNode))).
Proof.
  pose proof ngroups_bound as Hb. unfold FastHasher_Hash. destruct (Z.eqb_spec num 1); [lia|].
  replace (Z.min num 128) with num by lia.
  pose proof (groups_spec 8 0 [] ltac:(lia) ltac:(lia)) as Hg. change (16 * 0) with 0 in Hg.
  rewrite Hg. simpl mbind. rewrite getCb_some by lia. simpl mbind.
  rewrite encodeSingle_spec, root_marshal. rewrite Z.sub_0_r. unfold appendEmpty, fast_hash. do 2 f_equal.
  replace ((128 - num) / 16) with (8 - ngroups).
  - unfold cell at 3 6. simpl app. rewrite <- !app_assoc. done.
  - apply (Z.div_unique_pos _ _ _ (128 - num - 16 * (8 - ngroups))); lia.
Qed.

(** *** Its contents *)

Section contents.
Context (G : bytes -> option (option Node)).

Lemma maps_leaf key w k v : maps G (leafNode key w) k v <-> k = key /\ v = w.
Proof.
  unfold leafNode. rewrite maps_short_inv. setoid_rewrite maps_value_inv. split.
  - intros (? & -> & -> & ->). by rewrite app_nil_r.
  - intros [-> ->]. exists []. by rewrite app_nil_r.
Qed.

Lemma edge_cells (f : Z -> Node) x :
  0 <= x -> getEdge Nil (map f (seqZ 0 16)) x =
    if x =? 16 then Ok Nil else if x <? 16 then Ok (f x) else Panic.
Proof.
  intros Hx. unfold getEdge. destruct (Z.eqb_spec x 16); [done|].
  rewrite (list_lookup_fmap f). destruct (Z.ltb_spec x 16).
  - rewrite lookup_seqZ_lt by lia. simpl. do 2 f_equal. lia.
  - by rewrite lookup_seqZ_ge by lia.
Qed.

Lemma maps_cells (f : Z -> Node) k v :
  maps G (FullNode [] 0 Nil (map f (seqZ 0 16))) k v <->
  exists x k', 0 <= x < 16 /\ k = x :: k' /\ maps G (f x) k' v.
Proof.
  rewrite maps_full_inv. split.
  - intros (x & c & k' & -> & Hx & Ec & H). rewrite edge_cells in Ec by done.
    destruct (Z.eqb_spec x 16); [injection Ec as <-; by apply maps_Nil in H|].
    destruct (Z.ltb_spec x 16); [|done]. injection Ec as <-. exists x, k'. split; [lia|done].
  - intros (x & k' & Hx & -> & H). exists x, (f x), k'. rewrite edge_cells by lia.
    destruct (Z.eqb_spec x 16), (Z.ltb_spec x 16); try lia. split_and!; (done || lia).
Qed.

Lemma wf_cells (f : Z -> Node) x y :
  (forall x, 0 <= x < 16 -> wf G false (f x)) -> 0 <= x < 16 -> 0 <= y < 16 -> x <> y ->
  f x <> Nil -> f y <> Nil -> wf G false (FullNode [] 0 Nil (map f (seqZ 0 16))).
Proof.
  intros Hf Hx Hy Hne Nx Ny. constructor; [done|constructor| |].
  - intros i c. rewrite (list_lookup_fmap f). destruct (seqZ 0 16 !! i) as [z|] eqn:E; [|done].
    intros [= <-]. apply lookup_seqZ in E as [-> ?]. apply Hf. lia.
  - exists x, y, (f x), (f y). rewrite !edge_cells by lia.
    destruct (Z.eqb_spec x 16), (Z.ltb_spec x 16), (Z.eqb_spec y 16), (Z.ltb_spec y 16); try lia.
    split_and!; (done || lia).
Qed.

Lemma nibble_lt x : 0 <= x < 16 -> nibble x.
Proof. done. Qed.

Lemma wf_leaf key v : tkey key -> wf G false (leafNode key v).
Proof. intros. by constructor. Qed.

Lemma groupCell_in x j :
  lo x <= 16 * x + j < hi x -> groupCell x j = leafNode [16] (cb (16 * x + j)).
Proof.
  intros H. unfold groupCell.
  destruct (Z.leb_spec (lo x) (16 * x + j)), (Z.ltb_spec (16 * x + j) (hi x)); (done || lia).
Qed.

Lemma groupCell_out x j : ~ (lo x <= 16 * x + j < hi x) -> groupCell x j = Nil.
Proof.
  intros H. unfold groupCell.
  destruct (Z.leb_spec (lo x) (16 * x + j)), (Z.ltb_spec (16 * x + j) (hi x)); (done || lia).
Qed.

Lemma wf_group x : 0 <= x < ngroups -> wf G false (groupNode x).
Proof.
  intros Hx. pose proof (group_nonempty x Hx) as Hlt. unfold groupNode.
  destruct (Z.eqb_spec (hi x - lo x) 1).
  - apply wf_leaf. right. split; [unfold nibble, lo in *; lia|by left].
  - apply (wf_cells _ (lo x - 16 * x) (lo x - 16 * x + 1)); try (unfold lo, hi in *; lia).
    + intros j Hj. destruct (decide (lo x <= 16 * x + j < hi x)).
      * rewrite groupCell_in by done. apply wf_leaf. by left.
      * rewrite groupCell_out by done. constructor.
    + by rewrite groupCell_in by lia.
    + by rewrite groupCell_in by lia.
Qed.

Lemma maps_group x k v :
  0 <= x < ngroups ->
  maps G (groupNode x) k v <-> exists j, lo x <= 16 * x + j < hi x /\ k = [j; 16] /\ v = cb (16 * x + j).
Proof.
  intros Hx. pose proof (group_nonempty x Hx) as Hlt. unfold groupNode.
  destruct (Z.eqb_spec (hi x - lo x) 1).
  - rewrite maps_leaf. split.
    + intros [-> ->]. exists (lo x - 16 * x). split; [lia|]. split; [done|]. f_equal. lia.
    + intros (j & Hj & -> & ->). assert (j = lo x - 16 * x) as -> by lia. split; [done|]. f_equal. lia.
  - rewrite maps_cells. split.
    + intros (j & k' & Hj & -> & H). exists j. destruct (decide (lo x <= 16 * x + j < hi x)).
      * rewrite groupCell_in in H by done. apply maps_leaf in H as [-> ->]. done.
      * rewrite groupCell_out in H by done. by apply maps_Nil in H.
    + intros (j & Hj & -> & ->). exists j, [16]. split; [unfold lo, hi in *; lia|]. split; [done|].
      rewrite groupCell_in by done. by apply maps_leaf.
Qed.

(** The key of the value [i]. *)
Definition hexKey (i : Z) : list Z := if i =? 0 then [8; 0; 16] else [i / 16; i mod 16; 16].

Lemma wf_rootNode : wf G false rootNode.
Proof.
  pose proof ngroups_bound. apply (wf_cells _ 0 8); try lia.
  - intros x Hx. unfold rootCell. destruct (Z.ltb_spec x ngroups); [apply wf_group; lia|].
    destruct (x =? 8); [|constructor]. apply wf_leaf. right. split; [done|by left].
  - unfold rootCell, groupNode. destruct (Z.ltb_spec 0 ngroups); [|lia]. by destruct (_ =? 1).
  - unfold rootCell. by destruct (Z.ltb_spec 8 ngroups); [lia|].
Qed.

Lemma maps_rootNode k v :
  maps G rootNode k v <-> exists i, 0 <= i < num /\ k = hexKey i /\ v = cb i.
Proof.
  pose proof ngroups_bound. unfold rootNode. rewrite maps_cells. split.
  - intros (x & k' & Hx & -> & H'). unfold rootCell in H'. destruct (Z.ltb_spec x ngroups).
    + apply maps_group in H' as (j & Hj & -> & ->); [|lia]. exists (16 * x + j).
      split; [unfold lo, hi in Hj; lia|]. split; [|done]. unfold hexKey, lo, hi in *.
      destruct (Z.eqb_spec (16 * x + j) 0); [lia|].
      rewrite <- (Z.div_unique_pos (16 * x + j) 16 x j) by lia.
      by rewrite <- (Z.mod_unique_pos (16 * x + j) 16 x j) by lia.
    + destruct (Z.eqb_spec x 8) as [->|]; [|by apply maps_Nil in H'].
      apply maps_leaf in H' as [-> ->]. exists 0. split; [lia|done].
  - intros (i & Hi & -> & ->). unfold hexKey. destruct (Z.eqb_spec i 0) as [->|].
    + exists 8, [0; 16]. split; [lia|]. split; [done|]. unfold rootCell.
      destruct (Z.ltb_spec 8 ngroups); [lia|]. by apply maps_leaf.
    + pose proof (Z.div_mod i 16 ltac:(lia)). pose proof (Z.mod_pos_bound i 16 ltac:(lia)).
      exists (i / 16), [i mod 16; 16]. split; [lia|]. split; [done|]. unfold rootCell.
      destruct (Z.ltb_spec (i / 16) ngroups); [|lia]. apply maps_group; [lia|].
      exists (i mod 16). split; [unfold lo, hi; lia|]. split; [done|]. f_equal. lia.
Qed.
End contents.
End fast.

(** ** Both ways give the root of the list *)

Section roots.
Context `{KK : !Keccak, RL : !FastRlp, RF : !RlpFormat}.

(** The key of a value is its encoded index. *)
Definition indexKey (i : Z) : bytes := MarshalTo (NewUint i).

Definition indexItems (num : Z) (h : Z -> bytes) : items :=
  map (fun i => (bytesToHexNibbles (indexKey i), h i)) (seqZ 0 num).

Lemma indexKey_inj i j : is_u64 i -> is_u64 j -> indexKey i = indexKey j -> i = j.
Proof.
  unfold indexKey. intros Hi Hj E. apply (f_equal Parse) in E. rewrite !Parse_MarshalTo, !norm_NewUint in E.
  injection E as E. apply (f_equal GetUint64) in E. rewrite !GetUint64_NewUint in E by done. by injection E.
Qed.

Lemma indexKey_bytes i : is_u64 i -> Forall is_byte (indexKey i).
Proof.
  intros Hi. unfold indexKey. rewrite MarshalTo_NewUint by done.
  pose proof (big_bytes_is_byte i) as Hb. pose proof (length_big_bytes i 8 ltac:(exact Hi)).
  assert (Hh : Forall is_byte (rlpHeader 0x80 0xb7 (zlen (big_bytes i)))).
  { unfold rlpHeader. assert (0 <= zlen (big_bytes i) <= 8) by (unfold zlen; lia).
    destruct (Z.ltb_spec (zlen (big_bytes i)) 56); [|lia]. constructor; [unfold is_byte; lia|constructor]. }
  unfold rlpBytes. destruct (big_bytes i) as [|x [|y b]]; try (by apply Forall_app).
  destruct (x <? 128); [done|]. apply Forall_app. split; [|done]. by repeat constructor.
Qed.

Lemma hexKey_indexKey i : 0 <= i < 128 -> bytesToHexNibbles (indexKey i) = hexKey i.
Proof.
  intros Hi. unfold indexKey, hexKey. rewrite MarshalTo_NewUint by (unfold is_u64, two64; lia).
  destruct (Z.eqb_spec i 0) as [->|]; [done|].
  assert (big_bytes i = [i]) as ->.
  { destruct (big_bytes_intsize i ltac:(unfold two64; lia)) as [Hl _].
    assert (intsize i = 1) as E by (unfold intsize; destruct (Z.ltb_spec i (2 ^ 8)); lia).
    rewrite E in Hl. rewrite <- (be_set_bytes (big_bytes i)) by apply big_bytes_is_byte.
    rewrite set_bytes_big_bytes, Hl by lia. unfold be_bytes. simpl. by rewrite Z.mod_small by lia. }
  simpl. destruct (Z.ltb_spec i 128); [|lia]. done.
Qed.

(** A trie with the values under their indices. *)
Definition lists (G : bytes -> option (option Node)) (n : Node) (num : Z) (h : Z -> bytes) : Prop :=
  forall k v, maps G n k v <-> exists i, 0 <= i < num /\ k = bytesToHexNibbles (indexKey i) /\ v = h i.

Lemma lists_represents G n num h :
  num <= 2 ^ 63 -> lists G n num h -> represents G n (indexItems num h).
Proof.
  unfold lists. intros Hn HL. assert (Hu : forall i, i ∈ seqZ 0 num -> is_u64 i)
    by (intros i Hi%elem_of_seqZ; unfold is_u64, two64; lia). split.
  - apply (NoDup_fmap_2_strong (fun i => (bytesToHexNibbles (indexKey i), h i))); [|apply NoDup_seqZ].
    intros i j Hi Hj [= E _]. apply bytesToHexNibbles_inj in E; [|apply indexKey_bytes; auto..].
    apply indexKey_inj; auto.
  - intros k v. unfold indexItems. rewrite (list_elem_of_fmap (fun i => (bytesToHexNibbles (indexKey i), h i))), HL.
    setoid_rewrite elem_of_seqZ. split.
    + intros (i & [= -> ->] & Hi). exists i. split; [lia|done].
    + intros (i & Hi & -> & ->). exists i. split; [done|lia].
Qed.

(** *** The slow way *)

Lemma slowLoop_spec h n i t :
  0 <= i -> i + Z.of_nat n <= 2 ^ 63 -> (exists m, holds noStorage t m) -> lists noStorage (t_root t) i h ->
  exists t', slowLoop n i h t = Ok t' /\ (exists m, holds noStorage t' m) /\
    lists noStorage (t_root t') (i + Z.of_nat n) h.
Proof.
  revert i t. induction n as [|n IH]; intros i t Hi Hn [m Hm] HL.
  - exists t. rewrite Z.add_0_r. eauto.
  - assert (Hu : is_u64 i) by (unfold is_u64, two64; lia).
    destruct (Insert_holds _ t m (indexKey i) (h i) Hm (indexKey_bytes i Hu)) as (t1 & E & Hm1).
    destruct (IH (i + 1) t1) as (t' & E' & Hm' & HL'); [lia..|by eexists| |].
    + intros k v. rewrite (holds_maps _ _ _ Hm1). setoid_rewrite lookup_insert_Some. split.
      * intros (b & -> & [[<- <-]|[Hne Hb]]); [exists i; split; [lia|done]|].
        assert (maps noStorage (t_root t) (bytesToHexNibbles b) v) as (j & Hj & Eb & ->)%HL
          by (apply (holds_maps _ _ _ Hm); eauto).
        exists j. split; [lia|done].
      * intros (j & Hj & -> & ->). exists (indexKey j). split; [done|].
        destruct (decide (i = j)) as [->|Hne]; [by left|right]. split.
        { intros E1. apply indexKey_inj in E1; [done|done|unfold is_u64, two64; lia]. }
        apply (holds_get _ _ _ _ _ Hm); [apply indexKey_bytes; unfold is_u64, two64; lia|].
        apply HL. exists j. split; [lia|done].
    + exists t'. cbn [slowLoop]. unfold indexKey in E. rewrite E. simpl. split; [done|]. split; [done|].
      by replace (i + Z.of_nat (S n)) with (i + 1 + Z.of_nat n) by lia.
Qed.

Lemma deriveSlow_spec num h : 0 <= num <= 2 ^ 63 -> deriveSlow num h = Ok (TRIE (indexItems num h)).
Proof.
  intros Hn. unfold deriveSlow.
  destruct (slowLoop_spec h (Z.to_nat num) 0 (Trie_Txn NewTrie)) as (t & -> & [m Hm] & HL); [lia..| | |].
  - exists ∅. by apply holds_New.
  - intros k v. split; [by intros ?%maps_Nil|]. intros (i & Hi & _). lia.
  - simpl. destruct (Txn_Hash_holds _ _ _ Hm) as (root' & w & -> & _). simpl. f_equal.
    apply (holds_items _ _ _ _ Hm). apply lists_represents; [lia|].
    by replace num with (0 + Z.of_nat (Z.to_nat num)) by lia.
Qed.

(** *** The fast way *)

Lemma valid_cells G ep (f : Z -> Node) :
  0 <= ep -> (forall x, 0 <= x < 16 -> valid G ep (f x)) -> valid G ep (FullNode [] 0 Nil (map f (seqZ 0 16))).
Proof.
  intros He Hf. constructor; [done|constructor| |done]. intros i c. rewrite (list_lookup_fmap f).
  destruct (seqZ 0 16 !! i) as [z|] eqn:E; [|done]. intros [= <-]. apply lookup_seqZ in E as [-> ?]. apply Hf. lia.
Qed.

Lemma valid_leafNode G ep key v : valid G ep (leafNode key v).
Proof. by repeat constructor. Qed.

Lemma valid_rootNode G num cb : valid G 0 (rootNode num cb).
Proof.
  assert (Hg : forall x, valid G 0 (groupNode num cb x)).
  { intros x. unfold groupNode. destruct (_ =? 1); [apply valid_leafNode|]. apply valid_cells; [done|].
    intros j _. unfold groupCell. destruct (_ && _); [apply valid_leafNode|constructor]. }
  apply valid_cells; [done|]. intros x _. unfold rootCell. destruct (_ <? _); [done|].
  destruct (_ =? 8); [apply valid_leafNode|constructor].
Qed.

Lemma FastHasher_Hash_TRIE num cb :
  1 <= num <= 128 -> (forall i, 0 <= i < num -> big_enough (cb i)) ->
  FastHasher_Hash num cb = Some (TRIE (indexItems num cb)).
Proof.
  intros Hn Hcb. destruct (Z.eq_dec num 1) as [->|].
  - unfold FastHasher_Hash, encodeOneItem. simpl (1 =? 1). cbv iota.
    rewrite (getCb_some 1 cb Hcb) by lia. simpl mbind. f_equal. unfold fast_hash. simpl app.
    rewrite <- (represents_TRIE noStorage 0 (leafNode [8; 0; 16] (cb 0))).
    + rewrite (leaf_marshal [8; 0; 16] singleKey) by (try done; apply Hcb; lia). done.
    + apply wf_leaf. do 2 (right; split; [done|]). by left.
    + apply valid_leafNode.
    + done.
    + apply lists_represents; [lia|]. intros k v. rewrite maps_leaf. split.
      * intros [-> ->]. exists 0. rewrite hexKey_indexKey by lia. split; [lia|done].
      * intros (i & Hi & -> & ->). assert (i = 0) as -> by lia. by rewrite hexKey_indexKey by lia.
  - rewrite FastHasher_Hash_root by (done || lia). f_equal.
    apply (represents_TRIE noStorage 0); [apply wf_rootNode; lia|apply valid_rootNode|done|].
    apply lists_represents; [lia|]. intros k v. rewrite maps_rootNode by lia. split.
    + intros (i & Hi & -> & ->). exists i. by rewrite hexKey_indexKey by lia.
    + intros (i & Hi & -> & ->). exists i. by rewrite hexKey_indexKey by lia.
Qed.

(** *** When the fast way gives up *)

Section gives_up.
Context (num : Z) (cb : Z -> bytes).

Definition long (i : Z) : Prop := 32 <= zlen (cb i).

Lemma getCb_long i v : getCb num cb i = Some v -> long i.
Proof.
  unfold getCb, long. destruct (num <? i); [done|]. by destruct (Z.ltb_spec (zlen (cb i)) 32).
Qed.

Lemma groupLoop_long n i buf r :
  groupLoop num cb n i buf = Some r -> forall j, i <= j < i + Z.of_nat n -> long j.
Proof.
  revert i buf. induction n as [|n IH]; intros i buf E j Hj; [lia|]. cbn [groupLoop] in E.
  destruct (getCb num cb i) eqn:Eg; [|done]. simpl in E.
  destruct (decide (j = i)) as [->|]; [by eapply getCb_long|]. eapply IH; [exact E|lia].
Qed.

Lemma deriveGroup_long dst from to r :
  deriveGroup num cb dst from to = Some r -> forall j, from <= j < to -> long j.
Proof.
  unfold deriveGroup. intros E j Hj. destruct (Z.eqb_spec (to - from) 1).
  - destruct (getCb num cb from) eqn:Eg; [|done]. assert (j = from) as -> by lia. by eapply getCb_long.
  - destruct (groupLoop _ _ _ _ _) eqn:Eg; [|done]. eapply groupLoop_long; [exact Eg|lia].
Qed.

Lemma groups_long n i step1 dst r :
  groups num cb n i step1 dst = Some r ->
  forall j, Z.max 1 i <= j -> j < step1 -> j < i + 16 * Z.of_nat n -> long j.
Proof.
  revert i dst. induction n as [|n IH]; intros i dst E j H1 H2 H3; [lia|]. cbn [groups] in E.
  destruct (Z.ltb_spec i step1); [|lia].
  destruct (deriveGroup _ _ _ _ _) as [dst'|] eqn:Eg; [|done]. simpl in E.
  destruct (decide (j < i + 16)).
  - eapply deriveGroup_long; [exact Eg|]. destruct (Z.eqb_spec i 0); lia.
  - eapply IH; [exact E|lia..].
Qed.

Lemma FastHasher_Hash_long r :
  1 <= num <= 128 -> FastHasher_Hash num cb = Some r -> forall i, 0 <= i < num -> long i.
Proof.
  unfold FastHasher_Hash. intros Hn E i Hi. destruct (Z.eqb_spec num 1).
  - unfold encodeOneItem in E. destruct (getCb num cb 0) eqn:Eg; [|done].
    assert (i = 0) as -> by lia. by eapply getCb_long.
  - destruct (groups _ _ _ _ _ _) eqn:Eg; [|done]. simpl in E.
    destruct (getCb num cb 0) eqn:E0; [|done].
    destruct (decide (i = 0)) as [->|]; [by eapply getCb_long|]. eapply groups_long; [exact Eg|lia..].
Qed.
End gives_up.

(** What the fast hasher returns is the root. *)
Lemma FastHasher_Hash_items (num : Z) (h : Z -> bytes) root :
  (forall i, 0 <= i < num -> zlen (h i) < 2 ^ 60) -> FastHasher_Hash num h = Some root -> 1 <= num <= 128 ->
  root = TRIE (indexItems num h).
Proof.
  intros Hlen E Hr. rewrite FastHasher_Hash_TRIE in E; [by injection E|done|].
  intros i Hi. split; [|by apply Hlen]. by eapply FastHasher_Hash_long.
Qed.

Lemma CalculateRoot_TRIE (num : Z) (h : Z -> bytes) :
  0 <= num <= 2 ^ 63 -> (forall i, 0 <= i < num -> zlen (h i) < 2 ^ 60) ->
  CalculateRoot num h = Ok (TRIE (indexItems num h)).
Proof.
  intros Hn Hlen. unfold CalculateRoot. destruct (Z.eqb_spec num 0) as [->|]; [done|].
  destruct (Z.leb_spec num 128); [destruct (FastHasher_Hash num h) as [dst|] eqn:E|].
  - rewrite (FastHasher_Hash_items num h dst) by (done || lia). by rewrite BytesToHash_TRIE.
  - rewrite deriveSlow_spec by done. simpl. by rewrite BytesToHash_TRIE.
  - rewrite deriveSlow_spec by done. simpl. by rewrite BytesToHash_TRIE.
Qed.

(** The root of a list of encoded values never fails. *)
Lemma calculateRootWithRlp_TRIE {A} (f : A -> Value) (l : list A) :
  zlen l <= 2 ^ 63 -> (forall x, x ∈ l -> zlen (MarshalTo (f x)) < 2 ^ 60) ->
  calculateRootWithRlp (zlen l) (elements f l) =
    Ok (TRIE (indexItems (zlen l) (fun i => MarshalTo (elements f l i)))).
Proof.
  intros Hl Hx. apply CalculateRoot_TRIE; [unfold zlen in *; lia|]. intros i Hi. unfold elements.
  destruct (lookup_lt_is_Some_2 l (Z.to_nat i)) as [x E]; [unfold zlen in Hi; lia|]. rewrite E.
  apply Hx. by eapply list_elem_of_lookup_2.
Qed.

(** C16: the root of a list is the Merkle Patricia root of its values under their
    RLP-encoded indices: the fast hasher, which writes the nodes of at most 128 values
    of 32 bytes or more without building a trie, agrees with the trie it replaces,
    and gives up on every other list. *)
Theorem CalculateRoot_correct (num : Z) (h : Z -> bytes) :
  0 <= num <= 2 ^ 63 -> (forall i, 0 <= i < num -> zlen (h i) < 2 ^ 60) ->
  CalculateRoot num h = Ok (TRIE (indexItems num h)) /\
  forall root, FastHasher_Hash num h = Some root -> 1 <= num <= 128 ->
    deriveSlow num h = Ok root.
Proof.
  intros Hn Hlen. split; [by apply CalculateRoot_TRIE|]. intros root E Hr. rewrite deriveSlow_spec by done.
  by rewrite (FastHasher_Hash_items num h root).
Qed.
End roots.

(** *** At three values *)

Import (hints) Demo.

Definition demo_list (i : Z) : bytes := replicate 40 (i + 1).

Lemma CalculateRoot_correct_witness :
  CalculateRoot 3 demo_list = Ok (TRIE (indexItems 3 demo_list)) /\
  exists root, FastHasher_Hash 3 demo_list = Some root /\ deriveSlow 3 demo_list = Ok root.
Proof.
  destruct (CalculateRoot_correct 3 demo_list) as [H1 H2]; [lia| |].
  - intros i Hi. unfold demo_list, zlen. rewrite length_replicate. lia.
  - split; [exact H1|]. eexists. split; [vm_compute; reflexivity|]. apply H2; [vm_compute; reflexivity|lia].
Defined.
