(* ===== verification/TrieState.v ===== *)
(** The state database (state/immutable-trie: state.go, [Trie.Commit] of trie.go): tries
    opened by their root through two caches, code by its hash through another, and
    the commit of changed accounts with their storage. *)

From S2P Require Import Prelude Types Chain Runtime Crypto Rlp TxTypes StateTxn Trie TrieFacts TrieHash.

(** github.com/hashicorp/golang-lru: a cache from hashes. It may forget an entry, but
    what it returns is what was added last; reading moves the entry to the front. *)
Class Lru := {
  lru : Type -> Type;
  lru_New : forall V, lru V;
  lru_Get : forall {V}, Hash -> lru V -> option V * lru V;
  lru_Add : forall {V}, Hash -> V -> lru V -> lru V;
  lru_Get_New : forall V k, fst (lru_Get k (lru_New V)) = None;
  lru_Get_Add : forall V k (v : V) k' v' c,
    fst (lru_Get k' (lru_Add k v c)) = Some v' ->
    k' = k /\ v' = v \/ k' <> k /\ fst (lru_Get k' c) = Some v';
  lru_Get_Get : forall V k k' (v : V) c,
    fst (lru_Get k' (snd (lru_Get k c))) = Some v -> fst (lru_Get k' c) = Some v;
}.

Section state.
Context `{KK : !Keccak, RL : !FastRlp, LR : !Lru}.

(** [State] of state.go. A cached trie is a value: what a lookup replaces in its nodes
    is not seen by the other holders of the pointer. *)
Record StateDB := mkState {
  s_storage : Storage;
  s_codeLruCache : lru bytes;
  s_trieStateCache : lru Trie;
  s_accountStateCache : lru Trie;
}.

Definition NewState (storage : Storage) : StateDB :=
  mkState storage (lru_New _) (lru_New _) (lru_New _).

Definition State_NewSnapshot : Trie := NewTrie.

Definition State_SetCode (hash : Hash) (code : bytes) (s : StateDB) : StateDB :=
  mkState (Storage_SetCode hash code (s_storage s)) (lru_Add hash code (s_codeLruCache s))
    (s_trieStateCache s) (s_accountStateCache s).

Definition State_GetCode (hash : Hash) (s : StateDB) : option bytes * StateDB :=
  match lru_Get hash (s_codeLruCache s) with
  | (Some code, c) =>
      (Some code, mkState (s_storage s) c (s_trieStateCache s) (s_accountStateCache s))
  | (None, c) =>
      match Storage_GetCode (s_storage s) hash with
      | Some code =>
          (Some code, mkState (s_storage s) (lru_Add hash code c) (s_trieStateCache s)
             (s_accountStateCache s))
      | None => (None, mkState (s_storage s) c (s_trieStateCache s) (s_accountStateCache s))
      end
  end.

(** [NewSnapshotAt]: [None] is the error. *)
Definition State_NewSnapshotAt (root : Hash) (s : StateDB) : result (option Trie * StateDB) :=
  if bool_decide (root = EmptyRootHash) then Ok (Some State_NewSnapshot, s)
  else
    let '(hit, c1) := lru_Get root (s_trieStateCache s) in
    let s := mkState (s_storage s) (s_codeLruCache s) c1 (s_accountStateCache s) in
    match hit with
    | Some trie => Ok (Some trie, s)
    | None =>
        let '(hit, c2) := lru_Get root (s_accountStateCache s) in
        let s := mkState (s_storage s) (s_codeLruCache s) (s_trieStateCache s) c2 in
        match hit with
        | Some trie => Ok (Some trie, s)
        | None =>
            o ← GetNode (s_storage s) root;
            Ok (match o with Some (Some n) => Some (mkTrie n 0) | _ => None end, s)
        end
    end.

Definition AddAccountState (root : Hash) (t : Trie) (s : StateDB) : StateDB :=
  mkState (s_storage s) (s_codeLruCache s) (s_trieStateCache s) (lru_Add root t (s_accountStateCache s)).

Definition AddTrieState (root : Hash) (t : Trie) (s : StateDB) : StateDB :=
  mkState (s_storage s) (s_codeLruCache s) (lru_Add root t (s_trieStateCache s)) (s_accountStateCache s).

(** [GetState]: [None] is an error, of the root or of the slot. *)
Definition State_GetState (root : Hash) (slot : bytes) (s : StateDB) : result (option bytes * StateDB) :=
  let key := keccak256 slot in
  '(snap, s) ← State_NewSnapshotAt root s;
  match snap with
  | None => Ok (None, s)
  | Some t => '(_, v) ← Trie_Get (fetch (s_storage s)) t key; Ok (v, s)
  end.

(** ** Trie.Commit *)

(** [bytes.TrimLeft(b, "\x00")] *)
Fixpoint trimZeros (b : bytes) : bytes :=
  match b with
  | [] => []
  | x :: r => if x =? 0 then trimZeros r else b
  end.

(** The loop over the changed slots of an account. *)
Fixpoint commitSlots (G : bytes -> option (option Node)) (entries : list StorageObject) (txn : Trie)
    : result Trie :=
  match entries with
  | [] => Ok txn
  | e :: entries =>
      let k := keccak256 (s_Key e) in
      txn ← (if s_Deleted e then Delete G txn k
             else Insert G txn k (MarshalTo (NewBytes (trimZeros (s_Val e)))));
      commitSlots G entries txn
  end.

(** The storage of an account: its new root, and what goes to the batch. *)
Definition commitAccount (obj : Object) (s : StateDB) : result (Hash * writes * StateDB) :=
  match o_Storage obj with
  | [] => Ok (o_Root obj, [], s)
  | entries =>
      '(snap, s) ← State_NewSnapshotAt (o_Root obj) s;
      match snap with
      | None => Panic
      | Some trie =>
          localTxn ← commitSlots (fetch (s_storage s)) entries (Trie_Txn trie);
          '(root, node, w) ← Txn_Hash (t_root localTxn);
          let accountStateTrie := mkTrie node (t_epoch localTxn) in
          Ok (BytesToHash root, w, AddAccountState (BytesToHash root) accountStateTrie s)
      end
  end.

(** One changed account. *)
Definition commitObj (obj : Object) (s : StateDB) (txn : Trie) (w : writes)
    : result (StateDB * Trie * writes) :=
  let k := keccak256 (o_Address obj) in
  if o_Deleted obj then
    txn ← Delete (fetch (s_storage s)) txn k; Ok (s, txn, w)
  else
    '(root, w', s) ← commitAccount obj s;
    let account := mkAccount (o_Nonce obj) (o_Balance obj) root (o_CodeHash obj) txn in
    let s := if o_DirtyCode obj then State_SetCode (o_CodeHash obj) (o_Code obj) s else s in
    let data := MarshalTo (Account_MarshalWith account) in
    txn ← Insert (fetch (s_storage s)) txn k data;
    Ok (s, txn, w ++ w').

Fixpoint commitObjs (objs : list Object) (s : StateDB) (txn : Trie) (w : writes)
    : result (StateDB * Trie * writes) :=
  match objs with
  | [] => Ok (s, txn, w)
  | obj :: objs =>
      '(s, txn, w) ← commitObj obj s txn w;
      commitObjs objs s txn w
  end.

(** All accounts and the root: the new trie, its root and the batch. *)
Definition commitBatch (objs : list Object) (t : Trie) (s : StateDB)
    : result (Trie * bytes * writes * StateDB) :=
  '(s, txn, w) ← commitObjs objs s (Trie_Txn t) [];
  '(root, node, w') ← Txn_Hash (t_root txn);
  Ok (mkTrie node (t_epoch txn), root, w ++ w', s).

Definition Trie_Commit (objs : list Object) (t : Trie) (s : StateDB) : result (Trie * bytes * StateDB) :=
  '(nTrie, root, w, s) ← commitBatch objs t s;
  let s := mkState (batch_Write w (s_storage s)) (s_codeLruCache s) (s_trieStateCache s)
             (s_accountStateCache s) in
  Ok (nTrie, root, AddTrieState (BytesToHash root) nTrie s).
End state.
