(* ===== verification/StateCorrect.v ===== *)
(** The commit of a block's changes: [Trie.Commit] returns the Ethereum state root of the
    world the changes lead to, and leaves a database from which that world, and every
    storage it has, can be opened. *)

From S2P Require Import Prelude Types Chain Runtime Crypto Rlp Slice Instances TxTypes StateTxn.
From S2P Require Import Trie TrieFacts TrieHash TrieSpec TrieCorrect TrieStore TrieState.

Abbreviation contents := (gmap (list Z) bytes).

(** ** The world *)

(** Accounts by the hash of their address; their storage by the hash of the key, with
    encoded values. *)
Record acct := mkAcct { ac_nonce : Z; ac_balance : Z; ac_codeHash : Hash; ac_storage : contents }.

Section world.
Context `{KK : !Keccak, RL : !FastRlp}.

Definition storageRoot (m : contents) : Hash := TRIE (itemsOf m).

Definition acctData (a : acct) : bytes :=
  MarshalTo (NewArray [NewUint (ac_nonce a); NewBigInt (ac_balance a); NewBytes (storageRoot (ac_storage a));
                       NewBytes (ac_codeHash a)]).

Definition worldMap (W : gmap (list Z) acct) : contents := acctData <$> W.

(** The state root of the Yellow Paper. *)
Definition stateRoot (W : gmap (list Z) acct) : Hash := TRIE (itemsOf (worldMap W)).

Definition storageAt (W : gmap (list Z) acct) (k : bytes) : contents := from_option ac_storage ∅ (W !! k).

Definition applySlot (m : contents) (e : StorageObject) : contents :=
  let k := keccak256 (s_Key e) in
  if s_Deleted e then base.delete k m else <[k := MarshalTo (NewBytes (trimZeros (s_Val e)))]> m.
Definition applySlots (entries : list StorageObject) (m : contents) : contents := fold_left applySlot entries m.

(** What an object changes. *)
Definition applyObj (W : gmap (list Z) acct) (obj : Object) : gmap (list Z) acct :=
  let k := keccak256 (o_Address obj) in
  if o_Deleted obj then base.delete k W
  else <[k := mkAcct (o_Nonce obj) (o_Balance obj) (o_CodeHash obj)
                (applySlots (o_Storage obj) (storageAt W k))]> W.
Definition applyObjs (W : gmap (list Z) acct) (objs : list Object) : gmap (list Z) acct :=
  fold_left applyObj objs W.

(** The storages an object opens anew. *)
Definition newStorage (W : gmap (list Z) acct) (obj : Object) : list contents :=
  if o_Deleted obj then []
  else match o_Storage obj with
       | [] => []
       | entries => [applySlots entries (storageAt W (keccak256 (o_Address obj)))]
       end.
Fixpoint newStorages (W : gmap (list Z) acct) (objs : list Object) : list contents :=
  match objs with
  | [] => []
  | obj :: objs => newStorage W obj ++ newStorages (applyObj W obj) objs
  end.

(** No two of the contents have one root. *)
Definition distinctRoots (K : list contents) : Prop :=
  forall m1 m2, m1 ∈ K -> m2 ∈ K -> storageRoot m1 = storageRoot m2 -> m1 = m2.

(** Keys are digests, and no value is empty. *)
Definition sized (m : contents) : Prop := forall b v, m !! b = Some v -> length b = 32%nat /\ v <> [].

(** The root of a changed account is the one of its storage, which is known. *)
Definition objOK (K : list contents) (W : gmap (list Z) acct) (obj : Object) : Prop :=
  o_Deleted obj = false ->
  o_Root obj = storageRoot (storageAt W (keccak256 (o_Address obj))) /\
  storageAt W (keccak256 (o_Address obj)) ∈ K.
Fixpoint objsOK (K : list contents) (W : gmap (list Z) acct) (objs : list Object) : Prop :=
  match objs with
  | [] => True
  | obj :: objs => objOK K W obj /\ objsOK K (applyObj W obj) objs
  end.
End world.

(** ** The invariant *)

Section commit.
Context `{KK : !Keccak, RL : !FastRlp, RF : !RlpFormat, LR : !Lru}.

(** The database before the commit and, when [w] was written, after it. *)
Context (st stF : Storage).
Context (Hext : forall k d, st_trie st !! k = Some d -> st_trie stF !! k = Some d).

(** In memory the trie holds [m] already; its nodes are in storage once [w] is written. *)
Definition pending (w : writes) (t : Trie) (m : contents) : Prop :=
  holds (fetch st) t m /\ (written stF w -> backed (fetch stF) (t_root t)).

Lemma pending_kept w t m : pending w t m -> written stF w -> kept stF t m.
Proof. intros [H Hb] Hw. split; [by eapply holds_grows, H; apply fetch_extends|auto]. Qed.

Lemma kept_pending w t m : kept st t m -> pending w t m.
Proof.
  intros [H Hb]. split; [done|]. intros _. eapply backed_grows; [by apply fetch_extends|apply H|done].
Qed.

Lemma written_app_l w w' : written stF (w ++ w') -> written stF w.
Proof. intros H. by apply written_app in H as [? _]. Qed.

Lemma pending_mono w w' t m : pending w t m -> pending (w ++ w') t m.
Proof. intros [H Hb]. split; [done|]. intros Hw. eapply Hb, written_app_l, Hw. Qed.

Lemma Insert_pending w t m b v :
  pending w t m -> Forall is_byte b ->
  exists t', Insert (fetch st) t b v = Ok t' /\ pending w t' (<[b := v]> m) /\ t_epoch t' = t_epoch t.
Proof.
  intros [H Hb] Hby. destruct (Insert_holds _ t m b v H Hby) as (t' & E & H'). exists t'. split; [done|].
  destruct (Insert_closed _ _ t b v t' (backed_closed st (fetch stF) (written stF w) (t_epoch t))
    (holds_epoch _ _ _ H) (conj (holds_valid _ _ _ H) Hb) E) as [[_ Hb'] He]. split; [split; auto|done].
Qed.

Lemma Delete_pending w t m b :
  pending w t m -> Forall is_byte b -> (forall b' v, m !! b' = Some v -> length b' = length b) ->
  exists t', Delete (fetch st) t b = Ok t' /\ pending w t' (base.delete b m) /\ t_epoch t' = t_epoch t.
Proof.
  intros [H Hb] Hby Hl. destruct (Delete_holds _ t m b H Hby Hl) as (t' & E & H'). exists t'. split; [done|].
  destruct (Delete_closed _ _ t b t' (backed_closed st (fetch stF) (written stF w) (t_epoch t))
    (holds_epoch _ _ _ H) (conj (holds_valid _ _ _ H) Hb) E) as [[_ Hb'] He]. split; [split; auto|done].
Qed.

(** Where the root leads once everything is written. *)
Definition loads (db : Storage) (m : contents) : Prop :=
  m <> ∅ -> exists n, GetNode db (storageRoot m) = Ok (Some (Some n)) /\
    forall ep, 0 <= ep -> kept db (mkTrie n ep) m.

Lemma Txn_Hash_pending w t m :
  pending w t m -> sized m ->
  exists node w', Txn_Hash (t_root t) = Ok (storageRoot m, node, w') /\
    pending (w ++ w') (mkTrie node (t_epoch t + 1)) m /\ (written stF (w ++ w') -> loads stF m).
Proof.
  intros Hp Hs. pose proof Hp as [H Hb]. destruct (Txn_Hash_holds _ t m H) as (node & w' & E & H').
  exists node, w'. split; [done|].
  assert (Hk : written stF (w ++ w') -> kept stF (mkTrie node (t_epoch t + 1)) m /\ loads stF m).
  { intros Hw. apply written_app in Hw as [Hw1 Hw2].
    apply (hash_kept stF t m _ node w'); [by apply (pending_kept w)|by intros b v Hv; apply (Hs b v)|done|done]. }
  split; [split; [done|]|]; intros Hw; by destruct (Hk Hw) as [[_ ?] ?].
Qed.

(** A trie at rest, of an epoch up to [E], and the caches of such tries. *)
Definition trieOK (w : writes) (E : Z) (t : Trie) (m : contents) : Prop :=
  pending w (mkTrie (t_root t) (t_epoch t + 1)) m /\ 0 <= t_epoch t <= E.

Definition cacheOK (w : writes) (K : list contents) (E : Z) (c : lru Trie) : Prop :=
  forall r t, fst (lru_Get r c) = Some t -> exists m, m ∈ K /\ r = storageRoot m /\ trieOK w E t m.

Record inv (s : StateDB) (w : writes) (K : list contents) (E : Z) : Prop := {
  inv_storage : st_trie (s_storage s) = st_trie st;
  inv_trie : cacheOK w K E (s_trieStateCache s);
  inv_account : cacheOK w K E (s_accountStateCache s);
}.

Definition known (db : Storage) (K : list contents) : Prop := forall m, m ∈ K -> sized m /\ loads db m.

Lemma trieOK_mono w w' E E' t m : E <= E' -> trieOK w E t m -> trieOK (w ++ w') E' t m.
Proof. intros He [H1 H2]. split; [by apply pending_mono|lia]. Qed.

Lemma cacheOK_mono w w' K K' E E' c :
  E <= E' -> (forall m, m ∈ K -> m ∈ K') -> cacheOK w K E c -> cacheOK (w ++ w') K' E' c.
Proof.
  intros He HK Hc r t Hr. destruct (Hc r t Hr) as (m & Hm & -> & Ht). exists m.
  split; [auto|]. split; [done|]. by eapply trieOK_mono.
Qed.

Lemma cacheOK_Get w K E c k : cacheOK w K E c -> cacheOK w K E (snd (lru_Get k c)).
Proof. intros Hc r t Hr. eapply Hc, lru_Get_Get, Hr. Qed.

Lemma cacheOK_Add w K E c r t m :
  m ∈ K -> r = storageRoot m -> trieOK w E t m -> cacheOK w K E c -> cacheOK w K E (lru_Add r t c).
Proof.
  intros Hm Hr Ht Hc r' t' H. apply lru_Get_Add in H as [[-> ->]|[_ H]]; [by exists m|by apply Hc].
Qed.

Lemma fetch_eq db : st_trie db = st_trie st -> fetch db = fetch st.
Proof. destruct db as [tr co]. simpl. by intros ->. Qed.

Lemma GetNode_eq db r : st_trie db = st_trie st -> GetNode db r = GetNode st r.
Proof. destruct db as [tr co]. simpl. by intros ->. Qed.

Lemma storageRoot_empty : storageRoot ∅ = EmptyRootHash.
Proof. unfold storageRoot, itemsOf. by rewrite map_to_list_empty. Qed.

(** A known root opens to its contents. *)
Lemma open_spec s w K0 K E m :
  inv s w K E -> (forall m, m ∈ K0 -> m ∈ K) -> distinctRoots K -> known st K0 -> ∅ ∈ K0 -> m ∈ K0 -> 0 <= E ->
  exists t s', State_NewSnapshotAt (storageRoot m) s = Ok (Some t, s') /\ trieOK w E t m /\ inv s' w K E.
Proof.
  intros [Hst Ht Ha] HK Hd Hk H0 Hm HE. unfold State_NewSnapshotAt. case_bool_decide as Hr.
  { assert (m = ∅) as -> by (apply Hd; [by apply HK|by apply HK|by rewrite Hr, storageRoot_empty]). do 2 eexists. split; [reflexivity|]. split; [|by split].
    split; [|simpl; lia]. apply kept_pending. by apply kept_New. }
  pose proof (cacheOK_Get _ _ _ _ (storageRoot m) Ht) as Ht'.
  pose proof (cacheOK_Get _ _ _ _ (storageRoot m) Ha) as Ha'.
  assert (Hhit : forall (c : lru Trie) t, (forall t, fst (lru_Get (storageRoot m) c) = Some t ->
    exists m', m' ∈ K /\ storageRoot m = storageRoot m' /\ trieOK w E t m') ->
    fst (lru_Get (storageRoot m) c) = Some t -> trieOK w E t m).
  { intros c t Hc H. destruct (Hc t H) as (m' & Hm' & Er & Hok). apply Hd in Er; [by subst|auto|done]. }
  destruct (lru_Get (storageRoot m) (s_trieStateCache s)) as [[t|] c1] eqn:E1.
  { do 2 eexists. split; [done|]. split; [|by split].
    apply (Hhit (s_trieStateCache s)); [exact (Ht (storageRoot m))|by rewrite E1]. }
  simpl. destruct (lru_Get (storageRoot m) (s_accountStateCache s)) as [[t|] c2] eqn:E2.
  { do 2 eexists. split; [done|]. split; [|by split].
    apply (Hhit (s_accountStateCache s)); [exact (Ha (storageRoot m))|by rewrite E2]. }
  destruct (Hk m Hm) as [_ Hl]. destruct Hl as (n & En & Hn).
  { intros ->. apply Hr, storageRoot_empty. }
  rewrite GetNode_eq, En by done. simpl. do 2 eexists. split; [done|]. split; [|by split].
  split; [|simpl; lia]. apply kept_pending. by apply Hn.
Qed.

(** ** The steps of the commit *)

Lemma keccak_bytes b : Forall is_byte (keccak256 b) /\ length (keccak256 b) = 32%nat.
Proof. destruct (keccak256_hash b) as [H1 H2]. by split. Qed.

Lemma marshal_nonempty b : zlen b < two64 -> MarshalTo (NewBytes b) <> [].
Proof.
  intros Hb. rewrite MarshalTo_NewBytes by done. unfold rlpBytes, rlpHeader.
  destruct b as [|x [|y b]]; try (by destruct (_ <? 56)). by destruct (x <? 128).
Qed.

Lemma sized_insert m k v : sized m -> length k = 32%nat -> v <> [] -> sized (<[k := v]> m).
Proof. intros Hs Hk Hv b w [[<- <-]|[_ H]]%lookup_insert_Some; [done|by apply Hs]. Qed.

Lemma sized_delete m k : sized m -> sized (base.delete k m).
Proof. intros Hs b w [_ H]%lookup_delete_Some. by apply Hs. Qed.

Definition slotsOK (entries : list StorageObject) : Prop := forall e, e ∈ entries -> zlen (s_Val e) < two64.

Lemma zlen_trimZeros b : zlen (trimZeros b) <= zlen b.
Proof. unfold zlen. induction b as [|x b IH]; simpl; [lia|]. destruct (x =? 0); simpl; lia. Qed.

Lemma commitSlots_spec w entries t m :
  pending w t m -> sized m -> slotsOK entries ->
  exists t', commitSlots (fetch st) entries t = Ok t' /\ pending w t' (applySlots entries m) /\
    sized (applySlots entries m) /\ t_epoch t' = t_epoch t.
Proof.
  revert t m. induction entries as [|e entries IH]; intros t m Hp Hs Hz; [by exists t|].
  cbn [commitSlots]. destruct (keccak_bytes (s_Key e)) as [Hkb Hkl].
  assert (Hz' : slotsOK entries) by (intros e' He'; apply Hz; by right).
  assert (exists t', (if s_Deleted e then Delete (fetch st) t (keccak256 (s_Key e)) else
    Insert (fetch st) t (keccak256 (s_Key e)) (MarshalTo (NewBytes (trimZeros (s_Val e))))) = Ok t' /\
    pending w t' (applySlot m e) /\ sized (applySlot m e) /\ t_epoch t' = t_epoch t) as (t' & -> & Hp' & Hs' & He').
  { unfold applySlot. destruct (s_Deleted e).
    - destruct (Delete_pending w t m (keccak256 (s_Key e)) Hp Hkb) as (t' & E & H & He).
      { intros b' v Hb'. rewrite Hkl. by eapply Hs. }
      exists t'. split; [done|]. split; [done|]. split; [by apply sized_delete|done].
    - destruct (Insert_pending w t m (keccak256 (s_Key e)) (MarshalTo (NewBytes (trimZeros (s_Val e)))) Hp Hkb)
        as (t' & E & H & He). exists t'. split; [done|]. split; [done|]. split; [|done].
      apply sized_insert; [done|done|]. apply marshal_nonempty.
      pose proof (zlen_trimZeros (s_Val e)). pose proof (Hz e ltac:(left)). lia. }
  simpl. destruct (IH t' (applySlot m e) Hp' Hs' Hz') as (t2 & E2 & Hp2 & Hs2 & He2).
  exists t2. rewrite E2. split; [done|]. split; [done|]. split; [done|congruence].
Qed.

Lemma inv_mono s w w' K K' E E' :
  E <= E' -> (forall m, m ∈ K -> m ∈ K') -> inv s w K E -> inv s (w ++ w') K' E'.
Proof. intros HE HK [H1 H2 H3]. split; [done|by eapply cacheOK_mono|by eapply cacheOK_mono]. Qed.

Lemma Trie_Txn_eq t : 0 <= t_epoch t -> t_epoch t + 1 < 2 ^ 32 -> Trie_Txn t = mkTrie (t_root t) (t_epoch t + 1).
Proof. intros H1 H2. unfold Trie_Txn. by rewrite Z.mod_small by lia. Qed.

(** What was known, and what the commit may add. *)
Context (K0 Kall : list contents).
Context (Hdist : distinctRoots Kall) (Hknown : known st K0) (Hempty : ∅ ∈ K0).

Lemma distinct_sub K : (forall m, m ∈ K -> m ∈ Kall) -> distinctRoots K.
Proof. intros H m1 m2 H1 H2. apply Hdist; auto. Qed.

Lemma commitAccount_spec W obj s w K E :
  inv s w K E -> (forall m, m ∈ K0 -> m ∈ K) -> (forall m, m ∈ K -> m ∈ Kall) ->
  0 <= E -> E + 2 < 2 ^ 32 -> o_Deleted obj = false -> objOK K0 W obj -> slotsOK (o_Storage obj) ->
  exists w' s', commitAccount obj s =
      Ok (storageRoot (applySlots (o_Storage obj) (storageAt W (keccak256 (o_Address obj)))), w', s') /\
    inv s' (w ++ w') (K ++ newStorage W obj) (E + 1) /\
    (written stF (w ++ w') -> known stF (newStorage W obj)).
Proof.
  intros Hi HK0 HKa HE HE2 Hdel Hok Hz. destruct (Hok Hdel) as [Hroot Hin]. clear Hok.
  unfold commitAccount, newStorage. rewrite Hdel, Hroot.
  set (sm := storageAt W (keccak256 (o_Address obj))) in *. destruct (o_Storage obj) as [|e entries] eqn:Es.
  { exists [], s. split; [done|]. split; [|by intros _ m ?%elem_of_nil].
    apply (inv_mono _ _ _ K _ E); [lia| |done]. intros m Hm. apply elem_of_app. by left. }
  destruct (open_spec s w K0 K E sm Hi HK0 (distinct_sub _ HKa) Hknown Hempty Hin HE)
    as (t & s1 & -> & [Hp Ht] & Hi1). cbn [mbind result_bind].
  rewrite Trie_Txn_eq, (fetch_eq _ (inv_storage _ _ _ _ Hi1)) by lia.
  destruct (commitSlots_spec w (e :: entries) _ sm Hp (proj1 (Hknown sm Hin)) Hz)
    as (t2 & -> & Hp2 & Hs2 & He2). cbn [mbind result_bind].
  destruct (Txn_Hash_pending w t2 _ Hp2 Hs2) as (node & w' & -> & Hp3 & Hl3). cbn [mbind result_bind].
  unfold storageRoot at 1 2. rewrite BytesToHash_TRIE. simpl in He2.
  set (sm' := applySlots (e :: entries) sm) in *. exists w'. eexists. split; [done|].
  assert (Hin' : sm' ∈ K ++ [sm']) by (apply elem_of_app; right; left). split.
  - assert (Hi2 : inv s1 (w ++ w') (K ++ [sm']) (E + 1)).
    { apply (inv_mono _ _ _ K _ E); [lia| |done]. intros m Hm. apply elem_of_app. by left. }
    destruct Hi2 as [H1 H2 H3]. split; [done|done|]. simpl.
    apply (cacheOK_Add _ _ _ _ _ _ sm'); [done|done| |done]. split; simpl; [done|lia].
  - intros Hw m Hm%list_elem_of_singleton. subst m. split; [done|auto].
Qed.

(** Everything about the accounts so far. *)
Definition state_ok (s : StateDB) (txn : Trie) (w : writes) (W : gmap (list Z) acct) (K : list contents)
    (E : Z) : Prop :=
  inv s w K E /\ pending w txn (worldMap W) /\ sized (worldMap W).

Lemma acctData_nonempty a : acctData a <> [].
Proof.
  unfold acctData. intros E. pose proof (MarshalTo_elem [NewUint (ac_nonce a); NewBigInt (ac_balance a);
    NewBytes (storageRoot (ac_storage a)); NewBytes (ac_codeHash a)] (NewUint (ac_nonce a)) ltac:(left)) as H.
  rewrite E in H. simpl in H. lia.
Qed.

Lemma commitObj_spec W obj s txn w K E :
  state_ok s txn w W K E -> (forall m, m ∈ K0 -> m ∈ K) -> (forall m, m ∈ K -> m ∈ Kall) ->
  0 <= E -> E + 2 < 2 ^ 32 -> objOK K0 W obj -> slotsOK (o_Storage obj) ->
  exists s' txn' w', commitObj obj s txn w = Ok (s', txn', w ++ w') /\
    state_ok s' txn' (w ++ w') (applyObj W obj) (K ++ newStorage W obj) (E + 1) /\
    t_epoch txn' = t_epoch txn /\ (written stF (w ++ w') -> known stF (newStorage W obj)).
Proof.
  intros (Hi & Hp & Hs) HK0 HKa HE HE2 Hok Hz. destruct (keccak_bytes (o_Address obj)) as [Hkb Hkl].
  unfold commitObj, applyObj. destruct (o_Deleted obj) eqn:Hdel.
  - rewrite (fetch_eq _ (inv_storage _ _ _ _ Hi)).
    destruct (Delete_pending w txn (worldMap W) (keccak256 (o_Address obj)) Hp Hkb) as (txn' & -> & Hp' & He).
    { intros b' v Hb. rewrite Hkl. by eapply Hs. }
    simpl. exists s, txn', []. rewrite app_nil_r. unfold newStorage. rewrite Hdel, app_nil_r.
    split; [done|]. split; [|split; [done|by intros _ m ?%elem_of_nil]].
    assert (worldMap (base.delete (keccak256 (o_Address obj)) W) = base.delete (keccak256 (o_Address obj)) (worldMap W))
      as Ew by apply fmap_delete.
    unfold state_ok. rewrite Ew. split; [|split; [done|by apply sized_delete]].
    rewrite <- (app_nil_r w). apply (inv_mono _ _ _ K _ E); [lia|done|done].
  - destruct (commitAccount_spec W obj s w K E Hi HK0 HKa HE HE2 Hdel Hok Hz) as (w' & s1 & -> & Hi1 & Hk1).
    simpl mbind. set (sm' := applySlots _ _) in *.
    set (s2 := if o_DirtyCode obj then _ else _).
    assert (Hi2 : inv s2 (w ++ w') (K ++ newStorage W obj) (E + 1)).
    { destruct Hi1 as [H1 H2 H3]. unfold s2. destruct (o_DirtyCode obj); by split. }
    rewrite (fetch_eq _ (inv_storage _ _ _ _ Hi2)).
    destruct (Insert_pending (w ++ w') txn (worldMap W) (keccak256 (o_Address obj))
      (acctData (mkAcct (o_Nonce obj) (o_Balance obj) (o_CodeHash obj) sm')) (pending_mono _ _ _ _ Hp) Hkb)
      as (txn' & E' & Hp' & He).
    unfold acctData in E'. cbn [ac_nonce ac_balance ac_codeHash ac_storage] in E'.
    unfold Account_MarshalWith. cbn [a_Nonce a_Balance a_Root a_CodeHash]. rewrite E'. simpl mbind.
    exists s2, txn', w'. split; [done|]. split; [|done]. split; [done|].
    assert (Ew : worldMap (<[keccak256 (o_Address obj) := mkAcct (o_Nonce obj) (o_Balance obj) (o_CodeHash obj) sm']> W)
      = <[keccak256 (o_Address obj) := acctData (mkAcct (o_Nonce obj) (o_Balance obj) (o_CodeHash obj) sm')]> (worldMap W))
      by apply fmap_insert.
    rewrite Ew. split; [done|]. apply sized_insert; [done|done|apply acctData_nonempty].
Qed.

Lemma known_app db K K' : known db (K ++ K') <-> known db K /\ known db K'.
Proof. unfold known. setoid_rewrite elem_of_app. naive_solver. Qed.

Lemma commitObjs_spec objs W s txn w K E :
  state_ok s txn w W K E -> (forall m, m ∈ K0 -> m ∈ K) ->
  (forall m, m ∈ K ++ newStorages W objs -> m ∈ Kall) ->
  0 <= E -> E + Z.of_nat (length objs) + 2 < 2 ^ 32 -> objsOK K0 W objs ->
  (forall obj, obj ∈ objs -> slotsOK (o_Storage obj)) ->
  exists s' txn' w', commitObjs objs s txn w = Ok (s', txn', w ++ w') /\
    state_ok s' txn' (w ++ w') (applyObjs W objs) (K ++ newStorages W objs) (E + Z.of_nat (length objs)) /\
    t_epoch txn' = t_epoch txn /\ (written stF (w ++ w') -> known stF (newStorages W objs)).
Proof.
  revert W s txn w K E. induction objs as [|obj objs IH]; intros W s txn w K E Hok HK0 HKa HE HE2 Hobjs Hz.
  - exists s, txn, []. cbn [newStorages length]. rewrite !app_nil_r, Z.add_0_r. split; [done|].
    split; [done|]. split; [done|]. by intros _ m ?%elem_of_nil.
  - cbn [newStorages length objsOK] in *. destruct Hobjs as [Ho Hobjs]. rewrite app_assoc in HKa.
    destruct (commitObj_spec W obj s txn w K E) as (s1 & txn1 & w1 & E1 & Hok1 & He1 & Hk1); try done; [..|lia| |].
    + intros m Hm. apply HKa. apply elem_of_app. left. apply elem_of_app. by left.
    + apply Hz. left.
    + destruct (IH (applyObj W obj) s1 txn1 (w ++ w1) (K ++ newStorage W obj) (E + 1))
        as (s2 & txn2 & w2 & E2 & Hok2 & He2 & Hk2); try done; try lia.
      * intros m Hm. apply elem_of_app. left. auto.
      * intros obj' Hobj'. apply Hz. by right.
      * exists s2, txn2, (w1 ++ w2). cbn [commitObjs]. rewrite E1. cbn [mbind result_bind]. rewrite E2.
        rewrite !app_assoc. split; [done|]. split.
        { replace (E + Z.of_nat (S (length objs))) with (E + 1 + Z.of_nat (length objs)) by lia. done. }
        split; [congruence|]. intros Hw. apply known_app. split; [|auto]. apply Hk1.
        eapply written_app_l, Hw.
Qed.

(** The whole commit. *)
Lemma commitBatch_spec objs W s t K E :
  inv s [] K E -> trieOK [] E t (worldMap W) -> sized (worldMap W) -> (forall m, m ∈ K0 -> m ∈ K) ->
  (forall m, m ∈ K ++ newStorages W objs -> m ∈ Kall) ->
  0 <= E -> E + Z.of_nat (length objs) + 2 < 2 ^ 32 -> objsOK K0 W objs ->
  (forall obj, obj ∈ objs -> slotsOK (o_Storage obj)) ->
  let W' := applyObjs W objs in
  let E' := E + Z.of_nat (length objs) + 1 in
  exists nTrie s2 w,
    commitBatch objs t s = Ok (nTrie, stateRoot W', w, s2) /\
    inv s2 w (K ++ newStorages W objs) E' /\ trieOK w E' nTrie (worldMap W') /\ sized (worldMap W') /\
    (written stF w -> known stF (newStorages W objs) /\ loads stF (worldMap W')).
Proof.
  intros Hi [Hp Ht] Hs HK0 HKa HE HE2 Hobjs Hz W' E'. unfold commitBatch. rewrite Trie_Txn_eq by lia.
  destruct (commitObjs_spec objs W s (mkTrie (t_root t) (t_epoch t + 1)) [] K E)
    as (s2 & txn & w1 & -> & (Hi2 & Hp2 & Hs2) & He & Hk); try done.
  cbn [mbind result_bind]. simpl app in *. simpl in He. fold W' in Hp2, Hs2.
  destruct (Txn_Hash_pending w1 txn _ Hp2 Hs2) as (node & w2 & E3 & Hp3 & Hl3).
  change (storageRoot (worldMap W')) with (stateRoot W') in E3. rewrite E3. cbn [mbind result_bind].
  exists (mkTrie node (t_epoch txn)), s2, (w1 ++ w2). split; [done|]. split.
  { apply (inv_mono _ _ _ (K ++ newStorages W objs) _ (E + Z.of_nat (length objs))); [unfold E'; lia|done|done]. }
  split; [split; simpl; [done|unfold E'; lia]|]. split; [done|]. intros Hw.
  split; [apply Hk; eapply written_app_l, Hw|by apply Hl3].
Qed.
End commit.

(** ** The commit *)

Section results.
Context `{KK : !Keccak, RL : !FastRlp, RF : !RlpFormat, LR : !Lru}.

(** A database that knows the contents [K]: it opens their roots, the caches agree with
    it, and its tries are of the epochs up to [E]. *)
Definition database (s : StateDB) (K : list contents) (E : Z) : Prop :=
  inv (s_storage s) (s_storage s) s [] K E /\ known (s_storage s) K /\ ∅ ∈ K.

(** The trie [t] is the one of the world [W]. *)
Definition worldTrie (s : StateDB) (t : Trie) (W : gmap (list Z) acct) (E : Z) : Prop :=
  trieOK (s_storage s) (s_storage s) [] E t (worldMap W) /\ sized (worldMap W).

Lemma trieOK_final st stF w E t m :
  (forall k d, st_trie st !! k = Some d -> st_trie stF !! k = Some d) -> written stF w ->
  trieOK st stF w E t m -> trieOK stF stF [] E t m.
Proof.
  intros Hext Hw [Hp He]. split; [|done]. apply kept_pending; [done|]. by eapply pending_kept.
Qed.

Lemma cacheOK_final st stF w K E c :
  (forall k d, st_trie st !! k = Some d -> st_trie stF !! k = Some d) -> written stF w ->
  cacheOK st stF w K E c -> cacheOK stF stF [] K E c.
Proof.
  intros Hext Hw Hc r t Hr. destruct (Hc r t Hr) as (m & Hm & -> & Ht). exists m.
  split; [done|]. split; [done|]. by eapply trieOK_final.
Qed.

Lemma known_grows st stF K :
  (forall k d, st_trie st !! k = Some d -> st_trie stF !! k = Some d) -> known st K -> known stF K.
Proof.
  intros Hext Hk m Hm. destruct (Hk m Hm) as [Hs Hl]. split; [done|]. intros Hne.
  destruct (Hl Hne) as (n & En & Hn). exists n. split; [|intros ep Hep; by eapply kept_grows, Hn].
  apply fetch_GetNode. apply (fetch_extends _ _ Hext). unfold fetch. by rewrite En.
Qed.

Lemma batch_Write_trie w s1 s2 :
  st_trie s1 = st_trie s2 -> st_trie (batch_Write w s1) = st_trie (batch_Write w s2).
Proof.
  unfold batch_Write. revert s1 s2. induction w as [|[k d] w IH]; intros s1 s2 E; [done|].
  simpl. apply IH. simpl. by rewrite E.
Qed.

Lemma trieOK_target st stF E t m :
  (forall k d, st_trie st !! k = Some d -> st_trie stF !! k = Some d) ->
  trieOK st st [] E t m -> trieOK st stF [] E t m.
Proof.
  intros Hext [Hp He]. split; [|done]. apply kept_pending; [done|].
  apply (pending_kept _ _ (fun _ _ H => H) []); [done|]. by intros k d ?%elem_of_nil.
Qed.

Lemma inv_target st stF s K E :
  (forall k d, st_trie st !! k = Some d -> st_trie stF !! k = Some d) ->
  inv st st s [] K E -> inv st stF s [] K E.
Proof.
  intros Hext [H1 H2 H3]. split; [done|..]; intros r t Hr;
    [destruct (H2 r t Hr) as (m & Hm & -> & Ht)|destruct (H3 r t Hr) as (m & Hm & -> & Ht)];
    exists m; (split; [done|]; split; [done|]); by apply trieOK_target.
Qed.

Lemma cacheOK_sub st stF w K K' E c :
  (forall m, m ∈ K -> m ∈ K') -> cacheOK st stF w K E c -> cacheOK st stF w K' E c.
Proof.
  intros HK Hc r t Hr. destruct (Hc r t Hr) as (m & Hm & -> & Ht). exists m. auto.
Qed.

(** A new database, where only the empty trie is known. *)
Lemma sized_empty : sized ∅.
Proof. intros b v Hb. by rewrite lookup_empty in Hb. Qed.

Lemma trieOK_New st E : 0 <= E -> trieOK st st [] E NewTrie ∅.
Proof. intros HE. split; [|simpl; lia]. apply kept_pending; [done|]. by apply kept_New. Qed.

Lemma database_New st : database (NewState st) [∅] 0.
Proof.
  split; [|split; [|left]].
  - split; [done|..]; intros r t Hr; simpl in Hr; by rewrite lru_Get_New in Hr.
  - intros m Hm%list_elem_of_singleton. subst m. split; [apply sized_empty|by intros []].
Qed.

Lemma worldTrie_New st : worldTrie (NewState st) NewTrie ∅ 0.
Proof.
  assert (worldMap ∅ = ∅) as Hw by apply fmap_empty. split; rewrite Hw; [by apply trieOK_New|apply sized_empty].
Qed.

(** C6: committing the changed accounts of a block never panics and returns the
    Ethereum state root of the world they lead to; once the batch is written, and if
    no two nodes and no two storages collide, the database opens the new world's
    storages and its trie, next to all it knew before. *)
Theorem Trie_Commit_correct (s : StateDB) (t : Trie) (W : gmap (list Z) acct) (K : list contents) (E : Z)
    (objs : list Object) :
  let W' := applyObjs W objs in
  let K' := K ++ newStorages W objs ++ [worldMap W'] in
  let E' := E + Z.of_nat (length objs) + 1 in
  database s K E -> worldTrie s t W E -> 0 <= E -> E' + 1 < 2 ^ 32 ->
  objsOK K W objs -> (forall obj, obj ∈ objs -> slotsOK (o_Storage obj)) -> distinctRoots K' ->
  exists nTrie s' w,
    (exists s2, commitBatch objs t s = Ok (nTrie, stateRoot W', w, s2)) /\
    Trie_Commit objs t s = Ok (nTrie, stateRoot W', s') /\
    st_trie (s_storage s') = st_trie (batch_Write w (s_storage s)) /\
    (noCollision (s_storage s) w -> database s' K' E' /\ worldTrie s' nTrie W' E').
Proof.
  intros W' K' E' (Hi & Hk & H0) [Ht Hs] HE HE2 Hobjs Hz Hd.
  assert (HKa : forall m, m ∈ K ++ newStorages W objs -> m ∈ K').
  { intros m Hm. unfold K'. rewrite app_assoc. apply elem_of_app. by left. }
  assert (HE3 : E + Z.of_nat (length objs) + 2 < 2 ^ 32) by (unfold E' in HE2; lia).
  destruct (commitBatch_spec (s_storage s) (s_storage s) (fun _ _ H => H) K K' Hd Hk H0 objs W s t K E Hi Ht Hs
    (fun _ H => H) HKa HE HE3 Hobjs Hz) as (nTrie & s2 & w & Ec & Hi2 & _).
  set (s' := AddTrieState (stateRoot W') nTrie (mkState (batch_Write w (s_storage s2)) (s_codeLruCache s2)
    (s_trieStateCache s2) (s_accountStateCache s2))).
  exists nTrie, s', w. split; [by exists s2|]. split.
  { unfold Trie_Commit. rewrite Ec. cbn [mbind result_bind]. fold W'.
    assert (Hb : BytesToHash (stateRoot W') = stateRoot W') by apply BytesToHash_TRIE. by rewrite Hb. }
  assert (Est : st_trie (s_storage s') = st_trie (batch_Write w (s_storage s))).
  { simpl. apply batch_Write_trie, Hi2. }
  split; [exact Est|]. intros Hn. destruct (batch_Write_spec w _ Hn) as [Hwr Hext]. rewrite <- Est in Hwr, Hext.
  destruct (commitBatch_spec (s_storage s) (s_storage s') Hext K K' Hd Hk H0 objs W s t K E
    (inv_target _ _ _ _ _ Hext Hi) (trieOK_target _ _ _ _ _ Hext Ht) Hs (fun _ H => H) HKa HE HE3 Hobjs Hz)
    as (nTrie3 & s3 & w3 & Ec3 & [_ Hi3 Hi4] & Ht3 & Hs3 & Hk3).
  rewrite Ec in Ec3. injection Ec3 as <- <- <-. destruct (Hk3 Hwr) as [Hk4 Hk5].
  pose proof (trieOK_final _ _ _ _ _ _ Hext Hwr Ht3) as Ht4.
  assert (Hlast : worldMap W' ∈ K') by (unfold K'; rewrite !elem_of_app; right; right; left).
  split; [|by split]. split; [|split].
  - split; [done|..]; simpl.
    + apply (cacheOK_Add _ _ _ _ _ _ _ _ (worldMap W')); [done|done|done|].
      eapply cacheOK_final; [done|done|]. by eapply cacheOK_sub.
    + eapply cacheOK_final; [done|done|]. by eapply cacheOK_sub.
  - unfold K'. rewrite !known_app. split; [by eapply known_grows|]. split; [done|].
    intros m Hm%list_elem_of_singleton. subst m. by split.
  - unfold K'. apply elem_of_app. by left.
Qed.
End results.

(** ** A concrete commit *)

Module DemoLru.
#[export, refine] Instance demo_lru : Lru := {
  lru V := gmap (list Z) V;
  lru_New V := ∅;
  lru_Get V k c := (c !! k, c);
  lru_Add V k v c := <[k := v]> c;
}.
Proof.
  - done.
  - intros V k v k' v' c. simpl. destruct (decide (k' = k)) as [->|].
    + rewrite lookup_insert_eq. intros [= ->]. auto.
    + rewrite lookup_insert_ne by done. auto.
  - done.
Defined.
End DemoLru.

Import (hints) Demo.
Import (hints) DemoLru.

Definition demo_obj : Object := mkObject ZeroAddress ZeroHash 5 EmptyRootHash 1 false false [] [].

Definition demo_writes (r : result (Trie * bytes * writes * StateDB)) : nat :=
  match r with Ok (_, _, w, _) => length w | _ => 0%nat end.

Lemma demo_roots : distinctRoots [∅; worldMap (applyObjs ∅ [demo_obj])].
Proof.
  assert (Hne : storageRoot ∅ <> storageRoot (worldMap (applyObjs ∅ [demo_obj]))).
  { rewrite storageRoot_empty. vm_compute. discriminate. }
  revert Hne. generalize (worldMap (applyObjs ∅ [demo_obj])) as m. intros m Hne m1 m2 H1 H2 E.
  apply elem_of_cons in H1 as [H1|H1%list_elem_of_singleton], H2 as [H2|H2%list_elem_of_singleton]; subst m1 m2;
    [reflexivity|by destruct Hne|by destruct Hne|reflexivity].
Qed.

Lemma Trie_Commit_correct_witness :
  exists (nTrie : Trie) (s' : StateDB),
    Trie_Commit [demo_obj] NewTrie (NewState NewMemoryStorage) =
      Ok (nTrie, stateRoot (applyObjs ∅ [demo_obj]), s') /\
    worldTrie s' nTrie (applyObjs ∅ [demo_obj]) 2.
Proof.
  destruct (Trie_Commit_correct (NewState NewMemoryStorage) NewTrie ∅ [∅] 0 [demo_obj])
    as (nTrie & s' & w & [s2 Ew] & E & _ & H).
  - apply database_New.
  - apply worldTrie_New.
  - lia.
  - simpl. lia.
  - split; [|done]. intros _. split; [symmetry; apply storageRoot_empty|left].
  - intros obj Hobj%list_elem_of_singleton e He. subst obj. by apply elem_of_nil in He.
  - apply demo_roots.
  - exists nTrie, s'. split; [exact E|]. apply H.
    assert (Hw : length w = 1%nat).
    { transitivity (demo_writes (commitBatch [demo_obj] NewTrie (NewState NewMemoryStorage)));
        [by rewrite Ew|vm_compute; reflexivity]. }
    destruct w as [|[k d] [|]]; [done| |done]. by apply noCollision_one.
Defined.
