(* ===== verification/Blockchain.v ===== *)
(** The block chain (blockchain/blockchain.go, blockchain/subscription.go): blocks are
    executed, checked against their headers and appended; headers, bodies, transactions
    and receipts are read back; the head is restored at a start. *)

From S2P Require Import Prelude Types Chain Runtime Crypto Rlp Slice TxTypes BlockTypes Genesis Signer.
From S2P Require Import StateTxn Bridge Upgrader Executor Trie TrieHash RawDB Buildroot TrieState.

(** ** Events (subscription.go) *)

Inductive EventType := EventHead | EventReorg | EventFork.

Record Event := mkEvent {
  ev_OldChain : list Header;
  ev_NewChain : list Header;
  ev_Difficulty : option Z;
  ev_Type : EventType;
  ev_Source : bytes;
}.
Definition emptyEvent : Event := mkEvent [] [] None EventHead [].

(** [e.NewChain[len(e.NewChain)-1]]: the index of an empty chain panics. *)
Definition Event_Header (e : Event) : option Header := ev_NewChain e !! (length (ev_NewChain e) - 1)%nat.
Definition SetDifficulty (b : Z) (e : Event) : Event :=
  mkEvent (ev_OldChain e) (ev_NewChain e) (Some b) (ev_Type e) (ev_Source e).
Definition AddNewHeader (h : Header) (e : Event) : Event :=
  mkEvent (ev_OldChain e) (ev_NewChain e ++ [Header_Copy h]) (ev_Difficulty e) (ev_Type e) (ev_Source e).
Definition AddOldHeader (h : Header) (e : Event) : Event :=
  mkEvent (ev_OldChain e ++ [Header_Copy h]) (ev_NewChain e) (ev_Difficulty e) (ev_Type e) (ev_Source e).

(** [eventStream]: the channels of the subscribers, each with room for one event. *)
Abbreviation eventStream := (list (option Event)) (only parsing).

(** [subscribe]: the new channel comes last. *)
Definition subscribe (s : eventStream) : eventStream := s ++ [None].

(** [push]: a full channel drops the event. *)
Definition push (event : Event) (s : eventStream) : eventStream :=
  map (fun ch => match ch with None => Some event | Some e => Some e end) s.

(** [GetEvent] of the [i]th subscriber; [None] when it would block. *)
Definition GetEvent (i : nat) (s : eventStream) : option (Event * eventStream) :=
  ch ← s !! i; e ← ch; Some (e, <[i := None]> s).

(** ** The chain *)

(** The part of [chain.Params] the package reads. *)
Record Params := mkParams { p_Forks : Forks; p_ChainID : Z; p_BlockGasTarget : Z }.
Record Chain := mkChain { c_Genesis : Genesis; c_Params : Params }.

Inductive bc_error :=
| ErrClosed
| ErrParentNotFound
| ErrSeal                         (** the block creator cannot be recovered *)
| ErrExecution (e : apply_error)
| ErrMismatchReceiptsRoot
| ErrMismatchTxRoot
| ErrMismatchStateRoot
| ErrNoBlock
| ErrNoBlockHeader
| ErrExistBlock
| ErrVerify                       (** an error of [VerifyHeader] *)
| ErrInvalidTxRoot
| ErrLoadGenesis
| ErrGenesisMismatch
| ErrGetHeader.

(** The stop flags as they are seen: by [WriteBlock], at the start of the execution,
    before its commit, and by the two loops over transactions. *)
Record Flags := mkFlags {
  fl_write : bool;
  fl_execute : bool;
  fl_commit : bool;
  fl_normal : nat -> bool;
  fl_system : nat -> bool;
}.

Record BlockResult := mkBlockResult { br_Root : Hash; br_Receipts : list Receipt; br_TotalGas : Z }.

(** The fields that change; [bc_state] is the state database. *)
Record Blockchain `{LR : !Lru} (Snap : Type) := mkBlockchain {
  bc_db : ChainDB;
  bc_state : Snap;
  bc_genesis : Hash;
  bc_stream : eventStream;
  bc_currentHeader : option Header;
  bc_currentDifficulty : option Z;
  bc_difficultyCache : lru Z;
  bc_price : Z;
  bc_count : Z;
}.
Arguments mkBlockchain {LR Snap}.
Arguments bc_db {LR Snap}.
Arguments bc_state {LR Snap}.
Arguments bc_genesis {LR Snap}.
Arguments bc_stream {LR Snap}.
Arguments bc_currentHeader {LR Snap}.
Arguments bc_currentDifficulty {LR Snap}.
Arguments bc_difficultyCache {LR Snap}.
Arguments bc_price {LR Snap}.
Arguments bc_count {LR Snap}.

(** ** Reading the chain tables *)

Section readers.
Context `{KK : !Keccak, RL : !FastRlp}.

Definition GetHeaderByHash (d : ChainDB) (hash : Hash) : option Header := ReadHeader d hash.

Definition GetHeaderByNumber (d : ChainDB) (n : Z) : result (option Header) :=
  h ← ReadCanonicalHash d n;
  Ok (hash ← h; ReadHeader d hash).

(** [None] is an error. *)
Definition GetReceiptsByHash (d : ChainDB) (hash : Hash) : option (list Receipt) :=
  bodies ← ReadBody d hash; mapM (ReadReceipt d) bodies.

(** The flag is false also when the body was read. *)
Definition GetBodyByHash (d : ChainDB) (hash : Hash) : option Body * bool :=
  match (bodies ← ReadBody d hash; mapM (ReadTransaction d) bodies) with
  | None => (None, false)
  | Some txes => (Some (mkBody txes []), false)
  end.

Definition readHeader (d : ChainDB) (hash : Hash) : option Header := ReadHeader d hash.
Definition GetParent (d : ChainDB) (header : Header) : option Header := readHeader d (h_ParentHash header).
Definition GetTxnByHash (d : ChainDB) (hash : Hash) : option Transaction := ReadTransaction d hash.

(** The loop that reads the transactions stops at one that is missing, and the block
    is then given without any. *)
Definition GetBlockByHash (d : ChainDB) (blkHash : Hash) (full : bool) : option Block :=
  header ← ReadHeader d blkHash;
  if negb full || (h_Number header =? 0) then Some (mkBlock header [] [])
  else
    match (body ← ReadBody d blkHash; mapM (ReadTransaction d) body) with
    | None => Some (mkBlock header [] [])
    | Some txs => Some (mkBlock header txs [])
    end.

Definition GetBlockByNumber (d : ChainDB) (blockNumber : Z) (full : bool) : result (option Block) :=
  h ← ReadCanonicalHash d blockNumber;
  Ok (blkHash ← h; GetBlockByHash d blkHash full).

(** The transactions are appended to as many nil pointers ([None]); one that cannot be
    read is an empty one. *)
Definition readBody (d : ChainDB) (hash : Hash) : option (list (option Transaction)) :=
  txsHash ← ReadBody d hash;
  Some (replicate (length txsHash) None ++
        map (fun h => Some (default emptyTransaction (ReadTransaction d h))) txsHash).

Definition ReadTxLookup (d : ChainDB) (txHash : Hash) : result (option Hash) :=
  match ReadTxLookUp d txHash with
  | None => Ok None
  | Some blockNum => ReadCanonicalHash d blockNum
  end.

(** The walk of [GetHashHelper] along the parents. One round is left for every block
    below [num], at the last of which it returns. *)
Fixpoint hashWalk (rounds : nat) (d : ChainDB) (num : Z) (hash : Hash) (i : Z) : Hash :=
  match rounds with
  | O => ZeroHash
  | S rounds =>
      if num =? i then hash
      else
        match GetHeaderByHash d hash with
        | None => ZeroHash
        | Some h => if num =? 0 then ZeroHash else hashWalk rounds d (num - 1) (h_ParentHash h) i
        end
  end.

Definition GetHashHelper (d : ChainDB) (header : Header) (i : Z) : Hash :=
  let num := u64 (h_Number header - 1) in
  hashWalk (S (Z.to_nat num)) d num (h_ParentHash header) i.

(** [None] when the header passes. *)
Definition VerifyHeader (d : ChainDB) (header : Header) : result (option bc_error) :=
  if u64 (h_Number header - 1) =? 0 then Ok None
  else
    h ← ReadCanonicalHash d (u64 (h_Number header - 1));
    match h with
    | None => Ok (Some ErrVerify)
    | Some hash =>
        match ReadHeader d hash with
        | None => Ok (Some ErrVerify)
        | Some parent =>
            if negb (hash_eqb (h_Hash parent) (h_ParentHash header)) then Ok (Some ErrVerify)
            else if negb (hash_eqb (h_Hash header) (HeaderHash header)) then Ok (Some ErrVerify)
            else Ok None
        end
    end.
End readers.

(** ** Gas limit and gas price *)

Definition BlockGasTargetDivisor : Z := 1024.

Definition common_Min (a b : Z) : Z := if a <? b then a else b.
Definition common_Max (a b : Z) : Z := if b <? a then a else b.

Definition calculateGasLimit (blockGasTarget parentGasLimit : Z) : Z :=
  if blockGasTarget =? 0 then parentGasLimit
  else if parentGasLimit =? blockGasTarget then blockGasTarget
  else
    let delta := u64 (parentGasLimit * 1) / BlockGasTargetDivisor in
    if parentGasLimit <? blockGasTarget then common_Min blockGasTarget (u64 (parentGasLimit + delta))
    else common_Max blockGasTarget (common_Max (u64 (parentGasLimit - delta)) 0).

(** [None] is the error that the parent is missing. *)
Definition CalculateGasLimit `{KK : !Keccak, RL : !FastRlp} (target : Z) (d : ChainDB) (number : Z)
    : result (option Z) :=
  parent ← GetHeaderByNumber d (u64 (number - 1));
  Ok (p ← parent; Some (calculateGasLimit target (h_GasLimit p))).

(** The average and the count it is over. *)
Definition calcArithmeticAverage (newValues : list Z) (sum : Z) : Z * Z :=
  (big_div sum (zlen newValues), zlen newValues).

Definition calcRollingAverage (price count : Z) (newValues : list Z) (sum : Z) : Z * Z :=
  let inputSetCount := zlen newValues in
  (big_div (price * (count - inputSetCount)) count + big_div sum count, inputSetCount + count).

Definition updateGasPriceAvg (newValues : list Z) (price count : Z) : Z * Z :=
  let sum := fold_left Z.add newValues 0 in
  if big_uint64 count =? 0 then calcArithmeticAverage newValues sum
  else calcRollingAverage price count newValues sum.

(** ** The state of the chain *)

Section blockchain.
Context {T : Type -> Type} {Snap : Type}.
Context `{IR : !Iradix T, KK : !Keccak, RL : !FastRlp, ST : !State Snap, BA : !BridgeABI, EC : !Btcec}.
Context `{UC : !Unicode, VA : !ValidatorSetABI, LR : !Lru}.
#[local] Abbreviation W := (transition T Snap).
#[local] Abbreviation BC := (Blockchain Snap).

(** The configuration, the runtimes of the executor for the block hashes they can ask
    for, its hook, the tables of the upgrades, and the trie table that the state keeps in
    the same database. *)
Context (config : Chain) (runtimes : (Z -> Hash) -> list (RuntimeT W)) (PostHook : option (W -> W)).
Context (prePortland portland detroit : Network -> option Upgrade).
Context (nodes : Snap -> Storage).

Definition set_db (d : ChainDB) (b : BC) : BC :=
  mkBlockchain d (bc_state b) (bc_genesis b) (bc_stream b) (bc_currentHeader b) (bc_currentDifficulty b)
    (bc_difficultyCache b) (bc_price b) (bc_count b).
Definition set_bcState (s : Snap) (b : BC) : BC :=
  mkBlockchain (bc_db b) s (bc_genesis b) (bc_stream b) (bc_currentHeader b) (bc_currentDifficulty b)
    (bc_difficultyCache b) (bc_price b) (bc_count b).
Definition set_genesis (h : Hash) (b : BC) : BC :=
  mkBlockchain (bc_db b) (bc_state b) h (bc_stream b) (bc_currentHeader b) (bc_currentDifficulty b)
    (bc_difficultyCache b) (bc_price b) (bc_count b).
Definition set_stream (s : eventStream) (b : BC) : BC :=
  mkBlockchain (bc_db b) (bc_state b) (bc_genesis b) s (bc_currentHeader b) (bc_currentDifficulty b)
    (bc_difficultyCache b) (bc_price b) (bc_count b).
Definition set_cache (c : lru Z) (b : BC) : BC :=
  mkBlockchain (bc_db b) (bc_state b) (bc_genesis b) (bc_stream b) (bc_currentHeader b) (bc_currentDifficulty b)
    c (bc_price b) (bc_count b).
Definition set_average (a : Z * Z) (b : BC) : BC :=
  mkBlockchain (bc_db b) (bc_state b) (bc_genesis b) (bc_stream b) (bc_currentHeader b) (bc_currentDifficulty b)
    (bc_difficultyCache b) (fst a) (snd a).

(** [big.NewInt(int64(diff))] *)
Definition setCurHeader (header : Header) (diff : Z) (b : BC) : BC :=
  mkBlockchain (bc_db b) (bc_state b) (bc_genesis b) (bc_stream b) (Some (Header_Copy header)) (Some (i64 diff))
    (bc_difficultyCache b) (bc_price b) (bc_count b).

Definition NewBlockchain (db : ChainDB) (state : Snap) : BC :=
  mkBlockchain db state ZeroHash (push emptyEvent []) None None (lru_New Z) 0 0.

(** A change of the database, which may panic. *)
Definition on_db (f : ChainDB -> result ChainDB) : GoM BC unit :=
  b ← get; d ← lift (f (bc_db b)); modify (set_db d).

(** A miss of the cache is filled from the table. *)
Definition readTotalDifficulty (headerHash : Hash) : GoM BC (option Z) :=
  b ← get;
  let '(found, c) := lru_Get headerHash (bc_difficultyCache b) in
  modify (set_cache c);;
  match found with
  | Some fd => mret (Some fd)
  | None =>
      match ReadTD (bc_db b) headerHash with
      | None => mret None
      | Some dbDifficulty =>
          modify (fun b => set_cache (lru_Add headerHash dbDifficulty (bc_difficultyCache b)) b);;
          mret (Some dbDifficulty)
      end
  end.
Definition GetTD (hash : Hash) : GoM BC (option Z) := readTotalDifficulty hash.

(** ** Appending a header *)

Definition advanceHead (newHeader : Header) : GoM BC unit :=
  on_db (fun d => Ok (WriteHeadHash (h_Hash newHeader) d));;
  on_db (WriteHeadNumber (h_Number newHeader));;
  on_db (WriteCanonicalHash (h_Number newHeader) (h_Hash newHeader));;
  on_db (WriteTD (h_Hash newHeader) (h_Difficulty newHeader));;
  modify (setCurHeader newHeader (h_Difficulty newHeader)).

Definition WriteHeader (header : Header) : GoM BC unit :=
  on_db (fun d => Ok (RawDB.WriteHeader header d));;
  advanceHead header;;
  modify (fun b => set_stream (push (AddNewHeader header emptyEvent) (bc_stream b)) b).

Definition writeGenesis (genesis : Genesis) : GoM BC unit :=
  let header := ComputeHash (GenesisHeader genesis) in
  modify (set_genesis (h_Hash header));;
  on_db (WriteTD (h_Hash header) 1);;
  WriteHeader header.

(** ** Executing a block *)

Definition getSigner (height : Z) : TxSigner :=
  NewSigner (At (p_Forks (c_Params config)) height) (u64 (p_ChainID (c_Params config))).

(** The common part of [isDepositTx] and [isSlashTx]. *)
Definition isFromCoinbase (isSignature : bytes -> bool) (height : Z) (coinbase : Address) (tx : Transaction)
    : result bool :=
  if negb (bool_decide (tr_To tx = Some AddrValidatorSetContract)) then Ok false
  else if negb (isSignature (tr_Input tx)) then Ok false
  else
    from ← signer_Sender (getSigner height) tx;
    Ok (match from with None => false | Some a => addr_eqb a coinbase end).

Definition isDepositTx := isFromCoinbase IsDepositTransactionSignture.
Definition isSlashTx := isFromCoinbase IsSlashTransactionSignture.

Definition IsSystemTransaction (height : Z) (coinbase : Address) (tx : Transaction) : result bool :=
  if negb (Detroit (At (p_Forks (c_Params config)) height)) then Ok false
  else
    d ← isDepositTx height coinbase tx;
    if d : bool then Ok true else isSlashTx height coinbase tx.

(** The two lists of the loop, in order: the consensus's transactions and the others. *)
Fixpoint splitTransactions (height : Z) (coinbase : Address) (txs : list Transaction)
    : result (list Transaction * list Transaction) :=
  match txs with
  | [] => Ok ([], [])
  | tx :: txs =>
      s ← IsSystemTransaction height coinbase tx;
      '(systemTxs, normalTxs) ← splitTransactions height coinbase txs;
      Ok (if s : bool then (tx :: systemTxs, normalTxs) else (systemTxs, tx :: normalTxs))
  end.

(** One call of the executor; an empty list makes none. *)
Definition processUnlessEmpty (cfg : ForksInTime) (rts : list (RuntimeT W)) (stopped : nat -> bool) (gasLimit : Z)
    (txs : list Transaction) (t : W) : result (apply_error + W) :=
  match txs with
  | [] => Ok (inr t)
  | _ =>
      match ProcessTransactions cfg rts PostHook (Sender (p_ChainID (c_Params config)) cfg) stopped gasLimit txs t with
      | (Ok None, t) => Ok (inr t)
      | (Ok (Some e), _) => Ok (inl e)
      | (Panic, _) => Panic
      end
  end.

(** From a transition at the parent to one with the block's transactions applied. *)
Definition runBlock (flags : Flags) (d : ChainDB) (block : Block) (blockCreator : Address) (cfg : ForksInTime)
    (t : W) : result (apply_error + W) :=
  let header := b_Header block in
  x ← UpgradeSystem prePortland portland detroit (p_ChainID (c_Params config)) (p_Forks (c_Params config))
        (Block_Number block) (t_state t);
  '(systemTxs, normalTxs) ← splitTransactions (h_Number header) blockCreator (b_Transactions block);
  let rts := runtimes (GetHashHelper d header) in
  r ← processUnlessEmpty cfg rts (fl_normal flags) (h_GasLimit header) normalTxs (set_state x t);
  match r with
  | inl e => Ok (inl e)
  | inr t => processUnlessEmpty cfg rts (fl_system flags) (h_GasLimit header) systemTxs t
  end.

(** The state is committed before the roots are compared. *)
Definition executeBlockTransactions (flags : Flags) (block : Block) : GoM BC (bc_error + BlockResult) :=
  if fl_execute flags then mret (inl ErrClosed)
  else
    b ← get;
    let header := b_Header block in
    match ReadHeader (bc_db b) (h_ParentHash header) with
    | None => mret (inl ErrParentNotFound)
    | Some parent =>
        match ecrecoverFromHeader header with
        | None => mret (inl ErrSeal)
        | Some blockCreator =>
            match BeginTxn (p_Forks (c_Params config)) (p_ChainID (c_Params config)) (bc_state b)
                    (h_StateRoot parent) header blockCreator with
            | None => mret (inl (ErrExecution StateNotFound))
            | Some (cfg, t) =>
                r ← lift (runBlock flags (bc_db b) block blockCreator cfg t);
                match r with
                | inl e => mret (inl (ErrExecution e))
                | inr t =>
                    if fl_commit flags then mret (inl ErrClosed)
                    else
                      let '(r, t') := Transition_Commit cfg t in
                      '(s2, root) ← lift r;
                      modify (set_bcState s2);;
                      mret (inr (mkBlockResult root (t_receipts t') (t_totalGas t')))
                end
            end
        end
    end.

(** ** Writing a block *)

Definition writeBody (block : Block) : GoM BC unit :=
  on_db (fun d => Ok (WriteTransactions (b_Transactions block) d));;
  on_db (fun d => Ok (WriteBody (Block_Hash block) (b_Transactions block) d));;
  on_db (WriteTxLookUp (Block_Number block) (b_Transactions block)).

(** A price that is nil is dereferenced. *)
Definition updateGasPriceAvgWithBlock (block : Block) : GoM BC unit :=
  match b_Transactions block with
  | [] => mret tt
  | txs =>
      gasPrices ← deref (mapM tr_GasPrice txs);
      modify (fun b => set_average (updateGasPriceAvg gasPrices (bc_price b) (bc_count b)) b)
  end.

(** What follows a successful execution: the roots of the header are checked and the
    block is appended. *)
Definition acceptBlock (block : Block) (blockResult : BlockResult) : GoM BC (option bc_error) :=
  let header := b_Header block in
  receiptsRoot ← lift (CalculateReceiptsRoot (br_Receipts blockResult));
  if negb (hash_eqb receiptsRoot (h_ReceiptsRoot header)) then mret (Some ErrMismatchReceiptsRoot)
  else
    txRoot ← lift (CalculateTransactionsRoot (b_Transactions block));
    if negb (hash_eqb txRoot (h_TxRoot header)) then mret (Some ErrMismatchTxRoot)
    else if negb (hash_eqb (br_Root blockResult) (h_StateRoot header)) then mret (Some ErrMismatchStateRoot)
    else
      on_db (fun d => Ok (WrteReceipts (br_Receipts blockResult) d));;
      WriteHeader (ComputeHash header);;
      updateGasPriceAvgWithBlock block;;
      b ← get;
      _ ← lift (GetHeaderByNumber (bc_db b) (u64 (h_Number header - 1)));
      mret None.

(** What follows the check of the number. *)
Definition writeNew (flags : Flags) (block : Block) : GoM BC (option bc_error) :=
  writeBody block;;
  r ← executeBlockTransactions flags block;
  match r with
  | inl e => mret (Some e)
  | inr blockResult => acceptBlock block blockResult
  end.

(** No lock is held between the check and the rest. *)
Definition WriteBlock (flags : Flags) (block : Block) : GoM BC (option bc_error) :=
  if fl_write flags then mret (Some ErrClosed)
  else
    b ← get;
    current ← deref (bc_currentHeader b);
    if Block_Number block <=? h_Number current then mret None else writeNew flags block.

(** [block] is a pointer; a block of the model has a header. *)
Definition VerifyFinalizedBlock (stopped : bool) (block : option Block) (d : ChainDB) : result (option bc_error) :=
  if stopped then Ok (Some ErrClosed)
  else
    match block with
    | None => Ok (Some ErrNoBlock)
    | Some block =>
        match ReadHeadNumber d with
        | Some latest => if Block_Number block <? latest then Ok (Some ErrExistBlock) else Ok None
        | None => Ok None
        end ≫= fun e =>
        match e with
        | Some e => Ok (Some e)
        | None =>
            e ← VerifyHeader d (b_Header block);
            match e with
            | Some _ => Ok (Some ErrVerify)
            | None =>
                hash ← CalculateTransactionsRoot (b_Transactions block);
                if hash_eqb hash (h_TxRoot (b_Header block)) then Ok None else Ok (Some ErrInvalidTxRoot)
            end
        end
    end.

(** ** Start *)

(** The loop from [index] downwards, until a header whose state is there. [None] is the
    nil pointer. *)
Fixpoint findState (index : nat) (newheader : option Header) (b : BC) : result (option Header) :=
  match index with
  | O => Ok newheader
  | S n =>
      h ← GetHeaderByNumber (bc_db b) (Z.of_nat index);
      match h with
      | None => findState n None b
      | Some newheader =>
          match ReadState (nodes (bc_state b)) (h_StateRoot newheader) with
          | Some _ => Ok (Some newheader)
          | None => findState n (Some newheader) b
          end
      end
  end.

(** The loop for a head without canonical hash; what it finds is replaced by the next
    loop, which begins at the same number. *)
Fixpoint findHeader (num : nat) (newheader : option Header) (d : ChainDB) : result (option Header) :=
  match num with
  | O => Ok newheader
  | S n =>
      h ← GetHeaderByNumber d (Z.of_nat num);
      match h with
      | Some newheader => Ok (Some newheader)
      | None => findHeader n None d
      end
  end.

Definition SelfCheck : GoM BC unit :=
  b ← get;
  latest ← deref (ReadHeadHash (bc_db b));
  header ← deref (ReadHeader (bc_db b) latest);
  exist ← lift (ReadCanonicalHash (bc_db b) (h_Number header));
  newheader ← match exist with
              | Some _ => mret None
              | None => lift (findHeader (Z.to_nat (u64 (h_Number header - 1))) None (bc_db b))
              end;
  newheader ← lift (findState (Z.to_nat (h_Number header)) newheader b);
  newheader ← deref newheader;
  on_db (fun d => Ok (WriteHeadHash (h_Hash newheader) d));;
  on_db (WriteHeadNumber (h_Number newheader)).

(** The head is the one read before the check. *)
Definition HandleGenesis : GoM BC (option bc_error) :=
  b ← get;
  match ReadHeadHash (bc_db b) with
  | Some head =>
      SelfCheck;;
      b ← get;
      genesis ← lift (ReadCanonicalHash (bc_db b) 0);
      match genesis with
      | None => mret (Some ErrLoadGenesis)
      | Some genesis =>
          if negb (hash_eqb genesis (Genesis_Hash (c_Genesis config))) then mret (Some ErrGenesisMismatch)
          else
            match ReadHeader (bc_db b) head with
            | None => mret (Some ErrGetHeader)
            | Some header => modify (setCurHeader header (h_Difficulty header));; mret None
            end
      end
  | None => writeGenesis (c_Genesis config);; mret None
  end.

(** ** Accounts *)

(** [State.GetState]: the key is hashed. *)
Definition stateGet (s : Snap) (root : Hash) (slot : bytes) : option bytes :=
  snap ← NewSnapshotAt s root; snap_Get snap (keccak256 slot).

Definition GetAccount (s : Snap) (root : Hash) (addr : Address) :=
  obj ← stateGet s root addr; Account_UnmarshalRlp obj.

Definition bc_GetStorage (s : Snap) (root : Hash) (addr : Address) (slot : Hash) : option bytes :=
  '(_, _, accountRoot, _) ← GetAccount s root addr; stateGet s accountRoot slot.

Definition bc_GetCode (s : Snap) (hash : Hash) : bytes := fst (state_GetCode s hash).
End blockchain.
