(* ===== verification/Syncer.v ===== *)
(** The sync protocol (protocol/): the status of peers, the service that answers their
    requests, the client that asks them, the search for the common ancestor, and the two
    loops that write the blocks received. *)

From S2P Require Import Prelude Types Crypto Text Rlp TxTypes BlockTypes RawDB PriorityQueue Blockchain.

(** ** Messages (protocol/proto/v1.proto)

    Strings are bytes. An empty [Value] is the absent one: the wire does not tell them
    apart. *)

Record GetHeadersRequest := mkGetHeadersRequest { gr_Number : Z; gr_Hash : bytes; gr_Skip : Z; gr_Amount : Z }.

(** [None] is a nil component, [Some None] one without a [Spec]. *)
Abbreviation Component := (option (option bytes)) (only parsing).
Abbreviation Response := (list Component) (only parsing).

Inductive HashRequest_Type := UNKNOWN | BODIES | RECEIPTS.
Record HashRequest := mkHashRequest { hr_Hash : list bytes; hr_Type : HashRequest_Type }.
Record V1Status := mkV1Status { vs_Difficulty : bytes; vs_Hash : bytes; vs_Number : Z }.
Record NotifyReq := mkNotifyReq { nr_Status : option V1Status; nr_Raw : option bytes }.
Record GetBlocksRequest := mkGetBlocksRequest { br_From : Z; br_To : Z }.

(** The codes of grpc errors the syncer looks at. *)
Inductive rpc_error := ResourceExhausted | OtherRpcError.

Inductive sync_error :=
| ErrLoadLocalGenesisFailed | ErrMismatchGenesis | ErrCommonAncestorNotFound | ErrForkNotFound
| ErrTooManyHeaders | ErrDecodeDifficulty
| errNilHeaderResponse | errInvalidHeaderSequence | errHeaderBodyMismatch
| errInvalidHeadersRequest | errNilRawRequest | errNilStatusRequest
| ErrHeaderNotFound | ErrForkRequest | ErrBodiesSize | ErrReceipts
| ErrDecode                       (** an error of [UnmarshalRLP] *)
| ErrRpc (e : rpc_error).

(** [proto.V1Client]: what the peer answers. *)
Record V1Client := mkV1Client {
  clt_GetHeaders : GetHeadersRequest -> rpc_error + Response;
  clt_GetObjectsByHash : HashRequest -> rpc_error + Response;
  clt_GetCurrent : rpc_error + V1Status;
  clt_GetBlocks : GetBlocksRequest -> rpc_error + list bytes;
}.

(** ** Peers (sync_peer.go) *)

Record Status := mkStatus { st_Difficulty : option Z; st_Hash : Hash; st_Number : Z }.

(** [new(big.Int).Set] of a nil pointer panics. *)
Definition Status_Copy (s : Status) : result Status :=
  match st_Difficulty s with None => Panic | Some d => Ok (mkStatus (Some d) (st_Hash s) (st_Number s)) end.

Definition toProto (s : Status) : V1Status :=
  mkV1Status (big_String (st_Difficulty s)) (Hash_String (st_Hash s)) (st_Number s).

Definition statusFromProto (p : V1Status) : sync_error + Status :=
  match SetString (vs_Difficulty p) 10 with
  | None => inl ErrDecodeDifficulty
  | Some diff => inr (mkStatus (Some diff) (StringToHash (vs_Hash p)) (vs_Number p))
  end.

(** The status kept when a new one arrives. *)
Definition newerStatus (status old : Status) : Status :=
  if st_Number status <? st_Number old then old
  else if (st_Number status =? st_Number old) && hash_eqb (st_Hash status) (st_Hash old) then old
  else status.

Definition PeerID : Type := bytes.
Record SyncPeer := mkSyncPeer { sp_client : V1Client; sp_status : Status }.

Definition SyncPeer_Number (p : SyncPeer) : Z := st_Number (sp_status p).
Definition SyncPeer_updateStatus (status : Status) (p : SyncPeer) : SyncPeer :=
  mkSyncPeer (sp_client p) (newerStatus status (sp_status p)).

(** ** The client (skeleton.go, service_v1.go, syncer.go) *)

Section client.
Context `{KK : !Keccak, RL : !FastRlp}.

Definition decodeHeader (obj : Component) : sync_error + Header :=
  match obj with
  | Some (Some v) => match Header_UnmarshalRLP v with None => inl ErrDecode | Some h => inr h end
  | _ => inl errNilHeaderResponse
  end.

(** The first error ends the loop. *)
Fixpoint decodeAll {A B E} (f : A -> E + B) (l : list A) : E + list B :=
  match l with
  | [] => inr []
  | a :: l =>
      match f a with
      | inl e => inl e
      | inr b => match decodeAll f l with inl e => inl e | inr bs => inr (b :: bs) end
      end
  end.

Definition getHeaders (clt : V1Client) (req : GetHeadersRequest) : sync_error + list Header :=
  match clt_GetHeaders clt req with
  | inl e => inl (ErrRpc e)
  | inr resp => decodeAll decodeHeader resp
  end.

(** [None]: the peer has no such header. *)
Definition getHeader (clt : V1Client) (num : option Z) (hash : option Hash) : sync_error + option Header :=
  let req := mkGetHeadersRequest (match num with Some n => i64 n | None => 0 end)
    (match hash with Some h => Hash_String h | None => [] end) 0 0 in
  match clt_GetHeaders clt req with
  | inl e => inl (ErrRpc e)
  | inr [] => inr None
  | inr [obj] =>
      match obj with
      | Some (Some ((_ :: _) as v)) => match Header_UnmarshalRLP v with None => inl ErrDecode | Some h => inr (Some h) end
      | _ => inl errNilHeaderResponse
      end
  | inr _ => inl ErrTooManyHeaders
  end.

(** A component without a [Spec] is dereferenced. *)
Definition decodeBody (obj : Component) : result (sync_error + Body) :=
  match obj with
  | Some (Some []) => Ok (inr (mkBody [] []))
  | Some (Some v) => Ok (match UnmarshalRlp Body_UnmarshalRLPFrom v with None => inl ErrDecode | Some b => inr b end)
  | _ => Panic
  end.

Fixpoint decodeBodies (l : Response) : result (sync_error + list Body) :=
  match l with
  | [] => Ok (inr [])
  | obj :: l =>
      b ← decodeBody obj;
      match b with
      | inl e => Ok (inl e)
      | inr b => r ← decodeBodies l; Ok (match r with inl e => inl e | inr bs => inr (b :: bs) end)
      end
  end.

Definition getBodies (clt : V1Client) (hashes : list Hash) : result (sync_error + list Body) :=
  let input := map Hash_String hashes in
  match clt_GetObjectsByHash clt (mkHashRequest input BODIES) with
  | inl e => Ok (inl (ErrRpc e))
  | inr resp =>
      res ← decodeBodies resp;
      Ok (match res with
          | inl e => inl e
          | inr bodies => if (length bodies =? length input)%nat then inr bodies else inl ErrBodiesSize
          end)
  end.

(** [headers[i].Number - headers[i-1].Number != 1], in [uint64]. *)
Fixpoint inSequence (headers : list Header) : bool :=
  match headers with
  | h :: ((h' :: _) as rest) => (u64 (h_Number h' - h_Number h) =? 1) && inSequence rest
  | _ => true
  end.

(** The blocks of the skeleton; the uncles of the bodies are dropped. *)
Definition getBlocksFromPeer (clt : V1Client) (skip amount initialBlockNum : Z) : result (sync_error + list Block) :=
  match getHeaders clt (mkGetHeadersRequest (i64 initialBlockNum) [] skip amount) with
  | inl e => Ok (inl e)
  | inr headers =>
      if negb (inSequence headers) then Ok (inl errInvalidHeaderSequence)
      else
        res ← getBodies clt (map h_Hash headers);
        Ok (match res with
            | inl e => inl e
            | inr bodies =>
                if negb (length bodies =? length headers)%nat then inl errHeaderBodyMismatch
                else inr (zip_with (fun h b => mkBlock h (bd_Transactions b) []) headers bodies)
            end)
  end.

(** [GetBlocks] of the skeleton, with the response of the peer. *)
Definition decodeBlocks (rsp : rpc_error + list bytes) : sync_error + list Block :=
  match rsp with
  | inl e => inl (ErrRpc e)
  | inr blocks =>
      decodeAll (fun b => match Block_UnmarshalRLP b with None => inl ErrDecode | Some block => inr block end) blocks
  end.
Definition skeleton_GetBlocks (clt : V1Client) (amount from : Z) : sync_error + list Block :=
  decodeBlocks (clt_GetBlocks clt (mkGetBlocksRequest from (u64 (from + u64 amount)))).
End client.

(** ** The chain the syncer works on (protocol/blockchain.go) *)

Class blockchainShim (B : Type) := {
  sh_Header : B -> option Header;
  sh_GetTD : Hash -> GoM B (option Z);
  sh_GetReceiptsByHash : B -> Hash -> option (list Receipt);
  sh_GetBodyByHash : B -> Hash -> option Body * bool;
  sh_GetHeaderByHash : B -> Hash -> option Header;
  sh_GetHeaderByNumber : B -> Z -> result (option Header);
  sh_WriteBlock : Flags -> Block -> GoM B (option bc_error);
}.

Definition maxSkeletonHeadersAmount : Z := 190.
Definition syncFinishedSize : Z := 16.

(** ** The service (service_v1.go) *)

Section service.
Context `{KK : !Keccak, RL : !FastRlp} {B : Type} `{SH : !blockchainShim B}.

(** The headers after [origin]: at most [rounds] of them. *)
Fixpoint headersLoop (rounds : nat) (store : B) (origin : Header) (skip : Z) : result (list Header) :=
  match rounds with
  | O => Ok []
  | S rounds =>
      let block := i64 (i64 (h_Number origin) + skip) in
      if block <? 0 then Ok []
      else
        o ← sh_GetHeaderByNumber store (u64 block);
        match o with
        | None => Ok []
        | Some h => rest ← headersLoop rounds store h skip; Ok (h :: rest)
        end
  end.

Definition component (v : bytes) : Component := Some (Some v).

Definition GetHeaders (store : B) (req : GetHeadersRequest) : result (sync_error + Response) :=
  if negb (gr_Number req =? 0) && negb (isEmpty (gr_Hash req)) then Ok (inl errInvalidHeadersRequest)
  else
    let amount := if maxSkeletonHeadersAmount <? gr_Amount req then maxSkeletonHeadersAmount else gr_Amount req in
    o ← (if negb (gr_Number req =? 0) then sh_GetHeaderByNumber store (u64 (gr_Number req))
         else Ok (hash ← Hash_UnmarshalText (gr_Hash req); sh_GetHeaderByHash store hash));
    match o with
    | None => Ok (inr [])
    | Some origin =>
        rest ← headersLoop (Z.to_nat (amount - 1)) store origin (i64 (gr_Skip req + 1));
        Ok (inr (map (fun h => component (Header_MarshalRLPTo h)) (origin :: rest)))
    end.

(** A body that is not found is a nil pointer in an interface that is not nil, and
    encoding it dereferences it. *)
Definition objectOf (store : B) (type : HashRequest_Type) (hash : Hash) : result (sync_error + bytes) :=
  match type with
  | BODIES =>
      match fst (sh_GetBodyByHash store hash) with
      | None => Panic
      | Some body => Ok (inr (MarshalTo (Body_MarshalRLPWith body)))
      end
  | RECEIPTS =>
      Ok (match sh_GetReceiptsByHash store hash with
          | None => inl ErrReceipts
          | Some receipts => inr (MarshalTo (Receipts_MarshalRLPWith receipts))
          end)
  | UNKNOWN => Ok (inr [])
  end.

Fixpoint objectsLoop (store : B) (type : HashRequest_Type) (hashes : list Hash) : result (sync_error + Response) :=
  match hashes with
  | [] => Ok (inr [])
  | hash :: hashes =>
      o ← objectOf store type hash;
      match o with
      | inl e => Ok (inl e)
      | inr data =>
          r ← objectsLoop store type hashes;
          Ok (match r with inl e => inl e | inr objs => inr (component data :: objs) end)
      end
  end.

Definition DecodeHashes (req : HashRequest) : option (list Hash) := mapM Hash_UnmarshalText (hr_Hash req).

Definition GetObjectsByHash (store : B) (req : HashRequest) : result (sync_error + Response) :=
  match DecodeHashes req with
  | None => Ok (inl ErrDecode)
  | Some hashes => objectsLoop store (hr_Type req) hashes
  end.
End service.

(** ** The common ancestor (syncer.go) *)

(** [float64(x)] of a [uint64]: 53 bits, rounded to nearest, ties to even. *)
Definition float64 (x : Z) : Z :=
  let e := Z.log2 x - 52 in
  if e <=? 0 then x
  else
    let q := x / 2 ^ e in
    let r := x mod 2 ^ e in
    let up := (2 ^ (e - 1) <? r) || ((r =? 2 ^ (e - 1)) && Z.odd q) in
    (if up then q + 1 else q) * 2 ^ e.

(** [uint64(math.Floor(float64(min + max) / 2))]; halving is exact. *)
Definition midpoint (min max : Z) : Z := u64 (float64 (u64 (min + max)) / 2).

Section ancestor.
Context `{KK : !Keccak, RL : !FastRlp} {B : Type} `{SH : !blockchainShim B}.

(** [for min <= max]: a round makes the interval smaller. *)
Fixpoint ancestorLoop (rounds : nat) (store : B) (clt : V1Client) (min max : Z) (header : option Header)
    : result (sync_error + option Header) :=
  match rounds with
  | O => Ok (inr header)
  | S rounds =>
      if max <? min then Ok (inr header)
      else
        let m := midpoint min max in
        if m =? 0 then
          genesis ← sh_GetHeaderByNumber store 0;
          Ok (match genesis with None => inl ErrLoadLocalGenesisFailed | Some g => inr (Some g) end)
        else
          match getHeader clt (Some m) None with
          | inl e => Ok (inl e)
          | inr None => ancestorLoop rounds store clt min (m - 1) header
          | inr (Some found) =>
              o ← sh_GetHeaderByNumber store m;
              match o with
              | None => Ok (inl ErrHeaderNotFound)
              | Some expected =>
                  if hash_eqb (h_Hash expected) (h_Hash found)
                  then ancestorLoop rounds store clt (u64 (m + 1)) max (Some found)
                  else if m =? 0 then Ok (inl ErrMismatchGenesis)
                  else ancestorLoop rounds store clt min (m - 1) header
              end
          end
  end.

Definition findCommonAncestor (store : B) (clt : V1Client) (status : Status) : result (sync_error + (Header * Header)) :=
  match sh_Header store with
  | None => Panic
  | Some h =>
      let max := if st_Number status <? h_Number h then st_Number status else h_Number h in
      r ← ancestorLoop (S (S (Z.to_nat max))) store clt 0 max None;
      Ok (match r with
          | inl e => inl e
          | inr None => inl ErrCommonAncestorNotFound
          | inr (Some header) =>
              match getHeader clt (Some (u64 (h_Number header + 1))) None with
              | inl _ => inl ErrForkRequest
              | inr None => inl ErrForkNotFound
              | inr (Some fork) => inr (header, fork)
              end
          end)
  end.

Definition isDifferentNetworkError (err : sync_error) : bool :=
  match err with ErrMismatchGenesis | ErrCommonAncestorNotFound | ErrForkNotFound => true | _ => false end.
End ancestor.

(** ** The syncer (syncer.go) *)

(** Where [WatchSync] is: waiting for a signal, with one and before [Get], waiting inside
    [Get], writing a block, returned. *)
Inductive watcher := WatchIdle | WatchGetting | WatchBlocked | WatchWriting (newblock : Block) | WatchStopped.

(** Where [SyncWork] is: at the top of the outer loop; asking [p] for blocks from
    [height]; writing the blocks of an answer, [todo] of which are left; returned. *)
Inductive worker :=
| WorkSearch
| WorkFetch (p : SyncPeer) (target height amount : Z)
| WorkWrite (p : SyncPeer) (target height : Z) (count : nat) (todo : list Block)
| WorkStopped.

Record Syncer (B : Type) := mkSyncer {
  s_blockchain : B;
  s_peers : gmap PeerID SyncPeer;
  s_status : option Status;
  s_enqueue : PriorityQueue;
  s_enqueueCh : nat;              (** signals sent and not yet received *)
  s_sending : nat;                (** calls of [enqueueBlock] between their [Put] and their signal *)
  s_stxRecv : bool;
  s_watcher : watcher;
  s_worker : worker;
}.
Arguments mkSyncer {B}.
Arguments s_blockchain {B}.
Arguments s_peers {B}.
Arguments s_status {B}.
Arguments s_enqueue {B}.
Arguments s_enqueueCh {B}.
Arguments s_sending {B}.
Arguments s_stxRecv {B}.
Arguments s_watcher {B}.
Arguments s_worker {B}.

Section syncer.
Context `{KK : !Keccak, RL : !FastRlp} {B : Type} `{SH : !blockchainShim B}.
#[local] Abbreviation Syncer := (Syncer B).

Definition set_chain (b : B) (s : Syncer) : Syncer :=
  mkSyncer b (s_peers s) (s_status s) (s_enqueue s) (s_enqueueCh s) (s_sending s) (s_stxRecv s) (s_watcher s) (s_worker s).
Definition set_peers (p : gmap PeerID SyncPeer) (s : Syncer) : Syncer :=
  mkSyncer (s_blockchain s) p (s_status s) (s_enqueue s) (s_enqueueCh s) (s_sending s) (s_stxRecv s) (s_watcher s) (s_worker s).
Definition set_status (st : option Status) (s : Syncer) : Syncer :=
  mkSyncer (s_blockchain s) (s_peers s) st (s_enqueue s) (s_enqueueCh s) (s_sending s) (s_stxRecv s) (s_watcher s) (s_worker s).
Definition set_queue (q : PriorityQueue) (w : watcher) (s : Syncer) : Syncer :=
  mkSyncer (s_blockchain s) (s_peers s) (s_status s) q (s_enqueueCh s) (s_sending s) (s_stxRecv s) w (s_worker s).
Definition set_signals (sent sending : nat) (s : Syncer) : Syncer :=
  mkSyncer (s_blockchain s) (s_peers s) (s_status s) (s_enqueue s) sent sending (s_stxRecv s) (s_watcher s) (s_worker s).
Definition set_stxRecv (b : bool) (s : Syncer) : Syncer :=
  mkSyncer (s_blockchain s) (s_peers s) (s_status s) (s_enqueue s) (s_enqueueCh s) (s_sending s) b (s_watcher s) (s_worker s).
Definition set_worker (w : worker) (s : Syncer) : Syncer :=
  mkSyncer (s_blockchain s) (s_peers s) (s_status s) (s_enqueue s) (s_enqueueCh s) (s_sending s) (s_stxRecv s) (s_watcher s) w.

Definition NewSyncer (blockchain : B) : Syncer :=
  mkSyncer blockchain ∅ None (NewPriorityQueue false) 0 0 false WatchIdle WorkSearch.

(** A call on the chain. *)
Definition on_chain {A} (m : GoM B A) : GoM Syncer A :=
  fun s => let '(r, b) := m (s_blockchain s) in (r, set_chain b s).

(** [s.status] is nil before [Start]. *)
Definition updateStatus (status : Status) : GoM Syncer unit :=
  s ← get;
  old ← deref (s_status s);
  put (set_status (Some (newerStatus status old)) s).

(** An event of the chain; true ends [syncCurrentStatus]. *)
Definition handleEvent (evnt : Event) : GoM Syncer bool :=
  match ev_Type evnt, ev_NewChain evnt with
  | EventFork, _ | _, [] => mret false
  | _, h :: _ => updateStatus (mkStatus (ev_Difficulty evnt) (h_Hash h) (h_Number h));; mret true
  end.

(** The status at the start. *)
Definition Start : GoM Syncer unit :=
  s ← get;
  currentHeader ← deref (sh_Header (s_blockchain s));
  diff ← on_chain (sh_GetTD (h_Hash currentHeader));
  s ← get;
  put (set_status (Some (mkStatus diff (h_Hash currentHeader) (h_Number currentHeader))) s).

(** What happens to [WatchSync] when its [Get] returns. *)
Definition watchGot (items : list Block) : result watcher :=
  match items with [] => Panic | b :: _ => Ok (WatchWriting b) end.

(** A reader that [Put] wakes up is [WatchSync], the only one. *)
Definition delivered (out : list (list Block)) (w : watcher) : result watcher :=
  match out with [] => Ok w | items :: _ => watchGot items end.

(** The block goes into the queue; its signal is still to be sent. A call that never
    returns is a panic here: the queue shows it cannot happen. *)
Definition enqueuePut (b : Block) : GoM Syncer unit :=
  s ← get;
  match Put [b] (s_enqueue s) with
  | None => lift Panic
  | Some (inl _, q) => put (set_signals (s_enqueueCh s) (S (s_sending s)) (set_queue q (s_watcher s) s))
  | Some (inr out, q) =>
      w ← lift (delivered out (s_watcher s));
      put (set_signals (s_enqueueCh s) (S (s_sending s)) (set_queue q w s))
  end.

(** The signal of a call that has put its block. *)
Definition enqueueSend : GoM Syncer unit :=
  s ← get;
  match s_sending s with
  | O => mret ()
  | S n => put (set_signals (S (s_enqueueCh s)) n s)
  end.

Definition enqueueBlock (b : Block) : GoM Syncer unit :=
  s ← get;
  h ← deref (sh_Header (s_blockchain s));
  if Block_Number b <=? h_Number h then mret () else enqueuePut b;; enqueueSend.

Definition updatePeerStatus (peerID : PeerID) (status : Status) : GoM Syncer unit :=
  s ← get;
  match s_peers s !! peerID with
  | None => mret ()
  | Some p => put (set_peers (<[peerID := SyncPeer_updateStatus status p]> (s_peers s)) s)
  end.

(** [peerID] is [None] when the context is not one of the syncer's server. *)
Definition Notify (peerID : option PeerID) (req : NotifyReq) : GoM Syncer (option sync_error) :=
  match nr_Raw req with
  | None | Some [] => mret (Some errNilRawRequest)
  | Some raw =>
      match nr_Status req, peerID with
      | None, _ => mret (Some errNilStatusRequest)
      | Some _, None => mret None
      | Some st, Some id =>
          match Block_UnmarshalRLP raw, statusFromProto st with
          | None, _ => mret (Some ErrDecode)
          | Some _, inl e => mret (Some e)
          | Some b, inr status =>
              updatePeerStatus id status;;
              s ← get;
              if negb (s_stxRecv s) then mret None else enqueueBlock b;; mret None
          end
      end
  end.

(** A method call on a nil status. *)
Definition GetCurrent : GoM Syncer V1Status :=
  s ← get; status ← deref (s_status s); mret (toProto status).

(** What [Broadcast] sends to every peer; [None] when the difficulty is not found. *)
Definition Broadcast (b : Block) : GoM Syncer (option NotifyReq) :=
  td ← on_chain (sh_GetTD (Block_Hash b));
  mret (match td with
        | None => None
        | Some td => Some (mkNotifyReq (Some (mkV1Status (Text 10 td) (Hash_String (Block_Hash b)) (Block_Number b)))
                             (Some (Block_MarshalRLP b)))
        end).

(** *** Peers *)

(** The peer with the highest block among the ones visited, in the order of the visit. *)
Fixpoint bestOf (best : option SyncPeer) (bestBlockNumber : Z) (peers : list SyncPeer) : option SyncPeer * Z :=
  match peers with
  | [] => (best, bestBlockNumber)
  | sp :: peers =>
      if bestBlockNumber <? SyncPeer_Number sp then bestOf (Some sp) (SyncPeer_Number sp) peers
      else bestOf best bestBlockNumber peers
  end.

(** [range] is the order in which the map of the peers is visited. *)
Definition BestPeer (range : list SyncPeer) (header : Header) : option SyncPeer :=
  let '(best, number) := bestOf None 0 range in if number <=? h_Number header then None else best.

(** The slots of peers that are not above [height] stay nil. *)
Fixpoint takePeers (height : Z) (num : nat) (peers : list SyncPeer) : list (option SyncPeer) :=
  match num, peers with
  | O, _ => []
  | S num, [] => replicate (S num) None
  | S num, sp :: peers => (if height <? SyncPeer_Number sp then Some sp else None) :: takePeers height num peers
  end.
(** An index into the empty slice panics. *)
Definition TakePeerByHeight (height : Z) (num : nat) (range : list SyncPeer) : result (list (option SyncPeer)) :=
  match num, range with
  | O, sp :: _ => if height <? SyncPeer_Number sp then Panic else Ok []
  | _, _ => Ok (takePeers height num range)
  end.

(** [stream] is whether the stream to the peer could be opened, with its client. *)
Definition AddPeer (peerID : PeerID) (stream : option V1Client) : GoM Syncer (option sync_error) :=
  s ← get;
  match s_peers s !! peerID with
  | Some _ => mret None
  | None =>
      match stream with
      | None => mret (Some (ErrRpc OtherRpcError))
      | Some clt =>
          match clt_GetCurrent clt with
          | inl e => mret (Some (ErrRpc e))
          | inr rawStatus =>
              match statusFromProto rawStatus with
              | inl e => mret (Some e)
              | inr status => put (set_peers (<[peerID := mkSyncPeer clt status]> (s_peers s)) s);; mret None
              end
          end
      end
  end.

Definition DeletePeer (peerID : PeerID) : GoM Syncer unit :=
  s ← get; put (set_peers (delete peerID (s_peers s)) s).

(** *** WatchSync *)

(** A signal is received. *)
Definition watchReceive : GoM Syncer unit :=
  s ← get;
  match s_watcher s, s_enqueueCh s with
  | WatchIdle, S n => put (set_signals n (s_sending s) (set_queue (s_enqueue s) WatchGetting s))
  | _, _ => mret ()
  end.

(** An error of [Get] is logged. *)
Definition watchGet : GoM Syncer unit :=
  s ← get;
  match s_watcher s with
  | WatchGetting =>
      match Get 1 (s_enqueue s) with
      | None => lift Panic
      | Some (Got items, q) => w ← lift (watchGot items); put (set_queue q w s)
      | Some (Waits, q) => put (set_queue q WatchBlocked s)
      | Some (GetErr _, q) => put (set_queue q WatchIdle s)
      end
  | _ => mret ()
  end.

Definition watchSignal : GoM Syncer unit := watchReceive;; watchGet.

(** [WriteBlock] has returned; an error ends the loop. *)
Definition watchReturn (err : option bc_error) : GoM Syncer unit :=
  s ← get;
  match s_watcher s with
  | WatchWriting _ => put (set_queue (s_enqueue s) (match err with None => WatchIdle | Some _ => WatchStopped end) s)
  | _ => mret ()
  end.

(** The block is written. *)
Definition watchWrite (flags : Flags) : GoM Syncer unit :=
  s ← get;
  match s_watcher s with
  | WatchWriting newblock => err ← on_chain (sh_WriteBlock flags newblock); watchReturn err
  | _ => mret ()
  end.

(** *** SyncWork *)

Definition StartToRecieveNewBlock : GoM Syncer unit := s ← get; put (set_stxRecv true s).

(** The outer loop: what comes after the search of the ancestor. *)
Definition startFetch (p : SyncPeer) (ancestor : Header) : GoM Syncer unit :=
  let target := SyncPeer_Number p in
  (if target <? u64 (h_Number ancestor + syncFinishedSize) then StartToRecieveNewBlock else mret ());;
  let height := u64 (h_Number ancestor + 1) in
  if target <=? height then mret ()
  else
    let amount := if u64 (target - height) <? maxSkeletonHeadersAmount then target - height else maxSkeletonHeadersAmount in
    s ← get;
    put (set_worker (WorkFetch p target height amount) s).

(** One turn of the outer loop, up to the inner one. After an error that tells another
    network the connection to the peer is closed as well; the peer is deleted when the
    network reports it. *)
Definition workSearch (range : list SyncPeer) : GoM Syncer unit :=
  s ← get;
  match s_worker s with
  | WorkSearch =>
      header ← deref (sh_Header (s_blockchain s));
      match BestPeer range header with
      | None => mret ()
      | Some p =>
          r ← lift (findCommonAncestor (s_blockchain s) (sp_client p) (sp_status p));
          match r with
          | inl _ => mret ()
          | inr (ancestor, _) => startFetch p ancestor
          end
      end
  | _ => mret ()
  end.

(** The request of the inner loop and its answer. *)
Definition workFetch (rsp : rpc_error + list bytes) : GoM Syncer unit :=
  s ← get;
  match s_worker s with
  | WorkFetch p target height amount =>
      match decodeBlocks rsp with
      | inl (ErrRpc ResourceExhausted) => put (set_worker (WorkFetch p target height (Z.quot amount 2)) s)
      | inl _ => put (set_worker WorkSearch s)
      | inr blocks => put (set_worker (WorkWrite p target height (length blocks) blocks) s)
      end
  | _ => mret ()
  end.

(** [WriteBlock] has returned for the next block of the answer; an error ends [SyncWork]. *)
Definition workReturn (err : option bc_error) : GoM Syncer unit :=
  s ← get;
  match s_worker s with
  | WorkWrite p target height count (_ :: todo) =>
      put (set_worker (match err with None => WorkWrite p target height count todo | Some _ => WorkStopped end) s)
  | _ => mret ()
  end.

(** The next block of the answer is written. After the last one the inner loop goes on,
    whether the target is reached or not. *)
Definition workWrite (flags : Flags) : GoM Syncer unit :=
  s ← get;
  match s_worker s with
  | WorkWrite p target height count [] =>
      put (set_worker (WorkFetch p target (u64 (height + Z.of_nat count)) maxSkeletonHeadersAmount) s)
  | WorkWrite p target height count (block :: _) => err ← on_chain (sh_WriteBlock flags block); workReturn err
  | _ => mret ()
  end.
End syncer.
