(* ===== verification/BlockchainCorrect.v ===== *)
(** What the chain promises: a block is appended only when its roots match, the head and
    the tables agree along every run, what was written is read back, ancestors are found
    by the walk along the parents, and the gas limit moves to its target. *)

From S2P Require Import Prelude Types Chain Runtime Crypto Rlp Slice Instances TxTypes BlockTypes BlockCorrect.
From S2P Require Import Genesis Signer StateTxn TxnCorrect Bridge Upgrader Executor Trie TrieHash RawDB Buildroot.
From S2P Require Import TrieState StateCorrect Blockchain.

(** ** The gas limit *)

Lemma calculateGasLimit_step target p :
  0 < target -> 0 <= p -> p + p / 1024 < two64 -> target < two64 ->
  let r := calculateGasLimit target p in
  (p <= target -> p <= r <= target) /\ (target <= p -> target <= r <= p) /\
  Z.abs (r - p) <= p / 1024 /\ (r = target \/ Z.abs (r - p) = p / 1024).
Proof.
  intros Ht Hp Ho Ho'. unfold calculateGasLimit, BlockGasTargetDivisor, common_Min, common_Max.
  pose proof (Z.div_pos p 1024 Hp ltac:(lia)). pose proof (Z.div_le_upper_bound p 1024 p ltac:(lia) ltac:(lia)).
  rewrite (proj2 (Z.eqb_neq target 0)) by lia. rewrite Z.mul_1_r.
  rewrite (u64_small p), (u64_small (p + _)), (u64_small (p - _)) by (unfold is_u64; lia).
  destruct (Z.eqb_spec p target); [lia|]. destruct (Z.ltb_spec p target).
  - destruct (Z.ltb_spec target (p + p / 1024)); lia.
  - destruct (Z.ltb_spec 0 (p - p / 1024)).
    + destruct (Z.ltb_spec (p - p / 1024) target); lia.
    + destruct (Z.ltb_spec 0 target); lia.
Qed.

(** The gas limit after [n] blocks. *)
Fixpoint gasLimitAfter (target : Z) (n : nat) (p : Z) : Z :=
  match n with O => p | S n => gasLimitAfter target n (calculateGasLimit target p) end.

(** C32: the gas limit of the blocks reaches the target. A step never moves it by more than
    a 1024th, never past the target and never away from it; from a limit of at least 1024
    (and a target of at least 1024) finitely many blocks bring it to the target exactly,
    where it stays. A limit below 1024 never moves. *)
Theorem calculateGasLimit_converges (target p : Z) :
  1024 <= target -> target + target / 1024 < two64 -> 0 <= p -> p + p / 1024 < two64 ->
  (let r := calculateGasLimit target p in
   Z.min p target <= r <= Z.max p target /\ Z.abs (r - p) <= p / 1024) /\
  (1024 <= p -> exists n, (n <= Z.to_nat (Z.abs (target - p)))%nat /\ gasLimitAfter target n p = target /\
     calculateGasLimit target target = target) /\
  (p < 1024 -> calculateGasLimit target p = p).
Proof.
  intros Ht Hto Hp Hpo. pose proof (calculateGasLimit_step target p ltac:(lia) Hp Hpo) as Hs.
  assert (target < two64). { pose proof (Z.div_pos target 1024 ltac:(lia) ltac:(lia)). lia. }
  specialize (Hs ltac:(lia)). destruct Hs as (H1 & H2 & H3 & H4). cbv zeta in *. split; [lia|]. split.
  - intros Hp'. remember (Z.to_nat (Z.abs (target - p))) as k eqn:Ek. clear H1 H2 H3 H4.
    assert (Hk : Z.abs (target - p) <= Z.of_nat k) by lia. clear Ek. revert p Hp Hpo Hp' Hk.
    induction k as [|k IH]; intros p Hp Hpo Hp' Hk.
    + exists 0%nat. split; [lia|]. split; [simpl; lia|]. unfold calculateGasLimit.
      rewrite (proj2 (Z.eqb_neq target 0)) by lia. by rewrite Z.eqb_refl.
    + destruct (calculateGasLimit_step target p ltac:(lia) Hp Hpo ltac:(lia)) as (H1 & H2 & H3 & H4).
      pose proof (Z.div_le_lower_bound p 1024 1 ltac:(lia) ltac:(lia)).
      set (r := calculateGasLimit target p) in *.
      assert (Hr : r + r / 1024 < two64).
      { destruct (decide (p <= target)).
        - pose proof (Z.div_le_mono r target 1024 ltac:(lia)). lia.
        - pose proof (Z.div_le_mono r p 1024 ltac:(lia)). lia. }
      destruct (IH r) as (n & Hn & En & Est); [lia|done|lia|lia|].
      exists (S n). split; [lia|]. cbn [gasLimitAfter]. by fold r.
  - intros Hlt. assert (p / 1024 = 0) by (apply Z.div_small; lia). lia.
Qed.

Lemma calculateGasLimit_converges_witness :
  exists n, (n <= 1000)%nat /\ gasLimitAfter 21000 n 20000 = 21000 /\ calculateGasLimit 21000 21000 = 21000.
Proof.
  destruct (calculateGasLimit_converges 21000 20000 ltac:(lia) ltac:(vm_compute; reflexivity) ltac:(lia)
    ltac:(vm_compute; reflexivity)) as (_ & H & _).
  destruct (H ltac:(lia)) as (n & Hn & E1 & E2). exists n. split; [|split; [exact E1|exact E2]].
  change (Z.to_nat (Z.abs (21000 - 20000))) with 1000%nat in Hn. exact Hn.
Defined.

(** ** Ancestors *)

Section ancestors.
Context `{KK : !Keccak, RL : !FastRlp}.

(** The hash [k] parents above, as the headers say. *)
Fixpoint ancestor (k : nat) (d : ChainDB) (hash : Hash) : option Hash :=
  match k with
  | O => Some hash
  | S k => h ← GetHeaderByHash d hash; ancestor k d (h_ParentHash h)
  end.

Lemma hashWalk_spec rounds d num hash i :
  0 <= num -> 0 <= i -> (Z.to_nat num < rounds)%nat ->
  hashWalk rounds d num hash i =
    if decide (i <= num) then default ZeroHash (ancestor (Z.to_nat (num - i)) d hash) else ZeroHash.
Proof.
  revert num hash. induction rounds as [|rounds IH]; intros num hash Hn Hi Hr; [lia|]. cbn [hashWalk].
  destruct (Z.eqb_spec num i) as [->|Hne].
  { rewrite decide_True, Z.sub_diag by lia. done. }
  destruct (GetHeaderByHash d hash) as [h|] eqn:Eh.
  - destruct (Z.eqb_spec num 0) as [->|H0]; [by rewrite decide_False by lia|]. rewrite IH by lia.
    destruct (decide (i <= num)).
    + rewrite decide_True by lia. replace (Z.to_nat (num - i)) with (S (Z.to_nat (num - 1 - i))) by lia.
      cbn [ancestor]. by rewrite Eh.
    + by rewrite decide_False by lia.
  - destruct (decide (i <= num)); [|done]. replace (Z.to_nat (num - i)) with (S (Z.to_nat (num - 1 - i))) by lia.
    cbn [ancestor]. by rewrite Eh.
Qed.

(** The hash a contract can ask for is the one of the ancestor at that height: for a
    block of number [n >= 1] and a height below it, the hash reached from the parent by
    following the stored headers; for any other height the zero hash. The walk ends. *)
Theorem GetHashHelper_correct (d : ChainDB) (header : Header) (i : Z) :
  1 <= h_Number header < two64 -> is_u64 i ->
  GetHashHelper d header i =
    if decide (i < h_Number header)
    then default ZeroHash (ancestor (Z.to_nat (h_Number header - 1 - i)) d (h_ParentHash header)) else ZeroHash.
Proof.
  intros Hn Hi. unfold GetHashHelper. rewrite u64_small by (unfold is_u64; lia).
  rewrite hashWalk_spec by (unfold is_u64 in Hi; lia).
  destruct (decide (i <= h_Number header - 1)), (decide (i < h_Number header)); done || lia.
Qed.
End ancestors.

(** ** Headers in the tables *)

#[local] Arguments EncodeVarint : simpl never.
#[local] Arguments DecodeVarint : simpl never.

Section tables.
Context `{KK : !Keccak, RL : !FastRlp}.

Lemma HeaderHash_set_Hash x h : HeaderHash (set_Hash x h) = HeaderHash h.
Proof. reflexivity. Qed.

Lemma ComputeHash_idem h : ComputeHash (ComputeHash h) = ComputeHash h.
Proof. reflexivity. Qed.

Lemma HeaderHash_hash h : is_hash (HeaderHash h).
Proof.
  unfold HeaderHash. split; [apply length_BytesToHash|]. apply fixed_of_bytes_is_byte.
  unfold CalculateHeaderHash. destruct (GetIbftExtra _); simpl; [apply keccak256_hash|constructor].
Qed.

Lemma ComputeHash_wf h : header_wf h -> header_wf (ComputeHash h).
Proof. by intros []. Qed.

(** What appending a header does to the tables. *)
Definition appendedDB (h : Header) (kn kd : bytes) (d : ChainDB) : ChainDB :=
  set_TD <[h_Hash h := kd]> (set_NumHash <[kn := h_Hash h]> (set_HeadNumber (Some kn)
    (WriteHeadHash (h_Hash h) (RawDB.WriteHeader h d)))).

Lemma EncodeVarint_Ok x b : 0 <= x -> EncodeVarint x = Ok b -> 0 <= x < 2 ^ 56 /\ fst (DecodeVarint b) = x.
Proof.
  intros Hx E. destruct (decide (2 ^ 56 <= x)) as [H|H]; [by rewrite EncodeVarint_panic in E|].
  destruct (varint_spec x ltac:(lia)) as (b' & E' & D). rewrite E in E'. injection E' as <-. rewrite D. split; [lia|done].
Qed.
End tables.

Section chain.
Context {T : Type -> Type} {Snap : Type}.
Context `{IR : !Iradix T, KK : !Keccak, RL : !FastRlp, ST : !State Snap, BA : !BridgeABI, EC : !Btcec}.
Context `{UC : !Unicode, VA : !ValidatorSetABI, LR : !Lru}.
#[local] Abbreviation W := (transition T Snap).
#[local] Abbreviation BC := (Blockchain Snap).
Implicit Types (b : BC).

Definition appended (h : Header) (kn kd : bytes) b : BC :=
  mkBlockchain (appendedDB h kn kd (bc_db b)) (bc_state b) (bc_genesis b)
    (push (AddNewHeader h emptyEvent) (bc_stream b)) (Some h) (Some (i64 (h_Difficulty h)))
    (bc_difficultyCache b) (bc_price b) (bc_count b).

Lemma on_db_ok f d b : f (bc_db b) = Ok d -> on_db f b = (Ok tt, set_db d b).
Proof. intros E. unfold on_db, lift, get, modify, mbind, GoM_bind. by rewrite E. Qed.

Lemma on_db_inv f b b' : on_db f b = (Ok tt, b') -> exists d, f (bc_db b) = Ok d /\ b' = set_db d b.
Proof. unfold on_db, lift, get, modify, mbind, GoM_bind. destruct (f (bc_db b)) as [d|]; [|done]. intros [= <-]. by exists d. Qed.

(** A header is appended, or its number or its difficulty does not fit the encoding. *)
Lemma WriteHeader_inv h b b' :
  WriteHeader h b = (Ok tt, b') ->
  exists kn kd, EncodeVarint (h_Number h) = Ok kn /\ EncodeVarint (h_Difficulty h) = Ok kd /\ b' = appended h kn kd b.
Proof.
  unfold WriteHeader, advanceHead. intros H.
  apply bind_inv in H as ([] & b0 & H & H2). apply on_db_inv in H as (d0 & [= <-] & ->).
  apply bind_inv in H2 as ([] & b1 & H1 & H2). cbn in H2. injection H2 as <-.
  apply bind_inv in H1 as ([] & b2 & H1 & H2). apply on_db_inv in H1 as (d1 & [= <-] & ->).
  apply bind_inv in H2 as ([] & b2 & H1 & H2). apply on_db_inv in H1 as (d2 & E2 & ->).
  apply bind_inv in H2 as ([] & b3 & H1 & H2). apply on_db_inv in H1 as (d3 & E3 & ->).
  apply bind_inv in H2 as ([] & b4 & H1 & H2). apply on_db_inv in H1 as (d4 & E4 & ->).
  cbn in H2. injection H2 as <-. cbn in E2, E3, E4.
  unfold WriteHeadNumber, WriteCanonicalHash, WriteTD in *.
  destruct (EncodeVarint (h_Number h)) as [kn|]; [|done]. cbn in E2. injection E2 as <-.
  cbn in E3. injection E3 as <-.
  destruct (EncodeVarint (h_Difficulty h)) as [kd|]; [|done]. cbn in E4. injection E4 as <-.
  exists kn, kd. split; [done|]. split; [done|]. reflexivity.
Qed.

Lemma WriteHeader_ok h b kn kd :
  EncodeVarint (h_Number h) = Ok kn -> EncodeVarint (h_Difficulty h) = Ok kd ->
  WriteHeader h b = (Ok tt, appended h kn kd b).
Proof.
  intros En Ed. unfold WriteHeader, advanceHead.
  erewrite bind_ok; [|by apply on_db_ok]. erewrite bind_ok.
  2: { erewrite bind_ok; [|by apply on_db_ok].
    erewrite bind_ok; [|apply on_db_ok; unfold WriteHeadNumber; by rewrite En].
    erewrite bind_ok; [|apply on_db_ok; unfold WriteCanonicalHash; by rewrite En].
    erewrite bind_ok; [|apply on_db_ok; unfold WriteTD; by rewrite Ed]. reflexivity. }
  reflexivity.
Qed.

(** ** Inversion of [WriteBlock] *)

Context (config : Chain) (runtimes : (Z -> Hash) -> list (RuntimeT W)) (PostHook : option (W -> W)).
Context (prePortland portland detroit : Network -> option Upgrade).
#[local] Abbreviation execute := (executeBlockTransactions config runtimes PostHook prePortland portland detroit).
#[local] Abbreviation write := (WriteBlock config runtimes PostHook prePortland portland detroit).

Lemma writeBody_inv block b b' :
  writeBody block b = (Ok tt, b') ->
  exists d, WriteTxLookUp (Block_Number block) (b_Transactions block)
      (WriteBody (Block_Hash block) (b_Transactions block) (WriteTransactions (b_Transactions block) (bc_db b))) = Ok d /\
    b' = set_db d b.
Proof.
  unfold writeBody. intros H. apply bind_inv in H as ([] & b0 & H & H2). apply on_db_inv in H as (d0 & [= <-] & ->).
  apply bind_inv in H2 as ([] & b1 & H & H2). apply on_db_inv in H as (d1 & [= <-] & ->).
  apply on_db_inv in H2 as (d2 & E & ->). exists d2. split; [exact E|reflexivity].
Qed.

(** Executing a block changes the state database alone. *)
Lemma execute_state flags block b : exists s, snd (execute flags block b) = set_bcState s b.
Proof.
  assert (Hid : exists s, b = set_bcState s b) by (exists (bc_state b); by destruct b).
  unfold executeBlockTransactions. destruct (fl_execute flags); [done|].
  unfold get, lift, modify, mbind, GoM_bind. cbn [snd].
  destruct (ReadHeader _ _) as [parent|]; [|done]. destruct (ecrecoverFromHeader _) as [creator|]; [|done].
  destruct (BeginTxn _ _ _ _ _ _) as [[cfg t]|]; [|done].
  destruct (runBlock _ _ _ _ _ _ _ _ _ _ _ _) as [[e|t1]|]; [done| |done].
  destruct (fl_commit flags); [done|]. destruct (Transition_Commit cfg t1) as [[[s2 root]|] t2]; [|done]. by exists s2.
Qed.

(** What a block that is appended satisfies. *)
Record checked (block : Block) (br : BlockResult) : Prop := {
  ch_receipts : CalculateReceiptsRoot (br_Receipts br) = Ok (h_ReceiptsRoot (b_Header block));
  ch_txs : CalculateTransactionsRoot (b_Transactions block) = Ok (h_TxRoot (b_Header block));
  ch_state : br_Root br = h_StateRoot (b_Header block);
}.

Lemma acceptBlock_inv block br b r b' :
  acceptBlock block br b = (Ok r, b') ->
  (exists e, r = Some e /\ b' = b) \/
  (r = None /\ checked block br /\ exists kn kd a,
     EncodeVarint (h_Number (b_Header block)) = Ok kn /\ EncodeVarint (h_Difficulty (b_Header block)) = Ok kd /\
     b' = set_average a (appended (ComputeHash (b_Header block)) kn kd
            (set_db (WrteReceipts (br_Receipts br) (bc_db b)) b))).
Proof.
  unfold acceptBlock. intros H. apply bind_inv in H as (rr & b0 & Hr & H). injection Hr as Hr <-.
  destruct (hash_eqb rr _) eqn:E1; cbn [negb] in H; [|left; injection H as <- <-; by eexists].
  apply bind_inv in H as (tr & b0 & Ht & H). injection Ht as Ht <-.
  destruct (hash_eqb tr _) eqn:E2; cbn [negb] in H; [|left; injection H as <- <-; by eexists].
  destruct (hash_eqb (br_Root br) _) eqn:E3; cbn [negb] in H; [|left; injection H as <- <-; by eexists].
  apply bool_decide_eq_true in E1, E2, E3. subst rr tr. right.
  apply bind_inv in H as ([] & b0 & H0 & H). apply on_db_inv in H0 as (d0 & [= <-] & ->).
  apply bind_inv in H as ([] & b1 & H0 & H). apply WriteHeader_inv in H0 as (kn & kd & En & Ed & ->).
  apply bind_inv in H as ([] & b2 & H0 & H). apply bind_inv in H as (b3 & b3' & [= <- <-] & H).
  apply bind_inv in H as (o & b4 & Ho & H). injection Ho as Ho <-. injection H as <- <-.
  split; [done|]. split; [by split|]. exists kn, kd.
  unfold updateGasPriceAvgWithBlock in H0. destruct (b_Transactions block) as [|tx txs].
  - injection H0 as <-. exists (bc_price b, bc_count b). done.
  - apply bind_inv in H0 as (ps & b4 & Hp & H0). injection H0 as <-. eexists. split; [done|]. split; [done|].
    unfold deref in Hp. destruct (mapM tr_GasPrice (tx :: txs)); [|done]. injection Hp as _ <-. reflexivity.
Qed.

(** The state right before the roots are checked: body written, state committed. *)
Definition executed flags block b d s : Prop :=
  WriteTxLookUp (Block_Number block) (b_Transactions block)
    (WriteBody (Block_Hash block) (b_Transactions block) (WriteTransactions (b_Transactions block) (bc_db b))) = Ok d /\
  snd (execute flags block (set_db d b)) = set_bcState s (set_db d b).

Lemma writeNew_inv flags block b r b' :
  writeNew config runtimes PostHook prePortland portland detroit flags block b = (Ok r, b') ->
  exists d s, executed flags block b d s /\
    ((exists e, r = Some e /\ b' = set_bcState s (set_db d b)) \/
     (r = None /\ exists br kn kd a,
        fst (execute flags block (set_db d b)) = Ok (inr br) /\ checked block br /\
        EncodeVarint (h_Number (b_Header block)) = Ok kn /\ EncodeVarint (h_Difficulty (b_Header block)) = Ok kd /\
        b' = set_average a (appended (ComputeHash (b_Header block)) kn kd
               (set_bcState s (set_db (WrteReceipts (br_Receipts br) d) b))))).
Proof.
  unfold writeNew. intros H. apply bind_inv in H as ([] & b1 & Hb & H). apply writeBody_inv in Hb as (d & Ed & ->).
  apply bind_inv in H as (r1 & b2 & Hx & H). destruct (execute_state flags block (set_db d b)) as [s Es].
  rewrite Hx in Es. simpl in Es. subst b2. exists d, s.
  split; [split; [done|by rewrite Hx]|]. destruct r1 as [e|br].
  - injection H as <- <-. left. by exists e.
  - apply acceptBlock_inv in H as [(e & -> & ->)|(-> & Hch & kn & kd & a & En & Ed' & ->)]; [left; by exists e|].
    right. split; [done|]. exists br, kn, kd, a. split; [by rewrite Hx|]. repeat split; try done; apply Hch.
Qed.

Lemma WriteBlock_inv flags block b r b' :
  write flags block b = (Ok r, b') ->
  (b' = b /\ (fl_write flags = true \/
     exists current, bc_currentHeader b = Some current /\ h_Number (b_Header block) <= h_Number current)) \/
  exists current d s, bc_currentHeader b = Some current /\ h_Number current < h_Number (b_Header block) /\
    executed flags block b d s /\
    ((exists e, r = Some e /\ b' = set_bcState s (set_db d b)) \/
     (r = None /\ exists br kn kd a,
        fst (execute flags block (set_db d b)) = Ok (inr br) /\ checked block br /\
        EncodeVarint (h_Number (b_Header block)) = Ok kn /\ EncodeVarint (h_Difficulty (b_Header block)) = Ok kd /\
        b' = set_average a (appended (ComputeHash (b_Header block)) kn kd
               (set_bcState s (set_db (WrteReceipts (br_Receipts br) d) b))))).
Proof.
  unfold WriteBlock. destruct (fl_write flags); [intros [= <- <-]; left; by auto|]. intros H.
  apply bind_inv in H as (b0 & b0' & [= <- <-] & H). apply bind_inv in H as (current & b1 & Hc & H).
  unfold deref in Hc. destruct (bc_currentHeader b) as [h|] eqn:Eh; [|done]. injection Hc as -> <-.
  destruct (Z.leb_spec (Block_Number block) (h_Number current)) as [Hle|Hlt].
  { injection H as <- <-. left. by eauto. }
  apply writeNew_inv in H as (d & s & Hx & H). right. by exists current, d, s.
Qed.

(** ** The invariant of the chain *)

(** The tables that only an appended header changes. *)
Definition headTables (d : ChainDB) :=
  (db_Head d, db_HeadHash d, db_HeadNumber d, db_NumHash d, db_TD d).

Lemma headTables_fold {A} (f : ChainDB -> A -> ChainDB) l d :
  (forall d x, headTables (f d x) = headTables d) -> headTables (fold_left f l d) = headTables d.
Proof. intros Hf. revert d. induction l as [|x l IH]; intros d; [done|]. simpl. by rewrite IH, Hf. Qed.

Lemma headTables_body n hash txs d d' :
  WriteTxLookUp n txs (WriteBody hash txs (WriteTransactions txs d)) = Ok d' -> headTables d' = headTables d.
Proof.
  set (d1 := WriteBody hash txs (WriteTransactions txs d)).
  assert (E : headTables d1 = headTables d).
  { transitivity (headTables (WriteTransactions txs d)); [unfold d1; by destruct txs|]. by apply headTables_fold. }
  clearbody d1. rewrite <- E. unfold WriteTxLookUp. destruct txs as [|tx txs]; [by intros [= <-]|].
  destruct (EncodeVarint n) as [k|]; [|done]. intros [= <-].
  by apply (headTables_fold (fun d tx => set_TxLookUp <[Transaction_Hash tx := k]> d) (tx :: txs)).
Qed.

Lemma headTables_receipts rs d : headTables (WrteReceipts rs d) = headTables d.
Proof. by apply headTables_fold. Qed.

Record chain_ok b : Prop := {
  ck_current : exists h, bc_currentHeader b = Some h /\ ReadHeader (bc_db b) (h_Hash h) = Some h /\
    bc_currentDifficulty b = Some (i64 (h_Difficulty h)) /\ ReadHeadHash (bc_db b) = Some (h_Hash h) /\
    ReadHeadNumber (bc_db b) = Some (h_Number h) /\ 0 <= h_Number h < 2 ^ 56 /\
    ReadCanonicalHash (bc_db b) (h_Number h) = Ok (Some (h_Hash h)) /\
    forall n, h_Number h < n < 2 ^ 56 -> ReadCanonicalHash (bc_db b) n = Ok None;
  ck_canonical : forall n hash, 0 <= n < 2 ^ 56 -> ReadCanonicalHash (bc_db b) n = Ok (Some hash) ->
    exists h, is_Some (db_Head (bc_db b) !! hash) /\ ReadHeader (bc_db b) hash = Some h /\
      h_Number h = n /\ h_Hash h = hash /\ header_wf h;
  ck_td : forall hash, is_Some (db_TD (bc_db b) !! hash) -> is_Some (db_Head (bc_db b) !! hash);
  ck_cache : forall hash v, fst (lru_Get hash (bc_difficultyCache b)) = Some v -> ReadTD (bc_db b) hash = Some v;
}.

(** The invariant is about the head, its tables and the cache. *)
Lemma chain_ok_same b b' :
  headTables (bc_db b') = headTables (bc_db b) -> bc_currentHeader b' = bc_currentHeader b ->
  bc_currentDifficulty b' = bc_currentDifficulty b -> bc_difficultyCache b' = bc_difficultyCache b ->
  chain_ok b -> chain_ok b'.
Proof.
  intros Ht Hc Hd Hl [C1 C2 C3 C4]. injection Ht as E1 E2 E3 E4 E5.
  split; unfold ReadHeader, ReadHeadHash, ReadHeadNumber, ReadCanonicalHash, ReadTD in *;
    rewrite ?Hc, ?Hd, ?Hl, ?E1, ?E2, ?E3, ?E4, ?E5; done.
Qed.

(** Appending a header whose hash is not in use and whose number is above the head. *)
Lemma chain_ok_append b h kn kd :
  header_wf h -> ComputeHash h = h -> db_Head (bc_db b) !! h_Hash h = None ->
  EncodeVarint (h_Number h) = Ok kn -> EncodeVarint (h_Difficulty h) = Ok kd ->
  (forall n, h_Number h < n < 2 ^ 56 -> ReadCanonicalHash (bc_db b) n = Ok None) ->
  (forall n hash, 0 <= n < 2 ^ 56 -> ReadCanonicalHash (bc_db b) n = Ok (Some hash) ->
    exists h, is_Some (db_Head (bc_db b) !! hash) /\ ReadHeader (bc_db b) hash = Some h /\
      h_Number h = n /\ h_Hash h = hash /\ header_wf h) ->
  (forall hash, hash <> h_Hash h -> is_Some (db_TD (bc_db b) !! hash) -> is_Some (db_Head (bc_db b) !! hash)) ->
  (forall hash v, fst (lru_Get hash (bc_difficultyCache b)) = Some v ->
    hash <> h_Hash h /\ ReadTD (bc_db b) hash = Some v) ->
  chain_ok (appended h kn kd b).
Proof.
  intros Hw Hself Hf En Ed Hab C2 C3 C4.
  pose proof (hw_number _ Hw) as Hn64.
  destruct (EncodeVarint_Ok _ _ (proj1 Hn64) En) as [Hn Dn].
  assert (Hh : is_hash (h_Hash h)) by (rewrite <- Hself; apply HeaderHash_hash).
  destruct (ReadCanonicalHash_Write (h_Number h) (h_Hash h) (bc_db b) Hn Hh) as (dc & Ec & Edc & Rc & Rn).
  unfold WriteCanonicalHash in Ec. rewrite En in Ec. cbn in Ec. injection Ec as <-.
  assert (Rc' : forall n, ReadCanonicalHash (appendedDB h kn kd (bc_db b)) n =
    ReadCanonicalHash (set_NumHash <[kn:=h_Hash h]> (bc_db b)) n) by done.
  assert (Rh : ReadHeader (appendedDB h kn kd (bc_db b)) (h_Hash h) = Some h).
  { change (ReadHeader (RawDB.WriteHeader h (bc_db b)) (h_Hash h) = Some h).
    by rewrite ReadHeader_WriteHeader, Hself. }
  split; cbn [bc_db bc_currentHeader bc_currentDifficulty bc_difficultyCache appended].
  - exists h. split; [done|]. split; [exact Rh|]. split; [done|].
    split; [unfold ReadHeadHash; simpl; by rewrite BytesToHash_hash|].
    split; [unfold ReadHeadNumber; simpl; by rewrite Dn|]. split; [done|].
    split; [by rewrite Rc'|]. intros n Hn'. rewrite Rc', Rn by lia. apply Hab. lia.
  - intros n hash Hn' Hr. rewrite Rc' in Hr. destruct (decide (n = h_Number h)) as [->|Hne].
    + rewrite Rc in Hr. injection Hr as <-. exists h. split; [|done].
      simpl. rewrite lookup_insert_eq. by eexists.
    + rewrite Rn in Hr by done. destruct (C2 n hash Hn' Hr) as (h' & Hs & Hr' & E).
      assert (Hneq : hash <> h_Hash h) by (intros ->; rewrite Hf in Hs; by destruct Hs).
      exists h'. split; [simpl; by rewrite lookup_insert_ne|]. split; [|done].
      change (ReadHeader (RawDB.WriteHeader h (bc_db b)) hash = Some h'). by rewrite ReadHeader_other.
  - intros hash. simpl. destruct (decide (hash = h_Hash h)) as [->|Hne]; [rewrite !lookup_insert_eq; by eexists|].
    rewrite !lookup_insert_ne by done. by apply C3.
  - intros hash v Hv. apply C4 in Hv as [Hne Hv]. unfold ReadTD in *. simpl. by rewrite lookup_insert_ne.
Qed.

Lemma chain_ok_appended b h kn kd current :
  header_wf h -> ComputeHash h = h -> db_Head (bc_db b) !! h_Hash h = None ->
  bc_currentHeader b = Some current -> h_Number current < h_Number h ->
  EncodeVarint (h_Number h) = Ok kn -> EncodeVarint (h_Difficulty h) = Ok kd ->
  chain_ok b -> chain_ok (appended h kn kd b).
Proof.
  intros Hw Hself Hf Hcur Hlt En Ed [(h1 & E1 & _ & _ & _ & _ & Hr1 & _ & Hab) C2 C3 C4].
  rewrite Hcur in E1. injection E1 as <-. apply chain_ok_append; try done.
  - intros n Hn. apply Hab. lia.
  - intros hash _. apply C3.
  - intros hash v Hv. apply C4 in Hv. split; [|done]. intros ->. unfold ReadTD in Hv.
    destruct (db_TD (bc_db b) !! h_Hash h) eqn:E; [|done].
    destruct (C3 (h_Hash h)) as [? ?]; [by eexists|]. by rewrite Hf in *.
Qed.

(** The steps of a node: a block arrives, a difficulty is asked for, a subscriber comes
    or takes an event. No two headers have one hash ([fresh]). *)
Definition fresh (block : Block) b : Prop := db_Head (bc_db b) !! HeaderHash (b_Header block) = None.

Inductive bc_step : BC -> BC -> Prop :=
| step_WriteBlock flags block r b b' :
    header_wf (b_Header block) -> fresh block b -> write flags block b = (Ok r, b') -> bc_step b b'
| step_GetTD hash r b b' : GetTD hash b = (Ok r, b') -> bc_step b b'
| step_subscribe b : bc_step b (set_stream (subscribe (bc_stream b)) b)
| step_GetEvent i e s b : GetEvent i (bc_stream b) = Some (e, s) -> bc_step b (set_stream s b).

Lemma GetTD_Header hash r b b' : GetTD hash b = (Ok r, b') -> bc_currentHeader b' = bc_currentHeader b.
Proof.
  unfold GetTD, readTotalDifficulty. intros H.
  apply bind_inv in H as (b0 & b0' & [= <- <-] & H). destruct (lru_Get hash (bc_difficultyCache b)) as [found c].
  apply bind_inv in H as ([] & b1 & [= <-] & H). destruct found as [fd|]; [by injection H as <- <-|].
  destruct (ReadTD (bc_db b) hash) as [v|]; [|by injection H as <- <-].
  apply bind_inv in H as ([] & b2 & [= <-] & H). by injection H as <- <-.
Qed.

Lemma chain_ok_GetTD hash r b b' : GetTD hash b = (Ok r, b') -> chain_ok b ->
  chain_ok b' /\ r = ReadTD (bc_db b) hash /\ bc_currentHeader b' = bc_currentHeader b.
Proof.
  unfold GetTD, readTotalDifficulty. intros H Hok.
  apply bind_inv in H as (b0 & b0' & [= <- <-] & H). destruct (lru_Get hash (bc_difficultyCache b)) as [found c] eqn:El.
  apply bind_inv in H as ([] & b1 & [= <-] & H).
  assert (Hc : forall k v, fst (lru_Get k c) = Some v -> ReadTD (bc_db b) k = Some v).
  { intros k v Hk. apply (ck_cache b Hok). apply (lru_Get_Get _ hash). by rewrite El. }
  assert (Hb : forall c', (forall k v, fst (lru_Get k c') = Some v -> ReadTD (bc_db b) k = Some v) ->
    chain_ok (set_cache c' b)) by (intros c' Hc'; by split; destruct Hok).
  destruct found as [fd|].
  - injection H as <- <-. split; [by apply Hb|]. split; [|done]. symmetry. apply (ck_cache b Hok). by rewrite El.
  - destruct (ReadTD (bc_db b) hash) as [v|] eqn:Er.
    + apply bind_inv in H as ([] & b2 & [= <-] & H). injection H as <- <-. split; [|done].
      apply (Hb (lru_Add hash v c)). intros k v' Hk. apply lru_Get_Add in Hk as [[-> ->]|[Hne Hk]]; [done|by apply Hc].
    + injection H as <- <-. split; [by apply Hb|done].
Qed.

(** The head never goes back. *)
Definition headNumber b : Z := match bc_currentHeader b with Some h => h_Number h | None => 0 end.

Lemma chain_ok_step b b' : bc_step b b' -> chain_ok b -> chain_ok b' /\ headNumber b <= headNumber b'.
Proof.
  intros Hs Hok. inversion Hs as [flags block r b0 b1 Hw Hf H|hash r b0 b1 H|b0|i e s b0 H]; subst.
  - apply WriteBlock_inv in H as [[-> _]|(cur & d & s & Ec & Hlt & [Hb _] & H)]; [by split; [|lia]|].
    apply headTables_body in Hb. destruct H as [(e & -> & ->)|(-> & br & kn & kd & a & _ & _ & En & Ed & ->)].
    { split; [|unfold headNumber; cbn; lia]. by apply (chain_ok_same b). }
    split.
    + apply (chain_ok_same (appended (ComputeHash (b_Header block)) kn kd
        (set_bcState s (set_db (WrteReceipts (br_Receipts br) d) b)))); [done..|].
      assert (Ht : headTables (WrteReceipts (br_Receipts br) d) = headTables (bc_db b)) by by rewrite headTables_receipts.
      apply (chain_ok_appended _ _ _ _ cur); [by apply ComputeHash_wf|apply ComputeHash_idem| |done|exact Hlt|done|done|by apply (chain_ok_same b)].
      injection Ht as Ehd _ _ _ _. cbn [bc_db set_bcState set_db]. rewrite Ehd. exact Hf.
    + unfold headNumber. rewrite Ec. cbn. lia.
  - apply chain_ok_GetTD in H as (H & _ & E); [|done]. split; [done|]. unfold headNumber. rewrite E. lia.
  - split; [by apply (chain_ok_same b)|unfold headNumber; cbn; lia].
  - split; [by apply (chain_ok_same b)|unfold headNumber; cbn; lia].
Qed.

(** The block becomes the head whatever the head is by then: a call that has passed the
    check of the number and goes on after another one has moved the head puts it back. *)
Lemma writeNew_head flags block b b' :
  writeNew config runtimes PostHook prePortland portland detroit flags block b = (Ok None, b') ->
  headNumber b' = h_Number (b_Header block).
Proof. intros H. by apply writeNew_inv in H as (d & s & _ & [(e & ? & _)|(_ & br & kn & kd & a & _ & _ & _ & _ & ->)]). Qed.

Context (nodes : Snap -> Storage).
#[local] Abbreviation handle := (HandleGenesis config nodes).

(** The first start writes the genesis header. *)
Lemma HandleGenesis_empty s b0 :
  handle (NewBlockchain emptyDB s) = (Ok None, b0) ->
  let h := ComputeHash (GenesisHeader (c_Genesis config)) in
  exists k1 kn kd, EncodeVarint 1 = Ok k1 /\ EncodeVarint (h_Number h) = Ok kn /\ EncodeVarint (h_Difficulty h) = Ok kd /\
    b0 = appended h kn kd (set_db (set_TD <[h_Hash h := k1]> emptyDB) (set_genesis (h_Hash h) (NewBlockchain emptyDB s))).
Proof.
  unfold HandleGenesis. intros H. apply bind_inv in H as (b & b' & [= <- <-] & H).
  change (ReadHeadHash (bc_db (NewBlockchain emptyDB s))) with (@None Hash) in H.
  apply bind_inv in H as ([] & b1 & H & [= <-]). unfold writeGenesis in H. set (h := ComputeHash (GenesisHeader (c_Genesis config))) in *.
  apply bind_inv in H as ([] & b2 & H2 & H). assert (b2 = set_genesis (h_Hash h) (NewBlockchain emptyDB s)) as ->.
  { clearbody h. unfold modify in H2. congruence. }
  apply bind_inv in H as ([] & b3 & H3 & H). apply on_db_inv in H3 as (d & E & ->).
  unfold WriteTD in E. destruct (EncodeVarint 1) as [k1|]; [|done].
  apply WriteHeader_inv in H as (kn & kd & En & Ed & ->). exists k1, kn, kd. split; [done|]. split; [done|]. split; [done|].
  cbn [mbind result_bind] in E. assert (d = set_TD <[h_Hash h := k1]> emptyDB) as -> by (clear -E; clearbody h; change (bc_db _) with emptyDB in E; congruence). done.
Qed.

Lemma chain_ok_genesis s b0 :
  header_wf (GenesisHeader (c_Genesis config)) -> handle (NewBlockchain emptyDB s) = (Ok None, b0) -> chain_ok b0.
Proof.
  intros Hw H. apply HandleGenesis_empty in H as (k1 & kn & kd & _ & En & Ed & ->).
  set (h := ComputeHash _) in *. apply chain_ok_append; try done.
  - by apply ComputeHash_wf.
  - intros n Hn. destruct (varint_spec n) as (k & E & _); [|unfold ReadCanonicalHash; by rewrite E].
    pose proof (hw_number _ Hw) as [? _]. change (h_Number h) with (h_Number (GenesisHeader (c_Genesis config))) in Hn. lia.
  - intros n hash Hn. destruct (varint_spec n Hn) as (k & E & _). unfold ReadCanonicalHash. by rewrite E.
  - intros hash Hne [v Hv]. cbn [bc_db set_db] in Hv. simpl in Hv. by rewrite lookup_insert_ne in Hv.
  - intros hash v Hv. cbn in Hv. by rewrite lru_Get_New in Hv.
Qed.

(** ** Reading back what was written *)

Lemma bodyDB_tables n hash txs d d' :
  WriteTxLookUp n txs (WriteBody hash txs (WriteTransactions txs d)) = Ok d' ->
  db_Txes d' = db_Txes (WriteTransactions txs d) /\
  db_Body d' = db_Body (WriteBody hash txs (WriteTransactions txs d)).
Proof.
  set (d1 := WriteBody hash txs (WriteTransactions txs d)).
  assert (E : db_Txes d1 = db_Txes (WriteTransactions txs d)) by (unfold d1; by destruct txs).
  clearbody d1. rewrite <- E. unfold WriteTxLookUp. destruct txs as [|tx txs]; [by intros [= <-]|].
  destruct (EncodeVarint n) as [k|]; [|done]. intros Hd. cbn [mbind result_bind] in Hd.
  assert (H : forall l d, db_Txes (fold_left (fun d tx => set_TxLookUp <[Transaction_Hash tx := k]> d) l d) = db_Txes d /\
    db_Body (fold_left (fun d tx => set_TxLookUp <[Transaction_Hash tx := k]> d) l d) = db_Body d).
  { induction l as [|x l IH]; intros d2; [done|]. simpl. destruct (IH (set_TxLookUp <[Transaction_Hash x := k]> d2)) as [-> ->].
    done. }
  destruct (H (tx :: txs) d1) as [H1 H2]. split; congruence.
Qed.

Lemma lookup_tables n hash txs d d' tx :
  WriteTxLookUp n txs (WriteBody hash txs (WriteTransactions txs d)) = Ok d' -> tx ∈ txs -> 0 <= n ->
  ReadTxLookUp d' (Transaction_Hash tx) = Some n.
Proof.
  generalize (WriteBody hash txs (WriteTransactions txs d)). intros d1. unfold WriteTxLookUp.
  intros H Hin Hn.
  assert (Hk : exists k, EncodeVarint n = Ok k /\
    d' = fold_left (fun d tx => set_TxLookUp <[Transaction_Hash tx := k]> d) txs d1).
  { destruct txs as [|tx0 txs]; [by apply elem_of_nil in Hin|].
    destruct (EncodeVarint n) as [k|]; [|done]. exists k. split; [done|]. by injection H. }
  destruct Hk as (k & E & ->). destruct (EncodeVarint_Ok n k Hn E) as [_ Dk]. clear H.
  assert (Hl : forall l d, db_TxLookUp (fold_left (fun d tx => set_TxLookUp <[Transaction_Hash tx := k]> d) l d) =
    fold_left (fun m y => <[Transaction_Hash y := k]> m) l (db_TxLookUp d)).
  { induction l as [|x l IH]; intros d2; [done|]. simpl. by rewrite IH. }
  unfold ReadTxLookUp. rewrite Hl, (fold_insert_lookup Transaction_Hash (fun _ => k)) by done.
  cbn [mbind option_bind]. by rewrite Dk.
Qed.

Lemma receipts_tables rs d :
  db_Txes (WrteReceipts rs d) = db_Txes d /\ db_Body (WrteReceipts rs d) = db_Body d /\
  db_TxLookUp (WrteReceipts rs d) = db_TxLookUp d.
Proof. unfold WrteReceipts. revert d. induction rs as [|r rs IH]; intros d; [done|]. simpl. by destruct (IH (WrteReceipt r d)) as (-> & -> & ->). Qed.

(** The transactions of a body that was written. *)
Lemma mapM_ReadTransaction txs d d1 :
  db_Txes d1 = db_Txes (WriteTransactions txs d) -> distinctTxs txs -> Forall tx_wf txs ->
  mapM (ReadTransaction d1) (map Transaction_Hash txs) = Some (map (set_From ZeroAddress) txs).
Proof.
  intros E Hd Hw. assert (H : forall l, (forall tx, tx ∈ l -> tx ∈ txs) ->
    mapM (ReadTransaction d1) (map Transaction_Hash l) = Some (map (set_From ZeroAddress) l)); [|by apply H].
  induction l as [|tx l IH]; intros Hl; [done|]. cbn [map mapM].
  assert (Hin : tx ∈ txs) by (apply Hl; left). rewrite Forall_forall in Hw.
  assert (Er : ReadTransaction d1 (Transaction_Hash tx) = Some (set_From ZeroAddress tx)).
  { rewrite <- (ReadTransaction_WriteTransactions txs d tx) by (auto; by apply Hw, list_elem_of_In).
    unfold ReadTransaction. by rewrite E. }
  rewrite Er. cbn [mbind option_bind]. rewrite IH; [done|]. intros t Ht. apply Hl. by right.
Qed.

(** The outcome of writing a new block. *)
Lemma WriteBlock_new flags block b b' current :
  write flags block b = (Ok None, b') -> fl_write flags = false ->
  bc_currentHeader b = Some current -> h_Number current < h_Number (b_Header block) ->
  exists d s br kn kd a, executed flags block b d s /\
    fst (execute flags block (set_db d b)) = Ok (inr br) /\ checked block br /\
    EncodeVarint (h_Number (b_Header block)) = Ok kn /\ EncodeVarint (h_Difficulty (b_Header block)) = Ok kd /\
    b' = set_average a (appended (ComputeHash (b_Header block)) kn kd
           (set_bcState s (set_db (WrteReceipts (br_Receipts br) d) b))).
Proof.
  intros H Hfl Hcur Hlt. apply WriteBlock_inv in H as [[_ [H|(c & Ec & Hle)]]|(c & d & s & _ & _ & Hx & H)].
  - congruence.
  - rewrite Hcur in Ec. injection Ec as <-. lia.
  - destruct H as [(e & ? & _)|(_ & br & kn & kd & a & H)]; [done|]. by exists d, s, br, kn, kd, a.
Qed.

(** The block found under the hash of an appended header. *)
Lemma GetBlock_appended h kn kd d :
  header_wf h -> ComputeHash h = h -> 0 < h_Number h ->
  GetBlockByHash (appendedDB h kn kd d) (h_Hash h) true =
    Some (mkBlock h (default [] (body ← ReadBody d (h_Hash h); mapM (ReadTransaction d) body)) []).
Proof.
  intros Hw Hs Hn. unfold GetBlockByHash.
  change (ReadHeader (appendedDB h kn kd d) (h_Hash h)) with (ReadHeader (RawDB.WriteHeader h d) (h_Hash h)).
  rewrite ReadHeader_WriteHeader, Hs by done. cbn [mbind option_bind negb orb].
  rewrite (proj2 (Z.eqb_neq _ _)) by lia.
  change (ReadBody (appendedDB h kn kd d)) with (ReadBody d).
  change (ReadTransaction (appendedDB h kn kd d)) with (ReadTransaction d).
  destruct (ReadBody d (h_Hash h)) as [body|]; [destruct (mapM (ReadTransaction d) body) eqn:E; cbn [mbind option_bind]; rewrite E|]; done.
Qed.

Lemma canonical_appended h kn kd d :
  is_hash (h_Hash h) -> EncodeVarint (h_Number h) = Ok kn ->
  ReadCanonicalHash (appendedDB h kn kd d) (h_Number h) = Ok (Some (h_Hash h)).
Proof.
  intros Hh En. unfold ReadCanonicalHash. rewrite En.
  cbn [mbind result_bind appendedDB db_NumHash set_TD set_NumHash].
  rewrite lookup_insert_eq. cbn [fmap option_fmap option_map]. by rewrite BytesToHash_hash.
Qed.

Lemma self_hash h : h_Hash h = HeaderHash h -> ComputeHash h = h.
Proof. intros E. unfold ComputeHash. rewrite <- E. by destruct h. Qed.

(** C14: a block that was written and has transactions, or has none while no body is stored
    under its hash yet, is read back by its number: the header with its hash and every
    transaction in order (the senders are not stored), and each of its transactions is found
    in the block. Its transactions have distinct hashes. Without the condition on the body
    the claim is false ([WriteBlock] does not store an empty body, and a rejected block may
    have left one). *)
Theorem WriteBlock_read flags block b b' current :
  write flags block b = (Ok None, b') -> fl_write flags = false ->
  bc_currentHeader b = Some current -> 0 <= h_Number current < h_Number (b_Header block) ->
  block_wf block -> h_Hash (b_Header block) = HeaderHash (b_Header block) ->
  distinctTxs (b_Transactions block) ->
  (b_Transactions block <> [] \/ ReadBody (bc_db b) (Block_Hash block) = None) ->
  GetBlockByNumber (bc_db b') (h_Number (b_Header block)) true =
    Ok (Some (mkBlock (b_Header block) (map (set_From ZeroAddress) (b_Transactions block)) [])) /\
  Forall (fun tx => ReadTxLookup (bc_db b') (Transaction_Hash tx) = Ok (Some (Block_Hash block))) (b_Transactions block).
Proof.
  intros H Hfl Hcur Hlt (Hw & Htx & _) Hself Hd Hne.
  apply (WriteBlock_new _ _ _ _ current) in H as (d & s & br & kn & kd & a & [Hbody _] & _ & _ & En & Ed & ->); [|done..|lia].
  rewrite (self_hash _ Hself). cbn [bc_db set_average appended set_bcState set_db].
  set (d1 := WrteReceipts (br_Receipts br) d).
  destruct (receipts_tables (br_Receipts br) d) as (R1 & R2 & R3). fold d1 in R1, R2, R3.
  destruct (bodyDB_tables _ _ _ _ _ Hbody) as [B1 B2].
  assert (Hh : is_hash (h_Hash (b_Header block))) by (rewrite Hself; apply HeaderHash_hash).
  pose proof (canonical_appended _ _ kd d1 Hh En) as Rc. split.
  - unfold GetBlockByNumber. rewrite Rc. cbn [mbind result_bind option_bind].
    rewrite GetBlock_appended by (done || (by apply self_hash) || lia). do 3 f_equal.
    assert (Eb : ReadBody d1 (h_Hash (b_Header block)) = ReadBody (WriteBody (Block_Hash block) (b_Transactions block)
      (WriteTransactions (b_Transactions block) (bc_db b))) (Block_Hash block)).
    { unfold ReadBody. by rewrite R2, B2. }
    rewrite Eb. destruct (decide (b_Transactions block = [])) as [E0|Hn0].
    + destruct Hne as [?|Hne]; [done|]. rewrite E0. cbn [WriteBody WriteTransactions fold_left]. rewrite Hne. done.
    + rewrite ReadBody_WriteBody by done. cbn [mbind option_bind].
      rewrite (mapM_ReadTransaction _ (bc_db b)); [done|congruence|done|done].
  - rewrite Forall_forall. intros tx Hin. apply list_elem_of_In in Hin. unfold ReadTxLookup.
    assert (El : ReadTxLookUp (appendedDB (b_Header block) kn kd d1) (Transaction_Hash tx) = Some (h_Number (b_Header block))).
    { change (h_Number (b_Header block)) with (Block_Number block).
      rewrite <- (lookup_tables _ _ _ _ _ tx Hbody Hin); [|unfold Block_Number; lia].
      unfold ReadTxLookUp. cbn [db_TxLookUp appendedDB set_TD set_NumHash set_HeadNumber WriteHeadHash set_HeadHash RawDB.WriteHeader set_Head].
      by rewrite R3. }
    rewrite El. exact Rc.
Qed.

(** C7: only a checked block becomes the head. When [WriteBlock] returns, either the head,
    the headers, the canonical hashes and the difficulties are what they were, or the
    block is above the old head, its execution from its parent's state gave a state root,
    receipts and transactions whose roots are those of its header, and the head is its
    header. *)
Theorem WriteBlock_checked flags block b r b' :
  write flags block b = (Ok r, b') ->
  (headTables (bc_db b') = headTables (bc_db b) /\ bc_currentHeader b' = bc_currentHeader b /\
   bc_stream b' = bc_stream b) \/
  (r = None /\ bc_currentHeader b' = Some (ComputeHash (b_Header block)) /\ headNumber b < headNumber b' /\
   exists d s br, executed flags block b d s /\ fst (execute flags block (set_db d b)) = Ok (inr br) /\
     checked block br /\ bc_state b' = s /\
     bc_stream b' = push (AddNewHeader (ComputeHash (b_Header block)) emptyEvent) (bc_stream b)).
Proof.
  intros H. apply WriteBlock_inv in H as [[-> _]|(c & d & s & Ec & Hlt & Hx & H)]; [by left|].
  destruct H as [(e & -> & ->)|(-> & br & kn & kd & a & Hr & Hch & _ & _ & ->)].
  - left. split; [|done]. destruct Hx as [Hb _]. by apply headTables_body in Hb.
  - right. split; [done|]. split; [done|]. split; [unfold headNumber; rewrite Ec; exact Hlt|]. by exists d, s, br.
Qed.

(** C3: along every run of a node that starts on an empty database, one call after the
    other, the tables and the
    head agree: the current header is the one stored under the head hash, its number is
    the stored head number and leads to it, no number above it has a block, every number
    that has one leads to a well-formed header of that number and that hash, and the cached
    difficulties are those of the table. The head never moves to a smaller number. *)
Theorem chain_invariant s b0 b :
  header_wf (GenesisHeader (c_Genesis config)) -> handle (NewBlockchain emptyDB s) = (Ok None, b0) ->
  rtc bc_step b0 b -> chain_ok b /\ headNumber b0 <= headNumber b.
Proof.
  intros Hw H0 Hrun. apply (chain_ok_genesis s b0 Hw) in H0.
  induction Hrun as [b|b b1 b2 Hs _ IH]; [by split; [|lia]|].
  destruct (chain_ok_step _ _ Hs H0) as [Hok Hle]. destruct (IH Hok) as [? ?]. split; [done|lia].
Qed.

(** C38: the body of a rejected block can end up in an accepted one. A body is stored under
    the hash of the header before anything is checked, and an empty body is not stored at
    all: when a block with the right header and transactions that do not belong to it is
    rejected, and the right block, which is empty, is then accepted, the chain gives out
    the block with the transactions of the rejected one. *)
Theorem WriteBlock_stale_body flags1 flags2 bad good b e b1 b2 current :
  write flags1 bad b = (Ok (Some e), b1) -> fl_write flags1 = false ->
  write flags2 good b1 = (Ok None, b2) -> fl_write flags2 = false ->
  bc_currentHeader b = Some current -> 0 <= h_Number current < h_Number (b_Header good) ->
  b_Header bad = b_Header good -> header_wf (b_Header good) -> h_Hash (b_Header good) = HeaderHash (b_Header good) ->
  b_Transactions good = [] -> b_Transactions bad <> [] -> distinctTxs (b_Transactions bad) ->
  Forall tx_wf (b_Transactions bad) ->
  GetBlockByNumber (bc_db b2) (h_Number (b_Header good)) true =
    Ok (Some (mkBlock (b_Header good) (map (set_From ZeroAddress) (b_Transactions bad)) [])).
Proof.
  intros H1 F1 H2 F2 Hcur Hlt Hbad Hw Hself Hgood Hne Hd Htx.
  apply WriteBlock_inv in H1 as [[_ [?|(c & Ec & Hle)]]|(c & d & s & _ & _ & [Hbody _] & H1)]; [congruence| |].
  { rewrite Hcur in Ec. injection Ec as <-. rewrite Hbad in Hle. lia. }
  destruct H1 as [(e' & _ & ->)|(? & _)]; [|done].
  apply (WriteBlock_new _ _ _ _ current) in H2 as (d2 & s2 & br & kn & kd & a & [Hbody2 _] & _ & _ & En & _ & ->);
    [|done|done|lia].
  rewrite (self_hash _ Hself). cbn [bc_db set_average appended set_bcState set_db] in *.
  rewrite Hgood in Hbody2. injection Hbody2 as <-. set (d1 := WrteReceipts (br_Receipts br) d).
  destruct (receipts_tables (br_Receipts br) d) as (R1 & R2 & _). fold d1 in R1, R2.
  destruct (bodyDB_tables _ _ _ _ _ Hbody) as [B1 B2].
  assert (Hh : is_hash (h_Hash (b_Header good))) by (rewrite Hself; apply HeaderHash_hash).
  unfold GetBlockByNumber. rewrite (canonical_appended _ _ kd d1 Hh En). cbn [mbind result_bind option_bind].
  rewrite GetBlock_appended by (done || (by apply self_hash) || lia). do 3 f_equal.
  assert (Eb : ReadBody d1 (h_Hash (b_Header good)) = Some (map Transaction_Hash (b_Transactions bad))).
  { rewrite <- (ReadBody_WriteBody (Block_Hash bad) _ (WriteTransactions (b_Transactions bad) (bc_db b)) Hne).
    unfold ReadBody. rewrite R2, B2. unfold Block_Hash. by rewrite Hbad. }
  rewrite Eb. cbn [mbind option_bind]. rewrite (mapM_ReadTransaction _ (bc_db b)); [done|congruence|done|done].
Qed.

(** ** Restarts *)

(** The head after the check, when the loop found [h']. *)
Definition checkedDB (h' : Header) (k : bytes) (d : ChainDB) : ChainDB :=
  set_HeadNumber (Some k) (WriteHeadHash (h_Hash h') d).

Lemma SelfCheck_run b h h' k :
  ReadHeadHash (bc_db b) = Some (h_Hash h) -> ReadHeader (bc_db b) (h_Hash h) = Some h ->
  ReadCanonicalHash (bc_db b) (h_Number h) = Ok (Some (h_Hash h)) ->
  findState nodes (Z.to_nat (h_Number h)) None b = Ok (Some h') -> EncodeVarint (h_Number h') = Ok k ->
  SelfCheck nodes b = (Ok tt, set_db (checkedDB h' k (bc_db b)) b).
Proof.
  intros E1 E2 E3 E4 E5. unfold SelfCheck. erewrite bind_ok by done.
  erewrite bind_ok by (unfold deref; by rewrite E1). erewrite bind_ok by (unfold deref; by rewrite E2).
  erewrite bind_ok by (unfold lift; by rewrite E3). erewrite bind_ok by done.
  erewrite bind_ok by (unfold lift; by rewrite E4). erewrite bind_ok by done.
  erewrite bind_ok by (by apply on_db_ok). rewrite (on_db_ok _ (checkedDB h' k (bc_db b))); [done|].
  unfold WriteHeadNumber. by rewrite E5.
Qed.

(** A restart from there: the current header is the head that was read first. *)
Lemma HandleGenesis_run db s h h' k :
  ReadHeadHash db = Some (h_Hash h) -> ReadHeader db (h_Hash h) = Some h ->
  ReadCanonicalHash db (h_Number h) = Ok (Some (h_Hash h)) ->
  findState nodes (Z.to_nat (h_Number h)) None (NewBlockchain db s) = Ok (Some h') ->
  EncodeVarint (h_Number h') = Ok k ->
  ReadCanonicalHash db 0 = Ok (Some (Genesis_Hash (c_Genesis config))) ->
  handle (NewBlockchain db s) =
    (Ok None, setCurHeader h (h_Difficulty h) (set_db (checkedDB h' k db) (NewBlockchain db s))).
Proof.
  intros E1 E2 E3 E4 E5 E6. unfold HandleGenesis. erewrite bind_ok by done.
  change (ReadHeadHash (bc_db (NewBlockchain db s))) with (ReadHeadHash db). rewrite E1.
  erewrite bind_ok by (by apply (SelfCheck_run (NewBlockchain db s) h h' k)). erewrite bind_ok by done.
  cbn [bc_db set_db NewBlockchain].
  change (ReadCanonicalHash (checkedDB h' k db) 0) with (ReadCanonicalHash db 0).
  erewrite bind_ok by (unfold lift; by rewrite E6). unfold hash_eqb. rewrite bool_decide_eq_true_2 by done.
  change (ReadHeader (checkedDB h' k db) (h_Hash h)) with (ReadHeader db (h_Hash h)). by rewrite E2.
Qed.

Lemma chain_ok_head_read b h :
  chain_ok b -> bc_currentHeader b = Some h -> GetHeaderByNumber (bc_db b) (h_Number h) = Ok (Some h).
Proof.
  intros [(h1 & E & Hr & _ & _ & _ & _ & Hc & _) _ _ _] Eh. rewrite Eh in E. injection E as <-.
  unfold GetHeaderByNumber. rewrite Hc. cbn [mbind result_bind option_bind]. by rewrite Hr.
Qed.

(** C22: a restart keeps the chain. From the database of a run whose head is above the
    genesis block and has its state, a start ends with the same current header and the
    same agreement of head and tables. *)
Theorem restart_keeps_head b s h :
  chain_ok b -> bc_currentHeader b = Some h -> 0 < h_Number h -> is_hash (h_Hash h) ->
  is_Some (ReadState (nodes s) (h_StateRoot h)) ->
  ReadCanonicalHash (bc_db b) 0 = Ok (Some (Genesis_Hash (c_Genesis config))) ->
  exists b', handle (NewBlockchain (bc_db b) s) = (Ok None, b') /\ bc_currentHeader b' = Some h /\ chain_ok b'.
Proof.
  intros Hok Eh Hn Hh [node Hs] Hg. pose proof (chain_ok_head_read b h Hok Eh) as Hr0.
  destruct Hok as [(h1 & E & Hr & Hdf & Hhh & Hhn & Hb & Hc & Hab) C2 C3 C4]. rewrite Eh in E. injection E as <-.
  destruct (varint_spec (h_Number h) Hb) as (k & Ek & Dk).
  eexists. split; [apply (HandleGenesis_run (bc_db b) s h h k); try done|].
  - destruct (Z.to_nat (h_Number h)) as [|n] eqn:En; [lia|]. cbn [findState].
    replace (Z.of_nat (S n)) with (h_Number h) by lia. cbn [bc_db NewBlockchain]. rewrite Hr0.
    cbn [mbind result_bind bc_state NewBlockchain]. by rewrite Hs.
  - split; [done|]. split; cbn [bc_db bc_currentHeader bc_currentDifficulty bc_difficultyCache setCurHeader set_db NewBlockchain].
    + exists h. split; [done|]. split; [exact Hr|]. split; [done|].
      split; [unfold ReadHeadHash; simpl; by rewrite BytesToHash_hash|].
      split; [unfold ReadHeadNumber; simpl; by rewrite Dk|]. done.
    + exact C2.
    + exact C3.
    + intros hash v Hv. by rewrite lru_Get_New in Hv.
Qed.

(** A start on a database that holds the genesis block and no other fails: the search
    for the latest header with a state looks at no block, and its nil result is
    dereferenced. *)
Theorem restart_after_genesis_panics s s' b0 :
  header_wf (GenesisHeader (c_Genesis config)) -> gn_Number (c_Genesis config) = 0 ->
  handle (NewBlockchain emptyDB s) = (Ok None, b0) -> fst (handle (NewBlockchain (bc_db b0) s')) = Panic.
Proof.
  intros Hw Hn H. apply (chain_ok_genesis s b0 Hw) in H as Hok.
  apply HandleGenesis_empty in H as (k1 & kn & kd & _ & _ & _ & Eb0). set (h := ComputeHash _) in *.
  assert (Ec : bc_currentHeader b0 = Some h) by by rewrite Eb0.
  destruct Hok as [(h1 & E & Hr & _ & Hhh & _ & _ & Hc & _) _ _ _]. rewrite Ec in E. injection E as <-.
  assert (Hn0 : h_Number h = 0) by exact Hn. clearbody h.
  unfold HandleGenesis. erewrite bind_ok by done. cbn [bc_db NewBlockchain]. rewrite Hhh.
  assert (Hp : SelfCheck nodes (NewBlockchain (bc_db b0) s') = (Panic, NewBlockchain (bc_db b0) s')).
  { unfold SelfCheck. erewrite bind_ok by done. cbn [bc_db NewBlockchain].
    erewrite bind_ok by (unfold deref; by rewrite Hhh). erewrite bind_ok by (unfold deref; by rewrite Hr).
    erewrite bind_ok by (unfold lift; by rewrite Hc). erewrite bind_ok by done. rewrite Hn0. done. }
  by erewrite bind_panic by exact Hp.
Qed.

(** The head found by the check at a start is not the one that is used: when the state
    of the stored head is missing and the one of its predecessor is there, the stored
    head goes back by one and the current header stays the one without state. *)
Theorem restart_ignores_check b s h h' :
  chain_ok b -> bc_currentHeader b = Some h -> 1 < h_Number h ->
  ReadState (nodes s) (h_StateRoot h) = None ->
  GetHeaderByNumber (bc_db b) (h_Number h - 1) = Ok (Some h') -> h_Number h' = h_Number h - 1 ->
  is_Some (ReadState (nodes s) (h_StateRoot h')) ->
  ReadCanonicalHash (bc_db b) 0 = Ok (Some (Genesis_Hash (c_Genesis config))) ->
  exists b', handle (NewBlockchain (bc_db b) s) = (Ok None, b') /\
    bc_currentHeader b' = Some h /\ ReadHeadNumber (bc_db b') = Some (h_Number h - 1).
Proof.
  intros Hok Eh Hn Hs Hp Hpn [node Hs'] Hg. pose proof (chain_ok_head_read b h Hok Eh) as Hr0.
  destruct Hok as [(h1 & E & Hr & _ & Hhh & _ & Hb & Hc & _) _ _ _]. rewrite Eh in E. injection E as <-.
  destruct (varint_spec (h_Number h')) as (k & Ek & Dk); [lia|].
  eexists. split; [apply (HandleGenesis_run (bc_db b) s h h' k); try done|].
  - destruct (Z.to_nat (h_Number h)) as [|[|n]] eqn:En; [lia|lia|]. cbn [findState].
    replace (Z.of_nat (S (S n))) with (h_Number h) by lia. cbn [bc_db bc_state NewBlockchain]. rewrite Hr0.
    cbn [mbind result_bind].
    rewrite Hs. replace (Z.of_nat (S n)) with (h_Number h - 1) by lia. rewrite Hp. cbn [mbind result_bind]. by rewrite Hs'.
  - split; [done|]. unfold ReadHeadNumber. cbn. by rewrite Dk, Hpn.
Qed.
End chain.
