(* ===== verification/SyncerCorrect.v ===== *)
(** The sync protocol is correct: the search for the common ancestor, and the protocol
    between two nodes. *)

From S2P Require Import Prelude Types Chain Runtime Crypto Text Rlp TxTypes BlockTypes BlockCorrect Genesis Signer.
From S2P Require Import StateTxn Bridge Upgrader Executor Trie RawDB TrieState PriorityQueue Blockchain BlockchainCorrect Syncer.

(** ** The middle of an interval *)

Lemma float64_small x : 0 <= x < 2 ^ 53 -> float64 x = x.
Proof.
  intros Hx. unfold float64. destruct (decide (x = 0)) as [->|]; [done|].
  assert (Z.log2 x < 53) by (apply Z.log2_lt_pow2; lia). by rewrite (proj2 (Z.leb_le _ _)) by lia.
Qed.

Lemma midpoint_small min max : 0 <= min -> min <= max -> max < 2 ^ 52 -> midpoint min max = (min + max) / 2.
Proof.
  intros H0 H1 H2. unfold midpoint. rewrite (u64_small (min + max)) by (unfold is_u64, two64; lia).
  rewrite float64_small by lia. apply u64_small. unfold is_u64, two64.
  pose proof (Z.div_pos (min + max) 2). pose proof (Z.div_le_upper_bound (min + max) 2 (2 ^ 52)). lia.
Qed.

Section ancestor_facts.
Context `{KK : !Keccak, RL : !FastRlp} {B : Type} `{SH : !blockchainShim B}.
Context (store : B) (clt : V1Client) (mine theirs : Z -> Header) (top : Z).

(** The heads are below 2^52; this node has every header up to [top], and the peer
    answers with its own. *)
Hypothesis Htop : 0 <= top < 2 ^ 52.
Hypothesis Hmine : forall n, 0 <= n <= top -> sh_GetHeaderByNumber store n = Ok (Some (mine n)).
Hypothesis Htheirs : forall n, 1 <= n <= top -> getHeader clt (Some n) None = inr (Some (theirs n)).

Definition agree (n : Z) : Prop := h_Hash (mine n) = h_Hash (theirs n).

(** A common block has a common parent. *)
Hypothesis Hlinked : forall n, 1 <= n < top -> agree (n + 1) -> agree n.

Lemma agree_below n k : 1 <= k <= n -> n <= top -> agree n -> agree k.
Proof.
  intros [Hk Hkn] Hn Ha. replace k with (n - Z.of_nat (Z.to_nat (n - k))) by lia.
  assert (Hj : Z.of_nat (Z.to_nat (n - k)) <= n - k) by lia. revert Hj.
  generalize (Z.to_nat (n - k)) as j. induction j as [|j IH]; intros Hj; [by rewrite Z.sub_0_r|].
  apply Hlinked; [lia|]. replace (n - Z.of_nat (S j) + 1) with (n - Z.of_nat j) by lia. apply IH. lia.
Qed.

(** The number found: a common block, the highest one; the genesis when there is none, and
    possibly when there is only the first. *)
Definition is_ancestor (r : Z) : Prop :=
  0 <= r <= top /\ (1 <= r -> agree r) /\ forall n, r < n <= top -> agree n -> r = 0 /\ n = 1.

Definition found_at (r : Z) (header : Header) : Prop :=
  (r = 0 /\ header = mine 0) \/ (1 <= r /\ header = theirs r).

(** The blocks below [min] are common, those above [max] are not, and the last common
    one is remembered. *)
Definition search_inv (min max : Z) (header : option Header) : Prop :=
  0 <= min <= max + 1 /\ max <= top /\ (forall n, max < n <= top -> ~ agree n) /\
  ((min = 0 /\ header = None) \/ (2 <= min /\ agree (min - 1) /\ header = Some (theirs (min - 1)))).

Lemma ancestorLoop_spec rounds : forall min max header,
  search_inv min max header -> 0 <= max -> max - min + 1 < Z.of_nat rounds ->
  exists r h, ancestorLoop rounds store clt min max header = Ok (inr (Some h)) /\ is_ancestor r /\ found_at r h.
Proof.
  induction rounds as [|rounds IH]; intros min max header (Hmin & Hmax & Habove & Hcase) H0 Hr; [lia|].
  cbn [ancestorLoop]. destruct (Z.ltb_spec max min) as [Hlt|Hle].
  { destruct Hcase as [[-> _]|(H2 & Ha & ->)]; [lia|]. exists (min - 1), (theirs (min - 1)). split; [done|]. split.
    - split; [lia|]. split; [done|]. intros n Hn Hag. destruct (Habove n); [lia|done].
    - right. split; [lia|done]. }
  rewrite midpoint_small by lia. set (m := (min + max) / 2).
  assert (Hm : min <= m <= max).
  { unfold m. split; [apply Z.div_le_lower_bound; lia|apply Z.div_le_upper_bound; lia]. }
  destruct (Z.eqb_spec m 0) as [Em|Em].
  { rewrite Hmine by lia. cbn [mbind result_bind]. exists 0, (mine 0). split; [done|].
    assert (Hs : min + max < 2) by (unfold m in Em; apply Z.div_small_iff in Em; lia). split; [|by left].
    split; [lia|]. split; [lia|]. intros n Hn Hag. split; [done|].
    destruct (Z.le_gt_cases n max) as [Hn'|Hn']; [lia|]. by destruct (Habove n); [lia|]. }
  rewrite Htheirs by lia. rewrite Hmine by lia. cbn [mbind result_bind].
  assert (Hmu : u64 (m + 1) = m + 1) by (apply u64_small; unfold is_u64, two64; lia).
  destruct (hash_eqb (h_Hash (mine m)) (h_Hash (theirs m))) eqn:Eh.
  - apply bool_decide_eq_true_1 in Eh. rewrite Hmu. apply IH; [|done|lia]. split; [lia|]. split; [done|]. split; [done|].
    right. replace (m + 1 - 1) with m by lia. split; [lia|]. split; done.
  - assert (Hna : ~ agree m) by (by apply bool_decide_eq_false_1 in Eh).
    apply IH; [|lia|lia]. split; [|split; [lia|split]].
    + lia.
    + intros n Hn Hag. apply Hna. by apply (agree_below n); [lia|lia|].
    + done.
Qed.
End ancestor_facts.

(** ** Two nodes *)

Section nodes.
Context {T : Type -> Type} {Snap : Type}.
Context `{IR : !Iradix T, KK : !Keccak, RL : !FastRlp, RF : !RlpFormat, ST : !State Snap, BA : !BridgeABI, EC : !Btcec}.
Context `{UC : !Unicode, VA : !ValidatorSetABI, LR : !Lru}.
#[local] Abbreviation W := (transition T Snap).
#[local] Abbreviation BC := (Blockchain Snap).
Context (config : Chain) (runtimes : (Z -> Hash) -> list (RuntimeT W)) (PostHook : option (W -> W)).
Context (prePortland portland detroit : Network -> option Upgrade).

(** The chain of a node behind the interface of the syncer. *)
#[local] Instance chainShim : blockchainShim BC := {
  sh_Header := bc_currentHeader;
  sh_GetTD := GetTD;
  sh_GetReceiptsByHash b := GetReceiptsByHash (bc_db b);
  sh_GetBodyByHash b := GetBodyByHash (bc_db b);
  sh_GetHeaderByHash b := GetHeaderByHash (bc_db b);
  sh_GetHeaderByNumber b := GetHeaderByNumber (bc_db b);
  sh_WriteBlock := WriteBlock config runtimes PostHook prePortland portland detroit;
}.

(** What the client of a peer sees of its service: a handler that panics or fails is an
    error of the call. [GetBlocks] is not implemented. *)
Definition answer {A} (r : result (sync_error + A)) : rpc_error + A :=
  match r with Ok (inr a) => inr a | _ => inl OtherRpcError end.
Definition honest (b : BC) (status : Status) : V1Client :=
  mkV1Client (fun req => answer (GetHeaders b req)) (fun req => answer (GetObjectsByHash b req))
    (inr (toProto status)) (fun _ => inl OtherRpcError).

Lemma GetHeaderByNumber_ok (b : BC) n h :
  chain_ok b -> 0 <= n < 2 ^ 56 -> GetHeaderByNumber (bc_db b) n = Ok (Some h) ->
  h_Number h = n /\ header_wf h /\ ComputeHash h = h.
Proof.
  intros Hok Hn H. unfold GetHeaderByNumber in H. destruct (ReadCanonicalHash (bc_db b) n) as [[hash|]|] eqn:Ec; [|done|done].
  cbn [mbind result_bind option_bind] in H. destruct (ck_canonical b Hok n hash Hn Ec) as (h' & Hs & Hr & En & Eh & Hw).
  rewrite Hr in H. injection H as <-. split; [done|]. split; [done|]. apply self_hash.
  unfold ReadHeader in Hr. destruct (db_Head (bc_db b) !! hash) as [v|]; [|by destruct Hs].
  unfold Header_UnmarshalRLP, UnmarshalRlp in Hr. destruct (Parse v) as [x|]; [|done].
  by apply Header_decoded_sized in Hr as [_ ?].
Qed.

Lemma Header_MarshalRLPTo_nonempty h : Header_MarshalRLPTo h <> [].
Proof.
  intros E. unfold Header_MarshalRLPTo, Header_MarshalRLPWith in E.
  match type of E with MarshalTo (NewArray (?v :: ?l)) = _ =>
    pose proof (MarshalTo_elem (v :: l) v ltac:(by apply elem_of_cons; left)) as H end.
  rewrite E in H. simpl in H. lia.
Qed.

(** Asked for one of its headers, an honest peer gives it. *)
Lemma getHeader_honest (b : BC) status n h :
  chain_ok b -> 1 <= n < 2 ^ 56 -> GetHeaderByNumber (bc_db b) n = Ok (Some h) ->
  getHeader (honest b status) (Some n) None = inr (Some h).
Proof.
  intros Hok Hn H. destruct (GetHeaderByNumber_ok b n h Hok ltac:(lia) H) as (_ & Hw & Hself).
  unfold getHeader, honest, GetHeaders. cbn [clt_GetHeaders gr_Number gr_Hash gr_Skip gr_Amount].
  assert (Ei : i64 n = n).
  { unfold i64, two64. rewrite Z.mod_small by lia. by rewrite (proj2 (Z.ltb_lt _ _)) by lia. }
  rewrite Ei. rewrite (proj2 (Z.eqb_neq n 0)) by lia. cbn [negb isEmpty andb sh_GetHeaderByNumber chainShim].
  rewrite u64_small by (unfold is_u64, two64; lia). rewrite H.
  cbn [mbind result_bind headersLoop answer map]. change (Z.to_nat _) with 0%nat. cbn [headersLoop answer map component].
  destruct (Header_MarshalRLPTo h) as [|x v] eqn:Em; [by apply Header_MarshalRLPTo_nonempty in Em|].
  change (match Header_UnmarshalRLP (x :: v) with None => inl ErrDecode | Some h => inr (Some h) end = @inr sync_error _ (Some h)).
  by rewrite <- Em, Header_roundtrip, Hself.
Qed.

(** Every block up to the head is there, and each is the child of the one before. *)
Definition complete (b : BC) (top : Z) : Prop :=
  forall n, 0 <= n <= top -> exists h, GetHeaderByNumber (bc_db b) n = Ok (Some h).
Definition linked (b : BC) (top : Z) : Prop :=
  forall n h h', 0 <= n < top -> GetHeaderByNumber (bc_db b) n = Ok (Some h) -> GetHeaderByNumber (bc_db b) (n + 1) = Ok (Some h') ->
  h_ParentHash h' = h_Hash h.

Definition headerAt (b : BC) (n : Z) : Header :=
  match GetHeaderByNumber (bc_db b) n with Ok (Some h) => h | _ => emptyHeader end.
Lemma headerAt_complete (b : BC) top n :
  complete b top -> 0 <= n <= top -> GetHeaderByNumber (bc_db b) n = Ok (Some (headerAt b n)).
Proof. intros Hc Hn. destruct (Hc n Hn) as [h E]. unfold headerAt. by rewrite E. Qed.

(** C9: the search for the common ancestor with an honest peer that is ahead ends with the
    highest common block and the first block the peer has beyond it. Both chains have
    every block up to their heads, linked by parent hashes, no two of their headers of
    one number share a hash, and their heads are below 2^52. The one exception: when the
    highest common block is the first one, the search may return the genesis. *)
Theorem findCommonAncestor_correct (b b' : BC) (hd hd' : Header) (status : Status) :
  chain_ok b -> chain_ok b' -> bc_currentHeader b = Some hd -> bc_currentHeader b' = Some hd' ->
  complete b (h_Number hd) -> complete b' (h_Number hd') -> linked b (h_Number hd) -> linked b' (h_Number hd') ->
  (forall n, 0 <= n <= h_Number hd -> h_Hash (headerAt b n) = h_Hash (headerAt b' n) -> headerAt b n = headerAt b' n) ->
  h_Number hd < st_Number status <= h_Number hd' -> h_Number hd' < 2 ^ 52 ->
  exists r ancestor fork,
    findCommonAncestor b (honest b' status) status = Ok (inr (ancestor, fork)) /\ 0 <= r <= h_Number hd /\
    GetHeaderByNumber (bc_db b) r = Ok (Some ancestor) /\ GetHeaderByNumber (bc_db b') (r + 1) = Ok (Some fork) /\
    (1 <= r -> GetHeaderByNumber (bc_db b') r = Ok (Some ancestor)) /\
    forall n, r < n <= h_Number hd -> GetHeaderByNumber (bc_db b) n = GetHeaderByNumber (bc_db b') n -> r = 0 /\ n = 1.
Proof.
  intros Hok Hok' Ehd Ehd' Hc Hc' Hl Hl' Hinj Hst Hb.
  assert (Htop : 0 <= h_Number hd).
  { destruct (ck_current b Hok) as (h & E & _ & _ & _ & _ & Hr & _). rewrite Ehd in E. injection E as <-. lia. }
  assert (Hm : forall n, 0 <= n <= h_Number hd -> sh_GetHeaderByNumber b n = Ok (Some (headerAt b n))).
  { intros n Hn. by apply (headerAt_complete b (h_Number hd)). }
  assert (Ht0 : forall n, 0 <= n <= h_Number hd' -> GetHeaderByNumber (bc_db b') n = Ok (Some (headerAt b' n))).
  { intros n Hn. by apply (headerAt_complete b' (h_Number hd')). }
  assert (Ht : forall n, 1 <= n <= h_Number hd' -> getHeader (honest b' status) (Some n) None = inr (Some (headerAt b' n))).
  { intros n Hn. apply getHeader_honest; [done|lia|]. apply Ht0. lia. }
  destruct (ancestorLoop_spec b (honest b' status) (headerAt b) (headerAt b') (h_Number hd) ltac:(lia) Hm
    ltac:(intros; apply Ht; lia)) with (rounds := S (S (Z.to_nat (h_Number hd)))) (min := 0) (max := h_Number hd)
    (header := @None Header) as (r & h & E & (Hr & Hag & Hmax) & Hf).
  - intros n Hn Ha. apply Hinj in Ha; [|lia]. unfold agree.
    rewrite <- (Hl n (headerAt b n) (headerAt b (n + 1))) by (lia || (apply Hm; lia)).
    rewrite <- (Hl' n (headerAt b' n) (headerAt b' (n + 1))) by (lia || (apply Ht0; lia)). by rewrite Ha.
  - split; [lia|]. split; [lia|]. split; [intros n Hn; lia|by left].
  - done.
  - lia.
  - assert (Eh : h = headerAt b r).
    { destruct Hf as [[-> ->]|[H1 ->]]; [done|]. symmetry. apply Hinj; [lia|apply Hag, H1]. }
    destruct (GetHeaderByNumber_ok b r h Hok ltac:(lia) ltac:(rewrite Eh; apply Hm; lia)) as (En & _ & _).
    exists r, h, (headerAt b' (r + 1)). split; [|split; [done|split; [rewrite Eh; apply Hm; lia|split; [apply Ht0; lia|split]]]].
    + unfold findCommonAncestor. cbn [sh_Header chainShim]. rewrite Ehd.
      rewrite (proj2 (Z.ltb_ge _ _)) by lia. rewrite E. cbn [mbind result_bind]. rewrite En.
      rewrite u64_small by (unfold is_u64, two64; lia). by rewrite Ht by lia.
    + intros H1. rewrite Eh. rewrite (Hinj r) by (lia || by apply Hag). apply Ht0. lia.
    + intros n Hn Heq. apply Hmax; [lia|]. unfold agree.
      change (sh_GetHeaderByNumber b n = GetHeaderByNumber (bc_db b') n) in Heq.
      rewrite Hm, Ht0 in Heq by lia. injection Heq as E'. by rewrite E'.
Qed.
(** ** Requests that end a node *)

(** C35: two requests end a node that serves them: for the header of a number of at least
    2^56, whose key does not fit its buffer, and for the body of a hash that has none, for
    which a nil body is encoded. *)
Theorem requests_panic (b : BC) :
  (forall n skip amount, 2 ^ 56 <= n < 2 ^ 63 -> GetHeaders b (mkGetHeadersRequest n [] skip amount) = Panic) /\
  (forall hash, is_hash hash -> ReadBody (bc_db b) hash = None ->
   GetObjectsByHash b (mkHashRequest [Hash_String hash] BODIES) = Panic).
Proof.
  split.
  - intros n skip amount Hn. unfold GetHeaders. cbn [gr_Number gr_Hash]. rewrite (proj2 (Z.eqb_neq n 0)) by lia.
    cbn [negb isEmpty andb sh_GetHeaderByNumber chainShim]. unfold GetHeaderByNumber, ReadCanonicalHash.
    rewrite u64_small by (unfold is_u64, two64; lia). by rewrite EncodeVarint_panic by lia.
  - intros hash Hh Hb. unfold GetObjectsByHash, DecodeHashes. cbn [hr_Hash hr_Type mapM].
    unfold Hash_UnmarshalText. fold (StringToHash (Hash_String hash)). rewrite StringToHash_String by done.
    cbn [mbind option_bind mret option_ret objectsLoop objectOf sh_GetBodyByHash chainShim]. unfold GetBodyByHash. by rewrite Hb.
Qed.

(** ** The status of a node *)

(** An event of a written block carries no difficulty. *)
Lemma WriteBlock_event flags block b b' i :
  WriteBlock config runtimes PostHook prePortland portland detroit flags block b = (Ok None, b') ->
  bc_currentHeader b' <> bc_currentHeader b -> bc_stream b !! i = Some None ->
  exists s, GetEvent i (bc_stream b') = Some (AddNewHeader (ComputeHash (b_Header block)) emptyEvent, s) /\
    bc_currentHeader b' = Some (ComputeHash (b_Header block)).
Proof.
  intros H Hne Hi. apply WriteBlock_inv in H as [[-> _]|(c & d & s & _ & _ & _ & H)]; [done|].
  destruct H as [(e & ? & _)|(_ & br & kn & kd & a & _ & _ & _ & _ & ->)]; [done|].
  eexists. split; [|done]. unfold GetEvent. cbn [bc_stream set_average appended set_bcState set_db]. unfold push.
  by rewrite list_lookup_fmap, Hi.
Qed.

(** C37: a node that has written a block cannot be added as a peer any more. The event of
    the block carries no difficulty, the status taken from it is sent with the text of a
    nil pointer, and the node that asks for it cannot decode it. *)
Theorem status_undecodable flags (block : Block) (s : Syncer BC) (old : Status) (b' : BC) (i : nat) (id : PeerID)
    (other : Syncer BC) (clt : V1Client) :
  s_status s = Some old ->
  WriteBlock config runtimes PostHook prePortland portland detroit flags block (s_blockchain s) = (Ok None, b') ->
  bc_currentHeader b' <> bc_currentHeader (s_blockchain s) -> bc_stream (s_blockchain s) !! i = Some None ->
  st_Number old < h_Number (b_Header block) ->
  s_peers other !! id = None ->
  exists e stream s' st,
    GetEvent i (bc_stream b') = Some (e, stream) /\ handleEvent e (set_chain b' s) = (Ok true, s') /\
    GetCurrent s' = (Ok st, s') /\
    (clt_GetCurrent clt = inr st -> AddPeer id (Some clt) other = (Ok (Some ErrDecodeDifficulty), other)).
Proof.
  intros Hst Hw Hne Hi Hlt Hid. destruct (WriteBlock_event _ _ _ _ i Hw Hne Hi) as (stream & He & _).
  set (h := ComputeHash (b_Header block)) in *.
  eexists _, stream, (set_status (Some (mkStatus None (h_Hash h) (h_Number h))) (set_chain b' s)), _.
  split; [exact He|]. split; [|split].
  - change (handleEvent _) with (@updateStatus BC (mkStatus None (h_Hash h) (h_Number h));; mret true).
    unfold updateStatus. erewrite bind_ok; [|erewrite bind_ok by done; erewrite bind_ok by (unfold deref; cbn; by rewrite Hst); done].
    unfold newerStatus. cbn [st_Number st_Hash].
    rewrite (proj2 (Z.ltb_ge (h_Number h) _)) by (change (h_Number h) with (h_Number (b_Header block)); lia).
    rewrite (proj2 (Z.eqb_neq (h_Number h) _)) by (change (h_Number h) with (h_Number (b_Header block)); lia). done.
  - done.
  - intros Hc. unfold AddPeer. erewrite bind_ok by done. rewrite Hid, Hc. done.
Qed.
End nodes.
