(* ===== verification/SyncerSafety.v ===== *)
(** The syncer as a state machine: whatever peers send and however the handlers and the
    loops overlap, no announced block is left behind in the queue. *)

From S2P Require Import Prelude Types Chain Runtime Crypto Text Rlp TxTypes BlockTypes BlockCorrect Genesis Signer.
From S2P Require Import StateTxn Bridge Upgrader Executor Trie RawDB TrieState PriorityQueue Blockchain BlockchainCorrect.
From S2P Require Import Syncer SyncerCorrect.

(** ** The best peer *)

Lemma bestOf_spec peers : forall best number,
  (forall p, best = Some p -> SyncPeer_Number p = number) ->
  let '(best', number') := bestOf best number peers in
  number <= number' /\ (forall p, p ∈ peers -> SyncPeer_Number p <= number') /\
  ((best' = best /\ number' = number) \/ exists p, best' = Some p /\ p ∈ peers /\ SyncPeer_Number p = number').
Proof.
  induction peers as [|sp peers IH]; intros best number Hb; simpl.
  { split; [lia|]. split; [by intros p []%elem_of_nil|by left]. }
  destruct (Z.ltb_spec number (SyncPeer_Number sp)) as [Hlt|Hge].
  - specialize (IH (Some sp) (SyncPeer_Number sp) ltac:(by intros p [= <-])).
    destruct (bestOf _ _ peers) as [best' number']. destruct IH as (H1 & H2 & H3). split; [lia|]. split.
    + intros p [->|Hp]%elem_of_cons; [lia|by apply H2].
    + right. destruct H3 as [[-> ->]|(p & -> & Hp & E)]; [exists sp|exists p]; split; [done| |done|].
      * split; [by apply elem_of_cons; left|done].
      * split; [by apply elem_of_cons; right|done].
  - specialize (IH best number Hb). destruct (bestOf _ _ peers) as [best' number']. destruct IH as (H1 & H2 & H3).
    split; [done|]. split.
    + intros p [->|Hp]%elem_of_cons; [lia|by apply H2].
    + destruct H3 as [?|(p & -> & Hp & E)]; [by left|]. right. exists p. split; [done|]. split; [by apply elem_of_cons; right|done].
Qed.

(** The best peer is one of the highest, above the head; there is none only if no peer is
    above the head. *)
Lemma BestPeer_spec range header :
  0 <= h_Number header ->
  match BestPeer range header with
  | Some p => p ∈ range /\ h_Number header < SyncPeer_Number p /\ forall q, q ∈ range -> SyncPeer_Number q <= SyncPeer_Number p
  | None => forall q, q ∈ range -> SyncPeer_Number q <= h_Number header
  end.
Proof.
  intros Hh. unfold BestPeer. pose proof (bestOf_spec range None 0 ltac:(done)) as H.
  destruct (bestOf None 0 range) as [best number]. destruct H as (H0 & H1 & H2).
  destruct (Z.leb_spec number (h_Number header)) as [Hle|Hlt].
  - intros q Hq. apply H1 in Hq. lia.
  - destruct H2 as [[-> ->]|(p & -> & Hp & E)]; [lia|]. split; [done|]. split; [lia|]. intros q Hq. apply H1 in Hq. lia.
Qed.

(** ** Steps *)

Section safety.
Context {T : Type -> Type} {Snap : Type}.
Context `{IR : !Iradix T, KK : !Keccak, RL : !FastRlp, ST : !State Snap, BA : !BridgeABI, EC : !Btcec}.
Context `{UC : !Unicode, VA : !ValidatorSetABI, LR : !Lru}.
#[local] Abbreviation W := (transition T Snap).
#[local] Abbreviation BC := (Blockchain Snap).
Context (config : Chain) (runtimes : (Z -> Hash) -> list (RuntimeT W)) (PostHook : option (W -> W)).
Context (prePortland portland detroit : Network -> option Upgrade).
#[local] Instance shim : blockchainShim BC := chainShim config runtimes PostHook prePortland portland detroit.
#[local] Abbreviation step := (bc_step config runtimes PostHook prePortland portland detroit).

(** Any call of a peer, of the network and of the chain, and the turns of the two loops,
    in any order. The first steps are calls that run alone. The others are the parts of
    calls that overlap: nothing is locked while [WriteBlock] runs, so that the chain
    changes in any way ([step_chain]) between the start of a write and its return, with any
    answer ([step_watchReturn], [step_workReturn]); [Notify] compares a block with a head that may
    have moved since, puts it into the queue, and sends the signal later ([step_enqueuePut],
    [step_enqueueSend]); [WatchSync] gets a signal, and calls [Get] later ([step_watchReceive],
    [step_watchGet]); [SyncWork] looks for the ancestor while the chain and the peers change, and
    may find any ([step_startFetch]); [AddPeer] and [Start] store what they read before
    ([step_peers], [step_status]). The chain always has a head. *)
Inductive sync_step : Syncer BC -> Syncer BC -> Prop :=
| step_Start s s' : Start s = (Ok tt, s') -> sync_step s s'
| step_Notify id req r s s' : Notify id req s = (Ok r, s') -> sync_step s s'
| step_event e r s s' : handleEvent e s = (Ok r, s') -> sync_step s s'
| step_Broadcast block r s s' : Broadcast block s = (Ok r, s') -> sync_step s s'
| step_AddPeer id stream r s s' : AddPeer id stream s = (Ok r, s') -> sync_step s s'
| step_DeletePeer id s s' : DeletePeer id s = (Ok tt, s') -> sync_step s s'
| step_watchSignal s s' : watchSignal s = (Ok tt, s') -> sync_step s s'
| step_watchWrite flags s s' : watchWrite flags s = (Ok tt, s') -> sync_step s s'
| step_workSearch range s s' :
    range ≡ₚ (map_to_list (s_peers s)).*2 -> workSearch range s = (Ok tt, s') -> sync_step s s'
| step_workFetch rsp s s' : workFetch rsp s = (Ok tt, s') -> sync_step s s'
| step_workWrite flags s s' : workWrite flags s = (Ok tt, s') -> sync_step s s'
| step_chain b' s : is_Some (bc_currentHeader b') -> sync_step s (set_chain b' s)
| step_peers p s : sync_step s (set_peers p s)
| step_status st s : sync_step s (set_status st s)
| step_startFetch p ancestor s s' :
    s_worker s = WorkSearch -> startFetch p ancestor s = (Ok tt, s') -> sync_step s s'
| step_enqueuePut b s s' : enqueuePut b s = (Ok tt, s') -> sync_step s s'
| step_enqueueSend s s' : enqueueSend s = (Ok tt, s') -> sync_step s s'
| step_watchReceive s s' : watchReceive s = (Ok tt, s') -> sync_step s s'
| step_watchGet s s' : watchGet s = (Ok tt, s') -> sync_step s s'
| step_watchReturn err s s' : watchReturn err s = (Ok tt, s') -> sync_step s s'
| step_workReturn err s s' : workReturn err s = (Ok tt, s') -> sync_step s s'.

(** The signals that the queued blocks can count on: sent, still to be sent by a call that
    has put its block, or received by [WatchSync] and not used yet. *)
Definition signals (sent sending : nat) (w : watcher) : nat :=
  sent + sending + match w with WatchGetting => 1 | _ => 0 end.

(** The queue and its reader: the queue is a heap of distinct numbers, in which a reader
    waits only while it is empty ([pq_ok]); the reader inside [Get] waits alone, for one
    block; and there is a signal for every queued block. *)
Record queue_ok (q : PriorityQueue) (sent sending : nat) (w : watcher) : Prop := {
  qo_ok : pq_ok q;
  qo_open : pq_disposed q = false;
  qo_waiters : pq_waiters q = match w with WatchBlocked => [1%nat] | _ => [] end;
  qo_signals : (length (pq_items q) <= signals sent sending w)%nat;
}.

Definition sync_ok (s : Syncer BC) : Prop :=
  is_Some (bc_currentHeader (s_blockchain s)) /\ queue_ok (s_enqueue s) (s_enqueueCh s) (s_sending s) (s_watcher s).

Lemma queue_ok_enqueue q n k w b :
  queue_ok q n k w ->
  exists out q' w', Put [b] q = Some (inr out, q') /\ delivered out w = Ok w' /\ queue_ok q' n (S k) w' /\
    (w <> WatchBlocked -> w' = w).
Proof.
  intros [Hok Hop Hw Hs]. destruct (Put_run [b] q Hok Hop ltac:(done)) as (out & q' & E & Hok' & Hop' & [P1 P2 P3 P4 P5 P6 P7]).
  assert (Hf : (length (PriorityQueue.fresh (numbers (pq_items q)) [b]) <= 1)%nat) by (simpl; destruct (decide _); simpl; lia).
  pose proof (Permutation_length P1) as Hl. rewrite !length_app in Hl. unfold signals in Hs.
  destruct out as [|items out].
  - exists [], q', w. split; [done|]. split; [done|]. split; [|done].
    split; [done|done| |unfold signals; cbn [concat length] in Hl; lia]. simpl in P5. by rewrite P5.
  - apply Forall_cons_iff in P2 as [Hne _]. destruct items as [|x items]; [done|].
    rewrite Hw in P6, P5. destruct w; try (by inversion P6). cbn [take] in P6.
    inversion P6 as [|? ? ? ? Hlen P6']; subst. destruct out; [|by inversion P6'].
    eexists _, q', (WatchWriting x). split; [done|]. split; [done|]. split; [|done].
    split; [done|done|by rewrite P5|]. unfold signals. cbn [concat app length] in Hl. lia.
Qed.

(** [Get] waits on an empty queue and takes the block with the lowest number of another. *)
Lemma queue_ok_get q n k :
  queue_ok q n k WatchGetting ->
  exists q', (pq_items q = [] /\ Get 1 q = Some (Waits, q') /\ queue_ok q' n k WatchBlocked) \/
    exists b, pq_items q ≡ₚ b :: pq_items q' /\ lowest [b] (pq_items q') /\
      Get 1 q = Some (Got [b], q') /\ queue_ok q' n k (WatchWriting b).
Proof.
  intros [Hok Hop Hw Hs]. unfold signals in Hs. destruct (pq_items q) as [|x items] eqn:Ei.
  - assert (Hg : Get 1 q = Some (Waits, mkPriorityQueue [1%nat] [] (pq_itemMap q) false false (pq_allowDuplicates q))).
    { unfold Get, with_lock. cbn. rewrite (ok_lock _ Hok), Hop, Ei, Hw. done. }
    eexists. left. split; [done|]. split; [exact Hg|]. split; [by apply (pq_step_ok q); [eapply step_Get|]|done|done|simpl; lia].
  - destruct (Get_run 1 q Hok Hop ltac:(lia) ltac:(by rewrite Ei)) as (got & q' & E & (Hok' & Hw' & Hop') & Hp & Hl & Hlow & _).
    rewrite Ei in Hl, Hp. simpl in Hl. destruct got as [|b [|? ?]]; simpl in Hl; try lia.
    exists q'. right. exists b. split; [done|]. split; [done|]. split; [done|].
    pose proof (Permutation_length Hp) as Hlen. simpl in Hlen.
    split; [done|done|by rewrite Hw', Hw|unfold signals; simpl in Hs; lia].
Qed.

(** *** The calls one by one *)

(** The invariant holds, and a stopped watcher is stopped. *)
Definition kept (s s' : Syncer BC) : Prop :=
  sync_ok s' /\ (s_watcher s = WatchStopped -> s_watcher s' = WatchStopped).

Lemma kept_refl s : sync_ok s -> kept s s.
Proof. by split. Qed.

Lemma kept_trans s s1 s2 : kept s s1 -> kept s1 s2 -> kept s s2.
Proof. intros (_ & W1) (Hs & W2). split; [done|auto]. Qed.

(** Calls that leave the queue alone. *)
Lemma kept_queue s s' :
  sync_ok s -> is_Some (bc_currentHeader (s_blockchain s')) -> s_enqueue s' = s_enqueue s -> s_enqueueCh s' = s_enqueueCh s ->
  s_sending s' = s_sending s -> s_watcher s' = s_watcher s -> kept s s'.
Proof. intros [_ Hq] Hh E1 E2 E3 E4. split; [split|]; by rewrite ?E1, ?E2, ?E3, ?E4. Qed.

Lemma kept_same s s' :
  sync_ok s -> s_blockchain s' = s_blockchain s -> s_enqueue s' = s_enqueue s -> s_enqueueCh s' = s_enqueueCh s ->
  s_sending s' = s_sending s -> s_watcher s' = s_watcher s -> kept s s'.
Proof. intros Hs E. intros. apply kept_queue; try done. rewrite E. apply Hs. Qed.

(** The queue, its reader or the signals change. *)
Lemma kept_signals s s' :
  sync_ok s -> s_blockchain s' = s_blockchain s -> queue_ok (s_enqueue s') (s_enqueueCh s') (s_sending s') (s_watcher s') ->
  (s_watcher s = WatchStopped -> s_watcher s' = WatchStopped) -> kept s s'.
Proof. intros [Hh _] E Hq Hw. split; [split; [by rewrite E|done]|done]. Qed.

Lemma enqueuePut_ok b (s : Syncer BC) :
  sync_ok s -> exists s', enqueuePut b s = (Ok tt, s') /\ kept s s' /\ s_sending s' = S (s_sending s).
Proof.
  intros Hs. unfold enqueuePut. erewrite bind_ok by done.
  destruct (queue_ok_enqueue _ _ _ _ b (proj2 Hs)) as (out & q' & w' & -> & Ed & Hq' & Hw). rewrite Ed, lift_ok.
  eexists. split; [done|]. split; [|done]. apply kept_signals; [done..|]. intros Es. cbn. rewrite Hw; by rewrite Es.
Qed.

Lemma enqueueSend_ok (s : Syncer BC) :
  sync_ok s -> exists s', enqueueSend s = (Ok tt, s') /\ kept s s'.
Proof.
  intros Hs. unfold enqueueSend. erewrite bind_ok by done. pose proof (proj2 Hs) as [Q1 Q2 Q3 Q4].
  destruct (s_sending s) as [|n] eqn:En; [exists s; split; [done|by apply kept_refl]|].
  eexists. split; [done|]. apply kept_signals; [done..| |done]. split; [done..|]. unfold signals in *. cbn. lia.
Qed.

Lemma enqueueBlock_ok b (s : Syncer BC) :
  sync_ok s -> exists s', enqueueBlock b s = (Ok tt, s') /\ kept s s'.
Proof.
  intros Hs. destruct (proj1 Hs) as [h Eh]. unfold enqueueBlock. erewrite bind_ok by done.
  erewrite bind_ok by (unfold deref; change (sh_Header (s_blockchain s)) with (bc_currentHeader (s_blockchain s)); by rewrite Eh).
  destruct (_ <=? _); [exists s; split; [done|by apply kept_refl]|].
  destruct (enqueuePut_ok b s Hs) as (s1 & E1 & H1 & _). erewrite bind_ok by exact E1.
  destruct (enqueueSend_ok s1 (proj1 H1)) as (s2 & E2 & H2). exists s2. split; [done|by apply (kept_trans _ s1)].
Qed.

Lemma Notify_ok id req (s : Syncer BC) :
  sync_ok s -> exists r s', Notify id req s = (Ok r, s') /\ kept s s'.
Proof.
  intros Hs. pose proof (kept_refl s Hs) as Hrefl. unfold Notify.
  destruct (nr_Raw req) as [[|x raw]|]; [by exists (Some errNilRawRequest), s| |by exists (Some errNilRawRequest), s].
  destruct (nr_Status req) as [st|]; [|by exists (Some errNilStatusRequest), s].
  destruct id as [id|]; [|by exists None, s]. destruct (Block_UnmarshalRLP (x :: raw)) as [b|]; [|by exists (Some ErrDecode), s].
  destruct (statusFromProto st) as [e|status]; [by exists (Some e), s|].
  assert (Hu : exists s1, updatePeerStatus id status s = (Ok tt, s1) /\ kept s s1).
  { unfold updatePeerStatus. erewrite bind_ok by done. destruct (s_peers s !! id); by eexists. }
  destruct Hu as (s1 & E1 & H1). erewrite bind_ok by exact E1. erewrite bind_ok by done.
  destruct (negb (s_stxRecv s1)); [by exists None, s1|].
  destruct (enqueueBlock_ok b s1 (proj1 H1)) as (s2 & E2 & H2). erewrite bind_ok by exact E2.
  exists None, s2. split; [done|]. by apply (kept_trans _ s1).
Qed.

Lemma watchReceive_ok (s : Syncer BC) :
  sync_ok s -> exists s', watchReceive s = (Ok tt, s') /\ kept s s' /\ pq_items (s_enqueue s') = pq_items (s_enqueue s) /\
    s_blockchain s' = s_blockchain s /\ (s_watcher s = WatchIdle -> s_enqueueCh s <> 0%nat -> s_watcher s' = WatchGetting).
Proof.
  intros Hs. pose proof (kept_refl s Hs) as Hrefl. unfold watchReceive. erewrite bind_ok by done.
  pose proof (proj2 Hs) as [Q1 Q2 Q3 Q4].
  destruct (s_watcher s) eqn:Ew; try (by exists s). destruct (s_enqueueCh s) as [|n] eqn:En; [by exists s|].
  eexists. split; [done|]. split; [|done]. apply kept_signals; [done..| |by rewrite Ew].
  split; [done..|]. unfold signals in *. cbn. lia.
Qed.

Lemma watchGet_ok (s : Syncer BC) :
  sync_ok s -> exists s', watchGet s = (Ok tt, s') /\ kept s s' /\
    (s_watcher s = WatchGetting -> pq_items (s_enqueue s) <> [] ->
     exists b, s_watcher s' = WatchWriting b /\ s_blockchain s' = s_blockchain s /\
       pq_items (s_enqueue s) ≡ₚ b :: pq_items (s_enqueue s') /\ lowest [b] (pq_items (s_enqueue s'))).
Proof.
  intros Hs. unfold watchGet. erewrite bind_ok by done. pose proof (proj2 Hs) as Hq.
  destruct (s_watcher s) eqn:Ew; try (by exists s).
  destruct (queue_ok_get _ _ _ Hq) as (q' & [(Hi & -> & Hq')|(b & Hp & Hl & -> & Hq')]).
  - eexists. split; [done|]. split; [|done]. by apply kept_signals; [..|rewrite Ew].
  - eexists. split; [reflexivity|]. split; [by apply kept_signals; [..|rewrite Ew]|]. intros _ _. by exists b.
Qed.

(** A turn of [WatchSync]: with a signal and a queued block, the lowest one is next. *)
Lemma watchSignal_ok (s : Syncer BC) :
  sync_ok s -> exists s', watchSignal s = (Ok tt, s') /\ kept s s' /\
    (s_watcher s = WatchIdle -> s_enqueueCh s <> 0%nat -> pq_items (s_enqueue s) <> [] ->
     exists b, s_watcher s' = WatchWriting b /\ s_blockchain s' = s_blockchain s /\
       pq_items (s_enqueue s) ≡ₚ b :: pq_items (s_enqueue s') /\ lowest [b] (pq_items (s_enqueue s'))).
Proof.
  intros Hs. destruct (watchReceive_ok s Hs) as (s1 & E1 & H1 & Ei & Ec & Hg).
  destruct (watchGet_ok s1 (proj1 H1)) as (s2 & E2 & H2 & Hb). exists s2. unfold watchSignal. erewrite bind_ok by exact E1.
  split; [done|]. split; [by apply (kept_trans _ s1)|]. intros Hw Hn Hi. rewrite Ei in Hb.
  destruct (Hb (Hg Hw Hn) Hi) as (b & ? & Eb & ?). exists b. by rewrite Eb, Ec.
Qed.

Lemma watchReturn_kept err s s' : sync_ok s -> watchReturn err s = (Ok tt, s') -> kept s s'.
Proof.
  intros Hs H. unfold watchReturn in H. apply bind_inv in H as (? & ? & [= <- <-] & H). pose proof (proj2 Hs) as [Q1 Q2 Q3 Q4].
  destruct (s_watcher s) eqn:Ew; injection H as <-; try by apply kept_refl.
  apply kept_signals; [done..| |by rewrite Ew]. split; [done|done|by destruct err|]. unfold signals in *. cbn. destruct err; cbn in *; lia.
Qed.

Lemma workReturn_kept err s s' : sync_ok s -> workReturn err s = (Ok tt, s') -> kept s s'.
Proof.
  intros Hs H. unfold workReturn in H. apply bind_inv in H as (? & ? & [= <- <-] & H).
  destruct (s_worker s) as [| |p t h c [|b l]|]; injection H as <-; by apply kept_same.
Qed.

(** *** Calls on the chain *)

Lemma on_chain_inv {A} (m : GoM BC A) (s : Syncer BC) a s' :
  on_chain m s = (Ok a, s') -> exists b', m (s_blockchain s) = (Ok a, b') /\ s' = set_chain b' s.
Proof. unfold on_chain. destruct (m (s_blockchain s)) as [r b'] eqn:E. intros [= -> <-]. by exists b'. Qed.

Lemma on_chain_kept {A} (m : GoM BC A) s a s' :
  (forall b a b', m b = (Ok a, b') -> is_Some (bc_currentHeader b) -> is_Some (bc_currentHeader b')) ->
  sync_ok s -> on_chain m s = (Ok a, s') -> kept s s'.
Proof. intros Hm Hs H. apply on_chain_inv in H as (b' & E & ->). apply kept_queue; try done. eapply Hm; [done|apply Hs]. Qed.

Lemma GetTD_kept hash r s s' : sync_ok s -> on_chain (sh_GetTD hash) s = (Ok r, s') -> kept s s'.
Proof.
  apply on_chain_kept. clear. intros b a b' H [h Eh]. exists h. rewrite <- Eh. change (bc_currentHeader b' = bc_currentHeader b).
  by apply GetTD_Header in H.
Qed.

Lemma WriteBlock_kept flags block r s s' : sync_ok s -> on_chain (sh_WriteBlock flags block) s = (Ok r, s') -> kept s s'.
Proof.
  apply on_chain_kept. clear. intros b a b' H Hh. change (is_Some (bc_currentHeader b')).
  apply WriteBlock_inv in H as [[-> _]|(c & d & x & Ec & _ & _ & [(e & _ & ->)|(_ & br & kn & kd & v & _ & _ & _ & _ & ->)])];
    [done|by exists c|by eexists].
Qed.

Lemma Start_kept s s' : sync_ok s -> Start s = (Ok tt, s') -> kept s s'.
Proof.
  intros Hs H. unfold Start in H. apply bind_inv in H as (? & ? & [= <- <-] & H).
  apply bind_inv in H as (h & s1 & Hd & H). unfold deref in Hd. destruct (sh_Header _); [|done]. injection Hd as _ <-.
  apply bind_inv in H as (diff & s1 & Ht & H). apply GetTD_kept in Ht as Hk; [|done].
  apply bind_inv in H as (? & ? & [= <- <-] & H). injection H as <-. apply (kept_trans _ s1); [done|]. by apply kept_same; [apply Hk|..].
Qed.

Lemma updateStatus_kept status s s' : sync_ok s -> updateStatus status s = (Ok tt, s') -> kept s s'.
Proof.
  intros Hs H. unfold updateStatus in H. apply bind_inv in H as (? & ? & [= <- <-] & H).
  apply bind_inv in H as (h & s1 & Hd & H). unfold deref in Hd. destruct (s_status s); [|done]. injection Hd as _ <-.
  injection H as <-. by apply kept_same.
Qed.

Lemma handleEvent_kept e r s s' : sync_ok s -> handleEvent e s = (Ok r, s') -> kept s s'.
Proof.
  intros Hs H. unfold handleEvent in H. destruct (ev_Type e), (ev_NewChain e) as [|h l];
    try (injection H as _ <-; by apply kept_same); apply bind_inv in H as ([] & s1 & H1 & H2); injection H2 as _ <-;
    by eapply updateStatus_kept.
Qed.

Lemma AddPeer_kept id stream r s s' : sync_ok s -> AddPeer id stream s = (Ok r, s') -> kept s s'.
Proof.
  intros Hs H. unfold AddPeer in H. apply bind_inv in H as (? & ? & [= <- <-] & H).
  destruct (s_peers s !! id); [injection H as _ <-; by apply kept_same|].
  destruct stream as [clt|]; [|injection H as _ <-; by apply kept_same].
  destruct (clt_GetCurrent clt) as [e|raw]; [injection H as _ <-; by apply kept_same|].
  destruct (statusFromProto raw); [injection H as _ <-; by apply kept_same|].
  apply bind_inv in H as ([] & s1 & H1 & H). injection H1 as <-. injection H as _ <-. by apply kept_same.
Qed.

Lemma watchWrite_kept flags s s' : sync_ok s -> watchWrite flags s = (Ok tt, s') -> kept s s'.
Proof.
  intros Hs H. unfold watchWrite in H. apply bind_inv in H as (? & ? & [= <- <-] & H).
  destruct (s_watcher s); try (injection H as <-; by apply kept_refl).
  apply bind_inv in H as (err & s1 & H1 & H). apply WriteBlock_kept in H1; [|done].
  apply (kept_trans _ s1); [done|]. eapply watchReturn_kept; [apply H1|done].
Qed.

Lemma workWrite_kept flags s s' : sync_ok s -> workWrite flags s = (Ok tt, s') -> kept s s'.
Proof.
  intros Hs H. unfold workWrite in H. apply bind_inv in H as (? & ? & [= <- <-] & H).
  destruct (s_worker s) as [|p t h a|p t h c [|block todo]|]; try (injection H as <-; by apply kept_same).
  apply bind_inv in H as (err & s1 & H1 & H). apply WriteBlock_kept in H1; [|done].
  apply (kept_trans _ s1); [done|]. eapply workReturn_kept; [apply H1|done].
Qed.

Lemma startFetch_kept p ancestor s s' : sync_ok s -> startFetch p ancestor s = (Ok tt, s') -> kept s s'.
Proof.
  intros Hs H. unfold startFetch in H. apply bind_inv in H as ([] & s1 & H1 & H).
  assert (Hk : kept s s1).
  { destruct (_ <? _); [|injection H1 as <-; by apply kept_same]. injection H1 as <-. by apply kept_same. }
  destruct (_ <=? _); [by injection H as <-|].
  apply bind_inv in H as (? & ? & [= <- <-] & H). injection H as <-.
  apply (kept_trans _ s1); [done|]. by apply kept_same; [apply Hk|..].
Qed.

Lemma workSearch_kept range s s' : sync_ok s -> workSearch range s = (Ok tt, s') -> kept s s'.
Proof.
  intros Hs H. unfold workSearch in H. apply bind_inv in H as (? & ? & [= <- <-] & H).
  destruct (s_worker s); try (injection H as <-; by apply kept_same).
  apply bind_inv in H as (h & s1 & Hd & H). unfold deref in Hd. destruct (sh_Header _); [|done]. injection Hd as _ <-.
  destruct (BestPeer range h) as [p|]; [|injection H as <-; by apply kept_same].
  apply bind_inv in H as (r & s1 & Hl & H). injection Hl as _ <-.
  destruct r as [e|[ancestor fork]]; [injection H as <-; by apply kept_same|]. by eapply startFetch_kept.
Qed.

Lemma workFetch_kept rsp s s' : sync_ok s -> workFetch rsp s = (Ok tt, s') -> kept s s'.
Proof.
  intros Hs H. unfold workFetch in H. apply bind_inv in H as (? & ? & [= <- <-] & H).
  destruct (s_worker s); try (injection H as <-; by apply kept_same).
  destruct (decodeBlocks rsp) as [e|blocks]; [|injection H as <-; by apply kept_same].
  destruct e as [| | | | | | | | | | | | | | | | |[]]; injection H as <-; by apply kept_same.
Qed.

#[local] Hint Resolve Start_kept handleEvent_kept AddPeer_kept watchWrite_kept workSearch_kept workFetch_kept
  workWrite_kept startFetch_kept watchReturn_kept workReturn_kept : sync.

(** A call that always returns and keeps the invariant. *)
Lemma kept_run {A} (m : GoM (Syncer BC) A) (P : Prop) s a r s1 s' :
  m s = (Ok r, s1) /\ kept s s1 /\ P -> m s = (Ok a, s') -> kept s s'.
Proof. intros (E & Hk & _) H. rewrite H in E. by injection E as -> ->. Qed.

Lemma sync_step_kept s s' : sync_step s s' -> sync_ok s -> kept s s'.
Proof.
  intros Hst Hs. destruct Hst as [s s' H|id req r s s' H|e r s s' H|block r s s' H|id stream r s s' H|id s s' H|s s' H
    |flags s s' H|range s s' _ H|rsp s s' H|flags s s' H|b' s Hh|p s|st s|p ancestor s s' _ H|b s s' H|s s' H|s s' H|s s' H
    |err s s' H|err s s' H]; eauto with sync.
  - destruct (Notify_ok id req s Hs) as (r' & s1 & E & Hs1). rewrite H in E. by injection E as -> ->.
  - unfold Broadcast in H. apply bind_inv in H as (td & s1 & Ht & H). injection H as _ <-. by eapply GetTD_kept.
  - unfold DeletePeer in H. apply bind_inv in H as (? & ? & [= <- <-] & H). injection H as <-. by apply kept_same.
  - destruct (watchSignal_ok s Hs) as (s1 & H1). by apply (kept_run _ _ _ _ _ _ _ H1 H).
  - by apply kept_queue.
  - by apply kept_same.
  - by apply kept_same.
  - destruct (enqueuePut_ok b s Hs) as (s1 & H1). by apply (kept_run _ _ _ _ _ _ _ H1 H).
  - destruct (enqueueSend_ok s Hs) as (s1 & E & Hs1). rewrite H in E. by injection E as ->.
  - destruct (watchReceive_ok s Hs) as (s1 & H1). by apply (kept_run _ _ _ _ _ _ _ H1 H).
  - destruct (watchGet_ok s Hs) as (s1 & H1). by apply (kept_run _ _ _ _ _ _ _ H1 H).
Qed.

(** ** The properties *)

Lemma sync_steps_kept s s' : rtc sync_step s s' -> sync_ok s -> kept s s'.
Proof.
  induction 1 as [s|s s1 s2 Hst _ IH]; intros Hs; [by apply kept_refl|].
  pose proof (sync_step_kept _ _ Hst Hs) as H1. by apply (kept_trans _ s1), IH, H1.
Qed.

Lemma NewSyncer_ok (b : BC) : is_Some (bc_currentHeader b) -> sync_ok (NewSyncer b).
Proof. intros Hc. split; [done|]. split; cbn; [by apply pq_ok_empty|done|done|lia]. Qed.

(** C4: no announced block is left behind. From a start with a head, whatever peers
    announce and answer, in every interleaving of the handlers and of the two loops, the
    parts of a call included, and with any change of the chain while a block is written:
    the queue is a heap of distinct numbers, the loop that reads it waits inside [Get] only
    while it is empty, and every queued block has a signal that is sent or will be; an
    announcement is handled without a panic, and so is a signal; and when the loop waits
    for a signal, no announcement is being handled and a block is queued, there is a signal
    and the next turn takes the block with the lowest number. *)
Theorem syncer_invariant (b : BC) (s : Syncer BC) :
  is_Some (bc_currentHeader b) -> rtc sync_step (NewSyncer b) s ->
  queue_ok (s_enqueue s) (s_enqueueCh s) (s_sending s) (s_watcher s) /\
  (forall id req, exists r s', Notify id req s = (Ok r, s')) /\
  exists s', watchSignal s = (Ok tt, s') /\
    (s_watcher s = WatchIdle -> s_sending s = 0%nat -> pq_items (s_enqueue s) <> [] ->
     exists block, s_watcher s' = WatchWriting block /\
       pq_items (s_enqueue s) ≡ₚ block :: pq_items (s_enqueue s') /\
       forall later, later ∈ pq_items (s_enqueue s') -> Block_Number block <= Block_Number later).
Proof.
  intros Hc Hst. destruct (sync_steps_kept _ _ Hst (NewSyncer_ok b Hc)) as (Hs & _). split; [apply Hs|]. split.
  - intros id req. destruct (Notify_ok id req s Hs) as (r & s' & E & _). by exists r, s'.
  - destruct (watchSignal_ok s Hs) as (s' & E & _ & Hb). exists s'. split; [done|]. intros Hw Hn Hi.
    destruct (Hb Hw) as (block & Hb1 & _ & Hb2 & Hb3); [|done|].
    + pose proof (qo_signals _ _ _ _ (proj2 Hs)) as Hl. unfold signals in Hl. rewrite Hw, Hn in Hl.
      destruct (pq_items (s_enqueue s)); [done|simpl in Hl; lia].
    + exists block. split; [done|]. split; [done|]. intros later Hin. apply (Hb3 block later); [by apply elem_of_cons; left|done].
Qed.

(** An announced block that is new is queued. *)
Lemma enqueueBlock_queues b (s : Syncer BC) h :
  sync_ok s -> s_watcher s <> WatchBlocked -> sh_Header (s_blockchain s) = Some h -> h_Number h < Block_Number b ->
  Block_Number b ∉ numbers (pq_items (s_enqueue s)) ->
  exists q', enqueueBlock b s = (Ok tt, set_signals (S (s_enqueueCh s)) (s_sending s) (set_queue q' (s_watcher s) s)) /\
    pq_items q' ≡ₚ b :: pq_items (s_enqueue s).
Proof.
  intros [_ [Q1 Q2 Q3 Q4]] Hw Eh Hlt Hnew.
  destruct (Put_run [b] (s_enqueue s) Q1 Q2 ltac:(done)) as (out & q' & E & _ & _ & [P1 _ _ _ _ P6 _]).
  assert (out = []) as ->.
  { rewrite Q3 in P6. destruct (s_watcher s); try done; rewrite take_nil in P6; by inversion P6. }
  exists q'. split.
  - unfold enqueueBlock. erewrite bind_ok by done. erewrite bind_ok by (unfold deref; by rewrite Eh).
    rewrite (proj2 (Z.leb_gt _ _)) by done.
    assert (Ep : enqueuePut b s = (Ok tt, set_signals (s_enqueueCh s) (S (s_sending s)) (set_queue q' (s_watcher s) s))).
    { unfold enqueuePut. erewrite bind_ok by done. rewrite E. cbn [delivered]. by rewrite lift_ok. }
    by erewrite bind_ok by exact Ep.
  - cbn [concat app PriorityQueue.fresh] in P1. rewrite decide_False in P1 by done. by rewrite <- P1, Permutation_app_comm.
Qed.

Lemma Notify_queues id raw st b status (s : Syncer BC) h :
  sync_ok s -> s_stxRecv s = true -> s_watcher s <> WatchBlocked -> raw <> [] ->
  Block_UnmarshalRLP raw = Some b -> statusFromProto st = inr status ->
  sh_Header (s_blockchain s) = Some h -> h_Number h < Block_Number b ->
  Block_Number b ∉ numbers (pq_items (s_enqueue s)) ->
  exists s', Notify (Some id) (mkNotifyReq (Some st) (Some raw)) s = (Ok None, s') /\
    pq_items (s_enqueue s') ≡ₚ b :: pq_items (s_enqueue s) /\ s_enqueueCh s' = S (s_enqueueCh s) /\
    s_watcher s' = s_watcher s /\ s_blockchain s' = s_blockchain s /\ sync_ok s'.
Proof.
  intros Hs Hr Hw Hne Hb Hst Eh Hlt Hnew.
  destruct (Notify_ok (Some id) (mkNotifyReq (Some st) (Some raw)) s Hs) as (r & s' & E & Hs' & _).
  pose proof E as Er. unfold Notify in Er. cbn [nr_Raw nr_Status] in Er. destruct raw as [|x raw]; [done|]. rewrite Hb, Hst in Er.
  assert (Hu : exists s1, updatePeerStatus id status s = (Ok tt, s1) /\ kept s s1 /\ s_enqueue s1 = s_enqueue s /\
    s_enqueueCh s1 = s_enqueueCh s /\ s_watcher s1 = s_watcher s /\ s_blockchain s1 = s_blockchain s /\ s_stxRecv s1 = true).
  { unfold updatePeerStatus. erewrite bind_ok by done. destruct (s_peers s !! id); eexists; (split; [done|]); (split; [by apply kept_same|done]). }
  destruct Hu as (s1 & E1 & [Hs1 _] & K1 & K2 & K3 & K4 & K5). erewrite bind_ok in Er by exact E1.
  erewrite bind_ok in Er by done. rewrite K5 in Er. cbn [negb] in Er.
  destruct (enqueueBlock_queues b s1 h) as (q' & Een & Hp); rewrite ?K1, ?K3, ?K4; try done.
  erewrite bind_ok in Er by exact Een. injection Er as <- <-. exists (set_signals (S (s_enqueueCh s1)) (s_sending s1) (set_queue q' (s_watcher s1) s1)).
  rewrite K1 in Hp. split; [done|]. split; [done|]. split; [cbn; by rewrite K2|]. by split.
Qed.

(** C19: a block that one node broadcasts is queued by another that follows the chain: the
    receiver decodes the message, its queue gets the block, with the hash of its header
    and without the senders of the transactions, which are not sent, and [WatchSync] gets
    a signal. *)
Theorem Broadcast_Notify `{RF : !RlpFormat} (block : Block) (s1 s1' : Syncer BC) (req : NotifyReq) (id : PeerID)
    (s2 : Syncer BC) (h : Header) :
  block_wf block -> Broadcast block s1 = (Ok (Some req), s1') ->
  sync_ok s2 -> s_stxRecv s2 = true -> s_watcher s2 <> WatchBlocked ->
  bc_currentHeader (s_blockchain s2) = Some h -> h_Number h < Block_Number block ->
  Block_Number block ∉ numbers (pq_items (s_enqueue s2)) ->
  exists s2', Notify (Some id) req s2 = (Ok None, s2') /\
    pq_items (s_enqueue s2') ≡ₚ
      mkBlock (ComputeHash (b_Header block)) (map (set_From ZeroAddress) (b_Transactions block))
        (map ComputeHash (b_Uncles block)) :: pq_items (s_enqueue s2) /\
    s_enqueueCh s2' = S (s_enqueueCh s2).
Proof.
  intros Hb Hbr Hs Hr Hw Eh Hlt Hnew. unfold Broadcast in Hbr. apply bind_inv in Hbr as (td & s & _ & H).
  destruct td as [td|]; [|done]. injection H as <- _.
  assert (Hdec : Block_UnmarshalRLP (Block_MarshalRLP block) =
    Some (mkBlock (ComputeHash (b_Header block)) (map (set_From ZeroAddress) (b_Transactions block)) (map ComputeHash (b_Uncles block)))).
  { unfold Block_UnmarshalRLP, UnmarshalRlp, Block_MarshalRLP. rewrite Parse_MarshalTo. by apply Block_decode. }
  assert (Hne : Block_MarshalRLP block <> []).
  { intros E. unfold Block_MarshalRLP, Block_MarshalRLPWith in E.
    match type of E with MarshalTo (NewArray (?v :: ?l)) = _ =>
      pose proof (MarshalTo_elem (v :: l) v ltac:(by apply elem_of_cons; left)) as H end. rewrite E in H. simpl in H. lia. }
  edestruct (Notify_queues id (Block_MarshalRLP block)) as (s2' & E & H1 & H2 & _); try done; [|by eexists].
  unfold statusFromProto. cbn [vs_Difficulty]. by rewrite SetString_Text by lia.
Qed.

(** C36: one bad block stops [WatchSync] for good. A peer announces a block above the head
    that the chain refuses; the loop takes it, gets the error and returns, and nothing
    the syncer does later makes it run again. *)
Theorem announced_block_stops_watch id raw st b status flags e b' (s : Syncer BC) h :
  sync_ok s -> s_stxRecv s = true -> s_watcher s = WatchIdle -> pq_items (s_enqueue s) = [] -> s_enqueueCh s = 0%nat ->
  raw <> [] -> Block_UnmarshalRLP raw = Some b -> statusFromProto st = inr status ->
  bc_currentHeader (s_blockchain s) = Some h -> h_Number h < Block_Number b ->
  WriteBlock config runtimes PostHook prePortland portland detroit flags b (s_blockchain s) = (Ok (Some e), b') ->
  exists s1 s2 s3,
    Notify (Some id) (mkNotifyReq (Some st) (Some raw)) s = (Ok None, s1) /\ watchSignal s1 = (Ok tt, s2) /\
    watchWrite flags s2 = (Ok tt, s3) /\ forall s', rtc sync_step s3 s' -> s_watcher s' = WatchStopped.
Proof.
  intros Hs Hr Hw Hi Hn Hne Hb Hst Eh Hlt Hx.
  destruct (Notify_queues id raw st b status s h) as (s1 & E1 & Hp & En & Ew & Eb & Hs1); try done.
  { by rewrite Hw. } { by rewrite Hi; intros []%elem_of_nil. }
  rewrite Hi in Hp. apply Permutation_singleton_r in Hp.
  destruct (watchSignal_ok s1 Hs1) as (s2 & E2 & [Hs2 _] & Hb2).
  destruct Hb2 as (b1 & Ew2 & Eb2 & Hp2 & _); [by rewrite Ew|by rewrite En|by rewrite Hp|].
  rewrite Hp in Hp2. pose proof (Permutation_length Hp2) as Hl. destruct (pq_items (s_enqueue s2)); [|simpl in Hl; lia].
  apply Permutation_singleton_inj in Hp2 as <-.
  assert (Hwr : exists s3, watchWrite flags s2 = (Ok tt, s3) /\ s_watcher s3 = WatchStopped).
  { unfold watchWrite. erewrite bind_ok by done. rewrite Ew2.
    assert (Eo : on_chain (sh_WriteBlock flags b) s2 = (Ok (Some e), set_chain b' s2)).
    { unfold on_chain. rewrite Eb2, Eb. change (sh_WriteBlock flags b (s_blockchain s)) with
        (WriteBlock config runtimes PostHook prePortland portland detroit flags b (s_blockchain s)). by rewrite Hx. }
    erewrite bind_ok by exact Eo. unfold watchReturn. erewrite bind_ok by done. cbn [s_watcher set_chain]. rewrite Ew2. by eexists. }
  destruct Hwr as (s3 & E3 & Ew3). exists s1, s2, s3. split; [done|]. split; [done|]. split; [done|].
  intros s' Hrun. pose proof (watchWrite_kept _ _ _ Hs2 E3) as [Hs3 _]. by apply (sync_steps_kept _ _ Hrun Hs3).
Qed.
End safety.
