(* ===== verification/BlockchainWitness.v ===== *)
(** A concrete chain: a genesis block, a block with a transaction, and a block of the same
    header with other transactions. The properties of the chain are applied to it. *)

From S2P Require Import Prelude Types Chain Runtime Crypto Rlp Slice Instances TxTypes BlockTypes BlockCorrect.
From S2P Require Import Genesis Signer StateTxn TxnCorrect Bridge Upgrader Executor Trie TrieHash RawDB Buildroot.
From S2P Require Import TrieState StateCorrect Blockchain BlockchainCorrect.

Import (hints) Demo DemoState DemoBtcec DemoLru.

Module DemoBlocks.
(** A digest that tells the blocks apart. *)
Definition digest (b : bytes) : bytes :=
  replicate 28 0 ++ be_bytes 4 (fold_left Z.add b (Z.of_nat (length b))).

#[export, refine] Instance keccak : Keccak := { keccak256 := digest }.
Proof.
  intros b. unfold digest. split; [rewrite length_app, length_be_bytes; reflexivity|].
  apply Forall_app. split; [by apply Forall_replicate|apply be_bytes_is_byte].
Defined.

#[export] Instance abi : BridgeABI := {
  BridgeDepositedEventID := DemoState.hash 1;
  BridgeWithdrawnEventID := DemoState.hash 2;
  BridgeBurnedEventID := DemoState.hash 3;
  Deposited_ParseLog _ := None;
  Withdrawn_ParseLog _ := None;
  Burned_ParseLog _ := None;
}.
#[export] Instance unicode : Unicode := { SimpleFold r := r }.
#[export] Instance validatorSet : ValidatorSetABI := { depositMethodID := [0xD0; 0xE3; 0x0D; 0xB0]; slashMethodID := [] }.

(** A snapshot knows its root, and a commit has the root with the next last byte. The root
    of the empty state ends in 0x21. *)
#[export, refine] Instance state : State (gmap bytes bytes) := {
  NewSnapshotAt s root := Some (<[[] := root]> s);
  NewSnapshot := ∅;
  state_GetCode _ _ := ([], false);
  snap_Get t k := t !! k;
  snap_Commit _ t := Ok (t, [List.last (default [] (t !! [])) 0 + 1]);
}.
Proof. intros k. apply lookup_empty. Defined.

#[local] Abbreviation T := (gmap bytes).
Abbreviation Snap := (gmap bytes bytes).
Abbreviation BC := (Blockchain Snap).

Definition extra : bytes :=
  replicate 32 0 ++ MarshalTo (IstanbulExtra_MarshalRLPWith (mkIstanbulExtra [ZeroAddress] (replicate 65 1) [])).

Definition genesis : Genesis :=
  mkGenesis (replicate 8 0) 1000 extra 1000000 1 ZeroHash ZeroAddress None ZeroHash 0 0 ZeroHash.
Definition config : Chain := mkChain genesis (mkParams AllForksEnabled 2000 0).
Definition runtimes (getHash : Z -> Hash) : list (RuntimeT (transition T Snap)) := [].
Definition upgrades (_ : Network) : option Upgrade := None.
(** The root nodes of the first block and of its successor; then only the first one. *)
Definition nodes (_ : Snap) : Storage :=
  mkStorage {[DemoState.hash (0x21 + 1) := [1]; DemoState.hash (0x21 + 2) := [2]]} ∅.
Definition firstNode (_ : Snap) : Storage := mkStorage {[DemoState.hash (0x21 + 1) := [1]]} ∅.
Definition flags : Flags := mkFlags false false false (fun _ => false) (fun _ => false).

Abbreviation handle b := (HandleGenesis config nodes b).
Abbreviation write block b := (WriteBlock config runtimes None upgrades upgrades upgrades flags block b).
Definition runDemo (block : Block) (b : BC) :=
  executeBlockTransactions config runtimes None upgrades upgrades upgrades flags block b.

Definition start : BC := snd (handle (NewBlockchain emptyDB ∅ : BC)).

(** A transfer of nothing, signed before EIP-155. *)
Definition tx : Transaction :=
  mkTransaction 0 (Some 0) 50000 (Some (DemoState.addr 7)) (Some 0) [] (Some 28) (Some 1) (Some 1) ZeroAddress.

(** A transaction whose signature is not valid. *)
Definition badTx : Transaction :=
  mkTransaction 0 (Some 0) 50000 (Some (DemoState.addr 7)) (Some 0) [] (Some 28) (Some 0) (Some 1) ZeroAddress.

Definition header (txRoot receiptsRoot : Hash) (n : Z) (parent : Hash) : Header :=
  ComputeHash (mkHeader parent EmptyUncleHash ZeroAddress (DemoState.hash (0x21 + n)) txRoot receiptsRoot (replicate 256 0) n n 1000000
    21000 77 extra ZeroHash (replicate 8 0) ZeroHash).

Definition root (r : result Hash) : Hash := match r with Ok h => h | Panic => ZeroHash end.
Definition parent : Hash := Genesis_Hash genesis.

(** The receipts of a block with these transactions. *)
Definition receiptsOf (r : result (bc_error + BlockResult)) : list Receipt :=
  match r with Ok (inr br) => br_Receipts br | _ => [] end.
Definition receipts (txs : list Transaction) : list Receipt :=
  receiptsOf (fst (runDemo (mkBlock (header ZeroHash ZeroHash 1 parent) txs []) start)).

Definition good (txs : list Transaction) : Block :=
  mkBlock (header (root (CalculateTransactionsRoot txs)) (root (CalculateReceiptsRoot (receipts txs))) 1 parent) txs [].

Definition block : Block := Eval vm_compute in good [tx].
(** The same chain with an empty block, and its header with a transaction. *)
Definition emptyBlock : Block := Eval vm_compute in good [].
Definition badBlock : Block := mkBlock (b_Header emptyBlock) [badTx] [].

(** A block after the first one. *)
Definition block2 : Block :=
  Eval vm_compute in mkBlock (header EmptyRootHash EmptyRootHash 2 (h_Hash (b_Header block))) [] [].

(** The chain after a block, and after two. *)
Definition next : BC := snd (write block start).
Definition last : BC := snd (write block2 next).
(** The first block again, by a call that checked its number at the start. *)
Abbreviation resume block b := (writeNew config runtimes None upgrades upgrades upgrades flags block b).
Definition raced : BC := snd (resume block last).
(** The chain after the bad block, and after the right one. *)
Definition polluted : BC := snd (write badBlock start).
Definition stale : BC := snd (write emptyBlock polluted).

(** How a call ended. *)
Definition ok {A} (r : result (option A)) : bool := match r with Ok None => true | _ => false end.
Definition failed {A} (r : result (option A)) : bool := match r with Ok (Some _) => true | _ => false end.
End DemoBlocks.

Import DemoBlocks.

(** Facts by evaluation. *)
Ltac by_eval := vm_compute; repeat first [discriminate | constructor].

Lemma run_ok {S A} (m : result (option A) * S) : ok (fst m) = true -> m = (Ok None, snd m).
Proof. destruct m as [[[]|] s]; done. Qed.

Lemma run_failed {S A} (m : result (option A) * S) : failed (fst m) = true -> exists e, m = (Ok (Some e), snd m).
Proof. destruct m as [[[e|]|] s]; try done. by exists e. Qed.

Lemma genesis_wf' : header_wf (GenesisHeader (c_Genesis config)).
Proof. split; by_eval. Qed.
Lemma start_ok : handle (NewBlockchain emptyDB ∅ : BC) = (Ok None, start).
Proof. unfold start. apply run_ok. vm_compute. reflexivity. Qed.
Lemma tx_ok' : tx_wf tx.
Proof.
  split; try (by split); try (by eexists; split; [reflexivity|lia]).
  intros a [= <-]. by apply DemoState.addr_ok.
Qed.
Lemma badTx_ok : tx_wf badTx.
Proof.
  split; try (by split); try (by eexists; split; [reflexivity|lia]).
  intros a [= <-]. by apply DemoState.addr_ok.
Qed.
Lemma block_ok : block_wf block.
Proof. split; [split; by_eval|]. split; [constructor; [apply tx_ok'|constructor]|constructor]. Qed.
Lemma block2_ok : block_wf block2.
Proof. split; by_eval. Qed.
Lemma emptyBlock_ok : header_wf (b_Header emptyBlock).
Proof. split; by_eval. Qed.
Lemma write_ok' : write block start = (Ok None, next).
Proof. unfold next. apply run_ok. vm_compute. reflexivity. Qed.
Lemma write2_ok : write block2 next = (Ok None, last).
Proof. unfold last. apply run_ok. vm_compute. reflexivity. Qed.
Lemma resume_ok : resume block last = (Ok None, raced).
Proof. unfold raced. apply run_ok. vm_compute. reflexivity. Qed.
Lemma write_bad : exists e, write badBlock start = (Ok (Some e), polluted).
Proof. unfold polluted. apply run_failed. vm_compute. reflexivity. Qed.
Lemma write_stale : write emptyBlock polluted = (Ok None, stale).
Proof. unfold stale. apply run_ok. vm_compute. reflexivity. Qed.
Lemma distinct_tx t : distinctTxs [t].
Proof. intros t1 t2 H1%list_elem_of_singleton H2%list_elem_of_singleton _. by subst. Qed.

Lemma flags_on : fl_write flags = false.
Proof. reflexivity. Qed.
Lemma block_nonempty : b_Transactions block <> [].
Proof. discriminate. Qed.

(** The head of the first chain. *)
Definition genesisHeader : Header := Eval vm_compute in ComputeHash (GenesisHeader genesis).
Lemma start_head : bc_currentHeader start = Some genesisHeader.
Proof. vm_compute. reflexivity. Qed.
Lemma start_number : 0 <= h_Number genesisHeader < h_Number (b_Header block).
Proof. vm_compute. split; done. Qed.
Lemma block_self : h_Hash (b_Header block) = HeaderHash (b_Header block).
Proof. vm_compute. reflexivity. Qed.
Lemma emptyBlock_self : h_Hash (b_Header emptyBlock) = HeaderHash (b_Header emptyBlock).
Proof. vm_compute. reflexivity. Qed.
Lemma next_moved : bc_currentHeader next <> bc_currentHeader start.
Proof. vm_compute. discriminate. Qed.
Lemma next_head : bc_currentHeader next = Some (b_Header block).
Proof. vm_compute. reflexivity. Qed.
Lemma next_genesis : ReadCanonicalHash (bc_db next) 0 = Ok (Some (Genesis_Hash (c_Genesis config))).
Proof. vm_compute. reflexivity. Qed.
Lemma last_head : bc_currentHeader last = Some (b_Header block2).
Proof. vm_compute. reflexivity. Qed.
Lemma last_parent : GetHeaderByNumber (bc_db last) (h_Number (b_Header block2) - 1) = Ok (Some (b_Header block)).
Proof. vm_compute. reflexivity. Qed.
Lemma last_genesis : ReadCanonicalHash (bc_db last) 0 = Ok (Some (Genesis_Hash (c_Genesis config))).
Proof. vm_compute. reflexivity. Qed.

Lemma step_block : bc_step config runtimes None upgrades upgrades upgrades start next.
Proof.
  apply (step_WriteBlock _ _ _ _ _ _ flags block None); [apply block_ok| |apply write_ok']. vm_compute. reflexivity.
Qed.
Lemma step_block2 : bc_step config runtimes None upgrades upgrades upgrades next last.
Proof.
  apply (step_WriteBlock _ _ _ _ _ _ flags block2 None); [apply block2_ok| |apply write2_ok]. vm_compute. reflexivity.
Qed.

Opaque start next last raced polluted stale.

Lemma next_ok : chain_ok next.
Proof.
  exact (proj1 (chain_ok_step config runtimes None upgrades upgrades upgrades start next step_block
    (chain_ok_genesis config nodes ∅ start genesis_wf' start_ok))).
Qed.
Lemma last_ok : chain_ok last.
Proof. exact (proj1 (chain_ok_step config runtimes None upgrades upgrades upgrades next last step_block2 next_ok)). Qed.

(** Two calls of [WriteBlock] that overlap move the head back. Both see the genesis block
    and pass the check for block 1; one of them writes it, and block 2 is written; then the
    other one goes on, succeeds, and block 1 is the head again. *)
Theorem WriteBlock_race :
  headNumber start < h_Number (b_Header block) /\ write block start = (Ok None, next) /\ write block2 next = (Ok None, last) /\
  resume block last = (Ok None, raced) /\ headNumber raced < headNumber last.
Proof.
  split; [unfold headNumber; rewrite start_head; apply start_number|]. split; [exact write_ok'|]. split; [exact write2_ok|].
  split; [exact resume_ok|]. rewrite (writeNew_head _ _ _ _ _ _ _ _ _ _ resume_ok). unfold headNumber. by rewrite last_head.
Qed.

(** ** The properties on this chain *)

Lemma GetHashHelper_correct_witness :
  GetHashHelper (bc_db start) (b_Header block) 0 =
    if decide (0 < h_Number (b_Header block))
    then default ZeroHash (ancestor (Z.to_nat (h_Number (b_Header block) - 1 - 0)) (bc_db start) (h_ParentHash (b_Header block)))
    else ZeroHash.
Proof. apply (GetHashHelper_correct (bc_db start) (b_Header block) 0); vm_compute; split; done. Defined.

Lemma WriteBlock_checked_witness : headNumber start < headNumber next.
Proof.
  destruct (WriteBlock_checked config runtimes None upgrades upgrades upgrades flags block start None next write_ok')
    as [(_ & E & _)|(_ & _ & E & _)]; [|exact E]. by destruct next_moved.
Defined.

Lemma WriteBlock_read_witness :
  GetBlockByNumber (bc_db next) (h_Number (b_Header block)) true =
    Ok (Some (mkBlock (b_Header block) (map (set_From ZeroAddress) (b_Transactions block)) [])).
Proof.
  destruct (WriteBlock_read config runtimes None upgrades upgrades upgrades flags block start next genesisHeader write_ok'
    flags_on start_head start_number block_ok block_self (distinct_tx tx) (or_introl block_nonempty)) as [E _].
  exact E.
Defined.

Lemma chain_invariant_witness : chain_ok next /\ headNumber start <= headNumber next.
Proof.
  exact (chain_invariant config runtimes None upgrades upgrades upgrades nodes ∅ start next genesis_wf' start_ok
    (rtc_once _ _ step_block)).
Defined.

Lemma WriteBlock_stale_body_witness :
  GetBlockByNumber (bc_db stale) (h_Number (b_Header emptyBlock)) true =
    Ok (Some (mkBlock (b_Header emptyBlock) (map (set_From ZeroAddress) (b_Transactions badBlock)) [])).
Proof.
  destruct write_bad as [e E].
  exact (WriteBlock_stale_body config runtimes None upgrades upgrades upgrades flags flags badBlock emptyBlock start e
    polluted stale genesisHeader E flags_on write_stale flags_on start_head start_number eq_refl emptyBlock_ok
    emptyBlock_self eq_refl ltac:(discriminate) (distinct_tx badTx)
    ltac:(constructor; [apply badTx_ok|constructor])).
Defined.

Lemma restart_after_genesis_panics_witness : fst (handle (NewBlockchain (bc_db start) ∅ : BC)) = Panic.
Proof. exact (restart_after_genesis_panics config nodes ∅ ∅ start genesis_wf' eq_refl start_ok). Defined.

Lemma restart_keeps_head_witness :
  exists b' : BC, handle (NewBlockchain (bc_db next) ∅) = (Ok None, b') /\ bc_currentHeader b' = Some (b_Header block) /\ chain_ok b'.
Proof.
  apply (restart_keeps_head config nodes next ∅ (b_Header block) next_ok next_head);
    [vm_compute; reflexivity|by_eval|exists [1]; vm_compute; reflexivity|exact next_genesis].
Defined.

Lemma restart_ignores_check_witness :
  exists b' : BC, HandleGenesis config firstNode (NewBlockchain (bc_db last) ∅) = (Ok None, b') /\
    bc_currentHeader b' = Some (b_Header block2) /\ ReadHeadNumber (bc_db b') = Some (h_Number (b_Header block2) - 1).
Proof.
  apply (restart_ignores_check config firstNode last ∅ (b_Header block2) (b_Header block) last_ok last_head);
    [reflexivity|vm_compute; reflexivity|exact last_parent|reflexivity|exists [1]; vm_compute; reflexivity|exact last_genesis].
Defined.
