(* ===== verification/SyncerWitness.v ===== *)
(** The properties of the sync protocol on the concrete chain of [BlockchainWitness]. *)

From S2P Require Import Prelude Types Chain Runtime Crypto Text Rlp Slice Instances TxTypes BlockTypes BlockCorrect.
From S2P Require Import Genesis Signer StateTxn TxnCorrect Bridge Upgrader Executor Trie RawDB Buildroot.
From S2P Require Import TrieState StateCorrect PriorityQueue Blockchain BlockchainCorrect Syncer SyncerCorrect SyncerSafety.
From S2P Require Import BlockchainWitness.

Import (hints) Demo DemoState DemoBtcec DemoLru DemoBlocks.
Import DemoBlocks.

Module DemoSync.
#[export] Instance shim : blockchainShim BC := chainShim config runtimes None upgrades upgrades upgrades.

(** The status of a peer with the first block. *)
Definition status : Status := mkStatus (Some 77) (h_Hash (b_Header block)) 1.
Definition peer : V1Client := honest config runtimes None upgrades upgrades upgrades next status.

(** A chain with a subscriber, before and after the block. *)
Definition watched : BC := set_stream [None] start.
Definition watchedNext : BC := snd (write block watched).
Definition syncer : Syncer BC := set_status (Some (mkStatus (Some 1000) parent 0)) (NewSyncer watched).

(** A node that follows the chain. *)
Definition follower : Syncer BC := set_stxRecv true (NewSyncer start).

(** The bad block as it is announced and as it is decoded. *)
Definition raw : bytes := Eval vm_compute in Block_MarshalRLP badBlock.
Definition decoded : Block :=
  Eval vm_compute in mkBlock (ComputeHash (b_Header badBlock)) (map (set_From ZeroAddress) (b_Transactions badBlock)) [].
(** The block is in the queue, before and after its signal. *)
Definition putting : Syncer BC := snd (enqueuePut decoded (NewSyncer start)).
Definition queued : Syncer BC := snd (enqueueSend putting).
Definition rejected : BC := snd (write decoded start).
Definition announcement : V1Status := toProto status.

(** What a node with the block broadcasts. *)
Definition sent : result (option NotifyReq) := fst (Broadcast block (NewSyncer next)).
Definition request : NotifyReq := match sent with Ok (Some req) => req | _ => mkNotifyReq None None end.
Definition sender : Syncer BC := snd (Broadcast block (NewSyncer next)).
End DemoSync.
Import DemoSync.

Lemma start_chain_ok : chain_ok start.
Proof. exact (chain_ok_genesis config nodes ∅ start genesis_wf' start_ok). Qed.

Lemma complete_start : complete start 0.
Proof. intros n Hn. assert (n = 0) as -> by lia. exists genesisHeader. vm_compute. reflexivity. Qed.
Lemma complete_next : complete next 1.
Proof.
  intros n Hn. assert (n = 0 \/ n = 1) as [-> | ->] by lia; [exists genesisHeader|exists (b_Header block)]; vm_compute; reflexivity.
Qed.
Lemma linked_next : linked next 1.
Proof.
  intros n h h' Hn. assert (n = 0) as -> by lia.
  assert (E0 : GetHeaderByNumber (bc_db next) 0 = Ok (Some genesisHeader)) by (vm_compute; reflexivity).
  assert (E1 : GetHeaderByNumber (bc_db next) (0 + 1) = Ok (Some (b_Header block))) by (vm_compute; reflexivity).
  rewrite E0, E1. intros [= <-] [= <-]. vm_compute. reflexivity.
Qed.
Lemma same_genesis : headerAt start 0 = headerAt next 0.
Proof. vm_compute. reflexivity. Qed.

Lemma findCommonAncestor_correct_witness :
  exists r ancestor fork, findCommonAncestor start peer status = Ok (inr (ancestor, fork)) /\
    0 <= r <= h_Number genesisHeader /\ GetHeaderByNumber (bc_db start) r = Ok (Some ancestor).
Proof.
  destruct (findCommonAncestor_correct config runtimes None upgrades upgrades upgrades start next genesisHeader (b_Header block)
    status start_chain_ok next_ok start_head next_head complete_start complete_next) as (r & a & f & E & Hr & Ha & _).
  - intros n h h' Hn. change (h_Number genesisHeader) with 0 in Hn. lia.
  - exact linked_next.
  - intros n Hn _. change (h_Number genesisHeader) with 0 in Hn. assert (n = 0) as -> by lia. exact same_genesis.
  - change (0 < 1 <= 1). lia.
  - change (1 < 2 ^ 52). lia.
  - exists r, a, f. split; [exact E|]. split; [exact Hr|exact Ha].
Defined.

Lemma requests_panic_witness : GetHeaders start (mkGetHeadersRequest (2 ^ 60) [] 0 1) = Panic.
Proof.
  destruct (requests_panic config runtimes None upgrades upgrades upgrades start) as [H _]. apply H. lia.
Defined.

Lemma watched_ok : write block watched = (Ok None, watchedNext).
Proof. unfold watchedNext. apply run_ok. vm_compute. reflexivity. Qed.
Lemma watched_moved : bc_currentHeader watchedNext <> bc_currentHeader (s_blockchain syncer).
Proof. vm_compute. discriminate. Qed.

Lemma status_undecodable_witness :
  exists e stream s' st,
    GetEvent 0 (bc_stream watchedNext) = Some (e, stream) /\ handleEvent e (set_chain watchedNext syncer) = (Ok true, s') /\
    GetCurrent s' = (Ok st, s') /\
    (clt_GetCurrent peer = inr st -> AddPeer [1] (Some peer) (NewSyncer start) = (Ok (Some ErrDecodeDifficulty), NewSyncer start)).
Proof.
  apply (status_undecodable config runtimes None upgrades upgrades upgrades flags block syncer (mkStatus (Some 1000) parent 0)
    watchedNext 0 [1] (NewSyncer start) peer eq_refl watched_ok watched_moved eq_refl); [reflexivity|reflexivity].
Defined.

Lemma run_tt {S} (m : result unit * S) : match fst m with Ok _ => true | Panic => false end = true -> m = (Ok tt, snd m).
Proof. by destruct m as [[[]|] s]. Qed.

Lemma start_has_head : is_Some (bc_currentHeader start).
Proof. exists genesisHeader. exact start_head. Qed.

Lemma syncer_put : enqueuePut decoded (NewSyncer start) = (Ok tt, putting).
Proof. apply run_tt. vm_compute. reflexivity. Qed.
Lemma syncer_sent : enqueueSend putting = (Ok tt, queued).
Proof. apply run_tt. vm_compute. reflexivity. Qed.

Lemma syncer_invariant_witness :
  exists s' block, watchSignal queued = (Ok tt, s') /\ s_watcher s' = WatchWriting block /\
    pq_items (s_enqueue queued) ≡ₚ block :: pq_items (s_enqueue s').
Proof.
  destruct (syncer_invariant config runtimes None upgrades upgrades upgrades start queued start_has_head)
    as (_ & _ & s' & E & H).
  - apply rtc_l with putting; [eapply step_enqueuePut; exact syncer_put|]. apply rtc_once. apply step_enqueueSend. exact syncer_sent.
  - destruct H as (block & H1 & H2 & _); [vm_compute; reflexivity|vm_compute; reflexivity|vm_compute; discriminate|].
    exists s', block. split; [exact E|]. split; [exact H1|exact H2].
Defined.

Lemma follower_ok : sync_ok follower.
Proof. destruct (NewSyncer_ok start start_has_head) as [H1 H2]. by split. Qed.

Lemma run_some {S A} (m : result (option A) * S) (d : A) :
  match fst m with Ok (Some _) => true | _ => false end = true ->
  m = (Ok (Some (match fst m with Ok (Some a) => a | _ => d end)), snd m).
Proof. by destruct m as [[[a|]|] s]. Qed.

Lemma sent_ok : Broadcast block (NewSyncer next) = (Ok (Some request), sender).
Proof. unfold request, sender, sent. apply run_some. vm_compute. reflexivity. Qed.

Lemma Broadcast_Notify_witness :
  exists s', Notify (Some [1]) request follower = (Ok None, s') /\ s_enqueueCh s' = 1%nat.
Proof.
  destruct (Broadcast_Notify config runtimes None upgrades upgrades upgrades block (NewSyncer next) sender request [1] follower
    genesisHeader block_ok sent_ok follower_ok) as (s' & E & _ & H).
  - reflexivity.
  - discriminate.
  - exact start_head.
  - apply start_number.
  - intros []%elem_of_nil.
  - exists s'. split; [exact E|exact H].
Defined.

Lemma decoded_ok : Block_UnmarshalRLP raw = Some decoded.
Proof. vm_compute. reflexivity. Qed.
Lemma decoded_rejected : exists e, write decoded start = (Ok (Some e), rejected).
Proof. unfold rejected. apply run_failed. vm_compute. reflexivity. Qed.
Lemma announcement_ok : statusFromProto announcement = inr status.
Proof. vm_compute. reflexivity. Qed.

Lemma announced_block_stops_watch_witness :
  exists s1 s2 s3,
    Notify (Some [1]) (mkNotifyReq (Some announcement) (Some raw)) follower = (Ok None, s1) /\ watchSignal s1 = (Ok tt, s2) /\
    watchWrite flags s2 = (Ok tt, s3) /\
    forall s', rtc (sync_step config runtimes None upgrades upgrades upgrades) s3 s' -> s_watcher s' = WatchStopped.
Proof.
  destruct decoded_rejected as [e E].
  apply (announced_block_stops_watch config runtimes None upgrades upgrades upgrades [1] raw announcement decoded status flags e
    rejected follower genesisHeader follower_ok eq_refl eq_refl eq_refl eq_refl ltac:(discriminate) decoded_ok announcement_ok
    start_head ltac:(vm_compute; reflexivity) E).
Defined.
